(* ===== verification/_CoqProject ===== *)
-Q . S2P
Prelude.v
Config.v
Admission.v
Languages.v
Job.v
Metrics.v
Pipeline.v
Typing.v
Os.v
Cgroups.v
Seccomp.v
FsJail.v
Child.v
Reaper.v
Supervisor.v
SandboxExec.v
Pool.v
Api.v
Main.v
Broker.v
Consumer.v
Handlers.v
Monitoring.v
Buzzer.v
Cluster.v
Service.v
Delivery.v
Recovery.v
EndToEnd.v
Node.v
Evidence.v
