(* ===== verification/Prelude.v ===== *)
(** * Akiro: a verification development of the judge

    Akiro ([src/], a Rust program) is an online judge: it takes programs over HTTP,
    compiles and runs them in a sandbox against test cases, and reports a verdict.  It
    runs on one machine, or as gateways and worker nodes around a Redis stream.  This
    library models the whole path of a job - from the request that reaches the gateway
    to the system calls around the judged process and back to the client - and proves
    what each part of it promises.

    ** How the program works

    A gateway ([src/src/api/]) authenticates a request, validates the job and either
    runs it on the local worker pool ([src/src/orchestrator/pool.rs]) or appends it to a
    Redis stream ([src/src/api/result_bus.rs]) and waits for the result key, woken by a
    pub/sub bell.  Worker nodes ([src/src/queue/redis.rs]) fetch entries, submit them to
    their pool, store the result, clear the pending marker and acknowledge the entry; a
    sweep reclaims entries of dead nodes.  A pool worker runs the execution pipeline
    ([src/src/orchestrator/pipeline.rs]): write the source, compile it with the runner of
    its language ([src/src/languages/]), run the test cases concurrently, judge and
    aggregate them.  Each execution is one call of [Sandbox::execute]
    ([src/src/sandbox/]): an admission permit for its memory, a cgroup, a fork; the child
    confines itself and execs; the supervisor waits for the exit that the global reaper
    delivers, or kills the process tree at the deadline.

    ** The files

    Shared:
    - [Prelude]: Rust's [Result], machine integers, transition systems (invariants and
      progress over reachable states), bytes, strings, decimal numbers, UTF-8.
    - [Os]: the operating system as an arbitrary function from the history of calls to
      the next reply; the monad of sandbox code; [ensures] and [performs], the
      judgements on the calls such code makes whatever the kernel replies.

    The sandbox ([src/src/sandbox/]):
    - [Config] ([config.rs], [result.rs]), [Admission] ([admission.rs]: settings, memory
      units, the gate as a transition system over an interface for tokio's semaphore),
      [Cgroups] ([cgroups.rs]), [Seccomp] ([seccomp.rs]), [FsJail] ([fs.rs]), [Child]
      ([child.rs]: everything between [fork] and [execve]), [Reaper] ([reaper.rs]: the
      registry of children and its shared slots as one store), [Supervisor]
      ([supervisor.rs]: the supervision loop, the classification of exits, the pipe
      reader), [SandboxExec] ([mod.rs], [Sandbox::execute] composed of the others).

    The judge ([src/src/orchestrator/], [src/src/languages/], [src/src/metrics.rs]):
    - [Languages] (the language table and the eighteen runners, dispatched through the
      class of promises [RunnerOk]), [Job] ([job.rs]), [Metrics], [Pipeline]
      ([pipeline.rs], for every completion order of the concurrent test cases), [Typing]
      (the pipeline's figures at their machine widths, and its totals), [Pool] ([pool.rs]: submissions
      and workers as one transition system).

    The service ([src/src/api/], [src/src/queue/], [src/src/main.rs]):
    - [Api] ([api/mod.rs]: secret, authentication, CORS, routes), [Broker] (the enqueue,
      lookup and report pipelines over an arbitrary Redis), [Consumer] (one pass of the
      fetch loop and of the reclaim sweep), [Handlers] and [Monitoring] ([handlers.rs],
      [websocket.rs] and [ResultBus::wait_for]), [Buzzer] (the registry of waiters, its
      drop guard, the pub/sub listener), [Main] (startup, its order, and what ends the
      process).

    The whole:
    - [Cluster]: gateways and worker nodes around one Redis as one transition system, a
      step being one command that Redis executes or refuses.  [Service]: the abstract job service
      it implements.  [Delivery]: what is delivered and what may be lost.  [Recovery]:
      that everything queued can be finished.  [EndToEnd]: the cluster with the pool and
      the pipeline behind it.  [Node]: one worker node, its pool and its memory.
      [Evidence]: the whole with [Sandbox::execute] behind it, down to the kernel.

    ** What the theorems show

    - End to end: an [Accepted] result that a client reads is backed by executions that
      were confined, limited, ended with exit code 0 and printed the expected output
      ([Evidence.accepted_ran]); the cluster refines the job service
      ([Service.cluster_implements_service]); a queued job stays in the stream until its
      result is stored, or Redis refuses to store it ([Delivery.queued_is_delivered]), and
      can be brought to a result otherwise ([Recovery.queue_settles]); a stored result
      wakes its waiters ([Buzzer.no_missed_bell]); the synchronous endpoint runs a job locally only if it
      was not told that it is queued or in flight ([Handlers.submit_once]).
    - Judging: verdicts, reports and configurations of a job ([Pipeline]), independent of
      the scheduling of its test cases; validation ([Job]); totals ([Typing]).
    - Confinement, for every kernel: the child ([Child.exec_only_confined]), the jail,
      the filter, the cgroup and a whole execution ([SandboxExec.execute_confined]) fail
      closed.
    - Resources: the executions of a node stay within its memory budget
      ([Node.node_memory_bounded]), admission is free of deadlock ([Admission]),
      supervision ends and kills ([Supervisor]), exits reach their supervisor
      ([Reaper]), nodes respect their capacity ([Cluster.node_capacity]), the pool's
      counters are exact and its queue progresses ([Pool]).
    - Access: authentication and startup fail closed ([Api.auth_gate],
      [Main.startup_fail_closed]).
    - Flaws, as theorems about the code as it is: a finished result can be lost
      ([Delivery.finished_result_lost]), a result that Redis has no memory for is lost
      although its entry is acknowledged ([Delivery.refused_result_lost]), a job queued before the first worker is skipped
      ([Delivery.early_job_skipped]), a long job is reclaimed while it runs
      ([Handlers.reclaim_window_short]), the waiter registry leaks
      ([Buzzer.registry_never_shrinks]), an all-in-one node ignores shutdown signals
      ([Main.shutdown_by_mode]), a large output times out
      ([SandboxExec.large_output_times_out]), and others named in their files.

    ** Parameters and interfaces

    Code that is not under [src/] is never defined here.  The kernel ([Os.Kernel]) and
    Redis, seen from one connection ([Broker.Redis]), are arbitrary functions from the
    history: nothing is assumed about them.  The cluster needs a Redis with a meaning:
    the class [Cluster.RedisServer] lists what can be observed, [Cluster.RedisLaws] what
    the documentation of each command says it does when it is executed, and [demo_server]
    is an instance.  That Redis answers a command with an error instead - a [SET] once
    [maxmemory] is reached - is a step of the cluster.  Classes of the same kind stand for
    tokio's semaphore ([Admission]), the [libc] wait-status macros
    ([Supervisor.WaitStatus], with Linux as an instance), what a loaded filter does
    ([Seccomp.FilterSemantics]), serde ([Cluster.Codec],
    [EndToEnd.ResultCodec]) and the worker pool as its clients see it
    ([Cluster.PoolAnswers], discharged by the pipeline in [EndToEnd] and by the pool
    with the pipeline in it in [Node]).  axum's path matching and header values, the
    platform ([libc::SYS_*] and the architecture) and generated identifiers are arguments.

    ** Bounds and fuel

    The model is that of the release profile of [Cargo.toml]: integers are [Z] with its
    wrap-around or saturation written out ([wrap64], [saturating_mul], ...), and a panic
    aborts the process ([Main]; the panicking worker of [Pool] is what a build that
    unwinds adds).  [Supervisor.supervise_loop] takes fuel:
    [pass_bound], one pass per 5 ms of the wall limit plus the grace period, is enough
    ([supervise_ends]), and the theorems on completed executions hold for every fuel.
    [show_Z] uses enough digits for its argument ([parse_show_u64]).  The retry loops
    carry the program's own bounds: eleven attempts to fork and to connect, twelve to
    report a result.  Endless loops are step relations, or one pass of the loop as a
    computation; runs are [rtc], so nothing is truncated.

    ** What is not modelled, and why

    - The benchmark harness ([src/benches/]), the unit tests inside the sources, scripts,
      images and documentation: not part of the judge.  [lib.rs] and the [mod.rs] files
      without code are re-exports.
    - Logging, tracing setup and the allocator: no effect on the modelled state.
    - JSON and Redis wire formats, HTTP parsing, the WebSocket upgrade: library code.
    - Real time: clocks are inputs (what a pass of the supervisor reads, when a timeout
      fires) with their monotonicity as a hypothesis where a theorem needs it.
    - The removal of the temporary directory when a pipeline ends, and the text of parse
      errors that the program discards.
    - A Redis that forgets: the embedded one persists nothing, so a restart of it empties
      the stream and all keys at once.  Keys expire and entries are trimmed in [Cluster],
      but the consumer group is never destroyed.
    - The race of the child's [execve] with its attachment to the cgroup: parent and
      child are separate histories, joined in [Evidence] by the configuration they share.

    The order in which the library grew - pipeline and admission, sandbox, pool and
    gateway, Redis, cluster, end to end - is the order of [_CoqProject].  What is left to
    do: a refinement of the worker pool to a queue specification, the waiters of [Buzzer]
    composed with the cluster, and fairness (from what can happen to what does) in the
    liveness theorems. *)

From Stdlib Require Export Ascii String ZArith Lia.
From stdpp Require Export base gmap strings list numbers sorting.

(* ------------------------------------------------------------------ *)
(** ** Fallible computations *)

(** Rust's [Result]: the error type comes first so that [result E] is the
    functor stdpp's monadic notations work on. *)
Inductive result (E A : Type) : Type :=
  | Ok (a : A)
  | Err (e : E).
Arguments Ok {E A} a.
Arguments Err {E A} e.

#[export] Instance result_ret (E : Type) : MRet (result E) := fun A a => Ok a.
#[export] Instance result_bind (E : Type) : MBind (result E) :=
  fun A B k m => match m with Ok a => k a | Err e => Err e end.
#[export] Instance result_fmap (E : Type) : FMap (result E) :=
  fun A B f m => match m with Ok a => Ok (f a) | Err e => Err e end.

Definition map_err {E F A : Type} (f : E -> F) (m : result E A) : result F A :=
  match m with Ok a => Ok a | Err e => Err (f e) end.

Definition ok_or {E A : Type} (e : E) (o : option A) : result E A :=
  match o with Some a => Ok a | None => Err e end.

Definition ok {E A : Type} (m : result E A) : option A :=
  match m with Ok a => Some a | Err _ => None end.

#[export] Instance result_eq_dec `{EqDecision E, EqDecision A} :
  EqDecision (result E A).
Proof. solve_decision. Defined.

(* ------------------------------------------------------------------ *)
(** ** Machine integers

    The release profile sets [overflow-checks = false], so plain [+] and [*]
    on [u64]/[usize] wrap; [saturating_*] clamps.  Values are [Z]. *)

#[export] Set Default Goal Selector "!".
Open Scope Z_scope.

Definition u64_max : Z := 2 ^ 64 - 1.
Definition u32_max : Z := 2 ^ 32 - 1.
Definition wrap64 (z : Z) : Z := z mod 2 ^ 64.
Definition wrap32 (z : Z) : Z := z mod 2 ^ 32.
Definition u64 (z : Z) : Prop := 0 <= z <= u64_max.
Definition add64 (a b : Z) : Z := wrap64 (a + b).
Definition mul64 (a b : Z) : Z := wrap64 (a * b).
Definition saturating_add (a b : Z) : Z := Z.min u64_max (a + b).
Definition saturating_mul (a b : Z) : Z := Z.min u64_max (a * b).
Definition saturating_sub (a b : Z) : Z := Z.max 0 (a - b).

(** [z as i32]: the low 32 bits read as a signed integer. *)
Definition as_i32 (z : Z) : Z :=
  let w := wrap32 z in if w <? 2 ^ 31 then w else w - 2 ^ 32.

(** [z as u64] of a signed 64-bit value. *)
Definition as_u64 (z : Z) : Z := wrap64 z.

Lemma wrap64_small z : u64 z -> wrap64 z = z.
Proof. unfold u64, wrap64, u64_max. intros ?. apply Z.mod_small. lia. Qed.

Lemma wrap64_u64 z : u64 (wrap64 z).
Proof.
  unfold u64, wrap64, u64_max.
  pose proof (Z.mod_pos_bound z (2 ^ 64) ltac:(lia)). lia.
Qed.

Lemma saturating_add_u64 a b : u64 a -> u64 b -> u64 (saturating_add a b).
Proof. unfold u64, saturating_add. lia. Qed.

Lemma saturating_mul_u64 a b : u64 a -> u64 b -> u64 (saturating_mul a b).
Proof. unfold u64, saturating_mul. nia. Qed.

(** [lia] with [/] and [mod] replaced by their Euclidean equations. *)
Ltac div_lia := Z.to_euclidean_division_equations; lia.

(** Rewrites [wrap64 z] into [z] where the bounds are linear facts in context. *)
Ltac unwrap64 :=
  repeat match goal with
  | |- context [wrap64 ?z] =>
      rewrite (wrap64_small z) by (unfold u64, u64_max in *; lia)
  end.

(* ------------------------------------------------------------------ *)
(** ** Transition systems *)

Definition invariant_of {S : Type} (step : S -> S -> Prop) (I : S -> Prop) : Prop :=
  forall s s', I s -> step s s' -> I s'.

(** Rule induction over the reflexive-transitive closure, packaged once. *)
Lemma invariant_reachable {S : Type} (step : S -> S -> Prop) (I : S -> Prop) s s' :
  invariant_of step I -> I s -> rtc step s s' -> I s'.
Proof. intros HI Hs. induction 1 as [|x y z Hxy _ IH]; eauto. Qed.

(** Progress: a step that keeps [I] and decreases [work] is possible as long as there
    is work; then some run does all of it. *)
Lemma progress_drains {S : Type} (step : S -> S -> Prop) (I : S -> Prop) (work : S -> nat) :
  (forall s, I s -> work s <> 0%nat -> exists s', step s s' /\ I s' /\ (work s' < work s)%nat) ->
  forall s, I s -> exists s', rtc step s s' /\ I s' /\ work s' = 0%nat.
Proof.
  intros Hp s. induction s as [s IH] using (induction_ltof1 _ work). intros Hs.
  destruct (decide (work s = 0%nat)) as [E|E]; [by exists s|].
  destruct (Hp s Hs E) as (s1 & H1 & H2 & H3). destruct (IH s1 H3 H2) as (s' & Hr & Hs').
  exists s'. split; [by eapply rtc_l|exact Hs'].
Qed.

(** [by_invariant I_inv I_init]: the goal is an invariant of a reachable state. *)
Ltac by_invariant inv init :=
  eapply invariant_reachable; [apply inv|apply init|eassumption].

(** Steps as a function of labels: running a list of them. *)
Fixpoint run_labels {S L : Type} (f : L -> S -> option S) (ls : list L) (s : S)
  : option S :=
  match ls with
  | [] => Some s
  | l :: ls' => match f l s with Some s' => run_labels f ls' s' | None => None end
  end.

Lemma run_labels_app {S L : Type} (f : L -> S -> option S) ls ks s :
  run_labels f (ls ++ ks) s =
  match run_labels f ls s with Some s' => run_labels f ks s' | None => None end.
Proof. revert s. induction ls as [|l ls IH]; intros s; cbn; [done|]. by destruct (f l s). Qed.

Lemma run_labels_rtc {S L : Type} (f : L -> S -> option S) ls s s' :
  run_labels f ls s = Some s' ->
  rtc (fun a b => exists l, f l a = Some b) s s'.
Proof.
  revert s. induction ls as [|l ls IH]; intros s; cbn; [by intros [= ->]|].
  destruct (f l s) as [s1|] eqn:E; [|done]. intros H.
  eapply rtc_l; [by exists l|by apply IH].
Qed.

(* ------------------------------------------------------------------ *)
(** ** Bytes and strings

    A Rust [String]/[&str] is a Rocq [string] holding its UTF-8 bytes (so
    [len] is [String.length]); a [Vec<u8>] is a [list ascii].  The [char]
    level operations of [str] decode the bytes with [chars]. *)

Abbreviation bytes := (list ascii).

Definition as_bytes (s : string) : bytes := list_ascii_of_string s.
Definition of_bytes (l : bytes) : string := string_of_list_ascii l.
Definition code (a : ascii) : Z := Z.of_N (N_of_ascii a).
Definition chr (z : Z) : ascii := ascii_of_N (Z.to_N z).
Definition str_len (s : string) : Z := Z.of_nat (String.length s).

Lemma of_as_bytes s : of_bytes (as_bytes s) = s.
Proof. apply string_of_list_ascii_of_string. Qed.

Lemma as_of_bytes l : as_bytes (of_bytes l) = l.
Proof. apply list_ascii_of_string_of_list_ascii. Qed.

Lemma as_bytes_inj s t : as_bytes s = as_bytes t -> s = t.
Proof. intros H. by rewrite <- (of_as_bytes s), H, of_as_bytes. Qed.

Lemma of_bytes_inj l k : of_bytes l = of_bytes k -> l = k.
Proof. intros H. by rewrite <- (as_of_bytes l), H, as_of_bytes. Qed.

Lemma as_bytes_app s t : as_bytes (s +:+ t) = as_bytes s ++ as_bytes t.
Proof. induction s as [|a s IH]; [done|]. exact (f_equal (cons a) IH). Qed.

Lemma of_bytes_app l k : of_bytes (l ++ k) = of_bytes l +:+ of_bytes k.
Proof. induction l as [|a l IH]; [done|]. exact (f_equal (String a) IH). Qed.

Lemma str_len_bytes s : str_len s = Z.of_nat (length (as_bytes s)).
Proof. unfold str_len. f_equal. induction s as [|a s IH]; [done|]. exact (f_equal S IH). Qed.

(** The scalar values of a UTF-8 byte string, each as its bytes.  The number of
    bytes is read off the lead byte, as UTF-8 guarantees for a [str]. *)
Fixpoint chars (l : bytes) : list bytes :=
  match l with
  | [] => []
  | a :: l1 =>
      if code a <? 192 then [a] :: chars l1 else
      match l1 with
      | [] => [[a]]
      | b :: l2 =>
          if code a <? 224 then [a; b] :: chars l2 else
          match l2 with
          | [] => [[a]; [b]]
          | c :: l3 =>
              if code a <? 240 then [a; b; c] :: chars l3 else
              match l3 with
              | [] => [[a]; [b]; [c]]
              | d :: l4 => [a; b; c; d] :: chars l4
              end
          end
      end
  end.

Definition is_ascii (a : ascii) : bool := code a <? 128.

Lemma chars_ascii l : forallb is_ascii l = true -> chars l = map (fun a => [a]) l.
Proof.
  induction l as [|a l IH]; intros H; [done|].
  cbn [forallb] in H. apply andb_prop in H as [Ha Hl].
  unfold is_ascii in Ha. cbn [chars map].
  destruct (code a <? 192) eqn:E; [by rewrite IH|lia].
Qed.

(** [char::is_whitespace]: the Unicode White_Space property. *)
Definition is_whitespace (c : bytes) : bool :=
  match map code c with
  | [a] => ((9 <=? a) && (a <=? 13)) || (a =? 32)
  | [194; b] => (b =? 133) || (b =? 160)
  | [225; 154; 128] => true
  | [226; 128; b] => ((128 <=? b) && (b <=? 138)) || (b =? 168) || (b =? 169) || (b =? 175)
  | [226; 129; 159] => true
  | [227; 128; 128] => true
  | _ => false
  end.

Fixpoint drop_while {A : Type} (p : A -> bool) (l : list A) : list A :=
  match l with
  | [] => []
  | a :: l' => if p a then drop_while p l' else l
  end.

Definition trim_chars (cs : list bytes) : list bytes :=
  rev (drop_while is_whitespace (rev (drop_while is_whitespace cs))).

(** [str::trim] *)
Definition trim (s : string) : string := of_bytes (concat (trim_chars (chars (as_bytes s)))).

Definition is_empty (s : string) : bool :=
  match s with EmptyString => true | _ => false end.

Definition ascii_lower (a : ascii) : ascii :=
  if (65 <=? code a) && (code a <=? 90) then chr (code a + 32) else a.

(** [str::to_ascii_lowercase] *)
Definition to_ascii_lowercase (s : string) : string := of_bytes (map ascii_lower (as_bytes s)).

(** [str::to_lowercase], up to characters that cannot matter: the program only
    compares the result with ASCII literals.  The ASCII letters and U+212A KELVIN
    SIGN (whose lowercase is [k]) are the scalar values whose lowercase is one
    ASCII character; every other non-ASCII character lowercases to a string with
    a non-ASCII character in it and is left as it is. *)
Definition lower_char (c : bytes) : bytes :=
  match c with
  | [a] => [ascii_lower a]
  | _ => if decide (map code c = [226; 132; 170]) then ["k"%char] else c
  end.

Definition to_lowercase (s : string) : string :=
  of_bytes (concat (map lower_char (chars (as_bytes s)))).

(** Splitting a byte string on one (ASCII) byte: [str::split]; never empty. *)
Fixpoint split_on (sep : ascii) (l : bytes) : list bytes :=
  match l with
  | [] => [[]]
  | a :: l' =>
      if decide (a = sep) then [] :: split_on sep l'
      else match split_on sep l' with
           | [] => [[a]]
           | w :: ws => (a :: w) :: ws
           end
  end.

Definition split (sep : ascii) (s : string) : list string :=
  map of_bytes (split_on sep (as_bytes s)).

(** [str::lines]: split on newlines, no last empty line, one trailing CR dropped. *)
Definition strip_cr (l : bytes) : bytes :=
  match rev l with
  | a :: r => if decide (a = "013"%char) then rev r else l
  | [] => l
  end.

Definition drop_last_empty (ls : list bytes) : list bytes :=
  match rev ls with [] :: r => rev r | _ => ls end.

Definition lines (s : string) : list string :=
  map (fun l => of_bytes (strip_cr l)) (drop_last_empty (split_on "010"%char (as_bytes s))).

(** [str::split_whitespace]: maximal runs of non-whitespace characters. *)
Fixpoint split_ws (cur : list bytes) (cs : list bytes) : list (list bytes) :=
  let flush := match cur with [] => [] | _ => [rev cur] end in
  match cs with
  | [] => flush
  | c :: cs' => if is_whitespace c then flush ++ split_ws [] cs' else split_ws (c :: cur) cs'
  end.

Definition split_whitespace (s : string) : list string :=
  map (fun w => of_bytes (concat w)) (split_ws [] (chars (as_bytes s))).

Fixpoint strip_prefix_bytes (p l : bytes) : option bytes :=
  match p, l with
  | [], _ => Some l
  | a :: p', b :: l' => if decide (a = b) then strip_prefix_bytes p' l' else None
  | _ :: _, [] => None
  end.

(** [str::strip_prefix] and [str::starts_with] *)
Definition strip_prefix (p s : string) : option string :=
  of_bytes <$> strip_prefix_bytes (as_bytes p) (as_bytes s).

Definition starts_with (p s : string) : bool :=
  match strip_prefix p s with Some _ => true | None => false end.

(** [str::find] of a string pattern, then the text after it. *)
Fixpoint find_after (p l : bytes) : option bytes :=
  match strip_prefix_bytes p l with
  | Some r => Some r
  | None => match l with [] => None | _ :: l' => find_after p l' end
  end.

Lemma strip_prefix_bytes_app p l : strip_prefix_bytes p (p ++ l) = Some l.
Proof. induction p as [|a p IH]; cbn; [done|]. by rewrite decide_True. Qed.

Lemma strip_prefix_bytes_Some p l r : strip_prefix_bytes p l = Some r <-> l = p ++ r.
Proof.
  split; [|by intros ->; apply strip_prefix_bytes_app].
  revert l. induction p as [|a p IH]; intros l; cbn; [by intros [= ->]|].
  destruct l as [|b l]; [done|]. case_decide; [|done]. intros Hr. subst b.
  by rewrite (IH l Hr).
Qed.

Lemma strip_prefix_Some p s r : strip_prefix p s = Some r <-> s = p +:+ r.
Proof.
  unfold strip_prefix. rewrite fmap_Some. split.
  - intros (l & Hl & ->). apply strip_prefix_bytes_Some in Hl. apply as_bytes_inj.
    by rewrite as_bytes_app, as_of_bytes.
  - intros ->. exists (as_bytes r). rewrite as_bytes_app, of_as_bytes.
    by rewrite strip_prefix_bytes_app.
Qed.

Lemma split_on_no_sep sep l : sep ∉ l -> split_on sep l = [l].
Proof.
  induction l as [|a l IH]; cbn; intros H; [done|].
  rewrite decide_False by set_solver. by rewrite IH by set_solver.
Qed.

Lemma split_on_app_sep sep l k :
  sep ∉ l -> split_on sep (l ++ sep :: k) = l :: split_on sep k.
Proof.
  induction l as [|a l IH]; cbn; intros H; [by rewrite decide_True|].
  rewrite decide_False by set_solver. by rewrite IH by set_solver.
Qed.

Lemma drop_while_id {A : Type} (p : A -> bool) a l : p a = false -> drop_while p (a :: l) = a :: l.
Proof. intros E. cbn. by rewrite E. Qed.

(* ------------------------------------------------------------------ *)
(** ** Decimal integers: [Display] and [FromStr] *)

Definition digit (z : Z) : ascii := chr (48 + z).
Definition is_digit (a : ascii) : bool := (48 <=? code a) && (code a <=? 57).

(** The decimal digits of [n >= 0], most significant first; [fuel] is the number
    of digits allowed, and [decimal] gives one per bit, always enough. *)
Fixpoint digits_of (fuel : nat) (n : Z) (acc : bytes) : bytes :=
  match fuel with
  | O => acc
  | S k => if n <? 10 then digit n :: acc else digits_of k (n / 10) (digit (n mod 10) :: acc)
  end.

Definition decimal (n : Z) : bytes := digits_of (S (Z.to_nat (Z.log2 n))) n [].

(** [to_string] / [{}] of an integer. *)
Definition show_Z (n : Z) : string :=
  of_bytes (if n <? 0 then "-"%char :: decimal (- n) else decimal n).

(** Checked accumulation: [checked_mul(10)] then [checked_add(digit)]. *)
Fixpoint parse_digits (max acc : Z) (l : bytes) : option Z :=
  match l with
  | [] => Some acc
  | a :: l' =>
      if is_digit a then
        let acc' := acc * 10 + (code a - 48) in
        if acc' <=? max then parse_digits max acc' l' else None
      else None
  end.

(** [str::parse::<uN>()] with [max] the type's maximum: an optional [+], then at
    least one digit, no overflow. *)
Definition parse_unsigned (max : Z) (s : string) : option Z :=
  match as_bytes s with
  | [] => None
  | [a] => if is_digit a then parse_digits max 0 [a] else None
  | a :: l => if decide (a = "+"%char) then parse_digits max 0 l
              else parse_digits max 0 (a :: l)
  end.

Definition parse_u64 : string -> option Z := parse_unsigned u64_max.
Definition parse_u32 : string -> option Z := parse_unsigned u32_max.

(** [str::parse::<i32>()] *)
Definition parse_i32 (s : string) : option Z :=
  match as_bytes s with
  | "-"%char :: (_ :: _) as l => Z.opp <$> parse_digits (2 ^ 31) 0 (tail l)
  | _ => parse_unsigned (2 ^ 31 - 1) s
  end.

Lemma code_chr z : 0 <= z < 256 -> code (chr z) = z.
Proof.
  intros H. unfold code, chr. rewrite N_ascii_embedding by lia. lia.
Qed.

Lemma is_digit_digit z : 0 <= z < 10 -> is_digit (digit z) = true.
Proof. intros H. unfold is_digit, digit. rewrite code_chr; lia. Qed.

Lemma code_digit z : 0 <= z < 10 -> code (digit z) = 48 + z.
Proof. intros H. unfold digit. rewrite code_chr; lia. Qed.

Lemma parse_digits_cons max acc z l :
  0 <= z < 10 -> acc * 10 + z <= max ->
  parse_digits max acc (digit z :: l) = parse_digits max (acc * 10 + z) l.
Proof.
  intros Hz Hm. cbn. rewrite is_digit_digit, code_digit by lia.
  replace (48 + z - 48) with z by lia. by destruct (Z.leb_spec (acc * 10 + z) max); [|lia].
Qed.

(** Printing then parsing, generalised over the digits already printed. *)
Lemma parse_digits_of fuel n acc max :
  0 <= n <= max -> n < 10 ^ Z.of_nat fuel ->
  parse_digits max 0 (digits_of fuel n acc) = parse_digits max n acc.
Proof.
  revert n acc. induction fuel as [|k IH]; intros n acc Hn Hf.
  { cbn in Hf. by replace n with 0 by lia. }
  cbn [digits_of]. destruct (Z.ltb_spec n 10).
  { by rewrite parse_digits_cons by lia. }
  rewrite Nat2Z.inj_succ, Z.pow_succ_r in Hf by lia.
  pose proof (Z.div_mod n 10 ltac:(lia)).
  pose proof (Z.mod_pos_bound n 10 ltac:(lia)).
  rewrite IH by lia. rewrite parse_digits_cons by lia. f_equal. lia.
Qed.

Lemma log2_fuel n : 0 <= n -> n < 10 ^ Z.of_nat (S (Z.to_nat (Z.log2 n))).
Proof.
  intros H. pose proof (Z.log2_nonneg n).
  destruct (Z.eq_dec n 0) as [->|]; [done|].
  pose proof (Z.log2_spec n ltac:(lia)).
  replace (Z.of_nat (S (Z.to_nat (Z.log2 n)))) with (Z.succ (Z.log2 n)) by lia.
  pose proof (Z.pow_le_mono_l 2 10 (Z.succ (Z.log2 n)) ltac:(lia)). lia.
Qed.

Lemma digits_of_shape fuel n acc :
  0 <= n -> forallb is_digit acc = true ->
  forallb is_digit (digits_of fuel n acc) = true.
Proof.
  revert n acc. induction fuel as [|k IH]; intros n acc Hn Hacc; cbn; [done|].
  pose proof (Z.mod_pos_bound n 10 ltac:(lia)).
  destruct (Z.ltb_spec n 10); [|apply IH; [apply Z.div_pos; lia|]];
    cbn [forallb]; by rewrite is_digit_digit by lia.
Qed.

Lemma decimal_digits n : 0 <= n -> forallb is_digit (decimal n) = true.
Proof. intros H. by apply digits_of_shape. Qed.

Lemma digits_of_nonempty fuel n acc : acc <> [] \/ (0 < fuel)%nat -> digits_of fuel n acc <> [].
Proof.
  revert n acc. induction fuel as [|k IH]; intros n acc H; cbn; [destruct H; [done|lia]|].
  destruct (n <? 10); [done|]. apply IH. by left.
Qed.

Lemma decimal_cons n : 0 <= n -> exists a l, decimal n = a :: l /\ is_digit a = true.
Proof.
  intros H. pose proof (decimal_digits n H) as D.
  destruct (decimal n) as [|a l] eqn:E.
  - exfalso. revert E. apply digits_of_nonempty. right. lia.
  - cbn in D. apply andb_prop in D as [Ha _]. eauto.
Qed.

Lemma is_digit_not_sign a : is_digit a = true -> a <> "+"%char /\ a <> "-"%char.
Proof. intros H. by split; intros ->. Qed.

Lemma parse_unsigned_digits max a l :
  is_digit a = true -> parse_unsigned max (of_bytes (a :: l)) = parse_digits max 0 (a :: l).
Proof.
  intros H. unfold parse_unsigned. rewrite as_of_bytes.
  destruct (is_digit_not_sign a H) as [Hp _].
  destruct l; [by rewrite H|]. by rewrite decide_False.
Qed.

(** Round trip of every unsigned type: printing then parsing gives the value. *)
Lemma parse_show_unsigned max n :
  0 <= n <= max -> parse_unsigned max (show_Z n) = Some n.
Proof.
  intros H. unfold show_Z. destruct (Z.ltb_spec n 0); [lia|].
  destruct (decimal_cons n ltac:(lia)) as (a & l & E & Ha). rewrite E.
  rewrite parse_unsigned_digits by done. rewrite <- E. unfold decimal.
  rewrite parse_digits_of by (apply log2_fuel || lia; lia). done.
Qed.

Lemma parse_show_u64 n : u64 n -> parse_u64 (show_Z n) = Some n.
Proof. apply parse_show_unsigned. Qed.

Lemma parse_digits_bound max acc l z :
  0 <= acc <= max -> parse_digits max acc l = Some z -> acc <= z <= max.
Proof.
  revert acc. induction l as [|a l IH]; intros acc Hacc; cbn; [intros [= ->]; lia|].
  destruct (is_digit a) eqn:D; [|done]. unfold is_digit in D.
  destruct (Z.leb_spec (acc * 10 + (code a - 48)) max); [|done].
  intros Hz. apply IH in Hz; lia.
Qed.

Lemma parse_unsigned_bound max s z :
  0 <= max -> parse_unsigned max s = Some z -> 0 <= z <= max.
Proof.
  intros Hm. unfold parse_unsigned.
  destruct (as_bytes s) as [|a [|b l]]; [done| |].
  - destruct (is_digit a); [|done]. by apply parse_digits_bound.
  - case_decide; by apply parse_digits_bound.
Qed.

Lemma parse_u64_bound s z : parse_u64 s = Some z -> u64 z.
Proof. apply parse_unsigned_bound. done. Qed.

(** Digits are ASCII and not whitespace, so trimming a printed number is a no-op. *)
Lemma is_digit_ascii a : is_digit a = true -> is_ascii a = true.
Proof. unfold is_digit, is_ascii. lia. Qed.

Lemma is_digit_not_whitespace a : is_digit a = true -> is_whitespace [a] = false.
Proof.
  unfold is_digit, is_whitespace. intros H. cbn [map].
  destruct (code a) as [|q|q] eqn:E; [lia| |lia].
  repeat (destruct q as [q|q|]; try (lia || reflexivity)).
Qed.

Lemma forallb_impl {A : Type} (p q : A -> bool) l :
  (forall a, p a = true -> q a = true) -> forallb p l = true -> forallb q l = true.
Proof.
  intros Hpq. induction l as [|a l IH]; cbn; [done|].
  intros [Ha Hl]%andb_prop. by rewrite Hpq, IH.
Qed.

Lemma concat_singletons {A : Type} (l : list A) : concat (map (fun a => [a]) l) = l.
Proof. induction l as [|a l IH]; cbn; [done|]. by rewrite IH. Qed.

(** [str::trim] of an ASCII text padded with ASCII whitespace is the text. *)
Definition ascii_ws (a : ascii) : bool := is_whitespace [a].
Definition single (a : ascii) : bytes := [a].

Lemma drop_while_app {A : Type} (p : A -> bool) l k :
  forallb p l = true -> drop_while p (l ++ k) = drop_while p k.
Proof.
  induction l as [|a l IH]; cbn; [done|]. intros [Ha Hl]%andb_prop. by rewrite Ha, IH.
Qed.

Lemma forallb_map_single p l : forallb p (map single l) = forallb (fun a => p [a]) l.
Proof. induction l as [|a l IH]; cbn; [done|]. by rewrite IH. Qed.

Lemma forallb_rev {A : Type} (p : A -> bool) l : forallb p (rev l) = forallb p l.
Proof.
  induction l as [|a l IH]; cbn; [done|]. rewrite forallb_app, IH; cbn.
  by destruct (p a), (forallb p l).
Qed.

(** Non-empty, and neither its first nor its last byte is whitespace. *)
Definition tight (l : bytes) : Prop :=
  exists a r b m, l = a :: r /\ l = m ++ [b] /\ ascii_ws a = false /\ ascii_ws b = false.

Lemma trim_pad p l q :
  forallb is_ascii (p ++ l ++ q) = true ->
  forallb ascii_ws p = true -> forallb ascii_ws q = true -> tight l ->
  trim (of_bytes (p ++ l ++ q)) = of_bytes l.
Proof.
  intros Hasc Hp Hq (a & r & b & m & E & E' & Ha & Hb).
  unfold trim, trim_chars. rewrite as_of_bytes, chars_ascii by done.
  change (map (fun a => [a])) with (map single). f_equal.
  rewrite !map_app, drop_while_app by by rewrite forallb_map_single.
  rewrite E at 1. cbn [map app]. rewrite drop_while_id by done.
  change (single a :: map single r ++ map single q) with (map single (a :: r) ++ map single q).
  rewrite <- E, rev_app_distr, drop_while_app
    by by rewrite forallb_rev, forallb_map_single.
  rewrite E' at 1. rewrite map_app, rev_app_distr. cbn [map rev app].
  rewrite drop_while_id by done. cbn [rev]. rewrite rev_involutive, E', concat_app.
  cbn [concat app]. by rewrite (concat_singletons m : concat (map single m) = m).
Qed.

Lemma trim_tight l : forallb is_ascii l = true -> tight l -> trim (of_bytes l) = of_bytes l.
Proof.
  intros H Hl. pose proof (trim_pad [] l []) as T. cbn in T. rewrite app_nil_r in T. by apply T.
Qed.

Lemma ascii_ws_digit a : is_digit a = true -> ascii_ws a = false.
Proof. apply is_digit_not_whitespace. Qed.

Lemma digits_tight l : l <> [] -> forallb is_digit l = true -> tight l.
Proof.
  intros Hne H. destruct l as [|a r]; [done|].
  destruct (exists_last Hne) as (m & b & E). exists a, r, b, m.
  split; [done|]. split; [done|]. split.
  - cbn in H. apply andb_prop in H as [Ha _]. by apply ascii_ws_digit.
  - rewrite E, forallb_app in H. apply andb_prop in H as [_ Hb]. cbn in Hb.
    apply ascii_ws_digit. by destruct (is_digit b).
Qed.

Lemma show_Z_nonneg n : 0 <= n -> show_Z n = of_bytes (decimal n).
Proof. intros H. unfold show_Z. by destruct (Z.ltb_spec n 0); [lia|]. Qed.

Lemma decimal_tight n : 0 <= n -> tight (decimal n).
Proof.
  intros H. apply digits_tight; [|by apply decimal_digits].
  destruct (decimal_cons n H) as (a & l & -> & _). done.
Qed.

Lemma decimal_ascii n : 0 <= n -> forallb is_ascii (decimal n) = true.
Proof. intros H. eapply forallb_impl; [apply is_digit_ascii|by apply decimal_digits]. Qed.

Lemma trim_show n : 0 <= n -> trim (show_Z n) = show_Z n.
Proof.
  intros H. rewrite show_Z_nonneg by done.
  apply trim_tight; [by apply decimal_ascii|by apply decimal_tight].
Qed.

(* ------------------------------------------------------------------ *)
(** ** Lossy UTF-8 decoding and paths *)

(** U+FFFD REPLACEMENT CHARACTER *)
Definition REPLACEMENT : bytes := [chr 239; chr 191; chr 189].

Definition within (lo hi : Z) (a : ascii) : bool := (lo <=? code a) && (code a <=? hi).
Definition is_cont : ascii -> bool := within 128 191.

(** For a lead byte: the range of its second byte and its number of continuation bytes. *)
Definition utf8_lead (a : ascii) : option (Z * Z * nat) :=
  if within 194 223 a then Some (128, 191, 1%nat)
  else if within 224 224 a then Some (160, 191, 2%nat)
  else if within 237 237 a then Some (128, 159, 2%nat)
  else if within 225 239 a then Some (128, 191, 2%nat)
  else if within 240 240 a then Some (144, 191, 3%nat)
  else if within 241 243 a then Some (128, 191, 3%nat)
  else if within 244 244 a then Some (128, 143, 3%nat)
  else None.

(** [String::from_utf8_lossy]: each maximal ill-formed prefix becomes one U+FFFD. *)
Fixpoint utf8_lossy (l : bytes) : bytes :=
  match l with
  | [] => []
  | a :: l1 =>
      if is_ascii a then a :: utf8_lossy l1 else
      match utf8_lead a with
      | None => REPLACEMENT ++ utf8_lossy l1
      | Some (lo, hi, n) =>
          match l1 with
          | [] => REPLACEMENT
          | b :: l2 =>
              if negb (within lo hi b) then REPLACEMENT ++ utf8_lossy l1 else
              if (n =? 1)%nat then a :: b :: utf8_lossy l2 else
              match l2 with
              | [] => REPLACEMENT
              | c :: l3 =>
                  if negb (is_cont c) then REPLACEMENT ++ utf8_lossy l2 else
                  if (n =? 2)%nat then a :: b :: c :: utf8_lossy l3 else
                  match l3 with
                  | [] => REPLACEMENT
                  | d :: l4 =>
                      if negb (is_cont d) then REPLACEMENT ++ utf8_lossy l3
                      else a :: b :: c :: d :: utf8_lossy l4
                  end
              end
          end
      end
  end.

Definition from_utf8_lossy (l : bytes) : string := of_bytes (utf8_lossy l).

Lemma utf8_lossy_ascii l : forallb is_ascii l = true -> utf8_lossy l = l.
Proof.
  induction l as [|a l IH]; cbn; [done|]. intros [Ha Hl]%andb_prop. by rewrite Ha, IH.
Qed.

(** Paths are their bytes ([OsStr]); [to_string_lossy] and [display]. *)
Definition to_string_lossy (p : string) : string := from_utf8_lossy (as_bytes p).

Definition ascii_str (s : string) : Prop := forallb is_ascii (as_bytes s) = true.

Lemma to_string_lossy_ascii p : ascii_str p -> to_string_lossy p = p.
Proof.
  intros H. unfold to_string_lossy, from_utf8_lossy. by rewrite utf8_lossy_ascii, of_as_bytes.
Qed.

Definition SLASH : ascii := "/"%char.

(** [Path::join] *)
Definition path_join (a b : string) : string :=
  match as_bytes b with
  | c :: _ =>
      if decide (c = SLASH) then b
      else match rev (as_bytes a) with
           | [] => b
           | d :: _ => if decide (d = SLASH) then a +:+ b else a +:+ "/" +:+ b
           end
  | [] => match rev (as_bytes a) with
          | [] => b
          | d :: _ => if decide (d = SLASH) then a else a +:+ "/"
          end
  end.

(** Components are read from the end: on the reversed path, drop trailing separators
    and [.] components, keeping a root. *)
Fixpoint strip_tail (r : bytes) : bytes :=
  match r with
  | a :: t =>
      if decide (a = SLASH) then match t with [] => r | _ => strip_tail t end
      else if decide (a = "."%char) then
        match t with
        | b :: _ => if decide (b = SLASH) then strip_tail t else r
        | [] => r
        end
      else r
  | [] => []
  end.

Definition not_slash (a : ascii) : bool := negb (bool_decide (a = SLASH)).

(** [Path::parent] *)
Definition path_parent (p : string) : option string :=
  let r := strip_tail (rev (as_bytes p)) in
  match r with
  | [] => None
  | _ => if decide (r = [SLASH]) then None
         else Some (of_bytes (rev (strip_tail (drop_while not_slash r))))
  end.

Fixpoint take_while {A : Type} (p : A -> bool) (l : list A) : list A :=
  match l with
  | a :: l' => if p a then a :: take_while p l' else []
  | [] => []
  end.

(** [Path::file_name]: the last component, unless it is the root, [.] or [..]. *)
Definition path_file_name (p : string) : option string :=
  let c := rev (take_while not_slash (strip_tail (rev (as_bytes p)))) in
  if decide (of_bytes c ∈ [""; "."; ".."]%string) then None else Some (of_bytes c).

(** ASCII strings: lowercasing is bytewise. *)
Lemma lower_map l :
  forallb is_ascii l = true -> concat (map lower_char (chars l)) = map ascii_lower l.
Proof.
  intros H. rewrite chars_ascii by done. rewrite map_map. cbn [lower_char].
  induction l as [|a l IH]; [done|]. cbn in H |- *. apply andb_prop in H as [_ H].
  by rewrite IH.
Qed.

Lemma to_lowercase_ascii s : ascii_str s -> to_lowercase s = to_ascii_lowercase s.
Proof. intros H. unfold to_lowercase, to_ascii_lowercase. by rewrite lower_map. Qed.

Lemma ascii_lower_ascii a : is_ascii (ascii_lower a) = is_ascii a.
Proof.
  unfold ascii_lower, is_ascii.
  destruct ((65 <=? code a) && (code a <=? 90)) eqn:E; [|done].
  rewrite code_chr by lia. lia.
Qed.

Lemma forallb_map {A B : Type} (f : A -> B) p l :
  forallb p (map f l) = forallb (fun a => p (f a)) l.
Proof. induction l as [|a l IH]; cbn; [done|]. by rewrite IH. Qed.

Lemma forallb_ext' {A : Type} (p q : A -> bool) l :
  (forall a, p a = q a) -> forallb p l = forallb q l.
Proof. intros H. induction l as [|a l IH]; cbn; [done|]. by rewrite H, IH. Qed.

Lemma to_ascii_lowercase_ascii s t :
  to_ascii_lowercase s = t -> ascii_str t -> ascii_str s.
Proof.
  unfold to_ascii_lowercase, ascii_str. intros <-. rewrite as_of_bytes, forallb_map.
  intros H. rewrite <- H. apply forallb_ext'. intros a. by rewrite ascii_lower_ascii.
Qed.

(* ------------------------------------------------------------------ *)
(** ** Lines and words of a text file *)

Definition NL : ascii := "010"%char.
Definition CR : ascii := "013"%char.

(** A text file: every line is ended by a newline. *)
Definition unlines (ls : list string) : string :=
  foldr (fun l acc => l +:+ (String NL acc)) EmptyString ls.

(** A line a file can hold: no newline, and no carriage return at its end. *)
Definition one_line (l : string) : Prop :=
  (NL ∉ as_bytes l) /\ last (as_bytes l) <> Some CR.

Lemma last_rev {A : Type} (l : list A) : last l = head (rev l).
Proof.
  induction l as [|a l IH] using rev_ind; [done|]. by rewrite last_snoc, rev_app_distr.
Qed.

Lemma strip_cr_id l : last l <> Some CR -> strip_cr l = l.
Proof.
  unfold strip_cr. rewrite last_rev. destruct (rev l) as [|a r] eqn:E; [done|].
  intros H. rewrite decide_False; [done|]. intros ->. by apply H.
Qed.

Lemma split_on_unlines ls :
  Forall (fun l => NL ∉ as_bytes l) ls ->
  split_on NL (as_bytes (unlines ls)) = map as_bytes ls ++ [[]].
Proof.
  induction 1 as [|l ls Hl _ IH]; [done|]. cbn [unlines foldr map app].
  rewrite as_bytes_app. change (as_bytes (String NL ?s)) with (NL :: as_bytes s).
  rewrite split_on_app_sep by done. by f_equal.
Qed.

Lemma drop_last_empty_app ls : drop_last_empty (ls ++ [[]]) = ls.
Proof. unfold drop_last_empty. rewrite rev_app_distr. cbn. apply rev_involutive. Qed.

(** Reading a text file back line by line. *)
Lemma lines_unlines ls : Forall one_line ls -> lines (unlines ls) = ls.
Proof.
  intros H. unfold lines. fold NL.
  rewrite split_on_unlines by (eapply Forall_impl; [exact H|]; by intros l [? _]).
  rewrite drop_last_empty_app, map_map. rewrite <- (map_id ls) at 2.
  apply map_ext_Forall. eapply Forall_impl; [exact H|]. intros l [_ Hl].
  by rewrite strip_cr_id, of_as_bytes.
Qed.

Lemma not_in_forallb (p : ascii -> bool) a l : forallb p l = true -> p a = false -> a ∉ l.
Proof.
  intros H Ha Hin. rewrite forallb_forall in H.
  assert (List.In a l) as Hi by by apply list_elem_of_In. specialize (H a Hi). congruence.
Qed.

Lemma last_elem {A : Type} (l : list A) a : last l = Some a -> a ∈ l.
Proof. apply last_Some_elem_of. Qed.

(** A key, a space and a decimal number. *)
Definition entry (key : string) (n : Z) : string := key +:+ " " +:+ show_Z n.

Definition plain_byte (a : ascii) : bool := (33 <=? code a) && (code a <=? 126).
Definition plain_key (key : string) : Prop := forallb plain_byte (as_bytes key) = true.

Lemma digit_plain a : is_digit a = true -> plain_byte a = true.
Proof. unfold is_digit, plain_byte. lia. Qed.

Lemma entry_bytes key n : 0 <= n ->
  as_bytes (entry key n) = as_bytes key ++ " "%char :: decimal n.
Proof.
  intros H. unfold entry. rewrite !as_bytes_app, show_Z_nonneg, as_of_bytes by done. done.
Qed.

Lemma entry_one_line key n : 0 <= n -> plain_key key -> one_line (entry key n).
Proof.
  intros Hn Hk. unfold one_line. rewrite entry_bytes by done.
  assert (forallb (fun a => plain_byte a || bool_decide (a = " "%char))
            (as_bytes key ++ " "%char :: decimal n) = true) as H.
  { rewrite forallb_app. apply andb_true_intro. split.
    - eapply forallb_impl; [|exact Hk]. intros a ->. done.
    - cbn [forallb]. apply andb_true_intro. split; [done|].
      eapply forallb_impl; [|by apply decimal_digits]. intros a Ha. by rewrite digit_plain. }
  split; [by eapply not_in_forallb|]. intros E%last_elem. revert E. by eapply not_in_forallb.
Qed.

Lemma plain_not_ws a : plain_byte a = true -> is_whitespace [a] = false.
Proof.
  unfold plain_byte, is_whitespace. intros H. cbn [map].
  destruct (code a) as [|q|q] eqn:E; [lia| |lia].
  repeat (destruct q as [q|q|]; try (lia || reflexivity)).
Qed.

(** A run of non-whitespace characters is one word. *)
Lemma split_ws_run w cur cs :
  forallb plain_byte w = true ->
  split_ws cur (map single w ++ cs) = split_ws (rev (map single w) ++ cur) cs.
Proof.
  revert cur. induction w as [|a w IH]; intros cur; [done|]. cbn [forallb map app split_ws rev].
  intros [Ha Hw]%andb_prop. change (single a) with [a]. rewrite plain_not_ws by done.
  rewrite IH by done. by rewrite <- app_assoc.
Qed.

Lemma split_ws_flush w : w <> [] -> split_ws w [] = [rev w].
Proof. by destruct w. Qed.

Lemma plain_ascii a : plain_byte a = true -> is_ascii a = true.
Proof. unfold plain_byte, is_ascii. lia. Qed.

Lemma rev_nonempty {A : Type} (l : list A) : l <> [] -> rev l <> [].
Proof. intros H E. apply H. by rewrite <- (rev_involutive l), E. Qed.

(** The words of an entry are its key and its number. *)
Lemma split_whitespace_entry key n :
  0 <= n -> plain_key key -> key <> EmptyString ->
  split_whitespace (entry key n) = [key; show_Z n].
Proof.
  intros Hn Hk Hne. unfold split_whitespace. rewrite entry_bytes by done.
  assert (Hd : forallb plain_byte (decimal n) = true).
  { eapply forallb_impl; [apply digit_plain|by apply decimal_digits]. }
  assert (as_bytes key <> []) as Hkb by by destruct key.
  assert (decimal n <> []) as Hdn by (destruct (decimal_cons n Hn) as (a & l & -> & _); done).
  rewrite chars_ascii.
  2:{ rewrite forallb_app. apply andb_true_intro. split.
      - eapply forallb_impl; [apply plain_ascii|exact Hk].
      - cbn [forallb]. apply andb_true_intro. split; [done|].
        eapply forallb_impl; [apply plain_ascii|exact Hd]. }
  change (map (fun a => [a])) with (map single). rewrite map_app, split_ws_run by done.
  assert (forall l cs, l <> [] -> split_ws l (single " "%char :: cs) = rev l :: split_ws [] cs) as Hsp.
  { intros l cs Hl. cbn. by destruct l. }
  cbn [map]. rewrite app_nil_r, Hsp by (apply rev_nonempty; by destruct (as_bytes key)).
  rewrite <- (app_nil_r (map single (decimal n))), split_ws_run, app_nil_r by done.
  rewrite split_ws_flush by (apply rev_nonempty; by destruct (decimal n)).
  rewrite !rev_involutive. cbn [map].
  assert (C : forall l, concat (map single l) = l) by apply concat_singletons.
  by rewrite !C, of_as_bytes, show_Z_nonneg.
Qed.

Lemma strip_prefix_app p s : strip_prefix p (p +:+ s) = Some s.
Proof. by apply strip_prefix_Some. Qed.

Lemma parse_trim_show n : u64 n -> parse_u64 (trim (show_Z n)) = Some n.
Proof. intros H. rewrite trim_show by (unfold u64 in H; lia). by apply parse_show_u64. Qed.

Lemma parse_i32_digits a l :
  is_digit a = true -> parse_i32 (of_bytes (a :: l)) = parse_unsigned (2 ^ 31 - 1) (of_bytes (a :: l)).
Proof.
  intros H. unfold parse_i32. rewrite as_of_bytes.
  destruct a as [[] [] [] [] [] [] [] []]; try done; discriminate H.
Qed.

Lemma parse_show_i32 n : 0 <= n < 2 ^ 31 -> parse_i32 (show_Z n) = Some n.
Proof.
  intros H. rewrite show_Z_nonneg by lia.
  destruct (decimal_cons n ltac:(lia)) as (a & l & E & Ha). rewrite E, parse_i32_digits by done.
  rewrite <- E, <- show_Z_nonneg by lia. apply parse_show_unsigned. lia.
Qed.

Lemma show_one_line n : 0 <= n -> one_line (show_Z n).
Proof.
  intros Hn. unfold one_line. rewrite show_Z_nonneg, as_of_bytes by done.
  pose proof (decimal_digits n Hn) as H.
  split; [by eapply not_in_forallb|]. intros E%last_elem. revert E. by eapply not_in_forallb.
Qed.
