(* ===== verification/Config.v ===== *)
(** * Sandbox configuration and results

    [src/src/sandbox/config.rs] (profile, configuration record, constructors and
    builder methods) and [src/src/sandbox/result.rs] (status, result record).
    A [PathBuf] is a [string]; [u64]/[u32]/[usize] fields are [Z]. *)

From S2P Require Import Prelude.

(* ------------------------------------------------------------------ *)
(** ** config.rs *)

Inductive ExecutionProfile : Type := Compile | Run.

#[export] Instance ExecutionProfile_eq_dec : EqDecision ExecutionProfile.
Proof. solve_decision. Defined.

Record SandboxConfig : Type := MkConfig {
  executable_path : string;
  args : list string;
  stdin_data : option bytes;
  time_limit_ms : Z;
  wall_time_limit_ms : Z;
  memory_limit_bytes : Z;
  max_output_bytes : Z;
  work_dir : option string;
  profile : ExecutionProfile;
  pids_limit : Z;
  cpu_max_percent : option Z;
  enable_network_isolation : bool;
  enable_fs_isolation : bool;
  workspace_dir : option string;
  fs_readonly_paths : list string;
  fs_workdir_size_bytes : Z;
  jail_id : string
}.

Definition MiB : Z := 1024 * 1024.

Definition default_readonly_paths : list string :=
  ["/usr"; "/lib"; "/lib64"; "/bin"; "/etc/alternatives"]%string.

Definition wall_of (ms : Z) : Z := saturating_add (saturating_mul ms 2) 1000.

Module SandboxConfig.

Definition new (exe : string) : SandboxConfig :=
  {| executable_path := exe; args := []; stdin_data := None;
     time_limit_ms := 1000; wall_time_limit_ms := 3000;
     memory_limit_bytes := 256 * 1024 * 1024;
     max_output_bytes := 10 * 1024 * 1024;
     work_dir := None; profile := Run; pids_limit := 128;
     cpu_max_percent := None;
     enable_network_isolation := true; enable_fs_isolation := true;
     workspace_dir := None; fs_readonly_paths := default_readonly_paths;
     fs_workdir_size_bytes := 16 * 1024 * 1024; jail_id := "" |}.

Definition compile (exe dir : string) : SandboxConfig :=
  {| executable_path := exe; args := []; stdin_data := None;
     time_limit_ms := 15000; wall_time_limit_ms := 30000;
     memory_limit_bytes := 1024 * 1024 * 1024;
     max_output_bytes := 10 * 1024 * 1024;
     work_dir := Some dir; profile := Compile; pids_limit := 128;
     cpu_max_percent := None;
     enable_network_isolation := false; enable_fs_isolation := false;
     workspace_dir := Some dir; fs_readonly_paths := [];
     fs_workdir_size_bytes := 0; jail_id := "" |}.

Definition run (exe dir : string) (ms mem pids : Z) : SandboxConfig :=
  {| executable_path := exe; args := []; stdin_data := None;
     time_limit_ms := ms; wall_time_limit_ms := wall_of ms;
     memory_limit_bytes := mem;
     max_output_bytes := 10 * 1024 * 1024;
     work_dir := Some "/sandbox"%string; profile := Run; pids_limit := pids;
     cpu_max_percent := None;
     enable_network_isolation := true; enable_fs_isolation := true;
     workspace_dir := Some dir; fs_readonly_paths := default_readonly_paths;
     fs_workdir_size_bytes := 16 * 1024 * 1024; jail_id := "" |}.

End SandboxConfig.

(** The builder methods [with_*(mut self, x) -> Self]: one field replaced, all the
    others moved over. *)
Definition with_args (a : list string) (c : SandboxConfig) : SandboxConfig :=
  let '(MkConfig e _ i t w m o d p n u net fs ws ro sz j) := c in
  MkConfig e a i t w m o d p n u net fs ws ro sz j.

Definition with_stdin (data : bytes) (c : SandboxConfig) : SandboxConfig :=
  let '(MkConfig e a _ t w m o d p n u net fs ws ro sz j) := c in
  MkConfig e a (Some data) t w m o d p n u net fs ws ro sz j.

(** Sets the wall limit too: [ms.saturating_mul(2).saturating_add(1000)]. *)
Definition with_time_limit (ms : Z) (c : SandboxConfig) : SandboxConfig :=
  let '(MkConfig e a i _ _ m o d p n u net fs ws ro sz j) := c in
  MkConfig e a i ms (wall_of ms) m o d p n u net fs ws ro sz j.

Definition with_wall_time_limit (ms : Z) (c : SandboxConfig) : SandboxConfig :=
  let '(MkConfig e a i t _ m o d p n u net fs ws ro sz j) := c in
  MkConfig e a i t ms m o d p n u net fs ws ro sz j.

Definition with_memory_limit (b : Z) (c : SandboxConfig) : SandboxConfig :=
  let '(MkConfig e a i t w _ o d p n u net fs ws ro sz j) := c in
  MkConfig e a i t w b o d p n u net fs ws ro sz j.

Definition with_max_output (b : Z) (c : SandboxConfig) : SandboxConfig :=
  let '(MkConfig e a i t w m _ d p n u net fs ws ro sz j) := c in
  MkConfig e a i t w m b d p n u net fs ws ro sz j.

Definition with_work_dir (dir : string) (c : SandboxConfig) : SandboxConfig :=
  let '(MkConfig e a i t w m o _ p n u net fs ws ro sz j) := c in
  MkConfig e a i t w m o (Some dir) p n u net fs ws ro sz j.

Definition with_profile (pr : ExecutionProfile) (c : SandboxConfig) : SandboxConfig :=
  let '(MkConfig e a i t w m o d _ n u net fs ws ro sz j) := c in
  MkConfig e a i t w m o d pr n u net fs ws ro sz j.

Definition with_pids_limit (l : Z) (c : SandboxConfig) : SandboxConfig :=
  let '(MkConfig e a i t w m o d p _ u net fs ws ro sz j) := c in
  MkConfig e a i t w m o d p l u net fs ws ro sz j.

Definition with_cpu_max_percent (pc : option Z) (c : SandboxConfig) : SandboxConfig :=
  let '(MkConfig e a i t w m o d p n _ net fs ws ro sz j) := c in
  let kept := match pc with Some q => if q >? 0 then Some q else None | None => None end in
  MkConfig e a i t w m o d p n kept net fs ws ro sz j.

Definition with_network_isolation (b : bool) (c : SandboxConfig) : SandboxConfig :=
  let '(MkConfig e a i t w m o d p n u _ fs ws ro sz j) := c in
  MkConfig e a i t w m o d p n u b fs ws ro sz j.

Definition with_workspace_dir (dir : string) (c : SandboxConfig) : SandboxConfig :=
  let '(MkConfig e a i t w m o d p n u net fs _ ro sz j) := c in
  MkConfig e a i t w m o d p n u net fs (Some dir) ro sz j.

Definition with_fs_isolation (b : bool) (c : SandboxConfig) : SandboxConfig :=
  let '(MkConfig e a i t w m o d p n u net _ ws ro sz j) := c in
  MkConfig e a i t w m o d p n u net b ws ro sz j.

Definition with_fs_readonly_paths (ps : list string) (c : SandboxConfig) : SandboxConfig :=
  let '(MkConfig e a i t w m o d p n u net fs ws _ sz j) := c in
  MkConfig e a i t w m o d p n u net fs ws ps sz j.

Definition with_fs_workdir_size (b : Z) (c : SandboxConfig) : SandboxConfig :=
  let '(MkConfig e a i t w m o d p n u net fs ws ro _ j) := c in
  MkConfig e a i t w m o d p n u net fs ws ro b j.

Definition with_jail_id (id : string) (c : SandboxConfig) : SandboxConfig :=
  let '(MkConfig e a i t w m o d p n u net fs ws ro sz _) := c in
  MkConfig e a i t w m o d p n u net fs ws ro sz id.

(** [cfg .> with_x a .> with_y b] reads like Rust's method chain. *)
Declare Scope akiro_scope.
Delimit Scope akiro_scope with akiro.
Notation "c .> f" := (f c) (at level 41, left associativity, only parsing) : akiro_scope.
Open Scope akiro_scope.

(* ------------------------------------------------------------------ *)
(** ** result.rs *)

Inductive SandboxStatus : Type :=
  | StOk
  | StTimeLimitExceeded
  | StMemoryLimitExceeded
  | StRuntimeError (code : Z)
  | StSignaled (sig : Z)
  | StOutputLimitExceeded.

#[export] Instance SandboxStatus_eq_dec : EqDecision SandboxStatus.
Proof. solve_decision. Defined.

(** [impl fmt::Display for SandboxStatus] *)
Definition status_fmt (s : SandboxStatus) : string :=
  match s with
  | StOk => "Ok"
  | StTimeLimitExceeded => "TimeLimitExceeded"
  | StMemoryLimitExceeded => "MemoryLimitExceeded"
  | StRuntimeError c => "RuntimeError(" +:+ show_Z c +:+ ")"
  | StSignaled g => "Signaled(" +:+ show_Z g +:+ ")"
  | StOutputLimitExceeded => "OutputLimitExceeded"
  end.

Record ExecutionResult : Type := MkExec {
  status : SandboxStatus;
  exit_code : Z;
  cpu_time_ms : Z;
  wall_time_ms : Z;
  memory_kb : Z;
  stdout : bytes;
  stderr : bytes
}.

Definition ExecutionResult_new (s : SandboxStatus) (code : Z) : ExecutionResult :=
  MkExec s code 0 0 0 [] [].

Definition with_cpu_time (ms : Z) (r : ExecutionResult) : ExecutionResult :=
  let '(MkExec s c _ w m o e) := r in MkExec s c ms w m o e.
Definition with_wall_time (ms : Z) (r : ExecutionResult) : ExecutionResult :=
  let '(MkExec s c t _ m o e) := r in MkExec s c t ms m o e.
Definition with_memory (kb : Z) (r : ExecutionResult) : ExecutionResult :=
  let '(MkExec s c t w _ o e) := r in MkExec s c t w kb o e.
Definition with_stdout (d : bytes) (r : ExecutionResult) : ExecutionResult :=
  let '(MkExec s c t w m _ e) := r in MkExec s c t w m d e.
Definition with_stderr (d : bytes) (r : ExecutionResult) : ExecutionResult :=
  let '(MkExec s c t w m o _) := r in MkExec s c t w m o d.

(* ------------------------------------------------------------------ *)
(** ** Facts the clients use *)

(** The isolation a configuration asks for: what [setup_child_process] acts on. *)
Definition isolated (c : SandboxConfig) : Prop :=
  profile c = Run /\ enable_network_isolation c = true /\
  enable_fs_isolation c = true.

Lemma wall_of_bound ms : u64 ms -> ms <= wall_of ms /\ u64 (wall_of ms).
Proof.
  unfold wall_of, saturating_add, saturating_mul, u64. intros H. lia.
Qed.

(** Below the saturation point the wall limit is exactly [2 * ms + 1000]. *)
Lemma wall_of_exact ms : 0 <= ms <= 2 ^ 62 -> wall_of ms = 2 * ms + 1000.
Proof. unfold wall_of, saturating_add, saturating_mul, u64_max. intros H. lia. Qed.

(** Each [with_*] commutes with every projection it does not own; [cfg_simpl]
    evaluates a chain of builders on a configuration in constructor form. *)
Ltac cfg_simpl :=
  repeat match goal with c : SandboxConfig |- _ => destruct c end; cbn in *.

Lemma with_time_limit_wall ms c :
  wall_time_limit_ms (with_time_limit ms c) = wall_of (time_limit_ms (with_time_limit ms c)).
Proof. by cfg_simpl. Qed.
