(* ===== verification/Admission.v ===== *)
(** * Admission control

    [src/src/sandbox/admission.rs]: the environment-driven limits, the number of
    256 MB units a job needs, and the process-global semaphore every
    [Sandbox::execute] acquires before it commits memory.

    - [parse_bytes], [env_bytes], [env_cpu_percent] and their named wrappers are
      the configuration readers, over an environment [Env].
    - [total_units], [units_for]: the arithmetic, with 64-bit wrap-around.
    - [Semaphore]: what the code relies on from [tokio::sync::Semaphore].
    - [Gate]: the step relation of executions arriving, being admitted in FIFO
      order (tokio's semaphore is fair) and finishing. *)

From S2P Require Import Prelude Config.

(** [std::env::var(key).ok()] *)
Abbreviation Env := (string -> option string).

(** [std::env::var(key).ok().and_then(|s| s.parse().ok()).unwrap_or(default)] *)
Definition env_u64 (env : Env) (key : string) (default : Z) : Z :=
  match env key with
  | Some s => match parse_u64 s with Some n => n | None => default end
  | None => default
  end.

Definition BASE_UNIT_BYTES : Z := 256 * 1024 * 1024.
Definition DEFAULT_BUDGET_BYTES : Z := 768 * 1024 * 1024.
Definition DEFAULT_MAX_JOB_BYTES : Z := 512 * 1024 * 1024.
Definition DEFAULT_COMPILE_BYTES : Z := 512 * 1024 * 1024.
Definition DEFAULT_RUN_CPU_PERCENT : Z := 100.
Definition DEFAULT_COMPILE_CPU_PERCENT : Z := 200.

(** The multiplier of a size suffix (already lowercased). *)
Definition suffix_mult (a : ascii) : option Z :=
  if decide (a = "k"%char) then Some 1024
  else if decide (a = "m"%char) then Some (1024 * 1024)
  else if decide (a = "g"%char) then Some (1024 * 1024 * 1024)
  else None.

Definition parse_bytes (s0 : string) : option Z :=
  let s := trim s0 in
  match rev (as_bytes s) with
  | [] => None
  | last :: front =>
      let '(num, mult) :=
        match suffix_mult (ascii_lower last) with
        | Some m => (of_bytes (rev front), m)
        | None => (s, 1)
        end in
      (fun n => saturating_mul n mult) <$> parse_u64 (trim num)
  end.

Section Limits.
Variable env : Env.

Definition env_bytes (key : string) (default : Z) : Z :=
  match env key with
  | Some s => match parse_bytes s with Some n => n | None => default end
  | None => default
  end.

Definition total_units : Z :=
  Z.max (env_bytes "JUDGE_MEM_BUDGET_BYTES" DEFAULT_BUDGET_BYTES / BASE_UNIT_BYTES) 1.

Definition units_for (mem_bytes : Z) : Z :=
  let units := Z.max (wrap64 (mem_bytes + BASE_UNIT_BYTES - 1) / BASE_UNIT_BYTES) 1 in
  wrap32 (Z.min units total_units).

Definition max_job_memory_bytes : Z :=
  env_bytes "JUDGE_MAX_MEMORY_BYTES" DEFAULT_MAX_JOB_BYTES.

Definition compile_memory_bytes : Z :=
  env_bytes "JUDGE_COMPILE_MEMORY_BYTES" DEFAULT_COMPILE_BYTES.

Definition env_cpu_percent (key : string) (default : Z) : option Z :=
  match env key with
  | None => Some default
  | Some raw =>
      let t := to_ascii_lowercase (trim raw) in
      if is_empty t then Some default
      else if decide (t ∈ ["0"; "off"; "none"; "unlimited"; "max"]%string) then None
      else
        let p := match parse_u32 t with Some p => p | None => default end in
        if p >? 0 then Some p else None
  end.

Definition run_cpu_max_percent : option Z :=
  env_cpu_percent "JUDGE_CPU_MAX_PERCENT" DEFAULT_RUN_CPU_PERCENT.

Definition compile_cpu_max_percent : option Z :=
  env_cpu_percent "JUDGE_COMPILE_CPU_MAX_PERCENT" DEFAULT_COMPILE_CPU_PERCENT.

Definition ceil_div (a b : Z) : Z := (a + b - 1) / b.

Lemma env_bytes_u64 key d : u64 d -> u64 (env_bytes key d).
Proof.
  intros Hd. unfold env_bytes. destruct (env key) as [s|]; [|done].
  unfold parse_bytes. destruct (rev (as_bytes (trim s))) as [|a l]; [done|].
  destruct (suffix_mult (ascii_lower a)) as [m|] eqn:Em.
  all: destruct (parse_u64 _) as [n|] eqn:E; cbn; [|done].
  all: apply parse_u64_bound in E; unfold u64 in *.
  - unfold suffix_mult in Em. unfold saturating_mul.
    repeat case_decide; simplify_eq; lia.
  - unfold saturating_mul. lia.
Qed.

Lemma total_units_bounds : 1 <= total_units < 2 ^ 36 + 1.
Proof.
  unfold total_units.
  pose proof (env_bytes_u64 "JUDGE_MEM_BUDGET_BYTES" DEFAULT_BUDGET_BYTES ltac:(done)) as H.
  unfold u64, u64_max in H. split; [lia|].
  assert (env_bytes "JUDGE_MEM_BUDGET_BYTES" DEFAULT_BUDGET_BYTES / BASE_UNIT_BYTES < 2 ^ 36).
  { apply Z.div_lt_upper_bound; unfold BASE_UNIT_BYTES; lia. }
  lia.
Qed.

(** Away from the wrap-around points the code computes the documented
    [ceil(mem / unit)], at least one and clamped to the total. *)
Lemma units_for_exact mem :
  0 <= mem <= u64_max - BASE_UNIT_BYTES -> total_units <= u32_max ->
  units_for mem = Z.min (Z.max (ceil_div mem BASE_UNIT_BYTES) 1) total_units.
Proof.
  intros Hm Ht. unfold units_for, ceil_div.
  rewrite wrap64_small by (unfold u64, u64_max, BASE_UNIT_BYTES in *; lia).
  unfold wrap32. apply Z.mod_small. unfold u32_max in Ht.
  pose proof total_units_bounds. lia.
Qed.
End Limits.

(* ------------------------------------------------------------------ *)
(** ** The semaphore, as an interface *)

(** What the code uses of [tokio::sync::Semaphore]. *)
Class Semaphore (Sem : Type) := {
  sem_new : Z -> Sem;
  available_permits : Sem -> Z;
  try_acquire_many : Z -> Sem -> option Sem;
  sem_release : Z -> Sem -> Sem
}.

(** Its documented behaviour: a permit counter that never goes negative; an
    acquisition succeeds exactly when enough permits are available. *)
Class SemaphoreLaws (Sem : Type) `{Semaphore Sem} : Prop := {
  available_new n : 0 <= n -> available_permits (sem_new n) = n;
  acquire_spec k s : 0 <= k ->
    match try_acquire_many k s with
    | Some s' => k <= available_permits s /\
                 available_permits s' = available_permits s - k
    | None => available_permits s < k
    end;
  available_release k s : 0 <= k ->
    available_permits (sem_release k s) = available_permits s + k
}.

(** A counter is a model of the interface. *)
Module Counter.
#[export] Instance counter_sem : Semaphore Z := {
  sem_new n := n;
  available_permits s := s;
  try_acquire_many k s := if k <=? s then Some (s - k) else None;
  sem_release k s := s + k
}.

#[export] Instance counter_laws : SemaphoreLaws Z.
Proof.
  split; cbn; [done| |done].
  intros k s Hk. destruct (Z.leb_spec k s); lia.
Qed.
End Counter.

(* ------------------------------------------------------------------ *)
(** ** The admission gate of [Sandbox::execute] *)

Record Execution : Type := MkExecution { exec_id : nat; exec_mem : Z }.

Section Gate.
Variable env : Env.
Context {Sem : Type} {ops : Semaphore Sem} {laws : SemaphoreLaws Sem}.

Record Gate : Type := MkGate {
  sem : Sem;
  waiting : list Execution;
  running : list Execution
}.

(** [budget()]: the semaphore is created with [total_units] permits. *)
Definition gate_init : Gate := MkGate (sem_new (total_units env)) [] [].

(** [Arrive]: a call reaches [acquire_many_owned]; [Admit]: the oldest waiter
    gets its permits (tokio's semaphore is fair); [Finish i]: the [i]-th running
    execution drops its permit at the end of [Sandbox::execute]; [Abandon i]:
    the [i]-th queued call is dropped before it was admitted. *)
Inductive GateLabel : Type :=
  | Arrive (e : Execution)
  | Admit
  | Finish (i : nat)
  | Abandon (i : nat).

Definition units (e : Execution) : Z := units_for env (exec_mem e).

Definition gate_step (l : GateLabel) (g : Gate) : option Gate :=
  match l with
  | Arrive e => Some (MkGate (sem g) (waiting g ++ [e]) (running g))
  | Admit =>
      match waiting g with
      | [] => None
      | e :: w =>
          (fun s => MkGate s w (e :: running g)) <$> try_acquire_many (units e) (sem g)
      end
  | Finish i =>
      (fun e => MkGate (sem_release (units e) (sem g)) (waiting g) (delete i (running g)))
        <$> running g !! i
  | Abandon i =>
      (fun _ => MkGate (sem g) (delete i (waiting g)) (running g)) <$> waiting g !! i
  end.

Definition gate_rel (g g' : Gate) : Prop := exists l, gate_step l g = Some g'.

Definition held (g : Gate) : Z := foldr (fun e acc => units e + acc) 0 (running g).
Definition memory (g : Gate) : Z := foldr (fun e acc => exec_mem e + acc) 0 (running g).

Definition gate_ok (g : Gate) : Prop :=
  available_permits (sem g) + held g = total_units env /\ 0 <= available_permits (sem g).

Lemma units_nonneg e : 0 <= units e.
Proof. unfold units, units_for, wrap32. apply Z.mod_pos_bound. lia. Qed.

Lemma sum_delete (f : Execution -> Z) i l e :
  l !! i = Some e ->
  foldr (fun e acc => f e + acc) 0 l = f e + foldr (fun e acc => f e + acc) 0 (delete i l).
Proof.
  revert i. induction l as [|a l IH]; intros [|i] Hi; [done|done|by simplify_eq/=|].
  change (f a + foldr (fun e acc => f e + acc) 0 l =
          f e + (f a + foldr (fun e acc => f e + acc) 0 (delete i l))).
  rewrite (IH i) by done. lia.
Qed.

Lemma gate_ok_init : gate_ok gate_init.
Proof.
  pose proof (total_units_bounds env). unfold gate_ok, held, gate_init; cbn.
  rewrite available_new by lia. lia.
Qed.

Lemma gate_ok_invariant : invariant_of gate_rel gate_ok.
Proof.
  intros g g' [Hc Hp] [l Hl]. destruct g as [s w r]. unfold gate_ok, held in *.
  destruct l as [e| |i|i]; cbn in *; simplify_eq/=; [done| | |].
  - destruct w as [|e w]; [done|].
    pose proof (acquire_spec (units e) s (units_nonneg e)) as A.
    destruct (try_acquire_many (units e) s) as [s'|]; simplify_eq/=. lia.
  - destruct (r !! i) as [e|] eqn:E; simplify_eq/=.
    rewrite (sum_delete _ _ _ _ E) in Hc.
    rewrite available_release by apply units_nonneg. pose proof (units_nonneg e). lia.
  - destruct (w !! i); by simplify_eq/=.
Qed.

Lemma gate_ok_reachable g : rtc gate_rel gate_init g -> gate_ok g.
Proof. intros Hr. by_invariant gate_ok_invariant gate_ok_init. Qed.

Definition small (e : Execution) : Prop :=
  0 <= exec_mem e <= total_units env * BASE_UNIT_BYTES.

Definition jobs_small (g : Gate) : Prop := Forall small (waiting g) /\ Forall small (running g).

(** Only arrivals can bring an oversized execution in. *)
Definition gate_rel_small (g g' : Gate) : Prop :=
  exists l, gate_step l g = Some g' /\
            match l with Arrive e => small e | _ => True end.

Lemma Forall_delete {A : Type} (P : A -> Prop) i l : Forall P l -> Forall P (delete i l).
Proof. intros Hl. rewrite delete_take_drop. by apply Forall_app_2; [apply Forall_take|apply Forall_drop]. Qed.

Lemma jobs_small_invariant : invariant_of gate_rel_small jobs_small.
Proof.
  intros g g' [Hw Hr] (l & Hl & Hs). destruct g as [s w r]. unfold jobs_small in *.
  destruct l as [e| |i|i]; cbn in *; simplify_eq/=.
  - split; [|done]. apply Forall_app_2; [done|]. by constructor.
  - destruct w as [|e w]; [done|]. destruct (try_acquire_many _ _); simplify_eq/=.
    inversion Hw; subst. split; [done|]. by constructor.
  - destruct (r !! i); simplify_eq/=. split; [done|]. by apply Forall_delete.
  - destruct (w !! i); simplify_eq/=. split; [|done]. by apply Forall_delete.
Qed.

Lemma small_covered e :
  total_units env < 2 ^ 32 -> small e -> exec_mem e <= units e * BASE_UNIT_BYTES.
Proof.
  intros Ht [H0 H1]. unfold units. rewrite units_for_exact.
  - unfold ceil_div, BASE_UNIT_BYTES in *. div_lia.
  - unfold BASE_UNIT_BYTES, u64_max in *. lia.
  - unfold u32_max. lia.
Qed.

Lemma memory_held g :
  total_units env < 2 ^ 32 -> Forall small (running g) -> memory g <= held g * BASE_UNIT_BYTES.
Proof.
  intros Ht. unfold memory, held. induction 1 as [|e r He _ IH]; cbn; [lia|].
  pose proof (small_covered e Ht He). lia.
Qed.

Definition finish_all (g : Gate) : list GateLabel := replicate (length (running g)) (Finish 0).

Lemma run_finish_all g :
  exists s, run_labels gate_step (finish_all g) g = Some (MkGate s (waiting g) []) /\
            available_permits s = available_permits (sem g) + held g.
Proof.
  destruct g as [s w r]. unfold finish_all, held; cbn.
  revert s. induction r as [|e r IH]; intros s; cbn; [exists s; split; [done|lia]|].
  destruct (IH (sem_release (units e) s)) as (s' & -> & E). exists s'. split; [done|].
  rewrite E, available_release by apply units_nonneg. lia.
Qed.
End Gate.

Arguments GateLabel : clear implicits.

(* ------------------------------------------------------------------ *)
(** ** Properties *)

Section Properties.
Variable env : Env.
Context {Sem : Type} {ops : Semaphore Sem} {laws : SemaphoreLaws Sem}.

Lemma small_gate_bounded (g : Gate (Sem := Sem)) :
  total_units env < 2 ^ 32 ->
  rtc (gate_rel_small env) (gate_init env) g ->
  memory g <= total_units env * BASE_UNIT_BYTES.
Proof.
  intros Ht Hr.
  assert (Hg : gate_ok env g).
  { apply (invariant_reachable (gate_rel_small env) _ (gate_init env));
      [|exact (gate_ok_init env)|exact Hr].
    intros a b Ha (l & Hl & _). apply (gate_ok_invariant env a b Ha). by exists l. }
  assert (Hs : jobs_small env g).
  { by apply (invariant_reachable _ _ (gate_init env) _ (jobs_small_invariant env)). }
  pose proof (memory_held env g Ht (proj2 Hs)) as Hm.
  destruct Hg. unfold BASE_UNIT_BYTES in *. nia.
Qed.

(** The admission gate bounds memory.  If every execution that arrives asks
    for at most the whole budget, then in every reachable state the memory limits
    of the running executions together stay within [total_units] units of
    256 MB - for any order of arrivals, admissions, completions and
    cancellations. *)
Theorem gate_memory_bounded (g : Gate (Sem := Sem)) :
  total_units env < 2 ^ 32 ->
  rtc (gate_rel_small env) (gate_init env) g ->
  memory g <= total_units env * BASE_UNIT_BYTES.
Proof. exact (small_gate_bounded g). Qed.

(** C21. No execution waits forever for permits that do not exist: from every
    reachable state with a waiter, once the running executions have finished the
    oldest waiter is admitted, whatever memory it asked for. *)
Theorem gate_no_deadlock (g : Gate (Sem := Sem)) e w :
  total_units env < 2 ^ 32 ->
  rtc (gate_rel env) (gate_init env) g -> waiting g = e :: w ->
  exists g', run_labels (gate_step env) (finish_all g ++ [Admit]) g = Some g' /\
             running g' = [e] /\ waiting g' = w.
Proof.
  intros Ht Hr Hw. destruct (gate_ok_reachable env g Hr) as [Hc _].
  destruct (run_finish_all env g) as (s & Hrun & Hs).
  rewrite run_labels_app, Hrun. cbn. rewrite Hw. cbn.
  pose proof (acquire_spec (units env e) s (units_nonneg env e)) as A.
  assert (units env e <= total_units env).
  { unfold units, units_for, wrap32. pose proof (total_units_bounds env).
    rewrite Z.mod_small; lia. }
  destruct (try_acquire_many (units env e) s) as [s'|]; [|lia].
  by eexists.
Qed.

(** A job can always be admitted on its own: for every memory request the
    number of permits is at least one and at most the budget, and below the
    64-bit wrap-around point it is [ceil(mem / 256 MB)] clamped to the budget. *)
Theorem units_for_spec mem :
  0 <= mem <= u64_max -> total_units env <= u32_max ->
  1 <= units_for env mem <= total_units env /\
  (mem <= u64_max - BASE_UNIT_BYTES ->
   units_for env mem = Z.min (Z.max (ceil_div mem BASE_UNIT_BYTES) 1) (total_units env)).
Proof.
  intros Hm Ht. split.
  - pose proof (total_units_bounds env). unfold units_for, wrap32, u32_max in *.
    generalize (wrap64 (mem + BASE_UNIT_BYTES - 1) / BASE_UNIT_BYTES). intros q.
    rewrite Z.mod_small by lia. lia.
  - intros Hs. apply units_for_exact; [lia|done].
Qed.

(** The wrap-around that [units_for] does not guard against: a request within
    256 MB of the 64-bit maximum is charged a single unit, whatever the budget. *)
Theorem units_for_overflow mem :
  u64_max - BASE_UNIT_BYTES + 1 < mem <= u64_max -> units_for env mem = 1.
Proof.
  intros Hm. unfold units_for, wrap64, wrap32, BASE_UNIT_BYTES, u64_max in *.
  pose proof (total_units_bounds env).
  replace (mem + 256 * 1024 * 1024 - 1)
    with (mem + 256 * 1024 * 1024 - 1 - 2 ^ 64 + 1 * 2 ^ 64) by lia.
  rewrite Z.mod_add by lia. rewrite (Z.mod_small (_ - 2 ^ 64)) by lia.
  rewrite Z.div_small by lia. by rewrite Z.min_l by lia.
Qed.
End Properties.

(** The size suffixes of [parse_bytes], both cases, with their multipliers. *)
Definition size_suffixes : list (bytes * Z) :=
  [([], 1); (["k"%char], 1024); (["K"%char], 1024);
   (["m"%char], 1024 * 1024); (["M"%char], 1024 * 1024);
   (["g"%char], 1024 * 1024 * 1024); (["G"%char], 1024 * 1024 * 1024)].

Lemma suffix_mult_digit a : is_digit a = true -> suffix_mult (ascii_lower a) = None.
Proof.
  unfold is_digit, suffix_mult, ascii_lower. intros H.
  destruct ((65 <=? code a) && (code a <=? 90)) eqn:E; [lia|].
  repeat (case_decide; [subst a; vm_compute in H; lia|]). done.
Qed.

Lemma parse_bytes_number l n mult (sfx : bytes) :
  (sfx, mult) ∈ size_suffixes -> u64 n -> trim l = of_bytes (decimal n ++ sfx) ->
  parse_bytes l = Some (saturating_mul n mult).
Proof.
  intros Hs Hn Hl. unfold parse_bytes. rewrite Hl, as_of_bytes, rev_app_distr.
  assert (0 <= n) as Hn0 by (unfold u64 in Hn; lia).
  assert (N : parse_u64 (trim (of_bytes (decimal n))) = Some n).
  { rewrite <- show_Z_nonneg, trim_show by done. by apply parse_show_u64. }
  unfold size_suffixes in Hs. repeat (apply elem_of_cons in Hs as [Hs|Hs]);
    [..|by apply elem_of_nil in Hs].
  2-7: injection Hs as -> ->; cbn [rev app]; rewrite rev_involutive;
       match goal with |- context [suffix_mult ?x] =>
         let v := eval vm_compute in (suffix_mult x) in change (suffix_mult x) with v end;
       cbv beta iota zeta; by rewrite N.
  injection Hs as -> ->. cbn [rev app].
  destruct (exists_last (l := decimal n)) as (m & b & E).
  { destruct (decimal_cons n Hn0) as (a & r & -> & _). done. }
  pose proof (decimal_digits n Hn0) as D. rewrite E, forallb_app in D.
  apply andb_prop in D as [_ Db]. cbn in Db. rewrite andb_true_r in Db.
  rewrite E, rev_app_distr. cbn [rev app]. rewrite suffix_mult_digit by done.
  rewrite app_nil_r, <- E. cbv beta iota zeta. by rewrite N.
Qed.

(** Every byte count the configuration documents is read back: a decimal
    [u64], an optional [k]/[m]/[g] suffix in either case, and any surrounding
    ASCII whitespace parse to the value times its 1024-based multiplier, clamped
    at the 64-bit maximum. *)
Theorem parse_bytes_roundtrip n mult (sfx p q : bytes) :
  (sfx, mult) ∈ size_suffixes -> u64 n ->
  forallb ascii_ws p = true -> forallb ascii_ws q = true ->
  forallb is_ascii (p ++ q) = true ->
  parse_bytes (of_bytes (p ++ (decimal n ++ sfx) ++ q)) = Some (saturating_mul n mult).
Proof.
  intros Hs Hn Hp Hq Hpq. assert (0 <= n) as Hn0 by (unfold u64 in Hn; lia).
  apply (parse_bytes_number _ n mult sfx); [done|done|].
  rewrite forallb_app in Hpq. apply andb_prop in Hpq as [Ap Aq].
  destruct (decimal_cons n Hn0) as (a & r & E & Ha).
  assert (As : forallb is_ascii sfx = true /\
               (sfx = [] \/ exists b, sfx = [b] /\ ascii_ws b = false)).
  { unfold size_suffixes in Hs. repeat (apply elem_of_cons in Hs as [Hs|Hs]);
      [..|by apply elem_of_nil in Hs]; injection Hs as -> ->; eauto. }
  destruct As as [As Hsfx]. apply trim_pad; [|done|done|].
  - by rewrite !forallb_app, Ap, As, Aq, decimal_ascii.
  - destruct Hsfx as [->|(b & -> & Hb)].
    + rewrite app_nil_r. by apply decimal_tight.
    + exists a, (r ++ [b]), b, (decimal n). rewrite E.
      repeat split; [|done]. by apply ascii_ws_digit.
Qed.


Import Counter.

Definition no_env : Env := fun _ => None.

Lemma gate_memory_bounded_witness :
  exists g : Gate (Sem := Z), length (running g) = 2%nat /\ memory g <= 3 * BASE_UNIT_BYTES.
Proof.
  eexists (MkGate 0 [MkExecution 3 100] [MkExecution 2 (257 * MiB); MkExecution 1 MiB]).
  split; [done|]. apply (gate_memory_bounded no_env); [vm_compute; done|].
  eapply rtc_l; [exists (Arrive (MkExecution 1 MiB)); split; [done|vm_compute; done]|].
  eapply rtc_l; [exists (Arrive (MkExecution 2 (257 * MiB))); split; [done|vm_compute; done]|].
  eapply rtc_l; [exists Admit; split; [done|done]|].
  eapply rtc_l; [exists Admit; split; [done|done]|].
  eapply rtc_l; [exists (Arrive (MkExecution 3 100)); split; [done|vm_compute; done]|].
  apply rtc_refl.
Defined.

Lemma gate_no_deadlock_witness :
  exists g', run_labels (gate_step no_env)
    (finish_all (MkGate 0 [MkExecution 2 (64 * 1024 * MiB)] [MkExecution 1 (600 * MiB)]) ++ [Admit])
    (MkGate 0 [MkExecution 2 (64 * 1024 * MiB)] [MkExecution 1 (600 * MiB)]) = Some g' /\
    running g' = [MkExecution 2 (64 * 1024 * MiB)] /\ waiting g' = [].
Proof.
  apply (gate_no_deadlock (Sem := Z) no_env); [vm_compute; done| |done].
  eapply rtc_l; [by exists (Arrive (MkExecution 1 (600 * MiB)))|].
  eapply rtc_l; [by exists Admit|].
  eapply rtc_l; [by exists (Arrive (MkExecution 2 (64 * 1024 * MiB)))|].
  apply rtc_refl.
Defined.

Lemma units_for_spec_witness : 1 <= units_for no_env (300 * MiB) <= 3.
Proof. apply (units_for_spec no_env); vm_compute; done. Defined.

Lemma units_for_overflow_witness : units_for no_env u64_max = 1.
Proof. apply units_for_overflow. vm_compute. done. Defined.

Lemma parse_bytes_roundtrip_witness : parse_bytes "  768M  " = Some (768 * MiB).
Proof.
  apply (parse_bytes_roundtrip 768 MiB ["M"%char] [" "%char; " "%char] [" "%char; " "%char]);
    [unfold size_suffixes, MiB; set_solver|vm_compute; done|done|done|done].
Defined.
