(* ===== verification/Languages.v ===== *)
(** * Supported languages and their runners

    [src/src/languages/mod.rs] (the language enumeration, its names and aliases,
    the whitelist parser, the [LanguageRunner] trait) and one runner per language
    from [src/src/languages/*.rs].  A [Box<dyn LanguageRunner>] is a record of
    operations; [get_runner] is the dispatch. *)

From S2P Require Import Prelude Config.

Inductive SupportedLanguage : Type :=
  | C | Cpp | Rust | Go | Python | PyPy | Java | Kotlin | CSharp | Zig | Ruby
  | Php | Haskell | Dart | Scala | JavaScript | TypeScript | Sql.

#[export] Instance SupportedLanguage_eq_dec : EqDecision SupportedLanguage.
Proof. solve_decision. Defined.

(** [match t { "a" | "b" => .. }] on a lowercased string. *)
Definition is_one_of (t : string) (ks : list string) : bool := existsb (String.eqb t) ks.

Definition from_str (s : string) : option SupportedLanguage :=
  let t := to_lowercase s in
  if is_one_of t ["c"%string] then Some C
  else if is_one_of t ["cpp"; "c++"]%string then Some Cpp
  else if is_one_of t ["rust"; "rs"]%string then Some Rust
  else if is_one_of t ["go"; "golang"]%string then Some Go
  else if is_one_of t ["python"; "py"; "python3"; "cpython"]%string then Some Python
  else if is_one_of t ["pypy"; "pypy3"]%string then Some PyPy
  else if is_one_of t ["java"%string] then Some Java
  else if is_one_of t ["kotlin"; "kt"]%string then Some Kotlin
  else if is_one_of t ["csharp"; "cs"; "c#"]%string then Some CSharp
  else if is_one_of t ["zig"%string] then Some Zig
  else if is_one_of t ["ruby"; "rb"]%string then Some Ruby
  else if is_one_of t ["php"%string] then Some Php
  else if is_one_of t ["haskell"; "hs"; "ghc"]%string then Some Haskell
  else if is_one_of t ["dart"%string] then Some Dart
  else if is_one_of t ["scala"; "scalac"]%string then Some Scala
  else if is_one_of t ["javascript"; "js"]%string then Some JavaScript
  else if is_one_of t ["typescript"; "ts"]%string then Some TypeScript
  else if is_one_of t ["sql"; "sqlite"; "sqlite3"]%string then Some Sql
  else None.

Definition as_str (l : SupportedLanguage) : string :=
  match l with
  | C => "c" | Cpp => "cpp" | Rust => "rust" | Go => "go" | Python => "python"
  | PyPy => "pypy" | Java => "java" | Kotlin => "kotlin" | CSharp => "csharp"
  | Zig => "zig" | Ruby => "ruby" | Php => "php" | Haskell => "haskell"
  | Dart => "dart" | Scala => "scala" | JavaScript => "javascript"
  | TypeScript => "typescript" | Sql => "sql"
  end.

Definition all_canonical_names : list string :=
  ["c"; "cpp"; "rust"; "go"; "python"; "pypy"; "java"; "kotlin";
   "csharp"; "zig"; "ruby"; "php"; "haskell"; "dart"; "scala";
   "javascript"; "typescript"; "sql"]%string.

Lemma from_str_as_str l : from_str (as_str l) = Some l.
Proof. by destruct l. Qed.

(** The canonical names make the languages countable, so that a Rust
    [HashSet<SupportedLanguage>] is a [gset]. *)
#[export] Instance SupportedLanguage_countable : Countable SupportedLanguage :=
  inj_countable as_str from_str from_str_as_str.

Definition parse_whitelist (input : string) : gset SupportedLanguage :=
  foldl (fun set item =>
           let trimmed := trim item in
           if is_empty trimmed then set
           else match from_str trimmed with
                | Some lang => {[lang]} ∪ set
                | None => set
                end)
        ∅ (split ","%char input).

(* ------------------------------------------------------------------ *)
(** ** The runner trait *)

Record LanguageRunner : Type := MkRunner {
  language : SupportedLanguage;
  is_compiled : bool;
  get_source_filename : string;
  max_pids : Z;
  (** [src_path], [bin_path] *)
  get_compile_command : string -> string -> option SandboxConfig;
  (** [bin_path], [test_stdin], [time_limit_ms], [memory_limit_bytes] *)
  get_run_command : string -> bytes -> Z -> Z -> SandboxConfig
}.

(** The trait's default [max_pids]. *)
Definition default_max_pids : Z := 2.

(** The suffix every [get_run_command] ends with. *)
Definition feed (c : SandboxConfig) (input : bytes) (t m : Z) : SandboxConfig :=
  c .> with_stdin input .> with_time_limit t .> with_memory_limit m
    .> with_max_output (10 * 1024 * 1024).

Definition limits (c : SandboxConfig) (t m : Z) : SandboxConfig :=
  c .> with_time_limit t .> with_memory_limit m.

Definition or_else (o : option string) (d : string) : string :=
  match o with Some s => s | None => d end.

(* ------------------------------------------------------------------ *)
(** ** The eighteen runners *)

Module CRunner.
Definition get_compile_command (src_path bin_path : string) : option SandboxConfig :=
  Some (limits (SandboxConfig.new "/usr/bin/gcc" .> with_args
    ["-O3"; "-pipe"; "-std=c17"; "-o"; to_string_lossy bin_path; to_string_lossy src_path]%string) 10000 (512 * 1024 * 1024)).
Definition get_run_command (bin_path : string) (test_stdin : bytes)
  (time_limit_ms memory_limit_bytes : Z) : SandboxConfig :=
  feed (SandboxConfig.new bin_path) test_stdin time_limit_ms memory_limit_bytes.
Definition runner : LanguageRunner :=
  MkRunner C true "main.c"%string default_max_pids get_compile_command get_run_command.
End CRunner.

Module CppRunner.
Definition get_compile_command (src_path bin_path : string) : option SandboxConfig :=
  Some (limits (SandboxConfig.new "/usr/bin/g++" .> with_args
    ["-O3"; "-pipe"; "-std=c++20"; "-ftemplate-depth=128"; "-o";
     to_string_lossy bin_path; to_string_lossy src_path]%string) 10000 (512 * 1024 * 1024)).
Definition get_run_command (bin_path : string) (test_stdin : bytes)
  (time_limit_ms memory_limit_bytes : Z) : SandboxConfig :=
  feed (SandboxConfig.new bin_path) test_stdin time_limit_ms memory_limit_bytes.
Definition runner : LanguageRunner :=
  MkRunner Cpp true "main.cpp"%string default_max_pids get_compile_command get_run_command.
End CppRunner.

Module RustRunner.
Definition get_compile_command (src_path bin_path : string) : option SandboxConfig :=
  Some (limits (SandboxConfig.new "/usr/bin/rustc" .> with_args
    ["-O"; "-o"; to_string_lossy bin_path; to_string_lossy src_path]%string) 15000 (512 * 1024 * 1024)).
Definition get_run_command (bin_path : string) (test_stdin : bytes)
  (time_limit_ms memory_limit_bytes : Z) : SandboxConfig :=
  feed (SandboxConfig.new bin_path) test_stdin time_limit_ms memory_limit_bytes.
Definition runner : LanguageRunner :=
  MkRunner Rust true "main.rs"%string default_max_pids get_compile_command get_run_command.
End RustRunner.

Module GoRunner.
Definition get_compile_command (src_path bin_path : string) : option SandboxConfig :=
  Some (limits (SandboxConfig.new "/usr/bin/go" .> with_args
    ["build"; "-ldflags=-s -w"; "-o"; to_string_lossy bin_path; to_string_lossy src_path]%string) 10000 (512 * 1024 * 1024)).
Definition get_run_command (bin_path : string) (test_stdin : bytes)
  (time_limit_ms memory_limit_bytes : Z) : SandboxConfig :=
  feed (SandboxConfig.new bin_path) test_stdin time_limit_ms memory_limit_bytes.
Definition runner : LanguageRunner :=
  MkRunner Go true "main.go"%string 8 get_compile_command get_run_command.
End GoRunner.

Module PythonRunner.
Definition get_compile_command (src_path bin_path : string) : option SandboxConfig := None.
Definition get_run_command (bin_path : string) (test_stdin : bytes)
  (time_limit_ms memory_limit_bytes : Z) : SandboxConfig :=
  feed (SandboxConfig.new "/usr/bin/python3" .> with_args
    ["-B"; "-O"; to_string_lossy bin_path]%string) test_stdin time_limit_ms memory_limit_bytes.
Definition runner : LanguageRunner :=
  MkRunner Python false "main.py"%string default_max_pids get_compile_command get_run_command.
End PythonRunner.

Module PyPyRunner.
Definition get_compile_command (src_path bin_path : string) : option SandboxConfig := None.
Definition get_run_command (bin_path : string) (test_stdin : bytes)
  (time_limit_ms memory_limit_bytes : Z) : SandboxConfig :=
  feed (SandboxConfig.new "/usr/bin/pypy3" .> with_args
    ["-B"; "-O"; to_string_lossy bin_path]%string) test_stdin time_limit_ms memory_limit_bytes.
Definition runner : LanguageRunner :=
  MkRunner PyPy false "main.py"%string default_max_pids get_compile_command get_run_command.
End PyPyRunner.

Module JavaRunner.
Definition get_compile_command (src_path bin_path : string) : option SandboxConfig :=
  Some (limits (SandboxConfig.new "/usr/bin/javac" .> with_args
    [to_string_lossy src_path]) 15000 (384 * 1024 * 1024)).
Definition get_run_command (bin_path : string) (test_stdin : bytes)
  (time_limit_ms memory_limit_bytes : Z) : SandboxConfig :=
  let mem_mb := memory_limit_bytes / (1024 * 1024) in
  feed (SandboxConfig.new "/usr/bin/java" .> with_args
    ["-Xmx" +:+ show_Z mem_mb +:+ "m"; "-Xms" +:+ show_Z (mem_mb / 2) +:+ "m";
     "-Xss1m"; "-Xshare:on"; "-XX:+UseSerialGC"; "-XX:TieredStopAtLevel=1";
     "-XX:ActiveProcessorCount=1"; "-XX:CICompilerCount=2"; "-cp"; "/sandbox";
     "Solution"]%string) test_stdin time_limit_ms memory_limit_bytes.
Definition runner : LanguageRunner :=
  MkRunner Java true "Solution.java"%string 24 get_compile_command get_run_command.
End JavaRunner.

Module KotlinRunner.
Definition get_compile_command (src_path bin_path : string) : option SandboxConfig :=
  let jar_path := to_string_lossy
    (path_join (or_else (path_parent src_path) ".") "Solution.jar") in
  Some (limits (SandboxConfig.new "/usr/bin/java" .> with_args
    ["-Xmx384m"; "-XX:+UseSerialGC"; "-XX:TieredStopAtLevel=1"; "-cp";
     "/opt/kotlinc/lib/kotlin-compiler.jar";
     "org.jetbrains.kotlin.cli.jvm.K2JVMCompiler";
     to_string_lossy src_path; "-d"; jar_path; "-nowarn"]%string) 15000 (512 * 1024 * 1024)).
Definition get_run_command (bin_path : string) (test_stdin : bytes)
  (time_limit_ms memory_limit_bytes : Z) : SandboxConfig :=
  let mem_mb := memory_limit_bytes / (1024 * 1024) in
  feed (SandboxConfig.new "/usr/bin/java" .> with_args
    ["-Xmx" +:+ show_Z mem_mb +:+ "m"; "-Xms" +:+ show_Z (mem_mb / 2) +:+ "m";
     "-Xss1m"; "-XX:+UseSerialGC"; "-XX:TieredStopAtLevel=1";
     "-XX:ActiveProcessorCount=1"; "-cp";
     "/sandbox/Solution.jar:/opt/kotlinc/lib/kotlin-stdlib.jar";
     "SolutionKt"]%string) test_stdin time_limit_ms memory_limit_bytes.
Definition runner : LanguageRunner :=
  MkRunner Kotlin true "Solution.kt"%string 24 get_compile_command get_run_command.
End KotlinRunner.

Module CSharpRunner.
Definition get_compile_command (src_path bin_path : string) : option SandboxConfig :=
  Some (limits (SandboxConfig.new "/usr/bin/mono-csc" .> with_args
    ["-optimize+"; "-nologo"; "-out:" +:+ to_string_lossy bin_path; to_string_lossy src_path]%string) 10000 (512 * 1024 * 1024)).
Definition get_run_command (bin_path : string) (test_stdin : bytes)
  (time_limit_ms memory_limit_bytes : Z) : SandboxConfig :=
  feed (SandboxConfig.new "/usr/bin/mono" .> with_args
    ["--gc=sgen"; to_string_lossy bin_path]%string) test_stdin time_limit_ms memory_limit_bytes.
Definition runner : LanguageRunner :=
  MkRunner CSharp true "Solution.cs"%string 16 get_compile_command get_run_command.
End CSharpRunner.

Module ZigRunner.
Definition get_compile_command (src_path bin_path : string) : option SandboxConfig :=
  Some (limits (SandboxConfig.new "/usr/local/bin/zig" .> with_args
    ["build-exe"; to_string_lossy src_path; "-O"; "ReleaseFast";
     "-femit-bin=" +:+ to_string_lossy bin_path]%string) 15000 (512 * 1024 * 1024)).
Definition get_run_command (bin_path : string) (test_stdin : bytes)
  (time_limit_ms memory_limit_bytes : Z) : SandboxConfig :=
  feed (SandboxConfig.new bin_path) test_stdin time_limit_ms memory_limit_bytes.
Definition runner : LanguageRunner :=
  MkRunner Zig true "Solution.zig"%string 2 get_compile_command get_run_command.
End ZigRunner.

Module RubyRunner.
Definition get_compile_command (src_path bin_path : string) : option SandboxConfig := None.
Definition get_run_command (bin_path : string) (test_stdin : bytes)
  (time_limit_ms memory_limit_bytes : Z) : SandboxConfig :=
  feed (SandboxConfig.new "/usr/bin/ruby" .> with_args
    ["--disable-gems"; to_string_lossy bin_path]%string) test_stdin time_limit_ms memory_limit_bytes.
Definition runner : LanguageRunner :=
  MkRunner Ruby false "Solution.rb"%string 4 get_compile_command get_run_command.
End RubyRunner.

Module PhpRunner.
Definition get_compile_command (src_path bin_path : string) : option SandboxConfig := None.
Definition get_run_command (bin_path : string) (test_stdin : bytes)
  (time_limit_ms memory_limit_bytes : Z) : SandboxConfig :=
  feed (SandboxConfig.new "/usr/bin/php" .> with_args
    ["-f"; to_string_lossy bin_path]%string) test_stdin time_limit_ms memory_limit_bytes.
Definition runner : LanguageRunner :=
  MkRunner Php false "Solution.php"%string 4 get_compile_command get_run_command.
End PhpRunner.

Module HaskellRunner.
Definition get_compile_command (src_path bin_path : string) : option SandboxConfig :=
  Some (limits (SandboxConfig.new "/usr/bin/ghc" .> with_args
    ["-O2"; "-v0"; to_string_lossy src_path; "-o"; to_string_lossy bin_path]%string) 15000 (512 * 1024 * 1024)).
Definition get_run_command (bin_path : string) (test_stdin : bytes)
  (time_limit_ms memory_limit_bytes : Z) : SandboxConfig :=
  feed (SandboxConfig.new bin_path) test_stdin time_limit_ms memory_limit_bytes.
Definition runner : LanguageRunner :=
  MkRunner Haskell true "Solution.hs"%string 4 get_compile_command get_run_command.
End HaskellRunner.

Module DartRunner.
Definition get_compile_command (src_path bin_path : string) : option SandboxConfig :=
  Some (limits (SandboxConfig.new "/usr/bin/dart" .> with_args
    ["compile"; "exe"; to_string_lossy src_path; "-o"; to_string_lossy bin_path]%string) 15000 (512 * 1024 * 1024)).
Definition get_run_command (bin_path : string) (test_stdin : bytes)
  (time_limit_ms memory_limit_bytes : Z) : SandboxConfig :=
  feed (SandboxConfig.new bin_path) test_stdin time_limit_ms memory_limit_bytes.
Definition runner : LanguageRunner :=
  MkRunner Dart true "Solution.dart"%string 4 get_compile_command get_run_command.
End DartRunner.

Module ScalaRunner.
Definition get_compile_command (src_path bin_path : string) : option SandboxConfig :=
  let dest_dir := or_else (path_parent bin_path) "/sandbox" in
  Some (limits (SandboxConfig.new "/usr/bin/scalac" .> with_args
    ["-d"; to_string_lossy dest_dir; to_string_lossy src_path]%string) 20000 (512 * 1024 * 1024)).
Definition get_run_command (bin_path : string) (test_stdin : bytes)
  (time_limit_ms memory_limit_bytes : Z) : SandboxConfig :=
  let dest_dir := or_else (path_parent bin_path) "/sandbox" in
  let classpath := (to_string_lossy dest_dir +:+ ":/usr/share/java/scala-library.jar")%string in
  feed (SandboxConfig.new "/usr/bin/java" .> with_args
    ["-cp"; classpath; "-XX:+TieredCompilation"; "-XX:TieredStopAtLevel=1";
     "-XX:+UseSerialGC"; "-Xms16m"; "-Xmx128m"; "Solution"]%string) test_stdin time_limit_ms memory_limit_bytes.
Definition runner : LanguageRunner :=
  MkRunner Scala true "Solution.scala"%string 16 get_compile_command get_run_command.
End ScalaRunner.

Module JavaScriptRunner.
Definition get_compile_command (src_path bin_path : string) : option SandboxConfig := None.
Definition get_run_command (bin_path : string) (test_stdin : bytes)
  (time_limit_ms memory_limit_bytes : Z) : SandboxConfig :=
  feed (SandboxConfig.new "/usr/local/bin/bun" .> with_args
    ["run"; "--no-addons"; to_string_lossy bin_path]%string) test_stdin time_limit_ms memory_limit_bytes.
Definition runner : LanguageRunner :=
  MkRunner JavaScript false "solution.js"%string 12 get_compile_command get_run_command.
End JavaScriptRunner.

Module TypeScriptRunner.
Definition get_compile_command (src_path bin_path : string) : option SandboxConfig := None.
Definition get_run_command (bin_path : string) (test_stdin : bytes)
  (time_limit_ms memory_limit_bytes : Z) : SandboxConfig :=
  feed (SandboxConfig.new "/usr/local/bin/bun" .> with_args
    ["run"; "--no-addons"; to_string_lossy bin_path]%string) test_stdin time_limit_ms memory_limit_bytes.
Definition runner : LanguageRunner :=
  MkRunner TypeScript false "solution.ts"%string 12 get_compile_command get_run_command.
End TypeScriptRunner.

(** The shell pipeline the SQL runner hands to [/bin/sh -c]. *)
Definition sql_cmd : string := "
            (
                if [ -f /sandbox/init.sql ]; then cat /sandbox/init.sql; fi
                cat /sandbox/solution.sql
                if [ -f /sandbox/verify.sql ]; then cat /sandbox/verify.sql; fi
                cat -
            ) | sqlite3 -safe -header -csv :memory:
        ".

Module SqlRunner.
Definition get_compile_command (src_path bin_path : string) : option SandboxConfig := None.
Definition get_run_command (bin_path : string) (test_stdin : bytes)
  (time_limit_ms memory_limit_bytes : Z) : SandboxConfig :=
  feed (SandboxConfig.new "/bin/sh" .> with_args
    ["-c"; sql_cmd]%string) test_stdin time_limit_ms memory_limit_bytes.
Definition runner : LanguageRunner :=
  MkRunner Sql false "solution.sql"%string 16 get_compile_command get_run_command.
End SqlRunner.

Definition get_runner (l : SupportedLanguage) : LanguageRunner :=
  match l with
  | C => CRunner.runner
  | Cpp => CppRunner.runner
  | Rust => RustRunner.runner
  | Go => GoRunner.runner
  | Python => PythonRunner.runner
  | PyPy => PyPyRunner.runner
  | Java => JavaRunner.runner
  | Kotlin => KotlinRunner.runner
  | CSharp => CSharpRunner.runner
  | Zig => ZigRunner.runner
  | Ruby => RubyRunner.runner
  | Php => PhpRunner.runner
  | Haskell => HaskellRunner.runner
  | Dart => DartRunner.runner
  | Scala => ScalaRunner.runner
  | JavaScript => JavaScriptRunner.runner
  | TypeScript => TypeScriptRunner.runner
  | Sql => SqlRunner.runner
  end.
(* ------------------------------------------------------------------ *)
(** ** Lemmas *)

Definition all_languages : list SupportedLanguage :=
  [C; Cpp; Rust; Go; Python; PyPy; Java; Kotlin; CSharp; Zig; Ruby; Php; Haskell;
   Dart; Scala; JavaScript; TypeScript; Sql].

Lemma canonical_names_of_languages : all_canonical_names = map as_str all_languages.
Proof. done. Qed.

Lemma from_str_lower s t : to_lowercase s = to_lowercase t -> from_str s = from_str t.
Proof. unfold from_str. by intros ->. Qed.

Lemma is_one_of_spec t ks : is_one_of t ks = true <-> t ∈ ks.
Proof.
  unfold is_one_of. rewrite existsb_exists. split.
  - intros (k & Hk & ->%String.eqb_eq). by apply list_elem_of_In.
  - intros H. exists t. split; [by apply list_elem_of_In|apply String.eqb_refl].
Qed.

Lemma whitelist_fold l items set :
  l ∈ foldl (fun (set : gset SupportedLanguage) item =>
               let trimmed := trim item in
               if is_empty trimmed then set
               else match from_str trimmed with
                    | Some lang => {[lang]} ∪ set
                    | None => set
                    end) set items
  <-> l ∈ set \/ exists item, item ∈ items /\ from_str (trim item) = Some l.
Proof.
  revert set. induction items as [|i items IH]; intros set; cbn [foldl].
  { split; [by left|]. intros [H|(item & H & _)]; [done|by apply elem_of_nil in H]. }
  rewrite IH. setoid_rewrite elem_of_cons. cbv zeta.
  assert (E : is_empty (trim i) = true -> from_str (trim i) = None) by
    by destruct (trim i).
  destruct (is_empty (trim i)).
  - split; [intros [H|(item & H & F)]; eauto|]. intros [H|(item & [->|H] & F)]; [by left| |by eauto].
    rewrite E in F by done. done.
  - destruct (from_str (trim i)) as [k|] eqn:F.
    + rewrite elem_of_union, elem_of_singleton. split.
      * intros [[->|H]|(item & H & F')]; eauto.
      * intros [H|(item & [->|H] & F')]; eauto. left. left. congruence.
    + split; [intros [H|(item & H & F')]; eauto|].
      intros [H|(item & [->|H] & F')]; eauto. congruence.
Qed.

(** What the pipeline relies on from every runner (the promise of the trait). *)
Class RunnerOk (r : LanguageRunner) : Prop := {
  run_stdin b i t m : stdin_data (get_run_command r b i t m) = Some i;
  run_time b i t m : time_limit_ms (get_run_command r b i t m) = t;
  run_wall b i t m : wall_time_limit_ms (get_run_command r b i t m) = wall_of t;
  run_memory b i t m : memory_limit_bytes (get_run_command r b i t m) = m;
  run_output b i t m : max_output_bytes (get_run_command r b i t m) = 10 * MiB;
  run_isolated b i t m : isolated (get_run_command r b i t m);
  run_jail b i t m : jail_id (get_run_command r b i t m) = ""%string;
  run_readonly b i t m : fs_readonly_paths (get_run_command r b i t m) = default_readonly_paths;
  compile_iff : is_compiled r = true <-> forall s b, is_Some (get_compile_command r s b);
  compile_none : is_compiled r = false -> forall s b, get_compile_command r s b = None;
  compile_time s b c : get_compile_command r s b = Some c ->
    10000 <= time_limit_ms c <= 20000;
  compile_memory s b c : get_compile_command r s b = Some c ->
    0 < memory_limit_bytes c <= 512 * MiB;
  compile_stdin s b c : get_compile_command r s b = Some c -> stdin_data c = None;
  pids_range : 2 <= max_pids r <= 24
}.

(** The documented names of each language. *)
Definition aliases (l : SupportedLanguage) : list string :=
  match l with
  | C => ["c"] | Cpp => ["cpp"; "c++"] | Rust => ["rust"; "rs"] | Go => ["go"; "golang"]
  | Python => ["python"; "py"; "python3"; "cpython"] | PyPy => ["pypy"; "pypy3"]
  | Java => ["java"] | Kotlin => ["kotlin"; "kt"] | CSharp => ["csharp"; "cs"; "c#"]
  | Zig => ["zig"] | Ruby => ["ruby"; "rb"] | Php => ["php"]
  | Haskell => ["haskell"; "hs"; "ghc"] | Dart => ["dart"] | Scala => ["scala"; "scalac"]
  | JavaScript => ["javascript"; "js"] | TypeScript => ["typescript"; "ts"]
  | Sql => ["sql"; "sqlite"; "sqlite3"]
  end%string.

Lemma from_str_lowered t l :
  to_lowercase t = t -> t ∈ aliases l -> from_str t = Some l.
Proof.
  intros Ht Hl. destruct l; cbn in Hl;
    repeat (apply elem_of_cons in Hl as [->|Hl]; [done|]); by apply elem_of_nil in Hl.
Qed.

Lemma aliases_lower l t : t ∈ aliases l -> to_lowercase t = t.
Proof.
  intros Hl. destruct l; cbn in Hl;
    repeat (apply elem_of_cons in Hl as [->|Hl]; [done|]); by apply elem_of_nil in Hl.
Qed.

Lemma from_str_alias s l : to_lowercase s ∈ aliases l -> from_str s = Some l.
Proof.
  intros H. pose proof (aliases_lower l _ H) as I.
  rewrite (from_str_lower s (to_lowercase s)) by by rewrite I. by apply from_str_lowered.
Qed.

Lemma from_str_inv s l : from_str s = Some l -> to_lowercase s ∈ aliases l.
Proof.
  unfold from_str.
  repeat match goal with
  | |- (if is_one_of ?t ?ks then _ else _) = _ -> _ =>
      destruct (is_one_of t ks) eqn:E; [intros [= <-]; by apply is_one_of_spec in E|clear E]
  end. done.
Qed.

Lemma compile_iff_all l :
  is_compiled (get_runner l) = true <->
  forall s b, is_Some (get_compile_command (get_runner l) s b).
Proof.
  destruct l; cbn; (split; [try done; intros _ s b; by eexists|try done]);
    intros H; by destruct (H ""%string ""%string).
Qed.

(** Every runner is an instance of the interface. *)
#[export] Instance runner_instance l : RunnerOk (get_runner l).
Proof.
  split; try apply compile_iff_all.
  1-9: by destruct l; repeat split.
  1-3: intros s b c E; destruct l; (discriminate E || injection E as <-); cbn; unfold MiB;
       (done || lia).
  destruct l; cbn; unfold default_max_pids; lia.
Qed.

(** A language name is accepted exactly when its lowercase form is one of the
    documented names of a language, and then that language is returned; every
    other name is unsupported. *)
Theorem from_str_spec s l : from_str s = Some l <-> to_lowercase s ∈ aliases l.
Proof. split; [apply from_str_inv|apply from_str_alias]. Qed.

(** The whitelist contains exactly the languages named by some comma-separated
    item once surrounding whitespace is trimmed; unknown and blank items are
    ignored, and the order and the number of occurrences do not matter. *)
Theorem parse_whitelist_spec input l :
  l ∈ parse_whitelist input <->
  exists item, item ∈ split ","%char input /\ to_lowercase (trim item) ∈ aliases l.
Proof.
  unfold parse_whitelist. rewrite whitelist_fold. split.
  - intros [H|(item & H & F)]; [by apply not_elem_of_empty in H|].
    exists item. split; [done|by apply from_str_inv].
  - intros (item & H & F). right. exists item. split; [done|by apply from_str_alias].
Qed.

(** C32. Every one of the eighteen runners keeps the promise the pipeline relies on:
    the run command carries the test input, the requested time and memory limits,
    the derived wall limit and full isolation; a compile command exists exactly for
    the compiled languages and stays within 20 s and 512 MB; process limits lie
    between 2 and 24. *)
Theorem get_runner_ok l : RunnerOk (get_runner l).
Proof. apply runner_instance. Qed.
