(* ===== verification/Job.v ===== *)
(** * Jobs

    [src/src/orchestrator/job.rs]: the request, verdict, progress and result types,
    the hard ceilings and [JobRequest::validate] with its messages. *)

From S2P Require Import Prelude Config.

Record TestCase : Type := MkTest { input : string; expected_output : option string }.

Definition default_time_limit_ms : Z := 2000.
Definition default_memory_limit_bytes : Z := 256 * 1024 * 1024.

Record JobRequest : Type := MkRequest {
  job_id : string;
  req_language : string;
  source_code : string;
  req_time_limit_ms : Z;
  req_memory_limit_bytes : Z;
  test_cases : list TestCase;
  stop_on_first_fail : option bool
}.

#[export] Instance TestCase_eq_dec : EqDecision TestCase.
Proof. solve_decision. Defined.
#[export] Instance JobRequest_eq_dec : EqDecision JobRequest.
Proof. solve_decision. Defined.

(** The field values serde supplies when the JSON object has none.  [uuid] is the
    fresh identifier of [Uuid::new_v4]. *)
Definition with_defaults (uuid : string) (id : option string) (lang src : string)
    (t m : option Z) (tests : list TestCase) (stop : option (option bool)) : JobRequest :=
  MkRequest (match id with Some i => i | None => uuid end) lang src
    (match t with Some v => v | None => default_time_limit_ms end)
    (match m with Some v => v | None => default_memory_limit_bytes end)
    tests (match stop with Some s => s | None => None end).

Definition JobRequest_new (uuid lang src : string) (t m : Z) (tests : list TestCase) : JobRequest :=
  MkRequest uuid lang src t m tests None.

Definition MAX_TEST_CASES : Z := 100.
Definition MAX_TESTCASE_BYTES : Z := 512 * 1024.
Definition MAX_SOURCE_BYTES : Z := 1024 * 1024.
Definition MAX_TIME_LIMIT_MS : Z := 60000.
Definition MAX_MEMORY_LIMIT_BYTES : Z := 2 * 1024 * 1024 * 1024.

(* ------------------------------------------------------------------ *)
(** ** validate *)

Open Scope string_scope.

(** One pass of the [for (i, tc) in .. enumerate()] loop. *)
Definition check_case (i : Z) (tc : TestCase) : result string unit :=
  if str_len (input tc) >? MAX_TESTCASE_BYTES then
    Err ("test case " +:+ show_Z i +:+ " input is " +:+ show_Z (str_len (input tc)) +:+
         " bytes (max " +:+ show_Z MAX_TESTCASE_BYTES +:+ ")")
  else match expected_output tc with
  | Some e =>
      if str_len e >? MAX_TESTCASE_BYTES then
        Err ("test case " +:+ show_Z i +:+ " expected_output is " +:+ show_Z (str_len e) +:+
             " bytes (max " +:+ show_Z MAX_TESTCASE_BYTES +:+ ")")
      else Ok tt
  | None => Ok tt
  end.

Fixpoint check_cases (i : Z) (tcs : list TestCase) : result string unit :=
  match tcs with
  | [] => Ok tt
  | tc :: tcs' => check_case i tc ≫= fun _ => check_cases (i + 1) tcs'
  end.

Definition n_tests (r : JobRequest) : Z := Z.of_nat (length (test_cases r)).

Definition out_of_range (name : string) (v max : Z) : string :=
  name +:+ " " +:+ show_Z v +:+ " out of range (1..=" +:+ show_Z max +:+ ")".

Definition validate (r : JobRequest) : result string unit :=
  if str_len (source_code r) >? MAX_SOURCE_BYTES then
    Err ("source_code is " +:+ show_Z (str_len (source_code r)) +:+ " bytes (max " +:+
         show_Z MAX_SOURCE_BYTES +:+ ")")
  else if decide (test_cases r = []) then Err "at least one test case is required"
  else if n_tests r >? MAX_TEST_CASES then
    Err ("too many test cases: " +:+ show_Z (n_tests r) +:+ " (max " +:+
         show_Z MAX_TEST_CASES +:+ ")")
  else
    check_cases 0 (test_cases r) ≫= fun _ =>
    if ((req_time_limit_ms r =? 0) || (req_time_limit_ms r >? MAX_TIME_LIMIT_MS))%Z then
      Err (out_of_range "time_limit_ms" (req_time_limit_ms r) MAX_TIME_LIMIT_MS)
    else if ((req_memory_limit_bytes r =? 0) ||
             (req_memory_limit_bytes r >? MAX_MEMORY_LIMIT_BYTES))%Z
    then Err (out_of_range "memory_limit_bytes" (req_memory_limit_bytes r) MAX_MEMORY_LIMIT_BYTES)
    else Ok tt.

Close Scope string_scope.

(* ------------------------------------------------------------------ *)
(** ** Verdicts, progress and results *)

Inductive JudgeVerdict : Type :=
  | Accepted
  | WrongAnswer
  | TimeLimitExceeded
  | MemoryLimitExceeded
  | RuntimeError
  | CompilationError.

#[export] Instance JudgeVerdict_eq_dec : EqDecision JudgeVerdict.
Proof. solve_decision. Defined.

Inductive ProgressEvent : Type :=
  | Compiling
  | Running (test_case total : Z)
  | TestResult (test_case : Z) (verdict : JudgeVerdict) (time_ms memory_kb : Z)
  | Finished (verdict : JudgeVerdict).

Record TestCaseResult : Type := MkTestResult {
  test_case_index : Z;
  tr_status : JudgeVerdict;
  tr_cpu_time_ms : Z;
  tr_memory_kb : Z;
  tr_stdout : bytes;
  tr_stderr : bytes
}.

Record JobResult : Type := MkResult {
  res_job_id : string;
  verdict : JudgeVerdict;
  total_cpu_time_ms : Z;
  peak_memory_kb : Z;
  compile_output : option string;
  test_results : list TestCaseResult
}.

#[export] Instance TestCaseResult_eq_dec : EqDecision TestCaseResult.
Proof. solve_decision. Defined.
#[export] Instance JobResult_eq_dec : EqDecision JobResult.
Proof. solve_decision. Defined.

Definition compilation_error (id msg : string) : JobResult :=
  MkResult id CompilationError 0 0 (Some msg) [].

(* ------------------------------------------------------------------ *)
(** ** Properties *)

(** What a validated request promises to the rest of the system. *)
Definition case_fits (tc : TestCase) : Prop :=
  str_len (input tc) <= MAX_TESTCASE_BYTES /\
  forall e, expected_output tc = Some e -> str_len e <= MAX_TESTCASE_BYTES.

Definition well_shaped (r : JobRequest) : Prop :=
  str_len (source_code r) <= MAX_SOURCE_BYTES /\
  1 <= n_tests r <= MAX_TEST_CASES /\
  Forall case_fits (test_cases r) /\
  1 <= req_time_limit_ms r <= MAX_TIME_LIMIT_MS /\
  1 <= req_memory_limit_bytes r <= MAX_MEMORY_LIMIT_BYTES.

(** The fields of a request decoded from JSON are in their Rust types. *)
Definition typed (r : JobRequest) : Prop :=
  u64 (req_time_limit_ms r) /\ u64 (req_memory_limit_bytes r).

Lemma check_case_ok i tc : check_case i tc = Ok tt <-> case_fits tc.
Proof.
  unfold check_case, case_fits. rewrite Z.gtb_ltb.
  destruct (Z.ltb_spec MAX_TESTCASE_BYTES (str_len (input tc))); [split; [done|lia]|].
  destruct (expected_output tc) as [e|]; [|by split; [split|]].
  rewrite Z.gtb_ltb. destruct (Z.ltb_spec MAX_TESTCASE_BYTES (str_len e)).
  - split; [done|]. intros [_ Hf]. specialize (Hf e eq_refl). lia.
  - split; [|done]. intros _. split; [done|]. intros e' [= <-]. done.
Qed.

Lemma check_cases_ok i tcs : check_cases i tcs = Ok tt <-> Forall case_fits tcs.
Proof.
  revert i. induction tcs as [|tc tcs IH]; intros i; cbn; [by split|].
  rewrite Forall_cons, <- (check_case_ok i), <- (IH (i + 1)).
  destruct (check_case i tc) as [[]|e]; cbn; [tauto|]. split; [done|by intros [? _]].
Qed.

(** The index in the message is the first offending case. *)
Lemma check_cases_err i tcs m :
  check_cases i tcs = Err m ->
  exists k tc, tcs !! k = Some tc /\ Forall case_fits (take k tcs) /\ ~ case_fits tc /\
               check_case (i + Z.of_nat k) tc = Err m.
Proof.
  revert i. induction tcs as [|tc tcs IH]; intros i; cbn; [done|].
  destruct (check_case i tc) as [[]|e] eqn:E; cbn.
  - intros H. destruct (IH _ H) as (k & tc' & Hk & Hf & Hn & Hm).
    exists (S k), tc'. cbn. repeat split; try done.
    + constructor; [by apply (check_case_ok i)|done].
    + by replace (i + Z.of_nat (S k)) with (i + 1 + Z.of_nat k) by lia.
  - intros [= ->]. exists 0%nat, tc. cbn. repeat split; [constructor| |by rewrite Z.add_0_r].
    rewrite <- (check_case_ok i), E. done.
Qed.

Lemma validate_iff r : typed r -> (validate r = Ok tt <-> well_shaped r).
Proof.
  intros [Ht Hm]. unfold u64 in *. unfold validate, well_shaped, n_tests. rewrite !Z.gtb_ltb.
  destruct (Z.ltb_spec MAX_SOURCE_BYTES (str_len (source_code r))); [split; [done|lia]|].
  destruct (decide (test_cases r = [])) as [->|Hne].
  { split; [done|]. intros (_ & H1 & _). cbn in H1. lia. }
  assert (0 < length (test_cases r))%nat by (destruct (test_cases r); [done|cbn; lia]).
  destruct (Z.ltb_spec MAX_TEST_CASES (Z.of_nat (length (test_cases r)))); [split; [done|lia]|].
  rewrite <- (check_cases_ok 0).
  destruct (check_cases 0 (test_cases r)) as [[]|e]; cbn; [|by split; [done|intros (_ & _ & ? & _)]].
  destruct (Z.eqb_spec (req_time_limit_ms r) 0); cbn; [split; [done|lia]|].
  destruct (Z.ltb_spec MAX_TIME_LIMIT_MS (req_time_limit_ms r)); [split; [done|lia]|].
  destruct (Z.eqb_spec (req_memory_limit_bytes r) 0); cbn; [split; [done|lia]|].
  destruct (Z.ltb_spec MAX_MEMORY_LIMIT_BYTES (req_memory_limit_bytes r)); [split; [done|lia]|].
  split; [|done]. intros _. repeat split; try done; lia.
Qed.

(** C18. Validation accepts exactly the well-shaped requests: source, inputs and
    expected outputs within their byte ceilings, 1 to 100 test cases, and positive
    time and memory limits within 60 s and 2 GB. *)
Theorem validate_spec r : typed r -> (validate r = Ok tt <-> well_shaped r).
Proof. apply validate_iff. Qed.

(** A rejected oversized test case is named correctly: when the counts are in
    range and some case is too large, the message is that of the first offending
    case, with its index, whatever the limits requested. *)
Theorem validate_first_bad_case r m :
  str_len (source_code r) <= MAX_SOURCE_BYTES -> 1 <= n_tests r <= MAX_TEST_CASES ->
  ~ Forall case_fits (test_cases r) -> validate r = Err m ->
  exists k tc, test_cases r !! k = Some tc /\ Forall case_fits (take k (test_cases r)) /\
               ~ case_fits tc /\ check_case (Z.of_nat k) tc = Err m.
Proof.
  unfold n_tests. intros Hs Hn Hbad. unfold validate. rewrite !Z.gtb_ltb.
  destruct (Z.ltb_spec MAX_SOURCE_BYTES (str_len (source_code r))); [lia|].
  destruct (decide (test_cases r = [])) as [E|_]; [rewrite E in Hn; cbn in Hn; lia|].
  unfold n_tests. destruct (Z.ltb_spec MAX_TEST_CASES (Z.of_nat (length (test_cases r)))); [lia|].
  destruct (check_cases 0 (test_cases r)) as [[]|e] eqn:E; cbn.
  - by apply check_cases_ok in E.
  - intros [= ->]. by apply check_cases_err in E.
Qed.

Definition ok_request : JobRequest :=
  MkRequest "job-1" "cpp" "int main(){}" 1000 (256 * MiB)
    [MkTest "1 2" (Some "3"%string)] None.

Lemma validate_spec_witness : validate ok_request = Ok tt <-> well_shaped ok_request.
Proof. apply validate_spec. by vm_compute. Defined.

Definition long_text : string := of_bytes (replicate (Z.to_nat (512 * 1024 + 1)) "a"%char).
Definition bad_request : JobRequest :=
  MkRequest "job-1" "cpp" "" 1000 (256 * MiB) [MkTest "1" None; MkTest long_text None] None.

Lemma long_text_len : str_len long_text = 524289.
Proof. unfold long_text. rewrite str_len_bytes, as_of_bytes, length_replicate. lia. Qed.

Lemma bad_case : ~ case_fits (MkTest long_text None).
Proof.
  intros [H _]. change (str_len long_text <= MAX_TESTCASE_BYTES) in H.
  rewrite long_text_len in H. unfold MAX_TESTCASE_BYTES in H. lia.
Qed.

Lemma validate_first_bad_case_witness :
  exists k tc, test_cases bad_request !! k = Some tc /\ ~ case_fits tc.
Proof.
  assert (Ht : typed bad_request) by by vm_compute.
  assert (Hs : str_len (source_code bad_request) <= MAX_SOURCE_BYTES) by by vm_compute.
  assert (Hl : 1 <= n_tests bad_request <= MAX_TEST_CASES) by by vm_compute.
  assert (Hbad : ~ Forall case_fits (test_cases bad_request)).
  { intros H. apply Forall_cons in H as [_ H]. apply Forall_cons in H as [H _]. by apply bad_case. }
  pose proof (proj1 (validate_iff bad_request Ht)) as V.
  pose proof (fun m => validate_first_bad_case bad_request m Hs Hl Hbad) as W.
  destruct (validate bad_request) as [[]|m].
  - destruct (V eq_refl) as (_ & _ & F & _). elim (Hbad F).
  - destruct (W m eq_refl) as (k & tc & H & _ & Hn & _). exists k, tc. exact (conj H Hn).
Defined.
