(* ===== verification/Metrics.v ===== *)
(** * Telemetry

    [src/src/metrics.rs]: the process-global atomic counters, [record_job] and the
    Prometheus rendering.  The statics are the constructors of [Counter]; their
    memory is a function from counters to 64-bit values; [fetch_add] wraps. *)

From S2P Require Import Prelude Job Languages.

Inductive Counter : Type :=
  | TOTAL_JOBS | JOBS_ACCEPTED | JOBS_WRONG_ANSWER | JOBS_TLE | JOBS_MLE
  | JOBS_RUNTIME_ERROR | JOBS_COMPILE_ERROR
  | LANG_CPP | LANG_PYTHON | LANG_PYPY | LANG_JAVA | LANG_KOTLIN | LANG_CSHARP
  | LANG_ZIG | LANG_RUBY | LANG_PHP | LANG_HASKELL | LANG_DART | LANG_SCALA
  | LANG_C | LANG_JS | LANG_TS | LANG_SQL
  | TOTAL_TESTCASES | TESTCASES_PASSED | TESTCASES_FAILED | TOTAL_CPU_TIME_MS.

#[export] Instance Counter_eq_dec : EqDecision Counter.
Proof. solve_decision. Defined.

Abbreviation Metrics := (Counter -> Z).

(** [AtomicU64::new(0)] everywhere. *)
Definition metrics_init : Metrics := fun _ => 0.

Definition fetch_add (c : Counter) (n : Z) (m : Metrics) : Metrics :=
  fun c' => if decide (c = c') then wrap64 (m c' + n) else m c'.

Definition verdict_counter (v : JudgeVerdict) : Counter :=
  match v with
  | Accepted => JOBS_ACCEPTED
  | WrongAnswer => JOBS_WRONG_ANSWER
  | TimeLimitExceeded => JOBS_TLE
  | MemoryLimitExceeded => JOBS_MLE
  | RuntimeError => JOBS_RUNTIME_ERROR
  | CompilationError => JOBS_COMPILE_ERROR
  end.

Definition language_counter (language : string) : option Counter :=
  let t := to_lowercase language in
  if is_one_of t ["cpp"; "c++"]%string then Some LANG_CPP
  else if is_one_of t ["python"; "python3"; "py"]%string then Some LANG_PYTHON
  else if is_one_of t ["pypy"; "pypy3"]%string then Some LANG_PYPY
  else if is_one_of t ["java"]%string then Some LANG_JAVA
  else if is_one_of t ["kotlin"; "kt"]%string then Some LANG_KOTLIN
  else if is_one_of t ["csharp"; "cs"; "c#"]%string then Some LANG_CSHARP
  else if is_one_of t ["zig"]%string then Some LANG_ZIG
  else if is_one_of t ["ruby"; "rb"]%string then Some LANG_RUBY
  else if is_one_of t ["php"]%string then Some LANG_PHP
  else if is_one_of t ["haskell"; "hs"; "ghc"]%string then Some LANG_HASKELL
  else if is_one_of t ["dart"]%string then Some LANG_DART
  else if is_one_of t ["scala"; "scalac"]%string then Some LANG_SCALA
  else if is_one_of t ["c"]%string then Some LANG_C
  else if is_one_of t ["javascript"; "js"]%string then Some LANG_JS
  else if is_one_of t ["typescript"; "ts"]%string then Some LANG_TS
  else if is_one_of t ["sql"]%string then Some LANG_SQL
  else None.

Definition record_job (language : string) (v : JudgeVerdict)
    (cpu_time_ms passed_tests failed_tests : Z) (m : Metrics) : Metrics :=
  let m := fetch_add TOTAL_JOBS 1 m in
  let m := fetch_add TOTAL_CPU_TIME_MS cpu_time_ms m in
  let m := fetch_add TOTAL_TESTCASES (add64 passed_tests failed_tests) m in
  let m := fetch_add TESTCASES_PASSED passed_tests m in
  let m := fetch_add TESTCASES_FAILED failed_tests m in
  let m := fetch_add (verdict_counter v) 1 m in
  match language_counter language with
  | Some c => fetch_add c 1 m
  | None => m
  end.

(* ------------------------------------------------------------------ *)
(** ** Rendering *)

(** [get_process_memory_bytes]: [statm] is what reading [/proc/self/statm] gives. *)
Definition get_process_memory_bytes (statm : option string) : Z :=
  match statm with
  | Some content =>
      match split_whitespace content with
      | _ :: p :: _ => match parse_u64 p with Some pages => mul64 pages 4096 | None => 0 end
      | _ => 0
      end
  | None => 0
  end.

Definition QUOTE : string := String (chr 34) EmptyString.
Definition LF : string := String (chr 10) EmptyString.

Open Scope string_scope.

(** [name{key="value"} n\n], [# HELP ..] and [# TYPE ..]. *)
Definition sample (name key value : string) (n : Z) : string :=
  name +:+ "{" +:+ key +:+ "=" +:+ QUOTE +:+ value +:+ QUOTE +:+ "} " +:+ show_Z n +:+ LF.
Definition plain (name : string) (n : Z) : string := name +:+ " " +:+ show_Z n +:+ LF.
Definition header (name help type : string) : string :=
  "# HELP " +:+ name +:+ " " +:+ help +:+ LF +:+ "# TYPE " +:+ name +:+ " " +:+ type +:+ LF.

Definition concat_all (l : list string) : string := foldr String.append "" l.

Definition jobs_lines (m : Metrics) : list string :=
  map (fun p => sample "akiro_jobs_total" "verdict" (fst p) (m (snd p)))
    [("Accepted", JOBS_ACCEPTED); ("WrongAnswer", JOBS_WRONG_ANSWER);
     ("TimeLimitExceeded", JOBS_TLE); ("MemoryLimitExceeded", JOBS_MLE);
     ("RuntimeError", JOBS_RUNTIME_ERROR); ("CompilationError", JOBS_COMPILE_ERROR)].

Definition language_lines (m : Metrics) : list string :=
  map (fun p => sample "akiro_jobs_by_language_total" "language" (fst p) (m (snd p)))
    [("cpp", LANG_CPP); ("python", LANG_PYTHON); ("pypy3", LANG_PYPY);
     ("java", LANG_JAVA); ("kotlin", LANG_KOTLIN); ("csharp", LANG_CSHARP);
     ("zig", LANG_ZIG); ("ruby", LANG_RUBY); ("php", LANG_PHP);
     ("haskell", LANG_HASKELL); ("dart", LANG_DART); ("scala", LANG_SCALA);
     ("c", LANG_C); ("javascript", LANG_JS); ("typescript", LANG_TS);
     ("sql", LANG_SQL)].

Definition render_prometheus (statm : option string) (m : Metrics)
    (total_workers idle_workers busy_workers queued_jobs uptime_secs : Z) : string :=
  concat_all (
    [header "akiro_jobs_total" "Total evaluation jobs submitted to Akiro" "counter"]
    ++ jobs_lines m
    ++ [LF; header "akiro_jobs_by_language_total" "Total jobs grouped by programming language" "counter"]
    ++ language_lines m
    ++ [LF; header "akiro_testcases_total" "Total isolated sandbox testcase executions" "counter";
        sample "akiro_testcases_total" "status" "passed" (m TESTCASES_PASSED);
        sample "akiro_testcases_total" "status" "failed" (m TESTCASES_FAILED);
        LF; header "akiro_cpu_time_ms_total" "Cumulative CPU time spent inside sandboxes" "counter";
        plain "akiro_cpu_time_ms_total" (m TOTAL_CPU_TIME_MS);
        LF; header "akiro_workers" "Total, idle, and busy judge workers in cluster" "gauge";
        sample "akiro_workers" "state" "total" total_workers;
        sample "akiro_workers" "state" "idle" idle_workers;
        sample "akiro_workers" "state" "busy" busy_workers;
        LF; header "akiro_queue_depth" "Number of jobs currently queued" "gauge";
        plain "akiro_queue_depth" queued_jobs;
        LF; header "akiro_process_memory_bytes" "Resident memory (RSS) of Akiro process" "gauge";
        plain "akiro_process_memory_bytes" (get_process_memory_bytes statm);
        LF; header "akiro_uptime_seconds" "Total process uptime in seconds" "gauge";
        plain "akiro_uptime_seconds" uptime_secs])%list.

Close Scope string_scope.
(* ------------------------------------------------------------------ *)
(** ** Lemmas and properties *)

(** One completed job, as the pipeline reports it. *)
Record Completed : Type := MkCompleted {
  c_language : string; c_verdict : JudgeVerdict; c_cpu : Z; c_passed : Z; c_failed : Z
}.

Definition record (m : Metrics) (c : Completed) : Metrics :=
  record_job (c_language c) (c_verdict c) (c_cpu c) (c_passed c) (c_failed c) m.

Definition all_verdicts : list JudgeVerdict :=
  [Accepted; WrongAnswer; TimeLimitExceeded; MemoryLimitExceeded; RuntimeError; CompilationError].

Definition language_counters : list Counter :=
  [LANG_CPP; LANG_PYTHON; LANG_PYPY; LANG_JAVA; LANG_KOTLIN; LANG_CSHARP; LANG_ZIG;
   LANG_RUBY; LANG_PHP; LANG_HASKELL; LANG_DART; LANG_SCALA; LANG_C; LANG_JS; LANG_TS;
   LANG_SQL].

(** Jobs of the log with a given verdict, and jobs of a given language counter. *)
Definition count_verdict (v : JudgeVerdict) (log : list Completed) : Z :=
  Z.of_nat (length (filter (fun c => c_verdict c = v) log)).
Definition count_language (k : Counter) (log : list Completed) : Z :=
  Z.of_nat (length (filter (fun c => language_counter (c_language c) = Some k) log)).
Definition sum_of (f : Completed -> Z) (log : list Completed) : Z :=
  foldr (fun c acc => f c + acc) 0 log.

Lemma fetch_add_eq c n m : fetch_add c n m c = wrap64 (m c + n).
Proof. unfold fetch_add. by rewrite decide_True. Qed.

Lemma fetch_add_ne c c' n m : c <> c' -> fetch_add c n m c' = m c'.
Proof. intros H. unfold fetch_add. by rewrite decide_False. Qed.

Lemma language_counter_in s c : language_counter s = Some c -> c ∈ language_counters.
Proof.
  unfold language_counter. cbv zeta.
  repeat match goal with
  | |- (if ?b then Some _ else _) = _ -> _ =>
      destruct b; [intros [= <-]; apply list_elem_of_In; vm_compute; tauto|]
  end. done.
Qed.

(** The languages the program supports but [record_job] has no counter for. *)
Definition uncounted (s : string) : bool :=
  is_one_of (to_lowercase s) ["rust"; "rs"; "go"; "golang"; "cpython"; "sqlite"; "sqlite3"]%string.

(** What each counter holds after a log of jobs, counting modulo 2^64. *)
Definition expected (c : Counter) (log : list Completed) : Z :=
  match c with
  | TOTAL_JOBS => Z.of_nat (length log)
  | JOBS_ACCEPTED => count_verdict Accepted log
  | JOBS_WRONG_ANSWER => count_verdict WrongAnswer log
  | JOBS_TLE => count_verdict TimeLimitExceeded log
  | JOBS_MLE => count_verdict MemoryLimitExceeded log
  | JOBS_RUNTIME_ERROR => count_verdict RuntimeError log
  | JOBS_COMPILE_ERROR => count_verdict CompilationError log
  | TOTAL_TESTCASES => sum_of (fun c => c_passed c + c_failed c) log
  | TESTCASES_PASSED => sum_of c_passed log
  | TESTCASES_FAILED => sum_of c_failed log
  | TOTAL_CPU_TIME_MS => sum_of c_cpu log
  | k => count_language k log
  end.

Lemma wrap64_add_wrap a b : wrap64 (wrap64 a + b) = wrap64 (a + b).
Proof. unfold wrap64. apply Zplus_mod_idemp_l. Qed.

Lemma wrap64_add_wrap_r a b : wrap64 (a + wrap64 b) = wrap64 (a + b).
Proof. unfold wrap64. apply Zplus_mod_idemp_r. Qed.

(** The increment one job makes to each counter. *)
Definition increment (j : Completed) (c : Counter) : Z := expected c [j].

Lemma expected_cons c j log : expected c (j :: log) = increment j c + expected c log.
Proof.
  unfold increment, expected.
  destruct c; unfold count_verdict, count_language, sum_of; cbn [foldr];
    rewrite ?filter_cons, ?filter_nil; repeat case_decide; cbn [length]; lia.
Qed.

(** [record_job] is a sequence of additions to distinct cells, so each cell ends
    with the sum of what was added to it. *)
Definition adds_of (j : Completed) : list (Counter * Z) :=
  [(TOTAL_JOBS, 1); (TOTAL_CPU_TIME_MS, c_cpu j);
   (TOTAL_TESTCASES, add64 (c_passed j) (c_failed j));
   (TESTCASES_PASSED, c_passed j); (TESTCASES_FAILED, c_failed j);
   (verdict_counter (c_verdict j), 1)] ++
  match language_counter (c_language j) with Some k => [(k, 1)] | None => [] end.

Definition apply_adds (l : list (Counter * Z)) (m : Metrics) : Metrics :=
  foldl (fun m p => fetch_add (fst p) (snd p) m) m l.

Definition added (c : Counter) (l : list (Counter * Z)) : Z :=
  foldr (fun p acc => (if decide (fst p = c) then snd p else 0) + acc) 0 l.

Lemma record_adds m j : record m j = apply_adds (adds_of j) m.
Proof.
  unfold record, record_job, adds_of, apply_adds. rewrite foldl_app.
  by destruct (language_counter (c_language j)).
Qed.

Lemma apply_adds_spec l m c : u64 (m c) -> apply_adds l m c = wrap64 (m c + added c l).
Proof.
  revert m. induction l as [|[k n] l IH]; intros m Hu; cbn.
  { by rewrite Z.add_0_r, wrap64_small. }
  unfold apply_adds in IH |- *. cbn [foldl fst snd].
  rewrite IH by (unfold fetch_add; case_decide; [apply wrap64_u64|done]).
  unfold fetch_add. case_decide.
  - rewrite wrap64_add_wrap. by rewrite Z.add_assoc.
  - by rewrite Z.add_0_l.
Qed.

Lemma count_verdict_one v j : count_verdict v [j] = if decide (c_verdict j = v) then 1 else 0.
Proof. unfold count_verdict. rewrite filter_cons, filter_nil. by case_decide. Qed.

Lemma count_language_one k j :
  count_language k [j] = if decide (language_counter (c_language j) = Some k) then 1 else 0.
Proof. unfold count_language. rewrite filter_cons, filter_nil. by case_decide. Qed.

Lemma added_language k c :
  added c (match k with Some k => [(k, 1)] | None => [] end) = if decide (k = Some c) then 1 else 0.
Proof.
  destruct k as [k|]; cbn; [|done].
  destruct (decide (k = c)) as [->|]; [by rewrite decide_True|by rewrite decide_False by congruence].
Qed.

Lemma added_app c l1 l2 : added c (l1 ++ l2) = added c l1 + added c l2.
Proof.
  unfold added. induction l1 as [|p l1 IH]; cbn [app foldr]; [done|]. rewrite IH. lia.
Qed.

Lemma added_increment j c : wrap64 (added c (adds_of j)) = wrap64 (increment j c).
Proof.
  unfold adds_of. rewrite added_app, added_language.
  set (k := language_counter (c_language j)).
  assert (Hk : c ∉ language_counters -> (if decide (k = Some c) then 1 else 0) = 0).
  { intros Hc. apply decide_False. intros E. by apply Hc, (language_counter_in _ _ E). }
  destruct j as [s v cpu p f]. unfold increment, expected, sum_of.
  destruct c; rewrite ?count_verdict_one, ?count_language_one;
    try (rewrite Hk by (rewrite list_elem_of_In; vm_compute; intuition discriminate));
    subst k; cbn -[wrap64 language_counter]; try (destruct v); cbn -[wrap64 language_counter];
    try done; try (f_equal; lia);
    unfold add64; rewrite ?Z.add_0_r; try done; apply wrap64_small, wrap64_u64.
Qed.

Lemma record_increment m j c : u64 (m c) -> record m j c = wrap64 (m c + increment j c).
Proof.
  intros Hu. rewrite record_adds, apply_adds_spec by done.
  by rewrite <- wrap64_add_wrap_r, added_increment, wrap64_add_wrap_r.
Qed.

Lemma record_u64 m j c : u64 (m c) -> u64 (record m j c).
Proof. intros H. rewrite record_increment by done. apply wrap64_u64. Qed.

Lemma expected_app c l1 l2 : expected c (l1 ++ l2) = expected c l1 + expected c l2.
Proof.
  induction l1 as [|j l1 IH]; [by destruct c|].
  cbn [app]. rewrite !(expected_cons c j), IH. lia.
Qed.

Definition record_all (log : list Completed) : Metrics := foldl record metrics_init log.

Lemma record_all_u64 log c : u64 (record_all log c).
Proof.
  induction log as [|j log IH] using rev_ind; [by cbn|].
  unfold record_all in *. rewrite foldl_app. by apply record_u64.
Qed.

(** The counters tell the history: after any sequence of recorded jobs every
    counter holds, modulo 2^64, the number of jobs (with that verdict, of that
    language), of test cases (passed, failed, both) or of CPU milliseconds in the
    sequence. *)
Theorem record_all_spec log c : record_all log c = wrap64 (expected c log).
Proof.
  induction log as [|j log IH] using rev_ind; [by destruct c|].
  unfold record_all in *. rewrite foldl_app. cbn [foldl].
  rewrite record_increment by apply record_all_u64. rewrite IH, wrap64_add_wrap.
  by rewrite expected_app.
Qed.

Definition verdict_counters : list Counter := map verdict_counter all_verdicts.
Definition total (l : list Z) : Z := foldr Z.add 0 l.

Lemma wrap64_total {A : Type} (f : A -> Z) l :
  wrap64 (total (map (fun x => wrap64 (f x)) l)) = wrap64 (total (map f l)).
Proof.
  unfold total. induction l as [|a l IH]; cbn [map foldr]; [done|].
  by rewrite wrap64_add_wrap, <- wrap64_add_wrap_r, IH, wrap64_add_wrap_r.
Qed.

Lemma count_verdict_cons v j log :
  count_verdict v (j :: log) = (if decide (c_verdict j = v) then 1 else 0) + count_verdict v log.
Proof. unfold count_verdict. rewrite filter_cons. case_decide; cbn [length]; lia. Qed.

Lemma verdict_total log :
  total (map (fun c => expected c log) verdict_counters) = Z.of_nat (length log).
Proof.
  unfold verdict_counters, total. cbn [map foldr all_verdicts verdict_counter expected].
  induction log as [|j log IH]; [done|]. rewrite !count_verdict_cons. cbn [length].
  destruct (c_verdict j); repeat case_decide; try discriminate; try congruence; lia.
Qed.

Lemma testcase_total log :
  expected TESTCASES_PASSED log + expected TESTCASES_FAILED log = expected TOTAL_TESTCASES log.
Proof. cbn. unfold sum_of. induction log as [|j log IH]; cbn; lia. Qed.

(** No job is lost from the verdict breakdown: the six verdict counters always
    add up to the total number of jobs, and the passed and failed test cases to the
    total of test cases, modulo 2^64. *)
Theorem verdicts_add_up log :
  wrap64 (total (map (record_all log) verdict_counters)) = record_all log TOTAL_JOBS /\
  add64 (record_all log TESTCASES_PASSED) (record_all log TESTCASES_FAILED)
    = record_all log TOTAL_TESTCASES.
Proof.
  split.
  - rewrite (map_ext _ _ (fun c => record_all_spec log c)), wrap64_total, verdict_total.
    by rewrite record_all_spec.
  - unfold add64. rewrite !record_all_spec, wrap64_add_wrap, wrap64_add_wrap_r.
    by rewrite testcase_total.
Qed.

Lemma uncounted_none s : uncounted s = true -> language_counter s = None.
Proof.
  unfold uncounted. rewrite is_one_of_spec. intros H. unfold language_counter. cbv zeta.
  repeat (apply elem_of_cons in H as [->|H]; [done|]). by apply elem_of_nil in H.
Qed.

(** The language breakdown is not a breakdown of all jobs: a job submitted as
    Rust, Go, [cpython], [sqlite] or [sqlite3] - all accepted by the language
    parser - changes no language counter at all. *)
Theorem language_breakdown_gap m j :
  uncounted (c_language j) = true ->
  is_Some (from_str (c_language j)) /\
  forall c, c ∈ language_counters -> record m j c = m c.
Proof.
  intros H. split.
  - unfold uncounted in H. apply is_one_of_spec in H.
    assert (exists l, to_lowercase (c_language j) ∈ aliases l) as [l Hl].
    { repeat (apply elem_of_cons in H as [->|H];
        [first [exists Rust; set_solver|exists Go; set_solver
               |exists Python; set_solver|exists Sql; set_solver]|]).
      by apply elem_of_nil in H. }
    exists l. by apply from_str_alias.
  - intros c Hc. rewrite record_adds. unfold adds_of. rewrite (uncounted_none _ H).
    cbn -[fetch_add]. rewrite list_elem_of_In in Hc. cbn in Hc.
    destruct (c_verdict j); cbn -[fetch_add];
      repeat (destruct Hc as [<-|Hc]; [by rewrite !fetch_add_ne|]); done.
Qed.

Lemma language_breakdown_gap_witness :
  is_Some (from_str "Rust") /\
  forall c, c ∈ language_counters ->
    record metrics_init (MkCompleted "Rust" Accepted 5 2 0) c = metrics_init c.
Proof. apply (language_breakdown_gap metrics_init (MkCompleted "Rust" Accepted 5 2 0)). done. Defined.
