(* ===== verification/Pipeline.v ===== *)
(** * The execution pipeline

    [src/src/orchestrator/pipeline.rs]: from a request to a job result - write the
    source, compile, run every test case concurrently, judge each output, aggregate.
    The sandbox is an oracle on configurations (its own model is in the sandbox
    files); the executor's scheduling of concurrent test cases is an arbitrary
    function, so every theorem holds for every completion order. *)

From S2P Require Import Prelude Config Admission Languages Job Metrics.

(* ------------------------------------------------------------------ *)
(** ** Output comparison *)

(** [u8::is_ascii_whitespace]: space, tab, line feed, form feed, carriage return. *)
Definition is_ascii_whitespace (a : ascii) : bool :=
  (code a =? 32) || (code a =? 9) || (code a =? 10) || (code a =? 12) || (code a =? 13).

(** [iter().position(p)] and [iter().rposition(p)] *)
Fixpoint position {A : Type} (p : A -> bool) (l : list A) : option nat :=
  match l with
  | [] => None
  | a :: l' => if p a then Some 0%nat else S <$> position p l'
  end.

Fixpoint rposition {A : Type} (p : A -> bool) (l : list A) : option nat :=
  match l with
  | [] => None
  | a :: l' => match rposition p l' with
               | Some i => Some (S i)
               | None => if p a then Some 0%nat else None
               end
  end.

Definition not_ws (a : ascii) : bool := negb (is_ascii_whitespace a).

(** The bounds [start..end] that [trim_bytes] slices with. *)
Definition trim_range (b : bytes) : nat * nat :=
  let start := match position not_ws b with Some i => i | None => length b end in
  let stop := match rposition not_ws b with Some i => S i | None => start end in
  (start, stop).

Definition trim_bytes (b : bytes) : bytes :=
  let '(s, e) := trim_range b in take (e - s) (drop s b).

(* ------------------------------------------------------------------ *)
(** ** Judging one execution *)

Definition judge_verdict (expected : option string) (time_limit memory_limit : Z)
    (r : ExecutionResult) : JudgeVerdict :=
  let memory_limit_kb := memory_limit / 1024 in
  let over_memory := (memory_limit_kb >? 0) && (memory_kb r >? memory_limit_kb) in
  match status r with
  | StOk =>
      if over_memory then MemoryLimitExceeded
      else match expected with
           | Some e => if decide (trim_bytes (stdout r) = trim_bytes (as_bytes e))
                       then Accepted else WrongAnswer
           | None => Accepted
           end
  | StTimeLimitExceeded => TimeLimitExceeded
  | StMemoryLimitExceeded => MemoryLimitExceeded
  | _ =>
      if over_memory then MemoryLimitExceeded
      else if cpu_time_ms r >=? time_limit then TimeLimitExceeded
      else RuntimeError
  end.

(* ------------------------------------------------------------------ *)
(** ** The effects of a job, and fallible computations on them *)

Definition SANDBOX_UID : Z := 65534.
Definition SANDBOX_GID : Z := 65534.

Record World : Type := MkWorld {
  events : list ProgressEvent;               (** sent on the progress channel *)
  metrics : Metrics;                         (** the global counters *)
  prepared : list SandboxConfig;             (** handed to [Sandbox::execute] *)
  files : list (string * string);            (** [fs::write] calls that succeeded *)
  chowned : list (string * Z * Z)            (** [chown] calls issued *)
}.

Definition Job (A : Type) : Type := World -> World * result string A.

#[export] Instance job_ret : MRet Job := fun A a w => (w, Ok a).
#[export] Instance job_bind : MBind Job :=
  fun A B k m w => match m w with
                   | (w', Ok a) => k a w'
                   | (w', Err e) => (w', Err e)
                   end.

Definition lift {A : Type} (r : result string A) : Job A := fun w => (w, r).

Definition prepare (c : SandboxConfig) : Job unit := fun w =>
  (MkWorld (events w) (metrics w) (prepared w ++ [c]) (files w) (chowned w), Ok tt).
Definition record_metrics (lang : string) (v : JudgeVerdict) (cpu passed failed : Z) : Job unit :=
  fun w => (MkWorld (events w) (record_job lang v cpu passed failed (metrics w))
              (prepared w) (files w) (chowned w), Ok tt).
Definition chown_all (calls : list (string * Z * Z)) : Job unit := fun w =>
  (MkWorld (events w) (metrics w) (prepared w) (files w) (chowned w ++ calls), Ok tt).

(** What [chown_tree] finds when it walks the workspace. *)
Inductive Node : Type :=
  | FileNode
  | DirNode (entries : list (string * Node))
  | UnreadableDir.

(** The [chown] calls of [chown_tree path uid gid], in order: the directory itself,
    then its entries; sub-directories are walked, everything else is changed in
    place; a directory that cannot be read is only changed itself. *)
Fixpoint chown_tree (path : string) (uid gid : Z) (t : Node) : list (string * Z * Z) :=
  (path, uid, gid) ::
  match t with
  | DirNode entries =>
      (fix go (es : list (string * Node)) :=
         match es with
         | [] => []
         | (name, sub) :: es' =>
             let p := path_join path name in
             match sub with
             | FileNode => [(p, uid, gid)]
             | _ => chown_tree p uid gid sub
             end ++ go es'
         end) entries
  | _ => []
  end.

(* ------------------------------------------------------------------ *)
(** ** Concurrent test cases *)

(** [stream::iter(queue).buffer_unordered(c)]: at each poll the in-flight set is
    refilled from the queue up to [c] futures, and one of them, chosen by the
    scheduler, completes.  [n] is the number of futures left. *)
Fixpoint completions {A : Type} (n c : nat) (sched : nat -> nat) (k : nat)
    (queue inflight : list A) : list A :=
  match n with
  | O => []
  | S n' =>
      let room := (c - length inflight)%nat in
      let fl := inflight ++ take room queue in
      let i := (sched k mod length fl)%nat in
      match fl !! i with
      | Some a => a :: completions n' c sched (S k) (drop room queue) (delete i fl)
      | None => []
      end
  end.

Definition buffer_unordered {A : Type} (c : nat) (sched : nat -> nat) (futs : list A) : list A :=
  completions (length futs) c sched 0 futs [].

(** A test future: its index, the expected output and the configuration to run. *)
Record TestFut : Type := MkFut {
  fut_idx : nat; fut_expected : option string; fut_config : SandboxConfig
}.

Definition RawResult : Type := nat * JudgeVerdict * ExecutionResult.
Definition raw_idx (r : RawResult) : nat := fst (fst r).
Definition raw_verdict (r : RawResult) : JudgeVerdict := snd (fst r).
Definition raw_exec (r : RawResult) : ExecutionResult := snd r.

Definition raw_le (a b : RawResult) : Prop := (raw_idx a <= raw_idx b)%nat.

#[export] Instance raw_le_dec : RelDecision raw_le.
Proof. intros a b. unfold raw_le. apply _. Defined.

Definition sort_by_key (l : list RawResult) : list RawResult := merge_sort raw_le l.

Section Pipeline.
(** The environment, the sandbox ([None]: the compilation; [Some i]: test case [i]),
    [TempDir::new], the result of [fs::write], the workspace after compilation, the
    processors reported, the scheduler, and whether a progress channel was given. *)
Context (env : Env).
Context (sandbox : option nat -> SandboxConfig -> result string ExecutionResult).
Context (temp_dir : result string string) (write_error : option string) (workspace : Node).
Context (cpus : option positive) (sched : nat -> nat) (progress : bool).

Definition send (e : ProgressEvent) : Job unit := fun w =>
  (if progress
   then MkWorld (events w ++ [e]) (metrics w) (prepared w) (files w) (chowned w)
   else w, Ok tt).

Definition write_file (path content : string) : Job unit := fun w =>
  match write_error with
  | Some e => (w, Err ("Failed to write source: " +:+ e)%string)
  | None => (MkWorld (events w) (metrics w) (prepared w) (files w ++ [(path, content)])
               (chowned w), Ok tt)
  end.

Definition concurrency : nat :=
  Nat.min (match cpus with Some p => Pos.to_nat p | None => 4 end) 16.

Definition run_config (runner : LanguageRunner) (work_dir bin_path : string)
    (request : JobRequest) (tc : TestCase) : SandboxConfig :=
  get_run_command runner bin_path (as_bytes (input tc))
    (req_time_limit_ms request) (req_memory_limit_bytes request)
  .> with_profile Run
  .> with_fs_isolation true
  .> with_workspace_dir work_dir
  .> with_work_dir "/sandbox"%string
  .> with_network_isolation true
  .> with_pids_limit (max_pids runner)
  .> with_cpu_max_percent (run_cpu_max_percent env).

Definition compile_config (work_dir : string) (c : SandboxConfig) : SandboxConfig :=
  let compile_mem := Z.min (memory_limit_bytes c) (compile_memory_bytes env) in
  c .> with_profile Compile
    .> with_fs_isolation false
    .> with_network_isolation false
    .> with_pids_limit 1024
    .> with_cpu_max_percent (compile_cpu_max_percent env)
    .> with_memory_limit compile_mem
    .> with_work_dir work_dir.

Definition sandbox_bin_path (runner : LanguageRunner) : string :=
  if is_compiled runner then path_join "/sandbox" "binary"
  else path_join "/sandbox" (get_source_filename runner).

Definition test_futs (runner : LanguageRunner) (work_dir : string) (request : JobRequest)
  : list TestFut :=
  imap (fun idx tc => MkFut idx (expected_output tc)
                        (run_config runner work_dir (sandbox_bin_path runner) request tc))
       (test_cases request).

(** The [while let Some(..) = stream.next().await] loop. *)
Fixpoint collect (time_limit memory_limit : Z) (stop_on_fail : bool)
    (stream : list TestFut) (raw_results : list RawResult) : Job (list RawResult) :=
  match stream with
  | [] => mret raw_results
  | f :: stream' =>
      exec_result ← lift (map_err (fun e => "Sandbox error during execution: " +:+ e)%string
                            (sandbox (Some (fut_idx f)) (fut_config f)));
      let verdict := judge_verdict (fut_expected f) time_limit memory_limit exec_result in
      _ ← send (TestResult (Z.of_nat (fut_idx f) + 1) verdict (cpu_time_ms exec_result)
                  (memory_kb exec_result));
      let raw_results := raw_results ++ [(fut_idx f, verdict, exec_result)] in
      if stop_on_fail && bool_decide (verdict <> Accepted) then mret raw_results
      else collect time_limit memory_limit stop_on_fail stream' raw_results
  end.

(** One pass of the aggregation loop. *)
Definition push_result (res : JobResult) (r : RawResult) : JobResult :=
  let e := raw_exec r in
  MkResult (res_job_id res)
    (if decide (raw_verdict r <> Accepted /\ verdict res = Accepted)
     then raw_verdict r else verdict res)
    (add64 (total_cpu_time_ms res) (cpu_time_ms e))
    (Z.max (peak_memory_kb res) (memory_kb e))
    (compile_output res)
    (test_results res ++
       [MkTestResult (Z.of_nat (raw_idx r)) (raw_verdict r) (cpu_time_ms e) (memory_kb e)
          (stdout e) (stderr e)]).

Definition accepted_result (t : TestCaseResult) : bool := bool_decide (tr_status t = Accepted).

Definition set_verdict (v : JudgeVerdict) (r : JobResult) : JobResult :=
  MkResult (res_job_id r) v (total_cpu_time_ms r) (peak_memory_kb r) (compile_output r)
    (test_results r).

Definition aggregate (result : JobResult) (raw_results : list RawResult) : JobResult :=
  let res := foldl push_result result (sort_by_key raw_results) in
  if forallb accepted_result (test_results res) then set_verdict Accepted res else res.

Definition count_passed (ts : list TestCaseResult) : Z :=
  Z.of_nat (length (List.filter accepted_result ts)).

(** The end of [run_tests]: metrics, the final event, the result. *)
Definition conclude (request : JobRequest) (res : JobResult) : Job JobResult :=
  let passed := count_passed (test_results res) in
  let failed := saturating_sub (Z.of_nat (length (test_results res))) passed in
  _ ← record_metrics (req_language request) (verdict res) (total_cpu_time_ms res) passed failed;
  _ ← send (Finished (verdict res));
  mret res.

Definition stop_flag (request : JobRequest) : bool :=
  match stop_on_first_fail request with Some b => b | None => false end.

Definition run_tests (runner : LanguageRunner) (work_dir : string) (request : JobRequest)
    (result : JobResult) : Job JobResult :=
  _ ← chown_all (chown_tree work_dir SANDBOX_UID SANDBOX_GID workspace);
  let futs := test_futs runner work_dir request in
  _ ← (fun w => (MkWorld (events w) (metrics w) (prepared w ++ map fut_config futs)
                   (files w) (chowned w), Ok tt));
  raw_results ← collect (req_time_limit_ms request) (req_memory_limit_bytes request)
                  (stop_flag request) (buffer_unordered concurrency sched futs) [];
  conclude request (aggregate result raw_results).

Definition execute (request : JobRequest) : Job JobResult :=
  lang ← lift (ok_or ("Unsupported language: " +:+ req_language request)%string
                 (from_str (req_language request)));
  let runner := get_runner lang in
  dir ← lift (map_err (fun e => "Failed to create temp directory: " +:+ e)%string temp_dir);
  let result := MkResult (job_id request) Accepted 0 0 None [] in
  let src_path := path_join dir (get_source_filename runner) in
  _ ← write_file src_path (source_code request);
  if is_compiled runner then
    _ ← send Compiling;
    match get_compile_command runner src_path (path_join dir "binary") with
    | Some c =>
        let cfg := compile_config dir c in
        _ ← prepare cfg;
        compiled ← lift (map_err (fun e => "Sandbox error during compilation: " +:+ e)%string
                           (sandbox None cfg));
        if decide (status compiled <> StOk) then
          _ ← send (Finished CompilationError);
          mret (MkResult (job_id request) CompilationError 0 0
                  (Some (from_utf8_lossy (stderr compiled))) [])
        else
          run_tests runner dir request
            (MkResult (job_id request) Accepted (add64 0 (cpu_time_ms compiled))
               (Z.max 0 (memory_kb compiled)) None [])
    | None => run_tests runner dir request result
    end
  else run_tests runner dir request result.
End Pipeline.

(* ------------------------------------------------------------------ *)
(** ** Scheduling lemmas *)

(** Whatever the scheduler does, every future completes exactly once. *)
Lemma completions_perm {A : Type} n c sched k (queue inflight : list A) :
  (0 < c)%nat -> n = (length inflight + length queue)%nat ->
  completions n c sched k queue inflight ≡ₚ inflight ++ queue.
Proof.
  intros Hc. revert k queue inflight. induction n as [|n IH]; intros k queue inflight Hn; cbn.
  { destruct inflight, queue; done. }
  set (fl := inflight ++ take (c - length inflight) queue).
  set (q := drop (c - length inflight) queue).
  assert (Hfl : fl ++ q = inflight ++ queue).
  { unfold fl, q. by rewrite <- (app_assoc inflight), take_drop. }
  assert (Hlen : (0 < length fl)%nat).
  { unfold fl. rewrite length_app, length_take. destruct inflight; cbn in *; lia. }
  destruct (lookup_lt_is_Some_2 fl (sched k mod length fl)) as [a Ha].
  { apply Nat.mod_upper_bound. lia. }
  rewrite Ha, <- Hfl, IH.
  - symmetry. rewrite (delete_Permutation fl _ a Ha) at 1. done.
  - apply (f_equal length) in Hfl. rewrite !length_app in Hfl.
    rewrite length_delete by by eexists. lia.
Qed.

Lemma concurrency_pos cpus : (0 < concurrency cpus)%nat.
Proof. unfold concurrency. destruct cpus; lia. Qed.

Lemma buffer_unordered_perm {A : Type} cpus sched (futs : list A) :
  buffer_unordered (concurrency cpus) sched futs ≡ₚ futs.
Proof. unfold buffer_unordered. by rewrite completions_perm by (apply concurrency_pos || done). Qed.

#[export] Instance raw_le_transitive : Transitive raw_le.
Proof. intros a b c. unfold raw_le. lia. Qed.

#[export] Instance raw_le_total : Total raw_le.
Proof. intros a b. unfold raw_le. lia. Qed.

(** Sorting by index undoes any permutation of results with distinct indices. *)
Lemma sort_by_key_perm l k :
  l ≡ₚ k -> StronglySorted raw_le k -> NoDup (map raw_idx k) -> sort_by_key l = k.
Proof.
  intros Hlk Hk Hnd. unfold sort_by_key.
  apply (StronglySorted_unique_strong raw_le); [|apply (StronglySorted_merge_sort raw_le)|done|].
  - intros a b Ha Hb Hab Hba. unfold raw_le in *.
    assert (raw_idx a = raw_idx b) as E by lia.
    rewrite merge_sort_Permutation, Hlk in Ha.
    apply list_elem_of_lookup in Ha as [i Hi]. apply list_elem_of_lookup in Hb as [j Hj].
    assert (i = j) as ->; [|congruence].
    apply (NoDup_lookup (map raw_idx k) i j (raw_idx a)); [done| |];
      change (map raw_idx k) with (raw_idx <$> k); rewrite list_lookup_fmap;
      [by rewrite Hi|by rewrite Hj, E].
  - by rewrite merge_sort_Permutation.
Qed.

Lemma sort_by_key_sorted l : StronglySorted raw_le (sort_by_key l).
Proof. apply (StronglySorted_merge_sort raw_le). Qed.

Lemma sort_by_key_Permutation l : sort_by_key l ≡ₚ l.
Proof. apply merge_sort_Permutation. Qed.

(* ------------------------------------------------------------------ *)
(** ** The collection loop *)

Section Loop.
Context (env : Env).
Context (sandbox : option nat -> SandboxConfig -> result string ExecutionResult).
Context (progress : bool) (time_limit memory_limit : Z).

Definition run_fut (f : TestFut) : result string ExecutionResult :=
  sandbox (Some (fut_idx f)) (fut_config f).

Definition ran (f : TestFut) : Prop := exists r, run_fut f = Ok r.

Definition exec_of (f : TestFut) : ExecutionResult :=
  match run_fut f with Ok r => r | Err _ => ExecutionResult_new StOk 0 end.

Definition verdict_of (f : TestFut) : JudgeVerdict :=
  judge_verdict (fut_expected f) time_limit memory_limit (exec_of f).

Definition raw_of (f : TestFut) : RawResult := (fut_idx f, verdict_of f, exec_of f).

Definition event_of (f : TestFut) : ProgressEvent :=
  TestResult (Z.of_nat (fut_idx f) + 1) (verdict_of f) (cpu_time_ms (exec_of f))
    (memory_kb (exec_of f)).

Definition add_events (evs : list ProgressEvent) (w : World) : World :=
  MkWorld (events w ++ (if progress then evs else [])) (metrics w) (prepared w) (files w) (chowned w).

Definition passes (f : TestFut) : Prop := verdict_of f = Accepted.

(** Which part of the completion stream the loop consumes: all of it, unless it
    stops, and then it stops right after the first failure. *)
Definition consumed (stop : bool) (p q : list TestFut) : Prop :=
  if stop
  then (q = [] /\ Forall passes p) \/
       (exists p' f, p = p' ++ [f] /\ Forall passes p' /\ ~ passes f)
  else q = [].

Lemma send_spec e w : send progress e w = (add_events [e] w, Ok tt).
Proof. unfold send, add_events. destruct w, progress; cbn; [done|]. by rewrite app_nil_r. Qed.

Lemma add_events_app a b w : add_events b (add_events a w) = add_events (a ++ b) w.
Proof.
  unfold add_events; cbn. rewrite <- (app_assoc (events w)). by destruct progress.
Qed.

Lemma add_events_nil w : add_events [] w = w.
Proof. unfold add_events. destruct w, progress; cbn; by rewrite app_nil_r. Qed.

Lemma collect_spec stop stream acc w :
  match collect sandbox progress time_limit memory_limit stop stream acc w with
  | (w', Ok raws) =>
      exists p q, stream = p ++ q /\ Forall ran p /\ raws = acc ++ map raw_of p /\
                  w' = add_events (map event_of p) w /\ consumed stop p q
  | (w', Err _) => (exists evs, w' = add_events evs w) /\ ~ Forall ran stream
  end.
Proof.
  revert acc w. induction stream as [|f stream IH]; intros acc w; cbn [collect].
  { cbn. exists [], []. cbn [map]. rewrite (app_nil_r acc), add_events_nil.
    split_and!; try done. unfold consumed. destruct stop; auto. }
  unfold mbind, job_bind, lift, map_err.
  change (sandbox (Some (fut_idx f)) (fut_config f)) with (run_fut f).
  destruct (run_fut f) as [r|e] eqn:Er; cbn beta iota zeta.
  2:{ split; [exists []; by rewrite add_events_nil|]. intros [[r Hr] _]%Forall_cons. congruence. }
  assert (exec_of f = r) as Ef by (unfold exec_of; by rewrite Er).
  assert (ran f) as Rf by by exists r.
  rewrite send_spec. cbn beta iota zeta. rewrite <- Ef.
  change (judge_verdict (fut_expected f) time_limit memory_limit (exec_of f)) with (verdict_of f).
  destruct (stop && bool_decide (verdict_of f <> Accepted)) eqn:Es.
  - apply andb_prop in Es as [-> Hv%bool_decide_eq_true_1].
    exists [f], stream. split_and!; try done; [by repeat constructor|].
    right. exists [], f. split_and!; [done|constructor|done].
  - specialize (IH (acc ++ [raw_of f]) (add_events [event_of f] w)).
    change (fut_idx f, verdict_of f, exec_of f) with (raw_of f).
    change (TestResult _ _ _ _) with (event_of f).
    destruct (collect _ _ _ _ _ _ _ _) as [w' [raws|e]].
    + destruct IH as (p & q & -> & Hp & -> & -> & Hc). exists (f :: p), q.
      rewrite add_events_app, <- (app_assoc acc). split_and!; try done; [by constructor|].
      unfold consumed in *. destruct stop; [|done]. cbn in Es. apply bool_decide_eq_false_1 in Es.
      assert (passes f) by by apply dec_stable.
      destruct Hc as [[-> Hf]|(p' & g & -> & Hf & Hg)]; [left; split; [done|by constructor]|].
      right. exists (f :: p'), g. split_and!; [done|by constructor|done].
    + destruct IH as [(evs & ->) Hn]. split; [|by intros [_ H]%Forall_cons].
      exists ([event_of f] ++ evs). by rewrite add_events_app.
Qed.
End Loop.

(* ------------------------------------------------------------------ *)
(** ** Aggregation *)

(** The reference for the overall verdict: the first that is not [Accepted]. *)
Fixpoint first_failing (vs : list JudgeVerdict) : JudgeVerdict :=
  match vs with
  | [] => Accepted
  | v :: vs' => if decide (v = Accepted) then first_failing vs' else v
  end.

Lemma first_failing_accepted vs :
  first_failing vs = Accepted <-> Forall (fun v => v = Accepted) vs.
Proof.
  induction vs as [|v vs IH]; cbn; [by split|]. rewrite Forall_cons.
  case_decide; [rewrite IH|]; tauto.
Qed.

Definition entry_of (r : RawResult) : TestCaseResult :=
  MkTestResult (Z.of_nat (raw_idx r)) (raw_verdict r) (cpu_time_ms (raw_exec r))
    (memory_kb (raw_exec r)) (stdout (raw_exec r)) (stderr (raw_exec r)).

Definition cpu_sum (rs : list RawResult) : Z :=
  foldr (fun r acc => cpu_time_ms (raw_exec r) + acc) 0 rs.
Definition mem_max (m : Z) (rs : list RawResult) : Z :=
  foldl (fun m r => Z.max m (memory_kb (raw_exec r))) m rs.

(** What aggregating the results [rs], in this order, onto [base] should give. *)
Definition aggregated (base : JobResult) (rs : list RawResult) : JobResult :=
  MkResult (res_job_id base) (first_failing (map raw_verdict rs))
    (wrap64 (total_cpu_time_ms base + cpu_sum rs)) (mem_max (peak_memory_kb base) rs)
    (compile_output base) (map entry_of rs).

(** The job results [run_tests] starts from. *)
Definition fresh (base : JobResult) : Prop :=
  verdict base = Accepted /\ test_results base = [] /\ u64 (total_cpu_time_ms base).

Lemma fold_push rs base :
  u64 (total_cpu_time_ms base) ->
  foldl push_result base rs =
  MkResult (res_job_id base)
    (if decide (verdict base = Accepted) then first_failing (map raw_verdict rs) else verdict base)
    (wrap64 (total_cpu_time_ms base + cpu_sum rs)) (mem_max (peak_memory_kb base) rs)
    (compile_output base) (test_results base ++ map entry_of rs).
Proof.
  revert base. induction rs as [|r rs IH]; intros base Hu.
  { destruct base; cbn in *. rewrite app_nil_r, Z.add_0_r, wrap64_small by done.
    by case_decide; subst. }
  cbn [foldl]. rewrite IH by apply wrap64_u64.
  change (cpu_sum (r :: rs)) with (cpu_time_ms (raw_exec r) + cpu_sum rs). f_equal.
  - cbn. repeat case_decide; tauto || congruence.
  - cbn. unfold add64. rewrite wrap64_add_wrap. f_equal. lia.
  - cbn. by rewrite <- (app_assoc (test_results base)).
Qed.

Lemma forallb_accepted rs :
  forallb accepted_result (map entry_of rs) = true ->
  Forall (fun v => v = Accepted) (map raw_verdict rs).
Proof.
  induction rs as [|r rs IH]; cbn; [constructor|]. intros [Hr Hrs]%andb_prop.
  constructor; [by apply bool_decide_eq_true_1 in Hr|by apply IH].
Qed.

Lemma aggregate_spec base raws :
  fresh base -> aggregate base raws = aggregated base (sort_by_key raws).
Proof.
  intros (Hv & Ht & Hu). unfold aggregate. rewrite fold_push, Ht by done.
  rewrite decide_True by done. cbn [test_results app].
  destruct (forallb accepted_result _) eqn:E; [|done].
  unfold set_verdict, aggregated; cbn. f_equal. symmetry.
  by apply first_failing_accepted, forallb_accepted.
Qed.

(** Test futures carry the indices 0, 1, 2, ... *)
Lemma test_futs_lookup env runner dir request i :
  test_futs env runner dir request !! i =
  (fun tc => MkFut i (expected_output tc)
               (run_config env runner dir (sandbox_bin_path runner) request tc))
    <$> test_cases request !! i.
Proof. unfold test_futs. by rewrite list_lookup_imap. Qed.

Lemma test_futs_length env runner dir request :
  length (test_futs env runner dir request) = length (test_cases request).
Proof. apply length_imap. Qed.

Lemma test_futs_idx env runner dir request f :
  f ∈ test_futs env runner dir request ->
  exists tc, test_cases request !! fut_idx f = Some tc /\
    f = MkFut (fut_idx f) (expected_output tc)
          (run_config env runner dir (sandbox_bin_path runner) request tc).
Proof.
  intros [i Hi]%list_elem_of_lookup. rewrite test_futs_lookup in Hi.
  destruct (test_cases request !! i) as [tc|] eqn:E; [|done].
  injection Hi as <-. by exists tc.
Qed.

Lemma test_futs_indices env runner dir request :
  map fut_idx (test_futs env runner dir request) = seq 0 (length (test_cases request)).
Proof.
  apply list_eq. intros i. change (map fut_idx) with (fmap fut_idx : list TestFut -> list nat).
  rewrite list_lookup_fmap, test_futs_lookup.
  destruct (test_cases request !! i) as [tc|] eqn:E; cbn.
  - symmetry. rewrite lookup_seq_lt; [done|]. by eapply lookup_lt_Some.
  - symmetry. apply lookup_seq_ge. by apply lookup_ge_None.
Qed.

Lemma raw_idx_of sandbox t m l : map raw_idx (map (raw_of sandbox t m) l) = map fut_idx l.
Proof. by rewrite map_map. Qed.

Lemma seq_sorted l k : map raw_idx l = seq k (length l) -> StronglySorted raw_le l.
Proof.
  revert k. induction l as [|r l IH]; intros k; [constructor|]. cbn [map length seq].
  intros [= Hr Hl]. constructor; [by apply (IH (S k))|].
  apply Forall_forall. intros x Hx. unfold raw_le.
  assert (raw_idx x ∈ map raw_idx l) as H by (apply (list_elem_of_fmap_2 raw_idx); done).
  rewrite Hl in H. apply elem_of_seq in H. lia.
Qed.

(** After the whole stream has been consumed, the sorted results are those of the
    test cases in their original order. *)
Lemma sort_all_results env sandbox runner dir request cpus sched t m :
  sort_by_key (map (raw_of sandbox t m)
     (buffer_unordered (concurrency cpus) sched (test_futs env runner dir request))) =
  map (raw_of sandbox t m) (test_futs env runner dir request).
Proof.
  pose proof (test_futs_indices env runner dir request) as Hi.
  rewrite <- (raw_idx_of sandbox t m) in Hi. apply sort_by_key_perm.
  - apply Permutation_map, buffer_unordered_perm.
  - apply (seq_sorted _ 0). rewrite Hi. by rewrite length_map, test_futs_length.
  - rewrite Hi. apply NoDup_seq.
Qed.

(* ------------------------------------------------------------------ *)
(** ** The two phases of [execute] *)

Section Phases.
Context (env : Env).
Context (sandbox : option nat -> SandboxConfig -> result string ExecutionResult).
Context (temp_dir : result string string) (write_error : option string) (workspace : Node).
Context (progress : bool).

(** What precedes [run_tests]: an error, a finished job (the compilation error), or
    the runner, the workspace and the partial result the test cases start from. *)
Inductive Front : Type :=
  | Failed (e : string)
  | NotCompiled (res : JobResult)
  | Start (runner : LanguageRunner) (dir : string) (base : JobResult).

Definition metrics_after (request : JobRequest) (res : JobResult) (m : Metrics) : Metrics :=
  record_job (req_language request) (verdict res) (total_cpu_time_ms res)
    (count_passed (test_results res))
    (saturating_sub (Z.of_nat (length (test_results res))) (count_passed (test_results res))) m.

Definition limit_t (request : JobRequest) := req_time_limit_ms request.
Definition limit_m (request : JobRequest) := req_memory_limit_bytes request.

(** The world after a completed [run_tests] that consumed the futures [p]. *)
Definition world_after (runner : LanguageRunner) (dir : string) (request : JobRequest)
    (p : list TestFut) (res : JobResult) (w : World) : World :=
  MkWorld
    (events w ++ if progress
                 then map (event_of sandbox (limit_t request) (limit_m request)) p
                        ++ [Finished (verdict res)]
                 else [])
    (metrics_after request res (metrics w))
    (prepared w ++ map fut_config (test_futs env runner dir request))
    (files w)
    (chowned w ++ chown_tree dir SANDBOX_UID SANDBOX_GID workspace).

Lemma run_tests_spec cpus sched runner dir request base w :
  fresh base ->
  let futs := test_futs env runner dir request in
  match run_tests env sandbox workspace cpus sched progress runner dir request base w with
  | (w', Ok res) =>
      exists p q, buffer_unordered (concurrency cpus) sched futs = p ++ q /\
        Forall (ran sandbox) p /\
        consumed sandbox (limit_t request) (limit_m request) (stop_flag request) p q /\
        res = aggregated base
                (sort_by_key (map (raw_of sandbox (limit_t request) (limit_m request)) p)) /\
        w' = world_after runner dir request p res w
  | (w', Err _) =>
      metrics w' = metrics w /\ prepared w' = prepared w ++ map fut_config futs /\
      ~ Forall (ran sandbox) futs
  end.
Proof.
  intros Hb futs. unfold run_tests. cbv beta iota zeta delta [mbind job_bind chown_all].
  fold futs.
  match goal with |- context [collect _ _ _ _ _ _ _ ?w1] => set (w1' := w1) end.
  pose proof (collect_spec sandbox progress (limit_t request) (limit_m request) (stop_flag request)
                (buffer_unordered (concurrency cpus) sched futs) [] w1') as H.
  unfold limit_t, limit_m in *.
  destruct (collect _ _ _ _ _ _ _ _) as [w2 [raws|e]].
  - destruct H as (p & q & Hpq & Hp & -> & -> & Hc). cbn [app] in *.
    unfold conclude. cbv beta iota zeta delta [mbind job_bind record_metrics].
    rewrite send_spec. cbv beta iota zeta delta [mret job_ret].
    exists p, q. rewrite aggregate_spec by done. split_and!; try done.
    unfold world_after, add_events, w1', metrics_after, limit_t, limit_m; cbn.
    f_equal. rewrite <- (app_assoc (events w)). by destruct progress.
  - destruct H as [(evs & ->) Hn]. split_and!; [done|done|]. intros Hf. apply Hn.
    by rewrite buffer_unordered_perm.
Qed.

Definition initial (request : JobRequest) (cpu mem : Z) : JobResult :=
  MkResult (job_id request) Accepted cpu mem None [].

(** The compilation of a runner's source, on the world where the source exists. *)
Definition compile_phase (runner : LanguageRunner) (dir : string) (request : JobRequest)
    (w : World) : World * Front :=
  let w := add_events progress [Compiling] w in
  match get_compile_command runner (path_join dir (get_source_filename runner))
          (path_join dir "binary") with
  | None => (w, Start runner dir (initial request 0 0))
  | Some c =>
      let cfg := compile_config env dir c in
      let w := fst (prepare cfg w) in
      match sandbox None cfg with
      | Err e => (w, Failed ("Sandbox error during compilation: " +:+ e)%string)
      | Ok r =>
          if decide (status r = StOk)
          then (w, Start runner dir (initial request (add64 0 (cpu_time_ms r)) (Z.max 0 (memory_kb r))))
          else (add_events progress [Finished CompilationError] w,
                NotCompiled (MkResult (job_id request) CompilationError 0 0
                               (Some (from_utf8_lossy (stderr r))) []))
      end
  end.

Definition front (request : JobRequest) (w : World) : World * Front :=
  match from_str (req_language request) with
  | None => (w, Failed ("Unsupported language: " +:+ req_language request)%string)
  | Some lang =>
      let runner := get_runner lang in
      match temp_dir with
      | Err e => (w, Failed ("Failed to create temp directory: " +:+ e)%string)
      | Ok dir =>
          match write_file write_error (path_join dir (get_source_filename runner))
                  (source_code request) w with
          | (w, Err e) => (w, Failed e)
          | (w, Ok _) =>
              if is_compiled runner then compile_phase runner dir request w
              else (w, Start runner dir (initial request 0 0))
          end
      end
  end.

Lemma execute_front cpus sched request w :
  execute env sandbox temp_dir write_error workspace cpus sched progress request w =
  match front request w with
  | (w1, Failed e) => (w1, Err e)
  | (w1, NotCompiled res) => (w1, Ok res)
  | (w1, Start runner dir base) =>
      run_tests env sandbox workspace cpus sched progress runner dir request base w1
  end.
Proof.
  unfold execute, front.
  cbv beta iota zeta delta [mbind job_bind lift ok_or map_err mret job_ret].
  destruct (from_str (req_language request)) as [lang|]; [|done].
  destruct temp_dir as [dir|e]; [|done].
  destruct (write_file _ _ _ w) as [w1 [[]|e]]; [|done].
  destruct (is_compiled (get_runner lang)); [|done]. unfold compile_phase.
  rewrite send_spec. cbv beta iota zeta.
  destruct (get_compile_command _ _ _) as [c|]; [|done].
  cbv beta iota zeta delta [prepare fst].
  destruct (sandbox None _) as [r|e]; [|done].
  destruct (decide (status r = StOk)) as [Hs|Hs].
  - by rewrite decide_False by tauto.
  - rewrite decide_True by done. rewrite send_spec. done.
Qed.

Lemma write_file_metrics path content w : metrics (fst (write_file write_error path content w)) = metrics w.
Proof. unfold write_file. by destruct write_error. Qed.

(** Nothing before [run_tests] touches the counters; what starts the test cases is
    fresh; what is decided early is a compilation error without results. *)
Lemma front_spec request w :
  metrics (fst (front request w)) = metrics w /\
  match snd (front request w) with
  | Failed _ => True
  | NotCompiled res => verdict res = CompilationError /\ test_results res = []
  | Start runner dir base =>
      fresh base /\ temp_dir = Ok dir /\
      exists lang, from_str (req_language request) = Some lang /\ runner = get_runner lang
  end.
Proof.
  unfold front. destruct (from_str (req_language request)) as [lang|]; [|done].
  destruct temp_dir as [dir|e]; [|done].
  pose proof (write_file_metrics (path_join dir (get_source_filename (get_runner lang)))
                (source_code request) w) as Hm.
  destruct (write_file _ _ _ w) as [w1 [[]|e]]; cbn in Hm; [|done].
  assert (forall c m, 0 <= c <= u64_max -> fresh (initial request c m)) as Hf by done.
  destruct (is_compiled (get_runner lang)); [|cbn; split_and!; try done; eauto].
  unfold compile_phase.
  destruct (get_compile_command _ _ _) as [c|]; [|cbn; split_and!; try done; eauto].
  destruct (sandbox None _) as [r|e]; [|done]. case_decide; [|done].
  cbn. split_and!; try done; [|eauto]. apply Hf, wrap64_u64.
Qed.
End Phases.

(* ------------------------------------------------------------------ *)
(** ** Properties *)

Definition outcome {A : Type} (o : World * result string A) : result string A := snd o.

(** Equal results and counters; if the job failed, the two messages may differ (the
    sandbox error reported is that of whichever test case completed first). *)
Definition same_outcome {A : Type} (o o' : World * result string A) : Prop :=
  metrics (fst o) = metrics (fst o') /\
  match outcome o, outcome o' with
  | Ok a, Ok a' => a = a'
  | Err _, Err _ => True
  | _, _ => False
  end.

(** The properties speak of one job in one environment. *)
Section Properties.
Context (env : Env).
Context (sandbox : option nat -> SandboxConfig -> result string ExecutionResult).
Context (temp_dir : result string string) (write_error : option string) (workspace : Node).
Context (progress : bool) (request : JobRequest).

Abbreviation run_job cpus sched w :=
  (execute env sandbox temp_dir write_error workspace cpus sched progress request w).

Definition test_config (runner : LanguageRunner) (dir : string) (tc : TestCase) : SandboxConfig :=
  run_config env runner dir (sandbox_bin_path runner) request tc.

(** The sandbox produced [r] for test case [i]. *)
Definition test_ran (runner : LanguageRunner) (dir : string) (i : nat) (tc : TestCase)
    (r : ExecutionResult) : Prop :=
  sandbox (Some i) (test_config runner dir tc) = Ok r.

Definition judged (tc : TestCase) (r : ExecutionResult) : JudgeVerdict :=
  judge_verdict (expected_output tc) (req_time_limit_ms request) (req_memory_limit_bytes request) r.

Definition compiles (runner : LanguageRunner) (dir : string) : Prop :=
  is_compiled runner = true ->
  exists c r, get_compile_command runner (path_join dir (get_source_filename runner))
                (path_join dir "binary") = Some c /\
              sandbox None (compile_config env dir c) = Ok r /\ status r = StOk.

Lemma front_compiles w runner dir base :
  snd (front env sandbox temp_dir write_error progress request w) = Start runner dir base ->
  compiles runner dir.
Proof.
  unfold front. destruct (from_str (req_language request)) as [lang|]; [|done].
  destruct temp_dir as [d|e]; [|done]. destruct (write_file _ _ _ w) as [w1 [[]|e]]; [|done].
  destruct (is_compiled (get_runner lang)) eqn:Ec.
  - unfold compile_phase. destruct (get_compile_command _ _ _) as [c|] eqn:Eg.
    + destruct (sandbox None _) as [r|e] eqn:Es; [|done]. case_decide; [|done].
      cbn. intros [= <- <- <-] _. eauto.
    + destruct (proj1 (compile_iff_all lang) Ec (path_join d (get_source_filename (get_runner lang)))
        (path_join d "binary")) as [x Hx]. congruence.
  - cbn. intros [= <- <- <-]. unfold compiles. congruence.
Qed.

Lemma front_not_compiled w res :
  snd (front env sandbox temp_dir write_error progress request w) = NotCompiled res ->
  exists lang dir, from_str (req_language request) = Some lang /\ temp_dir = Ok dir /\
                   ~ compiles (get_runner lang) dir.
Proof.
  unfold front. destruct (from_str (req_language request)) as [lang|]; [|done].
  destruct temp_dir as [d|e]; [|done]. destruct (write_file _ _ _ w) as [w1 [[]|e]]; [|done].
  destruct (is_compiled (get_runner lang)) eqn:Ec; [|done].
  unfold compile_phase. destruct (get_compile_command _ _ _) as [c|] eqn:Eg; [|done].
  destruct (sandbox None _) as [r|e] eqn:Es; [|done]. case_decide as Hd; [done|].
  cbn. intros _. exists lang, d. split_and!; try done.
  intros Hc. destruct (Hc Ec) as (c' & r' & Hg & Hr & Hok). congruence.
Qed.

(** What a job that ran its test cases looks like. *)
Lemma execute_ok cpus sched w w' res :
  run_job cpus sched w = (w', Ok res) ->
  (verdict res = CompilationError /\ test_results res = [] /\ metrics w' = metrics w /\
   exists lang dir, from_str (req_language request) = Some lang /\ temp_dir = Ok dir /\
                    ~ compiles (get_runner lang) dir) \/
  exists lang dir base p q,
    let runner := get_runner lang in
    from_str (req_language request) = Some lang /\ temp_dir = Ok dir /\ compiles runner dir /\
    fresh base /\
    buffer_unordered (concurrency cpus) sched (test_futs env runner dir request) = p ++ q /\
    Forall (ran sandbox) p /\
    consumed sandbox (limit_t request) (limit_m request) (stop_flag request) p q /\
    res = aggregated base
            (sort_by_key (map (raw_of sandbox (limit_t request) (limit_m request)) p)) /\
    metrics w' = metrics_after request res (metrics w).
Proof.
  rewrite execute_front. intros H.
  pose proof (front_spec env sandbox temp_dir write_error progress request w) as [Hm Hs].
  pose proof (front_compiles w) as Hc. pose proof (front_not_compiled w) as Hn.
  destruct (front _ _ _ _ _ _ _) as [w1 [e|r|runner dir base]]; cbn in *; [done| |].
  - simplify_eq. left. destruct Hs. split_and!; try done. by eapply Hn.
  - right. destruct Hs as (Hb & -> & lang & Hl & ->).
    pose proof (run_tests_spec env sandbox workspace progress cpus sched (get_runner lang) dir
                  request base w1 Hb) as R.
    cbn zeta in R. rewrite H in R. destruct R as (p & q & Hpq & Hp & Hcons & -> & ->).
    exists lang, dir, base, p, q. cbn. rewrite Hm. split_and!; try done. by eapply Hc.
Qed.

Lemma consumed_all_pass stop t m p q :
  consumed sandbox t m stop p q -> Forall (passes sandbox t m) p -> q = [].
Proof.
  unfold consumed. destruct stop; [|done]. intros [[-> _]|(p' & f & -> & _ & Hf)]; [done|].
  intros H. apply Forall_app in H as [_ H]. apply Forall_cons in H as [H _]. done.
Qed.

Lemma sorted_all_pass t m p :
  first_failing (map raw_verdict (sort_by_key (map (raw_of sandbox t m) p))) = Accepted <->
  Forall (passes sandbox t m) p.
Proof.
  rewrite first_failing_accepted.
  rewrite (Permutation_map raw_verdict (sort_by_key_Permutation _)), map_map.
  by rewrite Forall_map.
Qed.

Lemma passes_judged runner dir i tc :
  let f := MkFut i (expected_output tc) (test_config runner dir tc) in
  ran sandbox f /\ passes sandbox (limit_t request) (limit_m request) f <->
  exists r, test_ran runner dir i tc r /\ judged tc r = Accepted.
Proof.
  unfold ran, passes, verdict_of, exec_of, run_fut, test_ran, judged; cbn. split.
  - intros [[r Hr] Hv]. exists r. by rewrite Hr in Hv.
  - intros (r & Hr & Hv). rewrite Hr. eauto.
Qed.

(** An accepted job compiled and passed every test case. *)
Lemma accepted_passes cpus sched w w' res :
  run_job cpus sched w = (w', Ok res) -> verdict res = Accepted ->
  exists lang dir, from_str (req_language request) = Some lang /\ temp_dir = Ok dir /\
    compiles (get_runner lang) dir /\
    forall i tc, test_cases request !! i = Some tc ->
      exists r, test_ran (get_runner lang) dir i tc r /\ judged tc r = Accepted.
Proof.
  intros [(Hv & _)|H]%execute_ok; [by rewrite Hv|].
  destruct H as (lang & dir & base & p & q & Hl & Ht & Hc & _ & Hpq & Hran & Hcons & -> & _).
  cbn [verdict aggregated]. rewrite sorted_all_pass. intros Hp.
  pose proof (buffer_unordered_perm cpus sched
                (test_futs env (get_runner lang) dir request)) as Hperm. rewrite Hpq in Hperm.
  exists lang, dir. split_and!; try done. intros i tc Hi.
  apply passes_judged. rewrite (consumed_all_pass _ _ _ _ _ Hcons Hp), app_nil_r in Hperm.
  rewrite Forall_forall in Hran, Hp.
  assert (MkFut i (expected_output tc) (test_config (get_runner lang) dir tc) ∈ p); [|eauto].
  rewrite Hperm. apply list_elem_of_lookup. exists i. by rewrite test_futs_lookup, Hi.
Qed.

(** C2. A job is accepted exactly when it should be: whatever the scheduler, the
    number of processors and the stop flag, a completed job has the verdict
    [Accepted] if and only if its source compiled (where the language is compiled)
    and every single test case ran and was judged [Accepted]. *)
Theorem execute_accepted_iff cpus sched w w' res :
  run_job cpus sched w = (w', Ok res) ->
  (verdict res = Accepted <->
   exists lang dir, from_str (req_language request) = Some lang /\ temp_dir = Ok dir /\
     compiles (get_runner lang) dir /\
     forall i tc, test_cases request !! i = Some tc ->
       exists r, test_ran (get_runner lang) dir i tc r /\ judged tc r = Accepted).
Proof.
  intros Hrun. split; [by apply accepted_passes with cpus sched w w'|].
  apply execute_ok in Hrun as [(_ & _ & _ & lang & dir & Hl & Ht & Hc)|H].
  { intros (lang' & dir' & Hl' & Ht' & Hc' & _). elim Hc. congruence. }
  destruct H as (lang & dir & base & p & q & Hl & Ht & Hc & _ & Hpq & Hran & Hcons & -> & _).
  cbn [verdict aggregated]. rewrite sorted_all_pass.
  pose proof (buffer_unordered_perm cpus sched
                (test_futs env (get_runner lang) dir request)) as Hperm. rewrite Hpq in Hperm.
  intros (lang' & dir' & Hl' & Ht' & _ & Hall).
  assert (lang' = lang) as -> by congruence. assert (dir' = dir) as -> by congruence.
  apply Forall_forall. intros f Hf.
  assert (f ∈ test_futs env (get_runner lang) dir request) as Hin.
  { rewrite <- Hperm. apply elem_of_app. by left. }
  destruct (test_futs_idx _ _ _ _ _ Hin) as (tc & Hi & ->).
  by apply passes_judged, Hall.
Qed.

(** C3. Concurrency is invisible: without [stop_on_first_fail] the result of a job
    and its effect on the counters do not depend on the number of processors or on
    the order in which the concurrent test cases complete. *)
Theorem execute_order_independent cpus cpus' sched sched' w :
  stop_flag request = false ->
  same_outcome (run_job cpus sched w) (run_job cpus' sched' w).
Proof.
  intros Hs. rewrite !execute_front.
  pose proof (front_spec env sandbox temp_dir write_error progress request w) as [_ Hf].
  destruct (front _ _ _ _ _ _ _) as [w1 [e|r|runner dir base]]; cbn in Hf; [done|done|].
  destruct Hf as (Hb & _).
  pose proof (run_tests_spec env sandbox workspace progress cpus sched runner dir
                request base w1 Hb) as R.
  pose proof (run_tests_spec env sandbox workspace progress cpus' sched' runner dir
                request base w1 Hb) as R'.
  cbn zeta in R, R'. rewrite Hs in R, R'. unfold consumed in R, R'.
  destruct (run_tests _ _ _ cpus _ _ _ _ _ _ _) as [w2 [res|e]],
           (run_tests _ _ _ cpus' _ _ _ _ _ _ _) as [w2' [res'|e']].
  - destruct R as (p & q & Hpq & _ & -> & -> & ->), R' as (p' & q' & Hpq' & _ & -> & -> & ->).
    rewrite app_nil_r in Hpq, Hpq'. subst p p'. rewrite !sort_all_results. done.
  - destruct R as (p & q & Hpq & Hp & -> & _), R' as (_ & _ & Hn). elim Hn.
    rewrite app_nil_r in Hpq. subst p. by rewrite buffer_unordered_perm in Hp.
  - destruct R' as (p & q & Hpq & Hp & -> & _), R as (_ & _ & Hn). elim Hn.
    rewrite app_nil_r in Hpq. subst p. by rewrite buffer_unordered_perm in Hp.
  - destruct R as [Hm _], R' as [Hm' _]. unfold same_outcome; cbn. by rewrite Hm, Hm'.
Qed.

(** The entry of test case [i] in the report, given what the sandbox returned. *)
Definition report (i : nat) (tc : TestCase) (r : ExecutionResult) : TestCaseResult :=
  MkTestResult (Z.of_nat i) (judged tc r) (cpu_time_ms r) (memory_kb r) (stdout r) (stderr r).

(** C5. The report of a job that ran without [stop_on_first_fail] is the one a
    sequential judge would write: one entry per test case in the order of the
    request, each judged on its own execution; the verdict is that of the first
    test case that failed. *)
Theorem execute_report cpus sched w w' res :
  stop_flag request = false -> run_job cpus sched w = (w', Ok res) ->
  verdict res <> CompilationError \/ test_results res <> [] ->
  verdict res = first_failing (map tr_status (test_results res)) /\
  length (test_results res) = length (test_cases request) /\
  exists lang dir, from_str (req_language request) = Some lang /\ temp_dir = Ok dir /\
    forall i tc, test_cases request !! i = Some tc ->
      exists r, test_ran (get_runner lang) dir i tc r /\
                test_results res !! i = Some (report i tc r).
Proof.
  intros Hs [(Hv & Hr & _)|H]%execute_ok; [by intros [?|?]|]. intros _.
  destruct H as (lang & dir & base & p & q & Hl & Ht & Hc & _ & Hpq & Hran & Hcons & -> & _).
  rewrite Hs in Hcons. cbn in Hcons. subst q. rewrite app_nil_r in Hpq. subst p.
  rewrite sort_all_results. cbn [verdict aggregated test_results].
  rewrite buffer_unordered_perm, Forall_forall in Hran. split_and!.
  - f_equal. by rewrite !map_map.
  - by rewrite !length_map, test_futs_length.
  - exists lang, dir. split_and!; try done. intros i tc Hi.
    set (f := MkFut i (expected_output tc) (test_config (get_runner lang) dir tc)).
    assert (Hf : test_futs env (get_runner lang) dir request !! i = Some f)
      by by rewrite test_futs_lookup, Hi.
    destruct (Hran f) as [r Hr]; [by apply list_elem_of_lookup; exists i|].
    exists r. split; [done|]. rewrite map_map.
    change (@map TestFut TestCaseResult) with (@fmap list _ TestFut TestCaseResult).
    rewrite list_lookup_fmap, Hf. cbn. unfold entry_of, report, judged, raw_of, verdict_of, exec_of.
    cbn. by rewrite Hr.
Qed.
Lemma entries_sorted p t m :
  NoDup (map fut_idx p) ->
  StronglySorted Z.lt
    (map test_case_index (map entry_of (sort_by_key (map (raw_of sandbox t m) p)))).
Proof.
  intros Hnd. rewrite map_map. cbn.
  pose proof (sort_by_key_sorted (map (raw_of sandbox t m) p)) as Hs.
  assert (NoDup (map raw_idx (sort_by_key (map (raw_of sandbox t m) p)))) as Hd.
  { by rewrite (Permutation_map raw_idx (sort_by_key_Permutation _)), raw_idx_of. }
  induction Hs as [|r l Hl IH Hr]; [constructor|]. cbn in Hd |- *.
  apply NoDup_cons in Hd as [Hn Hd]. constructor; [by apply IH|].
  apply Forall_map, Forall_forall. intros x Hx. rewrite Forall_forall in Hr.
  specialize (Hr x Hx). unfold raw_le in Hr. cbn.
  assert (raw_idx r <> raw_idx x); [|lia]. intros E. apply Hn. rewrite E.
  by apply (list_elem_of_fmap_2 raw_idx).
Qed.

Lemma prefix_indices_nodup cpus sched runner dir p q :
  buffer_unordered (concurrency cpus) sched (test_futs env runner dir request) = p ++ q ->
  NoDup (map fut_idx p).
Proof.
  intros Hpq. assert (NoDup (map fut_idx (p ++ q))) as H.
  { rewrite <- Hpq, (Permutation_map fut_idx (buffer_unordered_perm _ _ _)).
    rewrite test_futs_indices. apply NoDup_seq. }
  rewrite map_app in H. by apply NoDup_app in H as [H _].
Qed.

(** C24. With [stop_on_first_fail] a failed job reports exactly one failing test
    case: its status is the verdict, every other reported test case passed, and the
    entries are in strictly increasing order of test case index. *)
Theorem execute_stops_at_failure cpus sched w w' res :
  stop_flag request = true -> run_job cpus sched w = (w', Ok res) ->
  verdict res <> Accepted -> test_results res <> [] ->
  StronglySorted Z.lt (map test_case_index (test_results res)) /\
  exists l1 t l2, test_results res = l1 ++ t :: l2 /\ tr_status t = verdict res /\
                  Forall (fun t => tr_status t = Accepted) (l1 ++ l2).
Proof.
  intros Hs [(_ & Hr & _)|H]%execute_ok Hv Hne; [done|].
  destruct H as (lang & dir & base & p & q & _ & _ & _ & _ & Hpq & _ & Hcons & -> & _).
  cbn [verdict test_results aggregated] in *. rewrite Hs in Hcons.
  split; [by eapply entries_sorted, prefix_indices_nodup|].
  destruct Hcons as [[_ Hp]|(p' & f & -> & Hp' & Hf)]; [by rewrite sorted_all_pass in Hv|].
  set (raws := map (raw_of sandbox (limit_t request) (limit_m request)) (p' ++ [f])) in *.
  set (rf := raw_of sandbox (limit_t request) (limit_m request) f).
  assert (rf ∈ sort_by_key raws) as Hin.
  { rewrite sort_by_key_Permutation. unfold raws. rewrite map_app. apply elem_of_app. right.
    by apply list_elem_of_singleton. }
  apply list_elem_of_split in Hin as (k1 & k2 & E).
  assert (k1 ++ k2 ≡ₚ map (raw_of sandbox (limit_t request) (limit_m request)) p') as Hk.
  { pose proof (sort_by_key_Permutation raws) as P. rewrite E in P. unfold raws in P.
    rewrite map_app in P. cbn [map] in P. fold rf in P.
    rewrite <- Permutation_middle, <- Permutation_cons_append in P. by apply Permutation_cons_inv in P. }
  assert (Forall (fun r => raw_verdict r = Accepted) (k1 ++ k2)) as Hacc.
  { rewrite Hk, Forall_map. done. }
  exists (map entry_of k1), (entry_of rf), (map entry_of k2). split_and!.
  - by rewrite E, map_app.
  - rewrite E, map_app. cbn. apply Forall_app in Hacc as [H1 _].
    induction k1 as [|r k1 IH]; [by cbn; rewrite decide_False|].
    apply Forall_cons in H1 as [Hr1 H1]. cbn. rewrite decide_True by done.
    clear IH E Hk. induction H1 as [|r' k1 Hr' _ IH]; cbn; [by rewrite decide_False|].
    by rewrite decide_True.
  - by rewrite <- map_app, Forall_map.
Qed.

(** A compiler failure is an answer, not an error: the job completes with
    [CompilationError] and the compiler's standard error as its output, no test
    case is prepared - and no counter changes, so the counter of compilation errors
    never does. *)
Theorem execute_compile_error cpus sched w lang dir c r :
  from_str (req_language request) = Some lang -> temp_dir = Ok dir -> write_error = None ->
  get_compile_command (get_runner lang) (path_join dir (get_source_filename (get_runner lang)))
    (path_join dir "binary") = Some c ->
  sandbox None (compile_config env dir c) = Ok r -> status r <> StOk ->
  exists w', run_job cpus sched w =
               (w', Ok (MkResult (job_id request) CompilationError 0 0
                          (Some (from_utf8_lossy (stderr r))) [])) /\
             metrics w' = metrics w /\ prepared w' = prepared w ++ [compile_config env dir c].
Proof.
  intros Hl -> -> Hg Hs Hr. rewrite execute_front. unfold front, write_file. rewrite Hl.
  destruct (is_compiled (get_runner lang)) eqn:Ec.
  - unfold compile_phase. rewrite Hg, Hs, decide_False by done. by eexists.
  - exfalso. assert (is_compiled (get_runner lang) = true); [|congruence].
    destruct lang; done || discriminate Hg.
Qed.

Definition is_test_result (e : ProgressEvent) : Prop :=
  match e with TestResult _ _ _ _ => True | _ => False end.

#[local] Instance is_test_result_dec e : Decision (is_test_result e).
Proof. destruct e; apply _. Defined.

Definition event_of_entry (t : TestCaseResult) : ProgressEvent :=
  TestResult (test_case_index t + 1) (tr_status t) (tr_cpu_time_ms t) (tr_memory_kb t).

Definition is_finished (e : ProgressEvent) : Prop :=
  match e with Finished _ => True | _ => False end.

Lemma events_of_entries t m p :
  map (event_of sandbox t m) p ≡ₚ
  map event_of_entry (map entry_of (sort_by_key (map (raw_of sandbox t m) p))).
Proof.
  rewrite (Permutation_map entry_of (sort_by_key_Permutation _)).
  by rewrite !map_map.
Qed.

Lemma front_events w :
  let '(w', fr) := front env sandbox temp_dir write_error progress request w in
  exists evs, events w' = events w ++ evs /\
    match fr with
    | NotCompiled _ => evs = if progress then [Compiling; Finished CompilationError] else []
    | _ => evs = [] \/ evs = [Compiling] /\ progress = true
    end.
Proof.
  unfold front. destruct (from_str (req_language request)) as [lang|];
    [|exists []; rewrite app_nil_r; auto].
  destruct temp_dir as [d|e]; [|exists []; rewrite app_nil_r; auto].
  unfold write_file. destruct write_error; [exists []; rewrite app_nil_r; auto|].
  destruct (is_compiled _); [|exists []; rewrite app_nil_r; auto].
  unfold compile_phase, add_events, prepare. destruct (get_compile_command _ _ _).
  - destruct (sandbox None _); [case_decide|]; cbn; destruct progress; rewrite <- ?app_assoc;
      cbn; eexists; eauto.
  - cbn. destruct progress; eexists; eauto.
Qed.

(** The progress stream is complete and ends once: a completed job with a
    listener sends one [TestResult] per reported test case, carrying the figures of
    the report, and then exactly one [Finished], last, with the final verdict. *)
Theorem execute_events cpus sched w w' res :
  progress = true -> run_job cpus sched w = (w', Ok res) ->
  exists evs, events w' = events w ++ evs ++ [Finished (verdict res)] /\
    filter is_test_result evs ≡ₚ map event_of_entry (test_results res) /\
    Forall (fun e => ~ is_finished e) evs.
Proof.
  intros Hp. rewrite execute_front. intros H. pose proof (front_events w) as He.
  pose proof (front_spec env sandbox temp_dir write_error progress request w) as [_ Hs].
  destruct (front _ _ _ _ _ _ _) as [w1 [e|r|runner dir base]]; cbn in Hs; [done| |].
  - injection H as <- <-. destruct He as (evs & He & ->). destruct Hs as [-> ->]. exists [Compiling].
    rewrite He, Hp. split_and!; [done|done|]. repeat constructor. by intros ?.
  - destruct Hs as (Hb & _).
    pose proof (run_tests_spec env sandbox workspace progress cpus sched runner dir
                  request base w1 Hb) as R. cbn zeta in R. rewrite H in R.
    destruct R as (p & q & _ & _ & _ & -> & ->). destruct He as (evs & He & Hevs).
    unfold world_after; cbn [events]. rewrite Hp, He.
    exists (evs ++ map (event_of sandbox (limit_t request) (limit_m request)) p).
    cbn [verdict test_results aggregated]. split_and!.
    + by rewrite <- !app_assoc.
    + rewrite <- events_of_entries, filter_app.
      assert (filter is_test_result evs = []) as -> by by destruct Hevs as [->|[-> _]].
      clear. induction p as [|f p IH]; [done|]. cbn [app map].
      rewrite filter_cons, decide_True by done. by constructor.
    + apply Forall_app. split; [destruct Hevs as [->|[-> _]]; repeat constructor; by intros ?|].
      apply Forall_map, Forall_forall. by intros f _ ?.
Qed.
(** What the pipeline guarantees of every test execution it asks for. *)
Record hardened (dir : string) (tc : TestCase) (cfg : SandboxConfig) : Prop := {
  h_isolated : isolated cfg;
  h_stdin : stdin_data cfg = Some (as_bytes (input tc));
  h_time : time_limit_ms cfg = req_time_limit_ms request;
  h_wall : wall_time_limit_ms cfg = wall_of (req_time_limit_ms request);
  h_memory : memory_limit_bytes cfg = req_memory_limit_bytes request;
  h_workspace : workspace_dir cfg = Some dir;
  h_work_dir : work_dir cfg = Some "/sandbox"%string;
  h_pids : 2 <= pids_limit cfg <= 24;
  h_cpu : cpu_max_percent cfg = run_cpu_max_percent env;
  h_output : max_output_bytes cfg = 10 * MiB
}.

(** What it guarantees of the compilation, which runs without isolation. *)
Record compile_bounded (dir : string) (cfg : SandboxConfig) : Prop := {
  b_profile : profile cfg = Compile;
  b_memory : memory_limit_bytes cfg <= Z.min (512 * MiB) (compile_memory_bytes env);
  b_time : time_limit_ms cfg <= 20000;
  b_pids : pids_limit cfg = 1024;
  b_work_dir : work_dir cfg = Some dir;
  b_stdin : stdin_data cfg = None
}.

Lemma env_cpu_percent_positive key d : 0 < d ->
  match env_cpu_percent env key d with Some p => 0 < p | None => True end.
Proof.
  intros Hd. unfold env_cpu_percent. destruct (env key) as [raw|]; [|done]. cbv zeta.
  destruct (is_empty _); [done|]. case_decide; [done|].
  destruct (Z.gtb_spec (match parse_u32 (to_ascii_lowercase (trim raw)) with
                        | Some p => p | None => d end) 0); [lia|done].
Qed.

Lemma kept_percent o :
  match o with Some p => 0 < p | None => True end ->
  match o with Some q => if q >? 0 then Some q else None | None => None end = o.
Proof. destruct o as [p|]; [|done]. intros H. by destruct (Z.gtb_spec p 0); [|lia]. Qed.

Lemma run_config_hardened runner `{RunnerOk runner} dir bin tc :
  hardened dir tc (run_config env runner dir bin request tc).
Proof.
  unfold run_config.
  pose proof (run_stdin bin (as_bytes (input tc)) (req_time_limit_ms request)
                (req_memory_limit_bytes request)) as Hi.
  pose proof (run_time bin (as_bytes (input tc)) (req_time_limit_ms request)
                (req_memory_limit_bytes request)) as Ht.
  pose proof (run_wall bin (as_bytes (input tc)) (req_time_limit_ms request)
                (req_memory_limit_bytes request)) as Hw.
  pose proof (run_memory bin (as_bytes (input tc)) (req_time_limit_ms request)
                (req_memory_limit_bytes request)) as Hm.
  pose proof (run_output bin (as_bytes (input tc)) (req_time_limit_ms request)
                (req_memory_limit_bytes request)) as Ho.
  pose proof pids_range as Hp.
  pose proof (env_cpu_percent_positive "JUDGE_CPU_MAX_PERCENT" DEFAULT_RUN_CPU_PERCENT
                ltac:(done)) as Hc.
  destruct (get_run_command _ _ _ _ _). split; cbn in *; try done. by apply kept_percent.
Qed.

Lemma compile_config_bounded runner `{RunnerOk runner} dir s b c :
  get_compile_command runner s b = Some c -> compile_bounded dir (compile_config env dir c).
Proof.
  intros Hg. pose proof (compile_time _ _ _ Hg) as Ht. pose proof (compile_memory _ _ _ Hg) as Hm.
  pose proof (compile_stdin _ _ _ Hg) as Hi.
  unfold compile_config. destruct c. split; cbn in *; try done; lia.
Qed.

Lemma front_prepared w cfg :
  cfg ∈ prepared (fst (front env sandbox temp_dir write_error progress request w)) ->
  cfg ∈ prepared w \/ exists dir, temp_dir = Ok dir /\ compile_bounded dir cfg.
Proof.
  unfold front. destruct (from_str (req_language request)) as [lang|]; [|by left].
  destruct temp_dir as [d|e]; [|by left].
  unfold write_file. destruct write_error; [by left|].
  destruct (is_compiled _); [|by left].
  unfold compile_phase, add_events, prepare.
  destruct (get_compile_command _ _ _) as [c|] eqn:Eg; [|by left].
  intros H. assert (cfg ∈ prepared w ++ [compile_config env d c]) as H'.
  { destruct (sandbox None _); [case_decide|]; exact H. }
  apply elem_of_app in H' as [H'| ->%list_elem_of_singleton]; [by left|]. right.
  exists d. split; [done|]. by eapply compile_config_bounded; [apply runner_instance|].
Qed.

Lemma prepared_configs cpus sched w cfg :
  cfg ∈ prepared (fst (run_job cpus sched w)) ->
  cfg ∈ prepared w \/
  exists dir, temp_dir = Ok dir /\
    (compile_bounded dir cfg \/
     exists i tc, test_cases request !! i = Some tc /\ hardened dir tc cfg).
Proof.
  rewrite execute_front. intros H. pose proof (front_prepared w cfg) as Hf.
  pose proof (front_spec env sandbox temp_dir write_error progress request w) as [_ Hs].
  destruct (front _ _ _ _ _ _ _) as [w1 [e|r|runner dir base]]; cbn in Hs, Hf, H.
  - destruct (Hf H) as [?|(d & ? & ?)]; eauto.
  - destruct (Hf H) as [?|(d & ? & ?)]; eauto.
  - destruct Hs as (Hb & Hd & lang & _ & ->).
    assert (Hp : cfg ∈ prepared w1 ++
                   map fut_config (test_futs env (get_runner lang) dir request)).
    { pose proof (run_tests_spec env sandbox workspace progress cpus sched (get_runner lang) dir
                    request base w1 Hb) as R. cbn zeta in R.
      destruct (run_tests _ _ _ _ _ _ _ _ _ _ _) as [w2 [res|e]].
      - by destruct R as (p & q & _ & _ & _ & _ & ->).
      - destruct R as (_ & R & _). by rewrite <- R. }
    apply elem_of_app in Hp as [Hp|Hp].
    + destruct (Hf Hp) as [?|(d & ? & ?)]; eauto.
    + right. exists dir. split; [done|]. right.
      apply list_elem_of_fmap in Hp as (f & -> & Hin).
      destruct (test_futs_idx _ _ _ _ _ Hin) as (tc & Hi & ->).
      exists (fut_idx f), tc. split; [done|]. apply run_config_hardened, runner_instance.
Qed.

(** C6. Nothing runs unconfined: whatever a job does and however it ends, every
    execution it asks the sandbox for is either the compilation - bounded to
    512 MB or the deployment's ceiling and 20 s - or a test case of the request in
    full isolation, with the request's own limits, the derived wall limit, 2 to 24
    processes and the configured CPU share. *)
Theorem execute_configs cpus sched w cfg :
  cfg ∈ prepared (fst (run_job cpus sched w)) ->
  cfg ∈ prepared w \/
  exists dir, temp_dir = Ok dir /\
    (compile_bounded dir cfg \/
     exists i tc, test_cases request !! i = Some tc /\ hardened dir tc cfg).
Proof. exact (prepared_configs cpus sched w cfg). Qed.
End Properties.

(* ------------------------------------------------------------------ *)
(** ** Output comparison: properties *)

Lemma position_spec {A : Type} (p : A -> bool) l :
  match position p l with
  | Some i => (exists a, l !! i = Some a /\ p a = true) /\ forallb (fun a => negb (p a)) (take i l) = true
  | None => forallb (fun a => negb (p a)) l = true
  end.
Proof.
  induction l as [|a l IH]; cbn; [done|]. destruct (p a) eqn:E; cbn.
  - split; [by exists a|done].
  - destruct (position p l) as [i|]; cbn; [|done]. by rewrite E.
Qed.

Lemma rposition_spec {A : Type} (p : A -> bool) l :
  match rposition p l with
  | Some i => (exists a, l !! i = Some a /\ p a = true) /\
              forallb (fun a => negb (p a)) (drop (S i) l) = true
  | None => forallb (fun a => negb (p a)) l = true
  end.
Proof.
  induction l as [|a l IH]; [done|]. cbn [rposition].
  destruct (rposition p l) as [i|]; [done|].
  destruct (p a) eqn:E; cbn; [|by rewrite E]. split; [by exists a|done].
Qed.

Definition all_ws (l : bytes) : Prop := forallb is_ascii_whitespace l = true.

(** No whitespace at either end. *)
Definition bare (l : bytes) : Prop :=
  l = [] \/ exists a b, head l = Some a /\ last l = Some b /\ not_ws a = true /\ not_ws b = true.

Lemma all_ws_negb l : forallb (fun a => negb (not_ws a)) l = true -> all_ws l.
Proof.
  unfold all_ws. intros <-. apply forallb_ext'. intros a. unfold not_ws.
  by rewrite negb_involutive.
Qed.

Lemma trim_bytes_split b :
  exists p q, b = p ++ trim_bytes b ++ q /\ all_ws p /\ all_ws q /\ bare (trim_bytes b) /\
    (fst (trim_range b) <= snd (trim_range b) <= length b)%nat.
Proof.
  unfold trim_bytes, trim_range.
  pose proof (position_spec not_ws b) as P. pose proof (rposition_spec not_ws b) as R.
  destruct (position not_ws b) as [s|]; cbn [fst snd].
  - destruct P as [(a & Ha & Pa) Hs].
    destruct (rposition not_ws b) as [i|].
    2:{ exfalso. rewrite forallb_forall in R.
        assert (List.In a b) as Hin by (apply list_elem_of_In, list_elem_of_lookup; eauto).
        specialize (R a Hin). by rewrite Pa in R. }
    destruct R as [(c & Hc & Pc) Hi].
    assert (s <= i)%nat as Hle.
    { destruct (Nat.le_gt_cases s i) as [|Hlt]; [done|]. exfalso.
      rewrite forallb_forall in Hs. assert (List.In c (take s b)) as Hin.
      { apply list_elem_of_In, list_elem_of_lookup. exists i. by rewrite lookup_take_lt. }
      specialize (Hs c Hin). by rewrite Pc in Hs. }
    pose proof (lookup_lt_Some _ _ _ Hc) as Hlen.
    exists (take s b), (drop (S i) b). split_and!; [|by apply all_ws_negb|by apply all_ws_negb| |lia|lia].
    + rewrite <- (take_drop s b) at 1. f_equal.
      rewrite <- (take_drop (S i - s) (drop s b)) at 1. f_equal. rewrite drop_drop. f_equal. lia.
    + right. exists a, c. split_and!; [| |done|done].
      * rewrite head_lookup, lookup_take_lt, lookup_drop by lia. by rewrite Nat.add_0_r.
      * rewrite last_lookup, length_take, length_drop, lookup_take_lt, lookup_drop by lia.
        rewrite <- Hc. f_equal. lia.
  - destruct (rposition not_ws b) as [i|].
    { exfalso. destruct R as [(c & Hc & Pc) _]. rewrite forallb_forall in P.
      assert (List.In c b) as Hin by (apply list_elem_of_In, list_elem_of_lookup; eauto).
      specialize (P c Hin). by rewrite Pc in P. }
    exists b, []. rewrite Nat.sub_diag. cbn. split_and!; [by rewrite app_nil_r|by apply all_ws_negb|done|by left|lia|lia].
Qed.

Definition strip_both (b : bytes) : bytes :=
  rev (drop_while is_ascii_whitespace (rev (drop_while is_ascii_whitespace b))).

Lemma drop_while_bare (l k : bytes) a :
  head l = Some a -> not_ws a = true -> drop_while is_ascii_whitespace (l ++ k) = l ++ k.
Proof.
  destruct l as [|c l]; [done|]. cbn. intros [= ->] Ha. unfold not_ws in Ha.
  by destruct (is_ascii_whitespace a).
Qed.

Lemma strip_both_unique p m q : all_ws p -> all_ws q -> bare m -> strip_both (p ++ m ++ q) = m.
Proof.
  intros Hp Hq Hm. unfold strip_both. rewrite drop_while_app by done.
  destruct Hm as [->|(a & b & Ha & Hb & Pa & Pb)]; cbn [app].
  - rewrite <- (app_nil_r q), drop_while_app by done. done.
  - rewrite (drop_while_bare m q a) by done.
    rewrite rev_app_distr, drop_while_app by (unfold all_ws in Hq; by rewrite forallb_rev).
    rewrite <- (app_nil_r (rev m)), (drop_while_bare (rev m) [] b), app_nil_r, rev_involutive;
      [done| |done].
    rewrite <- Hb. change (rev m) with (List.rev m). rewrite <- head_reverse.
    unfold reverse. by rewrite rev_alt.
Qed.

Lemma trim_bytes_strip b : trim_bytes b = strip_both b.
Proof.
  destruct (trim_bytes_split b) as (p & q & Hb & Hp & Hq & Hm & _).
  symmetry. rewrite Hb at 1. by apply strip_both_unique.
Qed.

Lemma trim_bytes_pad p b q : all_ws p -> all_ws q -> trim_bytes (p ++ b ++ q) = trim_bytes b.
Proof.
  intros Hp Hq. destruct (trim_bytes_split b) as (p' & q' & Hb & Hp' & Hq' & Hm & _).
  rewrite (trim_bytes_strip (p ++ b ++ q)), Hb at 1.
  rewrite <- !app_assoc, (app_assoc p p').
  apply strip_both_unique; [| |done]; unfold all_ws in *; rewrite forallb_app; by apply andb_true_intro.
Qed.

(** Trimming is exactly the removal of the surrounding ASCII whitespace: the
    slice bounds are always in range (no panic), what is cut off is whitespace, what
    is kept has none at either end, and padding the output with whitespace never
    changes the comparison. *)
Theorem trim_bytes_spec b :
  (fst (trim_range b) <= snd (trim_range b) <= length b)%nat /\
  (exists p q, b = p ++ trim_bytes b ++ q /\ all_ws p /\ all_ws q /\ bare (trim_bytes b)) /\
  (forall p q, all_ws p -> all_ws q -> trim_bytes (p ++ b ++ q) = trim_bytes b).
Proof.
  destruct (trim_bytes_split b) as (p & q & Hb & Hp & Hq & Hm & Hr). split_and!; try lia.
  - by exists p, q.
  - intros p' q'. apply trim_bytes_pad.
Qed.

Lemma judge_accepted expected t m r :
  judge_verdict expected t m r = Accepted <->
  status r = StOk /\ (0 < m / 1024 -> memory_kb r <= m / 1024) /\
  (forall e, expected = Some e -> trim_bytes (stdout r) = trim_bytes (as_bytes e)).
Proof.
  unfold judge_verdict. cbv zeta. rewrite !Z.gtb_ltb, Z.geb_leb.
  destruct (Z.ltb_spec 0 (m / 1024)), (Z.ltb_spec (m / 1024) (memory_kb r)),
           (Z.leb_spec t (cpu_time_ms r)), (status r); cbn [andb];
    try (split; [done|intros (Hs & Hm & _); try done; specialize (Hm ltac:(done)); lia]).
  all: destruct expected as [e|]; [case_decide as Hd|].
  all: split.
  all: try (intros _; split_and!; [done|lia|intros e' [= <-]; done]).
  all: try done.
  all: intros (_ & _ & He); elim Hd; by apply He.
Qed.


(* ------------------------------------------------------------------ *)
(** ** Witnesses: a two-test job, a stopping job and a job that does not compile *)

Definition demo_world : World := MkWorld [] metrics_init [] [] [].

Definition demo_request (lang : string) (stop : option bool) : JobRequest :=
  MkRequest "job-7" lang "source" 1000 (256 * MiB)
    [MkTest "1 2" (Some "3"%string); MkTest "9" (Some "4"%string); MkTest "7" None] stop.

(** Every program compiles and prints [3] and a newline. *)
Definition demo_sandbox (o : option nat) (c : SandboxConfig) : result string ExecutionResult :=
  Ok (MkExec StOk 0 5 9 1000 (as_bytes ("3" +:+ LF)) []).

(** The compiler exits with status 1. *)
Definition failing_compiler (o : option nat) (c : SandboxConfig) : result string ExecutionResult :=
  Ok (MkExec (StRuntimeError 1) 1 5 9 1000 [] (as_bytes "syntax error")).

(** A scheduler that always completes the youngest future. *)
Definition youngest (k : nat) : nat := 2 - k.

Definition demo_run sandbox lang stop sched :=
  execute no_env sandbox (Ok "/tmp/x"%string) None (DirNode []) (Some 2%positive) sched true
    (demo_request lang stop) demo_world.

Lemma run_eq {A B : Type} (o : A * B) b : snd o = b -> o = (fst o, b).
Proof. destruct o. cbn. by intros ->. Qed.

(** The reports expected of the three jobs. *)
Definition demo_entry (i : Z) (v : JudgeVerdict) : TestCaseResult :=
  MkTestResult i v 5 1000 (as_bytes ("3" +:+ LF)) [].

Definition demo_result : JobResult :=
  MkResult "job-7" WrongAnswer 15 1000 None
    [demo_entry 0 Accepted; demo_entry 1 WrongAnswer; demo_entry 2 Accepted].

Definition stopped_result : JobResult :=
  MkResult "job-7" WrongAnswer 10 1000 None
    [demo_entry 0 Accepted; demo_entry 1 WrongAnswer].

Lemma demo_run_eq : snd (demo_run demo_sandbox "python" None youngest) = Ok demo_result.
Proof. vm_compute. reflexivity. Qed.

Lemma stopped_run_eq :
  snd (demo_run demo_sandbox "python" (Some true) (fun _ => 0%nat)) = Ok stopped_result.
Proof. vm_compute. reflexivity. Qed.

Lemma demo_entries : test_results demo_result <> [].
Proof. discriminate. Qed.

Lemma stopped_facts : verdict stopped_result <> Accepted /\ test_results stopped_result <> [].
Proof. split; discriminate. Qed.

Lemma compiler_failed : status (MkExec (StRuntimeError 1) 1 5 9 1000 [] (as_bytes "syntax error")) <> StOk.
Proof. discriminate. Qed.

Lemma execute_accepted_iff_witness :
  verdict demo_result = Accepted <->
  exists lang dir, from_str "python" = Some lang /\
    Ok (E := string) "/tmp/x"%string = Ok dir /\
    compiles no_env demo_sandbox (get_runner lang) dir /\
    forall i tc, test_cases (demo_request "python" None) !! i = Some tc ->
      exists r, test_ran no_env demo_sandbox (demo_request "python" None) (get_runner lang) dir i tc r /\
                judged (demo_request "python" None) tc r = Accepted.
Proof. exact (execute_accepted_iff _ _ _ _ _ _ _ _ _ _ _ _ (run_eq _ _ demo_run_eq)). Defined.

Lemma execute_order_independent_witness :
  same_outcome (demo_run demo_sandbox "python" None youngest)
               (demo_run demo_sandbox "python" None (fun _ => 0%nat)).
Proof. apply execute_order_independent. reflexivity. Defined.

Lemma execute_report_witness :
  verdict demo_result = first_failing (map tr_status (test_results demo_result)).
Proof.
  exact (proj1 (execute_report _ _ _ _ _ _ (demo_request "python" None) _ _ _ _ _ eq_refl
                  (run_eq _ _ demo_run_eq) (or_intror demo_entries))).
Defined.

Lemma execute_stops_at_failure_witness :
  exists l1 t l2, test_results stopped_result = l1 ++ t :: l2 /\ tr_status t = WrongAnswer /\
                  Forall (fun t => tr_status t = Accepted) (l1 ++ l2).
Proof.
  exact (proj2 (execute_stops_at_failure _ _ _ _ _ _ (demo_request "python" (Some true)) _ _ _ _ _
                  eq_refl (run_eq _ _ stopped_run_eq) (proj1 stopped_facts)
                  (proj2 stopped_facts))).
Defined.

Lemma execute_compile_error_witness :
  exists w', demo_run failing_compiler "cpp" None youngest =
               (w', Ok (MkResult "job-7" CompilationError 0 0 (Some "syntax error"%string) [])) /\
             metrics w' = metrics_init.
Proof.
  destruct (execute_compile_error no_env failing_compiler (Ok "/tmp/x"%string) None (DirNode [])
              true (demo_request "cpp" None) (Some 2%positive) youngest demo_world Cpp "/tmp/x" _
              (MkExec (StRuntimeError 1) 1 5 9 1000 [] (as_bytes "syntax error")) eq_refl eq_refl
              eq_refl eq_refl eq_refl compiler_failed) as (w' & E & M & _).
  exists w'. split; [exact E|exact M].
Defined.

Lemma execute_events_witness :
  exists evs, events (fst (demo_run demo_sandbox "python" None youngest)) =
                [] ++ evs ++ [Finished WrongAnswer] /\
              Forall (fun e => ~ is_finished e) evs.
Proof.
  destruct (execute_events no_env demo_sandbox (Ok "/tmp/x"%string) None (DirNode []) true
              (demo_request "python" None) (Some 2%positive) youngest demo_world _ demo_result
              eq_refl (run_eq _ _ demo_run_eq)) as (evs & E & _ & F).
  exists evs. split; [exact E|exact F].
Defined.

Definition demo_config : SandboxConfig :=
  run_config no_env (get_runner Python) "/tmp/x" "/sandbox/main.py" (demo_request "python" None)
    (MkTest "9" (Some "4"%string)).

Lemma demo_config_prepared :
  prepared (fst (demo_run demo_sandbox "python" None youngest)) !! 1%nat = Some demo_config.
Proof. vm_compute. reflexivity. Qed.

Lemma execute_configs_witness :
  demo_config ∈ ([] : list SandboxConfig) \/
  exists dir, Ok (E := string) "/tmp/x"%string = Ok dir /\
    (compile_bounded no_env dir demo_config \/
     exists i tc, test_cases (demo_request "python" None) !! i = Some tc /\
                  hardened no_env (demo_request "python" None) dir tc demo_config).
Proof.
  exact (execute_configs no_env demo_sandbox (Ok "/tmp/x"%string) None (DirNode []) true
           (demo_request "python" None) (Some 2%positive) youngest demo_world demo_config
           (list_elem_of_lookup_2 _ _ _ demo_config_prepared)).
Defined.
