(* ===== verification/Typing.v ===== *)
(** * Machine types and totals

    The figures of a job at the widths Rust gives them: every configuration the pipeline
    hands to the sandbox is in the range of its fields' types ([u64], [usize], [u32]),
    whatever the environment variables say, as long as the request is - the derived wall
    limit saturates, and a limit from the environment is clamped.  And the totals of a
    report, which are exact as long as they fit. *)

From S2P Require Import Prelude Config Admission Languages Job Metrics Pipeline.

Definition u32 (z : Z) : Prop := 0 <= z <= u32_max.
Definition i32 (z : Z) : Prop := - 2 ^ 31 <= z < 2 ^ 31.

Definition request_typed (r : JobRequest) : Prop :=
  u64 (req_time_limit_ms r) /\ u64 (req_memory_limit_bytes r) /\
  u64 (Z.of_nat (length (test_cases r))).

Record config_typed (c : SandboxConfig) : Prop := MkConfigTyped {
  ct_time : u64 (time_limit_ms c);
  ct_wall : u64 (wall_time_limit_ms c);
  ct_memory : u64 (memory_limit_bytes c);
  ct_output : u64 (max_output_bytes c);
  ct_pids : u32 (pids_limit c);
  ct_cpu : match cpu_max_percent c with Some p => u32 p | None => True end;
  ct_workdir : u64 (fs_workdir_size_bytes c)
}.

Definition exec_typed (r : ExecutionResult) : Prop :=
  i32 (exit_code r) /\ u64 (cpu_time_ms r) /\ u64 (wall_time_ms r) /\ u64 (memory_kb r).

(* ------------------------------------------------------------------ *)
(** ** Configurations *)

Lemma wall_typed t : u64 t -> u64 (wall_of t).
Proof. intros H. by apply wall_of_bound in H as [_ H]. Qed.

Ltac typed :=
  repeat match goal with |- config_typed _ => constructor end; cbn;
  try apply wall_typed; unfold u64, u32, u64_max, u32_max, MiB; try done; try lia.

Lemma new_typed exe : config_typed (SandboxConfig.new exe).
Proof. typed. Qed.

Section Typing.
Context (env : Env).

Lemma env_cpu_percent_u32 key d : u32 d ->
  match env_cpu_percent env key d with Some p => u32 p | None => True end.
Proof.
  intros Hd. unfold env_cpu_percent. destruct (env key) as [raw|]; [|done]. cbv zeta.
  destruct (is_empty _); [done|]. case_decide; [done|].
  destruct (parse_u32 _) as [p|] eqn:E; [|destruct (d >? 0); done].
  apply parse_unsigned_bound in E; [|done]. destruct (p >? 0); done.
Qed.

Lemma kept_u32 o : match o with Some p => u32 p | None => True end ->
  match match o with Some q => if q >? 0 then Some q else None | None => None end with
  | Some p => u32 p | None => True
  end.
Proof. destruct o as [p|]; [|done]. by destruct (p >? 0). Qed.

Lemma runner_workdir l b i t m : u64 (fs_workdir_size_bytes (get_run_command (get_runner l) b i t m)).
Proof. destruct l; by cbn. Qed.

Lemma run_config_typed l dir bin request tc :
  request_typed request -> config_typed (run_config env (get_runner l) dir bin request tc).
Proof.
  intros (Ht & Hm & _). unfold run_config.
  set (i := as_bytes (input tc)). set (t := req_time_limit_ms request) in *.
  set (m := req_memory_limit_bytes request) in *.
  pose proof (run_time (r := get_runner l) bin i t m) as H1. pose proof (run_wall (r := get_runner l) bin i t m) as H2.
  pose proof (run_memory (r := get_runner l) bin i t m) as H3. pose proof (run_output (r := get_runner l) bin i t m) as H4.
  pose proof (runner_workdir l bin i t m) as H5.
  pose proof (pids_range (r := get_runner l)) as H6.
  pose proof (env_cpu_percent_u32 "JUDGE_CPU_MAX_PERCENT" DEFAULT_RUN_CPU_PERCENT ltac:(done)) as H7.
  destruct (get_run_command _ _ _ _ _). constructor; cbn in *; subst; try done.
  - by apply wall_typed.
  - unfold u32, u32_max. lia.
  - by apply kept_u32.
Qed.

Lemma compile_command_typed l s b c :
  get_compile_command (get_runner l) s b = Some c -> config_typed c.
Proof. intros E. destruct l; (discriminate E || injection E as <-); typed. Qed.

Lemma compile_config_typed l dir s b c :
  get_compile_command (get_runner l) s b = Some c -> config_typed (compile_config env dir c).
Proof.
  intros Hg. pose proof (compile_command_typed l s b c Hg) as [H1 H2 H3 H4 H5 H6 H7].
  pose proof (env_bytes_u64 env "JUDGE_COMPILE_MEMORY_BYTES" DEFAULT_COMPILE_BYTES ltac:(done)) as H8.
  pose proof (env_cpu_percent_u32 "JUDGE_COMPILE_CPU_MAX_PERCENT" DEFAULT_COMPILE_CPU_PERCENT ltac:(done)) as H9.
  unfold compile_config. destruct c. constructor; cbn in *; try done.
  - unfold compile_memory_bytes. unfold u64 in *. lia.
  - by apply kept_u32.
Qed.

(* ------------------------------------------------------------------ *)
(** ** Jobs *)

Context (sandbox : option nat -> SandboxConfig -> result string ExecutionResult).
Context (temp_dir : result string string) (write_error : option string) (workspace : Node).
Context (progress : bool) (request : JobRequest).

Abbreviation run_job cpus sched w :=
  (execute env sandbox temp_dir write_error workspace cpus sched progress request w).

(** The sandbox returns typed results when it is given typed configurations. *)
Definition sandbox_typed : Prop :=
  forall i cfg r, config_typed cfg -> sandbox i cfg = Ok r -> exec_typed r.

Lemma front_prepared_typed w cfg :
  cfg ∈ prepared (fst (front env sandbox temp_dir write_error progress request w)) ->
  cfg ∈ prepared w \/ config_typed cfg.
Proof.
  unfold front. destruct (from_str (req_language request)) as [l|]; [|by left].
  destruct temp_dir as [d|e]; [|by left]. unfold write_file. destruct write_error; [by left|].
  destruct (is_compiled _); [|by left]. unfold compile_phase, add_events, prepare.
  destruct (get_compile_command _ _ _) as [c|] eqn:Eg; [|by left].
  intros H. assert (cfg ∈ prepared w ++ [compile_config env d c]) as H'.
  { destruct (sandbox None _); [case_decide|]; exact H. }
  apply elem_of_app in H' as [H'| ->%list_elem_of_singleton]; [by left|right].
  by eapply compile_config_typed.
Qed.

Lemma prepared_typed cpus sched w cfg :
  request_typed request -> cfg ∈ prepared (fst (run_job cpus sched w)) ->
  cfg ∈ prepared w \/ config_typed cfg.
Proof.
  intros Hreq. rewrite execute_front. intros H. pose proof (front_prepared_typed w cfg) as Hf.
  pose proof (front_spec env sandbox temp_dir write_error progress request w) as [_ Hs].
  destruct (front _ _ _ _ _ _ _) as [w1 [e|r|runner dir base]]; cbn in Hs, Hf, H; [by auto..|].
  destruct Hs as (Hb & _ & l & _ & ->).
  assert (Hp : cfg ∈ prepared w1 ++ map fut_config (test_futs env (get_runner l) dir request)).
  { pose proof (run_tests_spec env sandbox workspace progress cpus sched (get_runner l) dir
                  request base w1 Hb) as R. cbn zeta in R.
    destruct (run_tests _ _ _ _ _ _ _ _ _ _ _) as [w2 [res|e]].
    - by destruct R as (p & q & _ & _ & _ & _ & ->).
    - destruct R as (_ & R & _). by rewrite <- R. }
  apply elem_of_app in Hp as [Hp|Hp]; [by auto|]. right.
  apply list_elem_of_fmap in Hp as (f & -> & Hf'). destruct (test_futs_idx _ _ _ _ _ Hf') as (tc & _ & ->).
  by apply run_config_typed.
Qed.

(* ------------------------------------------------------------------ *)
(** ** Properties *)

Lemma cpu_sum_total rs : cpu_sum rs = total (map (fun r => cpu_time_ms (raw_exec r)) rs).
Proof. induction rs as [|r rs IH]; cbn; [done|]. by f_equal. Qed.

Lemma mem_max_foldl m rs : mem_max m rs = foldl Z.max m (map (fun r => memory_kb (raw_exec r)) rs).
Proof. revert m. induction rs as [|r rs IH]; intros m; cbn; [done|]. apply IH. Qed.

(** What the compile step adds to the figures of a job: nothing where there is none, and
    otherwise those of its execution. *)
Definition compile_figures (cpu mem : Z) : Prop :=
  (cpu = 0 /\ mem = 0) \/
  exists cfg r, sandbox None cfg = Ok r /\ cpu = cpu_time_ms r /\ mem = memory_kb r.

Lemma front_figures w :
  sandbox_typed ->
  match snd (front env sandbox temp_dir write_error progress request w) with
  | Start _ _ base => exists cpu mem, base = initial request cpu mem /\ compile_figures cpu mem
  | _ => True
  end.
Proof.
  intros Hsb. unfold front. destruct (from_str (req_language request)) as [l|]; [|done].
  destruct temp_dir as [dir|e]; [|done]. destruct (write_file _ _ _ w) as [w1 [[]|e]]; [|done].
  assert (exists cpu mem, initial request 0 0 = initial request cpu mem /\ compile_figures cpu mem) as Hnone.
  { exists 0, 0. split; [done|by left]. }
  destruct (is_compiled (get_runner l)); [|exact Hnone].
  unfold compile_phase. destruct (get_compile_command _ _ _) as [c|] eqn:Eg; [|exact Hnone].
  destruct (sandbox None _) as [r|e] eqn:Es; [|done]. case_decide; [|done].
  destruct (Hsb _ _ _ (compile_config_typed l dir _ _ c Eg) Es) as (_ & Hc & _ & Hm).
  exists (cpu_time_ms r), (memory_kb r). split; [|right; by eexists _, r].
  cbn. unfold add64. rewrite Z.add_0_l, wrap64_small by done. unfold u64 in Hm. by rewrite Z.max_r by lia.
Qed.

(** The totals of a report are exact: the CPU time of a job is what its compilation used
    plus what each reported test case used, as long as that fits in 64 bits (the release
    build wraps around), and its peak memory is the largest of theirs. *)
Theorem execute_totals cpus sched w w' res :
  sandbox_typed -> run_job cpus sched w = (w', Ok res) -> verdict res <> CompilationError \/ test_results res <> [] ->
  exists cpu mem, compile_figures cpu mem /\
    let used := cpu + total (map tr_cpu_time_ms (test_results res)) in
    (u64 used -> total_cpu_time_ms res = used) /\
    peak_memory_kb res = foldl Z.max mem (map tr_memory_kb (test_results res)).
Proof.
  intros Hsb H Hv. rewrite execute_front in H. pose proof (front_figures w Hsb) as Hf.
  pose proof (front_spec env sandbox temp_dir write_error progress request w) as [_ Hs].
  destruct (front _ _ _ _ _ _ _) as [w1 [e|r|runner dir base]]; cbn in Hf, Hs; [done| |].
  { injection H as _ <-. destruct Hs. by destruct Hv. }
  destruct Hf as (cpu & mem & -> & Hc). destruct Hs as (Hb & _).
  pose proof (run_tests_spec env sandbox workspace progress cpus sched runner dir request
                (initial request cpu mem) w1 Hb) as R.
  cbn zeta in R. rewrite H in R. destruct R as (p & q & _ & _ & _ & -> & _).
  set (rs := sort_by_key _). exists cpu, mem. split; [exact Hc|]. cbn [test_results aggregated].
  rewrite !map_map. cbn. split.
  - intros Hu. rewrite cpu_sum_total. by apply wrap64_small.
  - apply mem_max_foldl.
Qed.
End Typing.
