(* ===== verification/Os.v ===== *)
(** * The operating system, as the sandbox sees it

    The sandbox files issue system calls (through [libc], [nix] and [std::fs]) and
    react to their results.  Here a call is a value, the kernel is an arbitrary
    function from the history of calls and replies to the next reply, and a piece of
    sandbox code is a computation that extends the history and may stop early.
    Nothing is assumed about the kernel, so a theorem about the recorded history
    holds whichever calls fail. *)

From S2P Require Import Prelude.

Inductive MountFlag : Type := MS_REC | MS_PRIVATE | MS_BIND | MS_RDONLY | MS_REMOUNT.

#[export] Instance MountFlag_eq_dec : EqDecision MountFlag.
Proof. solve_decision. Defined.

Inductive Namespace : Type := CLONE_NEWNET | CLONE_NEWIPC | CLONE_NEWNS.

#[export] Instance Namespace_eq_dec : EqDecision Namespace.
Proof. solve_decision. Defined.

Inductive Rlimit : Type := RLIMIT_CPU | RLIMIT_FSIZE | RLIMIT_STACK.

#[export] Instance Rlimit_eq_dec : EqDecision Rlimit.
Proof. solve_decision. Defined.

(** What a filter of the [seccompiler] crate is made of, as far as this code uses it: a
    list of rules per system call number (each rule written as a text), an action for
    the calls that match none and one for those that match, and an architecture. *)
Inductive SeccompAction : Type := Allow | Errno (code : Z).

#[export] Instance SeccompAction_eq_dec : EqDecision SeccompAction.
Proof. solve_decision. Defined.

Record SeccompFilter : Type := MkFilter {
  rules : gmap Z (list string); mismatch_action : SeccompAction; match_action : SeccompAction;
  filter_arch : string }.

#[export] Instance SeccompFilter_eq_dec : EqDecision SeccompFilter.
Proof. solve_decision. Defined.

Inductive Call : Type :=
  (* files and directories *)
  | Metadata (path : string)
  | PathExists (path : string)
  | IsDir (path : string)
  | CreateDirAll (path : string)
  | OpenWrite (path : string)
  | WriteAll (path value : string)
  | ReadToString (path : string)
  | RemoveDir (path : string)
  | RemoveDirAll (path : string)
  (* descriptors and processes *)
  | Pipe
  | SetCloexec (fd : Z)
  | CloseFd (fd : Z)
  | Dup2 (old new : Z)
  | Setpgid (pid pgid : Z)
  | Fork
  | Kill (pid sig : Z)
  | Setrlimit (r : Rlimit) (soft hard : Z)
  | Clearenv
  | Setenv (key value : string)
  (* isolation *)
  | Unshare (flags : list Namespace)
  | Mount (source : option string) (target : string) (fstype : option string)
      (flags : list MountFlag) (data : option string)
  | UmountDetach (target : string)
  | PivotRoot (new_root put_old : string)
  | Chdir (path : string)
  | Mknod (path : string) (mode major minor : Z)
  (* seccomp and privileges *)
  | SetNoNewPrivs
  | TargetArch (arch : string)
  | BuildFilter (f : SeccompFilter)
  | CompileFilter (f : SeccompFilter)
  | ApplyFilter (f : SeccompFilter)
  | SetgroupsEmpty
  | Setresgid (r e s : Z)
  | Setresuid (r e s : Z)
  | Getuid
  | Geteuid
  | Setuid (u : Z)
  (* the end *)
  | Execve (path : string) (argv envp : list string).

#[export] Instance Call_eq_dec : EqDecision Call.
Proof. solve_decision. Defined.

(** A reply: the return value (negative for an error), the text that comes with it -
    the content of a file, or the message of an error - and a second descriptor. *)
Record Reply : Type := FullReply { ret : Z; text : string; ret2 : Z }.
Abbreviation MkReply r t := (FullReply r t 0).

#[export] Instance Reply_eq_dec : EqDecision Reply.
Proof. solve_decision. Defined.

Abbreviation History := (list (Call * Reply)).
Definition Kernel : Type := History -> Call -> Reply.

(** A computation: it is given the history so far and extends it. *)
Definition Os (E A : Type) : Type := Kernel -> History -> History * result E A.

#[export] Instance os_ret (E : Type) : MRet (Os E) := fun A a k h => (h, Ok a).
#[export] Instance os_bind (E : Type) : MBind (Os E) :=
  fun A B f m k h => match m k h with
                     | (h', Ok a) => f a k h'
                     | (h', Err e) => (h', Err e)
                     end.

Definition stop {E A : Type} (e : E) : Os E A := fun k h => (h, Err e).

(** Issue one call. *)
Definition sys {E : Type} (c : Call) : Os E Reply :=
  fun k h => let r := k h c in (h ++ [(c, r)], Ok r).

(** [f()?] with the error mapped, for calls that fail with a negative return. *)
Definition sys_ok {E : Type} (c : Call) (err : string -> E) : Os E unit :=
  r ← sys c; if 0 <=? ret r then mret tt else stop (err (text r)).

(** [let _ = f();] *)
Definition sys_ignore {E : Type} (c : Call) : Os E unit := _ ← sys c; mret tt.

(** A boolean query ([Path::exists], [fs::metadata(..).is_ok()]). *)
Definition sys_bool {E : Type} (c : Call) : Os E bool := r ← sys c; mret (0 <=? ret r).

(** [fs::read_to_string] *)
Definition sys_read {E : Type} (path : string) : Os E (result string string) :=
  r ← sys (ReadToString path);
  mret (if 0 <=? ret r then Ok (text r) else Err (text r)).

Fixpoint for_each {E A : Type} (l : list A) (f : A -> Os E unit) : Os E unit :=
  match l with
  | [] => mret tt
  | a :: l' => _ ← f a; for_each l' f
  end.

(** [let x = m;] where an [Err] is a value, not an early return. *)
Definition catch {E F A : Type} (m : Os E A) : Os F (result E A) :=
  fun k h => let '(h', r) := m k h in (h', Ok r).

(** A local with a destructor: if the rest of the block stops, it is dropped. *)
Definition guarded {E A : Type} (m : Os E A) (on_drop : Os E unit) : Os E A :=
  fun k h => match m k h with
             | (h', Ok a) => (h', Ok a)
             | (h', Err e) => (fst (on_drop k h'), Err e)
             end.

(** The errors of a nested computation become errors of the caller. *)
Definition lift_os {E F A : Type} (inj : E -> F) (m : Os E A) : Os F A :=
  fun k h => let '(h', r) := m k h in (h', map_err inj r).

(* ------------------------------------------------------------------ *)
(** ** Reasoning about histories *)

(** The calls that succeeded, in order. *)
Definition ok_calls (h : History) : list Call :=
  map fst (filter (fun p : Call * Reply => 0 <= ret (snd p)) h).

(** Call [c] was made and succeeded; call [c] was made at all. *)
Definition did (c : Call) (h : History) : Prop := c ∈ ok_calls h.
Definition issued (c : Call) (h : History) : Prop := c ∈ map fst h.

#[export] Instance did_dec c h : Decision (did c h).
Proof. unfold did. apply _. Defined.

#[export] Instance issued_dec c h : Decision (issued c h).
Proof. unfold issued. apply _. Defined.

Definition is_exec (c : Call) : bool := match c with Execve _ _ _ => true | _ => false end.
Definition no_exec (h : History) : Prop := Forall (fun p => is_exec (fst p) = false) h.

(** [ensures m Q]: whatever the kernel replies, [m] extends the history without
    executing a program, and if it succeeds with [a] by adding [t] then [Q a t]. *)
Definition ensures {E A : Type} (m : Os E A) (Q : A -> History -> Prop) : Prop :=
  forall k h, exists t, fst (m k h) = h ++ t /\ no_exec t /\
                        (forall a, snd (m k h) = Ok a -> Q a t).

(** [performs m cs]: if [m] succeeds, all of [cs] succeeded, in this order. *)
Definition performs {E A : Type} (m : Os E A) (cs : list Call) : Prop :=
  ensures m (fun _ t => cs `sublist_of` ok_calls t).

Lemma ok_calls_app h k : ok_calls (h ++ k) = ok_calls h ++ ok_calls k.
Proof. unfold ok_calls. by rewrite filter_app, map_app. Qed.

Lemma ok_calls_one c r : ok_calls [(c, r)] = if decide (0 <= ret r) then [c] else [].
Proof. unfold ok_calls. rewrite filter_cons, filter_nil. cbn. by case_decide. Qed.

Lemma did_app c h k : did c (h ++ k) <-> did c h \/ did c k.
Proof. unfold did. by rewrite ok_calls_app, elem_of_app. Qed.

Lemma issued_app c h k : issued c (h ++ k) <-> issued c h \/ issued c k.
Proof. unfold issued. by rewrite map_app, elem_of_app. Qed.

Lemma ensures_conseq {E A : Type} (m : Os E A) (Q Q' : A -> History -> Prop) :
  ensures m Q -> (forall a t, Q a t -> Q' a t) -> ensures m Q'.
Proof. intros H HQ k h. destruct (H k h) as (t & Ht & Hn & Ha). exists t. auto. Qed.

Lemma ensures_ret {E A : Type} (a : A) (Q : A -> History -> Prop) :
  Q a [] -> ensures (mret a : Os E A) Q.
Proof.
  intros H k h. exists []. cbn. rewrite app_nil_r. split_and!; [done|constructor|].
  by intros b [= <-].
Qed.

Lemma ensures_stop {E A : Type} (e : E) (Q : A -> History -> Prop) : ensures (stop e) Q.
Proof. intros k h. exists []. cbn. rewrite app_nil_r. split_and!; [done|constructor|done]. Qed.

Lemma ensures_sys {E : Type} c (Q : Reply -> History -> Prop) :
  is_exec c = false -> (forall r, Q r [(c, r)]) -> ensures (sys c : Os E Reply) Q.
Proof.
  intros Hc HQ k h. exists [(c, k h c)]. cbn.
  split_and!; [done|by constructor|by intros a [= <-]].
Qed.

Lemma ensures_bind {E A B : Type} (m : Os E A) (f : A -> Os E B)
    (R : A -> History -> Prop) (Q : B -> History -> Prop) :
  ensures m R -> (forall a, ensures (f a) (fun b t2 => forall t1, R a t1 -> Q b (t1 ++ t2))) ->
  ensures (m ≫= f) Q.
Proof.
  intros Hm Hf k h. unfold mbind, os_bind. destruct (Hm k h) as (t1 & Ht1 & Hn1 & HR).
  destruct (m k h) as [h1 [a|e]]; cbn in Ht1, HR; subst h1.
  - destruct (Hf a k (h ++ t1)) as (t2 & Ht2 & Hn2 & HQ). exists (t1 ++ t2).
    rewrite Ht2, <- app_assoc. split_and!; [done|by apply Forall_app|].
    intros b Hb. by apply HQ, HR.
  - exists t1. by split_and!.
Qed.

Lemma ensures_catch {E F A : Type} (m : Os E A) (Q : A -> History -> Prop) :
  ensures m Q ->
  ensures (catch m : Os F (result E A)) (fun r t => forall a, r = Ok a -> Q a t).
Proof.
  intros Hm k h. unfold catch. destruct (Hm k h) as (t & Ht & Hn & HQ).
  destruct (m k h) as [h' r]. cbn in *. exists t. split_and!; [done|done|].
  intros r' [= <-]. exact HQ.
Qed.

(** [ensures m] without a promise: a step of preparation. *)
Definition prepares {E A : Type} (m : Os E A) : Prop := ensures m (fun _ _ => True).

Lemma performs_prepares {E A : Type} (m : Os E A) Q : ensures m Q -> prepares m.
Proof. intros H. by eapply ensures_conseq. Qed.

Lemma prepares_performs {E A : Type} (m : Os E A) cs : performs m cs -> prepares m.
Proof. apply performs_prepares. Qed.

Lemma performs_nil {E A : Type} (m : Os E A) : prepares m -> performs m [].
Proof. intros H. eapply ensures_conseq; [exact H|]. intros a t _. apply sublist_nil_l. Qed.

Lemma performs_weaken {E A : Type} (m : Os E A) cs ds :
  performs m cs -> ds `sublist_of` cs -> performs m ds.
Proof. intros H Hs. eapply ensures_conseq; [exact H|]. cbn. intros _ t Ht. by etrans. Qed.

Lemma performs_bind {E A B : Type} (m : Os E A) (f : A -> Os E B) cs ds :
  performs m cs -> (forall a, performs (f a) ds) -> performs (m ≫= f) (cs ++ ds).
Proof.
  intros Hm Hf. eapply ensures_bind; [exact Hm|]. intros a. eapply ensures_conseq; [apply Hf|].
  cbn. intros b t2 H2 t1 H1. rewrite ok_calls_app. by apply sublist_app.
Qed.

Lemma prepares_bind {E A B : Type} (m : Os E A) (f : A -> Os E B) :
  prepares m -> (forall a, prepares (f a)) -> prepares (m ≫= f).
Proof.
  intros Hm Hf. eapply ensures_bind; [exact Hm|]. intros a. eapply ensures_conseq; [apply Hf|done].
Qed.

(** A head that the promise does not depend on. *)
Lemma ensures_value {E A B : Type} (m : Os E A) (f : A -> Os E B) (Q : B -> Prop) :
  prepares m -> (forall a, ensures (f a) (fun b _ => Q b)) -> ensures (m ≫= f) (fun b _ => Q b).
Proof.
  intros Hm Hf. eapply ensures_bind; [exact Hm|]. intros a.
  eapply ensures_conseq; [apply Hf|]. by intros b t2 Hb t1 _.
Qed.

Lemma performs_sys_ok {E : Type} c (err : string -> E) :
  is_exec c = false -> performs (sys_ok c err) [c].
Proof.
  intros Hc k h. unfold sys_ok, mbind, os_bind, sys. cbn -[ok_calls]. exists [(c, k h c)].
  destruct (Z.leb_spec 0 (ret (k h c))); cbn -[ok_calls]; (split_and!; [done|by constructor|]).
  - intros [] _. rewrite ok_calls_one, decide_True by done. done.
  - done.
Qed.

Lemma prepares_ret {E A : Type} (a : A) : prepares (mret a : Os E A).
Proof. by apply ensures_ret. Qed.

Lemma prepares_stop {E A : Type} (e : E) : prepares (stop e : Os E A).
Proof. apply ensures_stop. Qed.

Lemma prepares_sys {E : Type} c : is_exec c = false -> prepares (sys c : Os E Reply).
Proof. intros Hc. by apply ensures_sys. Qed.

Lemma prepares_sys_ok {E : Type} c (err : string -> E) : is_exec c = false -> prepares (sys_ok c err).
Proof. intros Hc. by eapply performs_prepares, performs_sys_ok. Qed.

Lemma prepares_sys_ignore {E : Type} c : is_exec c = false -> prepares (sys_ignore c : Os E unit).
Proof. intros Hc. apply prepares_bind; [by apply prepares_sys|]. intros _. apply prepares_ret. Qed.

Lemma prepares_sys_bool {E : Type} c : is_exec c = false -> prepares (sys_bool c : Os E bool).
Proof. intros Hc. apply prepares_bind; [by apply prepares_sys|]. intros r. apply prepares_ret. Qed.

Lemma prepares_sys_read {E : Type} p : prepares (sys_read p : Os E (result string string)).
Proof. apply prepares_bind; [by apply prepares_sys|]. intros r. apply prepares_ret. Qed.

Lemma prepares_catch {E F A : Type} (m : Os E A) : prepares m -> prepares (catch m : Os F _).
Proof. intros Hm. eapply ensures_conseq; [by apply ensures_catch|done]. Qed.

Lemma prepares_for_each {E A : Type} (l : list A) (f : A -> Os E unit) :
  (forall a, prepares (f a)) -> prepares (for_each l f).
Proof.
  intros Hf. induction l as [|a l IH]; cbn; [apply prepares_ret|].
  apply prepares_bind; [apply Hf|]. by intros _.
Qed.

(** A call whose reply is checked before going on. *)
Lemma ensures_check {E A : Type} c (b : Reply -> bool) (e : E) (m : Os E A)
    (Q : A -> History -> Prop) :
  is_exec c = false ->
  (forall r, b r = false -> ensures m (fun a t => Q a ((c, r) :: t))) ->
  ensures (r ← sys c; if b r then stop e else m) Q.
Proof.
  intros Hc Hm. eapply ensures_bind.
  { apply (ensures_sys c (fun r t => t = [(c, r)])); done. }
  intros r. destruct (b r) eqn:Hb; [apply ensures_stop|].
  eapply ensures_conseq; [by apply Hm|]. cbn. by intros a t Ht t1 ->.
Qed.

(** Promises that longer histories keep. *)
Definition grows (Q : History -> Prop) : Prop := forall t1 t2, Q t1 \/ Q t2 -> Q (t1 ++ t2).

Lemma ensures_before {E A B : Type} (m : Os E A) (f : A -> Os E B) (Q : History -> Prop) :
  grows Q -> prepares m -> (forall a, ensures (f a) (fun _ => Q)) -> ensures (m ≫= f) (fun _ => Q).
Proof.
  intros HQ Hm Hf. eapply ensures_bind; [exact Hm|]. intros a.
  eapply ensures_conseq; [apply Hf|]. cbn. intros b t2 H2 t1 _. apply HQ. by right.
Qed.

Lemma ensures_after {E A B : Type} (m : Os E A) (f : A -> Os E B) (Q : History -> Prop) :
  grows Q -> ensures m (fun _ => Q) -> (forall a, prepares (f a)) -> ensures (m ≫= f) (fun _ => Q).
Proof.
  intros HQ Hm Hf. eapply ensures_bind; [exact Hm|]. intros a.
  eapply ensures_conseq; [apply Hf|]. cbn. intros b t2 _ t1 H1. apply HQ. by left.
Qed.

Lemma run_bind {E A B : Type} (m : Os E A) (f : A -> Os E B) k h :
  (m ≫= f) k h = match m k h with (h', Ok a) => f a k h' | (h', Err e) => (h', Err e) end.
Proof. reflexivity. Qed.

Lemma ensures_guarded {E A : Type} (m : Os E A) d (Q : A -> History -> Prop) :
  ensures m Q -> prepares d -> ensures (guarded m d) Q.
Proof.
  intros Hm Hd k h. unfold guarded. destruct (Hm k h) as (t & Ht & Hn & HQ).
  destruct (m k h) as [h1 [a|e]]; cbn in *; subst h1.
  - exists t. by split_and!.
  - destruct (Hd k (h ++ t)) as (t2 & Ht2 & Hn2 & _). exists (t ++ t2).
    rewrite Ht2, <- app_assoc. split_and!; [done|by apply Forall_app|done].
Qed.

Lemma performs_lift {E F A : Type} (inj : E -> F) (m : Os E A) Q :
  ensures m Q -> ensures (lift_os inj m) Q.
Proof.
  intros Hm k h. unfold lift_os. destruct (Hm k h) as (t & Ht & Hn & HQ).
  destruct (m k h) as [h1 r]. cbn in *. exists t. split_and!; [done|done|].
  intros a Ha. apply HQ. destruct r; [by injection Ha as ->|done].
Qed.

(** Computations that cannot stop. *)
Definition total {E A : Type} (m : Os E A) : Prop := forall k h, exists a, snd (m k h) = Ok a.

Lemma total_ret {E A : Type} (a : A) : total (mret a : Os E A).
Proof. intros k h. by exists a. Qed.

Lemma total_sys {E : Type} c : total (sys c : Os E Reply).
Proof. intros k h. by eexists. Qed.

Lemma total_bind {E A B : Type} (m : Os E A) (f : A -> Os E B) :
  total m -> (forall a, total (f a)) -> total (m ≫= f).
Proof.
  intros Hm Hf k h. unfold mbind, os_bind. destruct (Hm k h) as [a Ha].
  destruct (m k h) as [h1 r]. cbn in Ha. subst r. apply Hf.
Qed.

Lemma total_catch {E F A : Type} (m : Os E A) : total (catch m : Os F _).
Proof. intros k h. unfold catch. destruct (m k h) as [h' r]. by exists r. Qed.

Lemma total_for_each {E A : Type} (l : list A) (f : A -> Os E unit) :
  (forall a, total (f a)) -> total (for_each l f).
Proof.
  intros Hf. induction l as [|a l IH]; cbn; [apply total_ret|]. apply total_bind; [apply Hf|by intros _].
Qed.

Create HintDb os.
#[export] Hint Resolve total_ret total_sys total_catch total_for_each : os.
#[export] Hint Extern 2 (total (_ ≫= _)) => (apply total_bind; [|intros ?]) : os.
#[export] Hint Extern 2 (total (if ?b then _ else _)) => destruct b : os.
#[export] Hint Extern 3 (total (match ?b with _ => _ end)) => destruct b : os.
#[export] Hint Extern 3 (total (sys_ignore _)) => unfold sys_ignore : os.
#[export] Hint Extern 3 (total (sys_bool _)) => unfold sys_bool : os.
#[export] Hint Extern 3 (total (sys_read _)) => unfold sys_read : os.

#[export] Hint Resolve prepares_ret prepares_stop prepares_sys prepares_sys_ok prepares_sys_ignore
  prepares_sys_bool prepares_sys_read prepares_catch prepares_for_each performs_sys_ok : os.
#[export] Hint Extern 1 (is_exec _ = false) => reflexivity : os.
#[export] Hint Extern 2 (prepares (_ ≫= _)) => (apply prepares_bind; [|intros ?]) : os.
#[export] Hint Extern 2 (prepares (if ?b then _ else _)) => destruct b : os.
#[export] Hint Extern 3 (prepares (match ?b with _ => _ end)) => destruct b : os.

(** [os]: the computation issues no [execve], by its structure. *)
Ltac os := eauto 20 with os.

Lemma performs_cons {E A B : Type} (m : Os E A) (f : A -> Os E B) c ds :
  performs m [c] -> (forall a, performs (f a) ds) -> performs (m ≫= f) (c :: ds).
Proof. apply (performs_bind m f [c]). Qed.

(** One mandatory call at the head of a sequence. *)
Ltac performs_step := apply performs_cons; [solve [eauto with os]|intros ?].
(** A head whose calls are not part of the promise. *)
Ltac performs_skip :=
  match goal with |- performs _ ?cs =>
    change cs with ([] ++ cs); apply performs_bind; [apply performs_nil; solve [os]|intros ?]
  end.
