(* ===== verification/Cgroups.v ===== *)
(** * Control groups

    [src/src/sandbox/cgroups.rs]: creating the job's cgroup, the limits written into
    it, attaching the child, reading its statistics, killing it and removing it. *)

From S2P Require Import Prelude Config Os.

Open Scope string_scope.

Inductive CgroupError : Type :=
  | DirectoryCreationFailed (m : string)
  | SettingWriteFailed (m : string)
  | StatReadFailed (m : string)
  | NotAvailable (m : string)
  | CleanupFailed (m : string).

Record CgroupStats : Type := MkStats {
  memory_current_bytes : Z;
  memory_peak_bytes : Z;
  cpu_usage_usec : Z;
  oom_kill_count : Z
}.

Record CgroupManager : Type := MkCgroup {
  cgroup_root : string; cg_job_id : string; cgroup_path : string
}.

Definition CGROUP_ROOT : string := "/sys/fs/cgroup/judge".
Definition SIGKILL : Z := 9.
Definition EBUSY : Z := 16.

(** [path.display()] *)
Definition display (p : string) : string := to_string_lossy p.

Definition write_cgroup_file {E : Type} (inj : CgroupError -> E) (path value : string) : Os E unit :=
  _ ← sys_ok (OpenWrite path)
        (fun e => inj (SettingWriteFailed ("Cannot write to " +:+ display path +:+ ": " +:+ e)));
  sys_ok (WriteAll path value)
    (fun e => inj (SettingWriteFailed ("Failed to write '" +:+ value +:+ "' to " +:+
                                   display path +:+ ": " +:+ e))).

(** [cpu.max]'s quota for a period of 100 ms. *)
Definition cpu_quota (percent : Z) : Z := Z.max (saturating_mul percent 100000 / 100) 1000.

Definition create (m : CgroupManager) (config : SandboxConfig) : Os CgroupError unit :=
  let path := cgroup_path m in
  _ ← sys_ok (CreateDirAll path)
        (fun e => DirectoryCreationFailed ("Failed to create " +:+ display path +:+ ": " +:+ e));
  _ ← write_cgroup_file id (path_join path "memory.max") (show_Z (memory_limit_bytes config));
  _ ← catch (write_cgroup_file (E := CgroupError) id (path_join path "memory.swap.max") "0");
  _ ← catch (write_cgroup_file (E := CgroupError) id (path_join path "memory.zswap.max") "0");
  _ ← (if decide (profile config <> Compile)
       then write_cgroup_file id (path_join path "pids.max") (show_Z (pids_limit config))
       else mret tt);
  match cpu_max_percent config with
  | Some percent =>
      _ ← catch (write_cgroup_file (E := CgroupError) id (path_join path "cpu.max")
                   (show_Z (cpu_quota percent) +:+ " " +:+ show_Z 100000));
      mret tt
  | None => mret tt
  end.

Definition attach_proc (m : CgroupManager) (pid : Z) : Os CgroupError unit :=
  write_cgroup_file id (path_join (cgroup_path m) "cgroup.procs") (show_Z pid).

(* ------------------------------------------------------------------ *)
(** ** Statistics *)

(** The three parsers, on what reading the file gave.  The text of a [ParseIntError]
    is left out of the messages: [read_stats] discards them. *)
Definition read_cgroup_value (path : string) (contents : result string string)
  : result CgroupError Z :=
  match contents with
  | Err e => Err (StatReadFailed ("Cannot read " +:+ display path +:+ ": " +:+ e))
  | Ok c => ok_or (StatReadFailed "Cannot parse value") (parse_u64 (trim c))
  end.

Fixpoint find_usage (ls : list string) : result CgroupError Z :=
  match ls with
  | [] => Ok 0
  | line :: ls' =>
      if starts_with "usage_usec" line then
        match split_whitespace line with
        | _ :: v :: _ => ok_or (StatReadFailed "Cannot parse CPU stat") (parse_u64 v)
        | _ => find_usage ls'
        end
      else find_usage ls'
  end.

Definition read_cpu_stat (path : string) (contents : result string string)
  : result CgroupError Z :=
  match contents with
  | Err e => Err (StatReadFailed ("Cannot read " +:+ display path +:+ ": " +:+ e))
  | Ok c => find_usage (lines c)
  end.

Fixpoint find_oom (ls : list string) : Z :=
  match ls with
  | [] => 0
  | line :: ls' =>
      match strip_prefix "oom_kill " line with
      | Some rest => match parse_u64 (trim rest) with
                     | Some v => v
                     | None => find_oom ls'
                     end
      | None => find_oom ls'
      end
  end.

Definition read_oom_kill (contents : result string string) : Z :=
  match contents with Ok c => find_oom (lines c) | Err _ => 0 end.

Definition unwrap_or {E : Type} (r : result E Z) (d : Z) : Z :=
  match r with Ok v => v | Err _ => d end.

Definition read_stats {E : Type} (m : CgroupManager) : Os E CgroupStats :=
  let file name := path_join (cgroup_path m) name in
  current ← sys_read (file "memory.current");
  let memory_current := unwrap_or (read_cgroup_value (file "memory.current") current) 0 in
  peak ← sys_read (file "memory.peak");
  let memory_peak := unwrap_or (read_cgroup_value (file "memory.peak") peak) memory_current in
  cpu ← sys_read (file "cpu.stat");
  let cpu_usage := unwrap_or (read_cpu_stat (file "cpu.stat") cpu) 0 in
  events ← sys_read (file "memory.events");
  mret (MkStats memory_current memory_peak cpu_usage (read_oom_kill events)).

(* ------------------------------------------------------------------ *)
(** ** Teardown *)

(** [line.parse::<pid_t>()] for each line of [cgroup.procs]. *)
Definition kill_listed {E : Type} (contents : string) : Os E unit :=
  for_each (lines contents) (fun line =>
    match parse_i32 line with
    | Some pid => sys_ignore (Kill pid SIGKILL)
    | None => mret tt
    end).

Definition kill_all {E : Type} (m : CgroupManager) : Os E unit :=
  opened ← sys_bool (E := E) (OpenWrite (path_join (cgroup_path m) "cgroup.kill"));
  _ ← (if (opened : bool)
       then sys_ignore (E := E) (WriteAll (path_join (cgroup_path m) "cgroup.kill")
                          ("1" +:+ String (chr 10) ""))
       else mret tt);
  procs ← sys_read (E := E) (path_join (cgroup_path m) "cgroup.procs");
  match procs with
  | Ok contents => kill_listed contents
  | Err _ => mret tt
  end.

Definition cleanup_failed (m : CgroupManager) (e : string) : CgroupError :=
  CleanupFailed ("Failed to remove cgroup " +:+ display (cgroup_path m) +:+ ": " +:+ e).

(** A failing [remove_dir] replies with minus its [errno]. *)
Definition cleanup (m : CgroupManager) : Os CgroupError unit :=
  _ ← kill_all (E := CgroupError) m;
  r ← sys (RemoveDir (cgroup_path m));
  if (0 <=? ret r)%Z then mret tt
  else if decide (ret r = - EBUSY)%Z
  then sys_ok (RemoveDir (cgroup_path m)) (cleanup_failed m)
  else stop (cleanup_failed m (text r)).

(** [impl Drop for CgroupManager] *)
Definition drop_cgroup {E : Type} (m : CgroupManager) : Os E unit :=
  _ ← catch (F := E) (cleanup m); mret tt.

(** [CgroupManager::new], with the fresh identifier [uuid].  A manager whose [create]
    fails is dropped: what was made of its cgroup is killed and removed again. *)
Definition CgroupManager_new (uuid : string) (config : SandboxConfig) : Os CgroupError CgroupManager :=
  let m := MkCgroup CGROUP_ROOT uuid (path_join CGROUP_ROOT uuid) in
  available ← sys_bool (Metadata CGROUP_ROOT);
  _ ← (if negb available
       then sys_ok (CreateDirAll CGROUP_ROOT)
              (fun e => NotAvailable ("Cannot access /sys/fs/cgroup/judge: " +:+ e))
       else mret tt);
  _ ← guarded (create m config) (drop_cgroup m);
  mret m.

Close Scope string_scope.

(* ------------------------------------------------------------------ *)
(** ** Lemmas *)

Lemma performs_write {E : Type} (inj : CgroupError -> E) path value :
  performs (write_cgroup_file inj path value) [WriteAll path value].
Proof. unfold write_cgroup_file. performs_skip. eauto with os. Qed.

Lemma prepares_write {E : Type} (inj : CgroupError -> E) path value :
  prepares (write_cgroup_file inj path value).
Proof. unfold write_cgroup_file. os. Qed.

#[export] Hint Resolve performs_write prepares_write : os.

(** The limits that must be in place before [new] returns. *)
Definition mandatory (path : string) (config : SandboxConfig) : list Call :=
  WriteAll (path_join path "memory.max") (show_Z (memory_limit_bytes config)) ::
  match profile config with
  | Run => [WriteAll (path_join path "pids.max") (show_Z (pids_limit config))]
  | Compile => []
  end.

Lemma performs_create m config : performs (create m config) (mandatory (cgroup_path m) config).
Proof.
  unfold create, mandatory. performs_skip.
  performs_step. do 2 performs_skip. destruct (profile config).
  - rewrite decide_False by tauto. performs_skip. apply performs_nil. os.
  - rewrite decide_True by done. performs_step. apply performs_nil. os.
Qed.

Lemma prepares_attach m pid : prepares (attach_proc m pid).
Proof. unfold attach_proc. os. Qed.

Lemma prepares_kill_all {E : Type} m : prepares (kill_all m : Os E unit).
Proof.
  unfold kill_all, kill_listed. os.
Qed.

Lemma total_kill_all {E : Type} m : total (kill_all m : Os E unit).
Proof. unfold kill_all, kill_listed. os. Qed.

Lemma total_read_stats {E : Type} m : total (read_stats m : Os E CgroupStats).
Proof. unfold read_stats. os. Qed.

Lemma prepares_read_stats {E : Type} m : prepares (read_stats m : Os E CgroupStats).
Proof. unfold read_stats. os. Qed.

Lemma prepares_cleanup m : prepares (cleanup m).
Proof.
  unfold cleanup. apply prepares_bind; [apply prepares_kill_all|]. os.
Qed.

Lemma prepares_drop_cgroup {E : Type} m : prepares (drop_cgroup m : Os E unit).
Proof.
  unfold drop_cgroup. apply prepares_bind; [apply prepares_catch, prepares_cleanup|]. intros _. os.
Qed.

Lemma performs_new uuid config :
  performs (CgroupManager_new uuid config) (mandatory (path_join CGROUP_ROOT uuid) config).
Proof.
  unfold CgroupManager_new. do 2 performs_skip.
  rewrite <- (app_nil_r (mandatory _ _)).
  apply performs_bind; [|intros _; apply performs_nil; os].
  apply ensures_guarded; [apply performs_create|apply prepares_drop_cgroup].
Qed.

Lemma new_path uuid config :
  ensures (CgroupManager_new uuid config)
    (fun m _ => cgroup_path m = path_join CGROUP_ROOT uuid).
Proof.
  unfold CgroupManager_new. apply ensures_value; [os|]. intros b.
  apply ensures_value; [os|]. intros _. apply ensures_value; [|by intros _; apply ensures_ret].
  apply ensures_guarded; [eapply performs_prepares, performs_create|apply prepares_drop_cgroup].
Qed.

Lemma prepares_new uuid config : prepares (CgroupManager_new uuid config).
Proof. eapply performs_prepares, performs_new. Qed.

(* ------------------------------------------------------------------ *)
(** ** Properties *)

(** C17. No job runs without its memory ceiling: if setting up a cgroup succeeds -
    whatever the kernel replied along the way - the job's memory limit was written
    to [memory.max], and, for untrusted code, after it the process limit to
    [pids.max]; a failure of either makes the setup fail. *)
Theorem cgroup_fail_closed uuid config k h h' m :
  CgroupManager_new uuid config k h = (h', Ok m) ->
  exists t, h' = h ++ t /\
    mandatory (path_join CGROUP_ROOT uuid) config `sublist_of` ok_calls t /\
    cgroup_path m = path_join CGROUP_ROOT uuid.
Proof.
  intros E. destruct (performs_new uuid config k h) as (t & Ht & _ & Hs).
  destruct (new_path uuid config k h) as (_ & _ & _ & Hm).
  rewrite E in Ht, Hs, Hm. exists t. split_and!; [done|by apply (Hs m)|by apply Hm].
Qed.

(** The text of [memory.events] and [cpu.stat]. *)
Definition memory_events (low high max oom oom_kill oom_group_kill : Z) : string :=
  unlines [entry "low" low; entry "high" high; entry "max" max; entry "oom" oom;
           entry "oom_kill" oom_kill; entry "oom_group_kill" oom_group_kill].

Definition cpu_stat (usage user system : Z) : string :=
  unlines [entry "usage_usec" usage; entry "user_usec" user; entry "system_usec" system].

Definition value_file (n : Z) : string := unlines [show_Z n].

Lemma u64_nonneg n : u64 n -> 0 <= n.
Proof. unfold u64. lia. Qed.

#[local] Hint Resolve u64_nonneg : core.

(** Every line is an entry. *)
Ltac entries :=
  repeat (apply Forall_cons_2; [apply entry_one_line; [auto|done]|]); apply Forall_nil_2.

Lemma read_oom_kill_events low high max oom kill gkill :
  Forall u64 [low; high; max; oom; kill; gkill] ->
  read_oom_kill (Ok (memory_events low high max oom kill gkill)) = kill.
Proof.
  intros H. unfold read_oom_kill, memory_events.
  rewrite !Forall_cons in H. destruct H as (H1 & H2 & H3 & H4 & H5 & H6 & _).
  rewrite lines_unlines by entries.
  cbn [find_oom].
  change (strip_prefix "oom_kill " (entry "oom_kill" kill)) with
    (strip_prefix "oom_kill " ("oom_kill " +:+ show_Z kill)).
  rewrite strip_prefix_app, parse_trim_show by done. done.
Qed.

Lemma read_cpu_stat_usage path usage user system :
  Forall u64 [usage; user; system] ->
  read_cpu_stat path (Ok (cpu_stat usage user system)) = Ok usage.
Proof.
  intros H. unfold read_cpu_stat, cpu_stat. rewrite !Forall_cons in H.
  destruct H as (H1 & H2 & H3 & _).
  rewrite lines_unlines by entries.
  cbn [find_usage].
  assert (starts_with "usage_usec" (entry "usage_usec" usage) = true) as ->.
  { unfold starts_with, entry. by rewrite strip_prefix_app. }
  rewrite split_whitespace_entry by (done || auto). by rewrite parse_show_u64.
Qed.

Lemma read_value path n : u64 n -> read_cgroup_value path (Ok (value_file n)) = Ok n.
Proof.
  intros H. unfold read_cgroup_value, value_file. cbn [unlines foldr].
  pose proof (u64_nonneg n H) as Hn.
  assert (trim (show_Z n +:+ String NL "") = show_Z n) as ->; [|by rewrite parse_show_u64].
  rewrite show_Z_nonneg by done. change (String NL ""%string) with (of_bytes [NL]).
  rewrite <- of_bytes_app. apply (trim_pad [] (decimal n) [NL]); [|done|done|by apply decimal_tight].
  cbn [app]. rewrite forallb_app, decimal_ascii by done. done.
Qed.

(** What the kernel exposes for a job: [memory.peak] may be missing. *)
Definition exposes (k : Kernel) (m : CgroupManager) (current : Z) (peak : option Z)
    (cpu : Z * Z * Z) (events : Z * Z * Z * Z * Z * Z) : Prop :=
  let file name := ReadToString (path_join (cgroup_path m) name) in
  forall h,
    k h (file "memory.current"%string) = MkReply 0 (value_file current) /\
    match peak with
    | Some p => k h (file "memory.peak"%string) = MkReply 0 (value_file p)
    | None => ret (k h (file "memory.peak"%string)) < 0
    end /\
    (let '(usage, user, system) := cpu in
     k h (file "cpu.stat"%string) = MkReply 0 (cpu_stat usage user system)) /\
    (let '(low, high, max, oom, kill, gkill) := events in
     k h (file "memory.events"%string) = MkReply 0 (memory_events low high max oom kill gkill)).

(** The statistics are read back exactly from the kernel's file formats: the
    peak memory (or the current memory where the kernel has no [memory.peak]), the
    CPU usage, and the count of [oom_kill] - not that of [oom] or
    [oom_group_kill], whose lines stand beside it. *)
Theorem read_stats_roundtrip {E : Type} k h m current peak usage user system
    low high max oom kill gkill :
  exposes k m current peak (usage, user, system) (low, high, max, oom, kill, gkill) ->
  Forall u64 [current; usage; user; system; low; high; max; oom; kill; gkill] ->
  (forall p, peak = Some p -> u64 p) ->
  snd (read_stats (E := E) m k h) =
    Ok (MkStats current (match peak with Some p => p | None => current end) usage kill).
Proof.
  intros Hk Hu Hp. rewrite !Forall_cons in Hu.
  destruct Hu as (Hc & H1 & H2 & H3 & H4 & H5 & H6 & H7 & H8 & H9 & _).
  unfold read_stats, sys_read, mbind, os_bind, sys. cbn [snd fst]. cbv beta iota zeta.
  cbn [mret os_ret snd].
  repeat match goal with
  | |- context [k ?h0 (ReadToString (path_join (cgroup_path m) "memory.current"))] =>
      rewrite (proj1 (Hk h0))
  | |- context [k ?h0 (ReadToString (path_join (cgroup_path m) "cpu.stat"))] =>
      rewrite (proj1 (proj2 (proj2 (Hk h0))))
  | |- context [k ?h0 (ReadToString (path_join (cgroup_path m) "memory.events"))] =>
      rewrite (proj2 (proj2 (proj2 (Hk h0))))
  end.
  cbn [ret text]. change (0 <=? 0) with true. cbv iota.
  rewrite read_value, read_cpu_stat_usage, read_oom_kill_events by (done || (repeat (apply Forall_cons_2; [done|]); apply Forall_nil_2)).
  cbn [unwrap_or].
  match goal with |- context [k ?h0 (ReadToString (path_join (cgroup_path m) "memory.peak"))] =>
    pose proof (proj1 (proj2 (Hk h0))) as Hpk; set (r := k h0 _) in * end.
  destruct peak as [p|].
  - rewrite Hpk. cbn [ret text]. change (0 <=? 0) with true. cbv iota.
    by rewrite read_value by by apply Hp.
  - by destruct (Z.leb_spec 0 (ret r)); [lia|].
Qed.

Definition is_removal (c : Call) : bool := match c with RemoveDir _ => true | _ => false end.

Definition pid_ok (p : Z) : Prop := 0 <= p < 2 ^ 31.

Lemma kill_listed_run {E : Type} pids k h :
  Forall pid_ok pids ->
  exists t, kill_listed (E := E) (unlines (map show_Z pids)) k h = (h ++ t, Ok tt) /\
            map fst t = map (fun p => Kill p SIGKILL) pids.
Proof.
  intros H. unfold kill_listed.
  rewrite lines_unlines.
  2:{ apply Forall_map. eapply Forall_impl; [exact H|]. intros p [? _]. by apply show_one_line. }
  match goal with |- context [for_each _ ?f0] => set (f := f0) end.
  assert (Hf : forall p, pid_ok p -> f (show_Z p) = sys_ignore (Kill p SIGKILL)).
  { intros p Hp. unfold f. by rewrite parse_show_i32 by exact Hp. }
  revert h. induction H as [|p pids Hp _ IH]; intros h; cbn [map for_each].
  { exists []. by rewrite app_nil_r. }
  rewrite Hf by exact Hp. unfold sys_ignore, sys, mbind, os_bind. cbn -[for_each show_Z].
  destruct (IH (h ++ [(Kill p SIGKILL, k h (Kill p SIGKILL))])) as (t & Ht & Hm).
  exists ((Kill p SIGKILL, k h (Kill p SIGKILL)) :: t). rewrite Ht, <- app_assoc. cbn. by rewrite Hm.
Qed.

Lemma kill_all_run {E : Type} m pids k h :
  (forall h, k h (ReadToString (path_join (cgroup_path m) "cgroup.procs")) =
             MkReply 0 (unlines (map show_Z pids))) ->
  Forall pid_ok pids ->
  exists t, kill_all (E := E) m k h = (h ++ t, Ok tt) /\
            Forall (fun c => is_removal c = false) (map fst t) /\
            forall p, p ∈ pids -> issued (Kill p SIGKILL) t.
Proof.
  intros Hk Hp.
  assert (T : forall pre t, Forall (fun c => is_removal c = false) (map fst pre) ->
            map fst t = map (fun p => Kill p SIGKILL) pids ->
            Forall (fun c => is_removal c = false) (map fst (pre ++ t)) /\
            forall p, p ∈ pids -> issued (Kill p SIGKILL) (pre ++ t)).
  { intros pre t Hpre Hm. unfold issued. rewrite map_app, Hm. split.
    - apply Forall_app. split; [done|]. by apply Forall_map, Forall_forall.
    - intros p Hin. apply elem_of_app. right. apply list_elem_of_In, in_map_iff.
      exists p. split; [done|by apply list_elem_of_In]. }
  unfold kill_all, sys_bool, sys_ignore, sys_read, sys, mbind, os_bind. cbn -[kill_listed].
  set (c1 := OpenWrite _). set (c2 := WriteAll _ _). set (c3 := ReadToString _).
  destruct (0 <=? ret (k h c1)); cbn -[kill_listed].
  - rewrite (Hk _ : k _ c3 = _). cbn -[kill_listed].
    match goal with |- context [kill_listed _ k ?h0] =>
      destruct (kill_listed_run (E := E) pids k h0 Hp) as (t & -> & Hm) end.
    rewrite <- !app_assoc. cbn [app].
    destruct (T [(c1, k h c1); (c2, k (h ++ [(c1, k h c1)]) c2);
                 (c3, MkReply 0 (unlines (map show_Z pids)))] t ltac:(by repeat constructor) Hm)
      as [T1 T2]. by eexists.
  - rewrite (Hk _ : k _ c3 = _). cbn -[kill_listed].
    match goal with |- context [kill_listed _ k ?h0] =>
      destruct (kill_listed_run (E := E) pids k h0 Hp) as (t & -> & Hm) end.
    rewrite <- !app_assoc. cbn [app].
    destruct (T [(c1, k h c1); (c3, MkReply 0 (unlines (map show_Z pids)))] t ltac:(by repeat constructor) Hm)
      as [T1 T2]. by eexists.
Qed.

(** Teardown kills before it removes, and retries once: every process the
    kernel lists in the cgroup is sent [SIGKILL] before the directory is removed;
    the removal is attempted a second time exactly when the first reports [EBUSY],
    and the cleanup succeeds exactly when the last attempt does. *)
Theorem cleanup_kills_then_removes m pids k h :
  (forall h, k h (ReadToString (path_join (cgroup_path m) "cgroup.procs")) =
             MkReply 0 (unlines (map show_Z pids))) ->
  Forall pid_ok pids ->
  let '(h', res) := cleanup m k h in
  exists t r rs, h' = h ++ t ++ (RemoveDir (cgroup_path m), r) :: rs /\
    Forall (fun c => is_removal c = false) (map fst t) /\
    (forall p, p ∈ pids -> issued (Kill p SIGKILL) t) /\
    match rs with
    | [] => ret r <> - EBUSY /\ (res = Ok tt <-> 0 <= ret r)
    | [(c, r')] => c = RemoveDir (cgroup_path m) /\ ret r = - EBUSY /\ (res = Ok tt <-> 0 <= ret r')
    | _ => False
    end.
Proof.
  intros Hk Hp. unfold cleanup, mbind, os_bind.
  destruct (kill_all_run (E := CgroupError) m pids k h Hk Hp) as (t & -> & Hn & Hi).
  cbn [sys]. set (r := k (h ++ t) (RemoveDir (cgroup_path m))).
  unfold mret, os_ret, stop, sys_ok, mbind, os_bind, sys.
  destruct (Z.leb_spec 0 (ret r)) as [H0|H0].
  - exists t, r, []. rewrite <- app_assoc. unfold EBUSY. split_and!; (done || lia || by split).
  - destruct (decide (ret r = - EBUSY)) as [Hb|Hb].
    + cbv beta iota zeta.
      set (r' := k ((h ++ t) ++ [(RemoveDir (cgroup_path m), r)]) (RemoveDir (cgroup_path m))).
      destruct (Z.leb_spec 0 (ret r')); exists t, r, [(RemoveDir (cgroup_path m), r')];
        rewrite <- !app_assoc; split_and!; (done || (split; (done || lia))).
    + exists t, r, []. rewrite <- app_assoc. split_and!; (done || (split; (done || lia))).
Qed.

(* ------------------------------------------------------------------ *)
(** ** Witnesses: a kernel that grants everything *)

Definition demo_manager : CgroupManager := MkCgroup CGROUP_ROOT "u1" "/sys/fs/cgroup/judge/u1".

Definition demo_kernel : Kernel := fun h c =>
  if decide (c = ReadToString "/sys/fs/cgroup/judge/u1/memory.current") then MkReply 0 (value_file 77)
  else if decide (c = ReadToString "/sys/fs/cgroup/judge/u1/memory.peak") then MkReply 0 (value_file 4096)
  else if decide (c = ReadToString "/sys/fs/cgroup/judge/u1/cpu.stat") then MkReply 0 (cpu_stat 5 3 2)
  else if decide (c = ReadToString "/sys/fs/cgroup/judge/u1/memory.events")
       then MkReply 0 (memory_events 0 0 9 4 1 0)
  else if decide (c = ReadToString "/sys/fs/cgroup/judge/u1/cgroup.procs")
       then MkReply 0 (unlines (map show_Z [41; 42]))
  else MkReply 0 "".

Definition demo_cgroup_config : SandboxConfig := SandboxConfig.run "/sandbox/binary" "/tmp/x" 1000 (256 * MiB) 2.

Lemma cgroup_fail_closed_witness :
  exists t, fst (CgroupManager_new "u1" demo_cgroup_config demo_kernel []) = [] ++ t /\
    mandatory "/sys/fs/cgroup/judge/u1" demo_cgroup_config `sublist_of` ok_calls t.
Proof.
  destruct (cgroup_fail_closed "u1" demo_cgroup_config demo_kernel []
              (fst (CgroupManager_new "u1" demo_cgroup_config demo_kernel [])) demo_manager)
    as (t & Ht & Hm & _); [vm_compute; reflexivity|].
  exists t. split; [exact Ht|exact Hm].
Defined.

Lemma demo_exposes : exposes demo_kernel demo_manager 77 (Some 4096) (5, 3, 2) (0, 0, 9, 4, 1, 0).
Proof. intros h. vm_compute. done. Qed.

Lemma read_stats_roundtrip_witness :
  snd (read_stats (E := string) demo_manager demo_kernel []) = Ok (MkStats 77 4096 5 1).
Proof.
  apply (read_stats_roundtrip demo_kernel [] demo_manager 77 (Some 4096) 5 3 2 0 0 9 4 1 0 demo_exposes).
  - repeat (apply Forall_cons_2; [vm_compute; done|]). apply Forall_nil_2.
  - intros p [= <-]. vm_compute. done.
Defined.

Lemma demo_procs h :
  demo_kernel h (ReadToString (path_join (cgroup_path demo_manager) "cgroup.procs")) =
  MkReply 0 (unlines (map show_Z [41; 42])).
Proof. vm_compute. done. Qed.

Lemma cleanup_kills_then_removes_witness :
  let '(h', res) := cleanup demo_manager demo_kernel [] in
  exists t r rs, h' = [] ++ t ++ (RemoveDir (cgroup_path demo_manager), r) :: rs /\
    forall p, p ∈ [41; 42] -> issued (Kill p SIGKILL) t.
Proof.
  pose proof (cleanup_kills_then_removes demo_manager [41; 42] demo_kernel [] demo_procs) as H.
  destruct (cleanup demo_manager demo_kernel []) as [h' res].
  destruct H as (t & r & rs & Hh & _ & Hi & _).
  - repeat (apply Forall_cons_2; [unfold pid_ok; lia|]). apply Forall_nil_2.
  - exists t, r, rs. split; [exact Hh|exact Hi].
Defined.
