(* ===== verification/Seccomp.v ===== *)
(** * The system call filter

    [src/src/sandbox/seccomp.rs]: the informational allow-set, the deny-list by name
    and by number, the filter - rules, actions, architecture - and its installation.  The
    numbers [libc::SYS_*] and the [seccompiler] crate belong to other packages: the
    platform is a parameter, building, compiling and loading the filter are calls of the
    kernel model, and what a loaded filter does is a parameter with the crate's
    documented behaviour ([FilterSemantics]). *)

From S2P Require Import Prelude Os.

Open Scope string_scope.

Inductive SeccompError : Type :=
  | InitError (m : string)
  | RuleError (m : string)
  | LoadError (m : string)
  | UnsupportedPlatform.

(** [SeccompProfile::standard_runner], a [HashMap] filled by [insert]. *)
Definition standard_runner : gmap string Z :=
  list_to_map
  [("read", 0); ("write", 1); ("open", 2); ("close", 3); ("lseek", 8); ("pread64", 17);
   ("pwrite64", 18); ("readv", 19); ("writev", 20); ("openat", 257); ("fstat", 5);
   ("newfstatat", 262); ("statx", 332); ("brk", 12); ("mmap", 9); ("munmap", 11);
   ("mprotect", 10); ("mremap", 25); ("madvise", 28); ("mlock", 149); ("munlock", 150);
   ("exit", 60); ("exit_group", 231); ("rt_sigreturn", 15); ("rt_sigaction", 13);
   ("rt_sigprocmask", 14); ("sigaltstack", 131); ("clock_gettime", 228);
   ("gettimeofday", 96); ("nanosleep", 35); ("clock_nanosleep", 230); ("uname", 63);
   ("getpid", 39); ("getppid", 110); ("getuid", 102); ("geteuid", 107); ("getgid", 104);
   ("getegid", 108); ("getpgrp", 111); ("getrusage", 98); ("futex", 202);
   ("futex_waitv", 449); ("getrandom", 318); ("rseq", 334); ("set_tid_address", 218);
   ("set_robust_list", 273); ("get_robust_list", 274); ("prctl", 157); ("ioctl", 16)].

Definition blocked_syscalls : list string :=
  ["ptrace"; "process_vm_readv"; "process_vm_writev"; "mount"; "umount2"; "pivot_root";
   "chroot"; "swapon"; "swapoff"; "setns"; "unshare"; "init_module"; "finit_module";
   "delete_module"; "kexec_load"; "reboot"; "bpf"; "perf_event_open"; "io_uring_setup";
   "io_uring_enter"; "io_uring_register"; "userfaultfd"; "add_key"; "keyctl";
   "request_key"; "settimeofday"; "clock_settime"; "adjtimex"; "clock_adjtime"; "acct";
   "quotactl"].

(** The platform the code is compiled for: [libc::SYS_<name>], [std::env::consts::ARCH]. *)
Record Platform : Type := MkPlatform { sys_number : string -> Z; ARCH : string }.

(** [libc::EPERM] *)
Definition EPERM : Z := 1.

Section Numbers.
Context (plat : Platform).
Abbreviation SYS := (sys_number plat).

Definition blocked_syscall_numbers : list Z :=
  [SYS "ptrace"; SYS "process_vm_readv"; SYS "process_vm_writev"; SYS "mount";
   SYS "umount2"; SYS "pivot_root"; SYS "chroot"; SYS "swapon"; SYS "swapoff";
   SYS "setns"; SYS "unshare"; SYS "init_module"; SYS "finit_module";
   SYS "delete_module"; SYS "kexec_load"; SYS "reboot"; SYS "bpf"; SYS "perf_event_open";
   SYS "io_uring_setup"; SYS "io_uring_enter"; SYS "io_uring_register";
   SYS "userfaultfd"; SYS "add_key"; SYS "keyctl"; SYS "request_key"; SYS "settimeofday";
   SYS "clock_settime"; SYS "adjtimex"; SYS "clock_adjtime"; SYS "acct"; SYS "quotactl"].

(** [for nr in blocked_syscall_numbers() { rules.insert(nr, vec![]); }] *)
Definition filter_rules : gmap Z (list string) :=
  foldl (fun rules nr => <[nr := []]> rules) ∅ blocked_syscall_numbers.

(** [SeccompFilter::new(rules, SeccompAction::Allow, SeccompAction::Errno(EPERM), arch)] *)
Definition deny_filter : SeccompFilter := MkFilter filter_rules Allow (Errno EPERM) (ARCH plat).

Definition install_bpf_filter : Os SeccompError unit :=
  _ ← sys_ok (TargetArch (ARCH plat)) (fun _ => UnsupportedPlatform);
  _ ← sys_ok (BuildFilter deny_filter) RuleError;
  _ ← sys_ok (CompileFilter deny_filter) LoadError;
  sys_ok (ApplyFilter deny_filter) LoadError.

Definition install : Os SeccompError unit :=
  _ ← sys_ok SetNoNewPrivs (fun _ => InitError "Failed to set PR_SET_NO_NEW_PRIVS");
  install_bpf_filter.

(** The calls of a successful installation. *)
Definition filter_calls : list Call :=
  [SetNoNewPrivs; TargetArch (ARCH plat); BuildFilter deny_filter; CompileFilter deny_filter;
   ApplyFilter deny_filter].

Lemma performs_install : performs install filter_calls.
Proof.
  unfold install, install_bpf_filter, filter_calls.
  do 4 performs_step. eauto with os.
Qed.

(** What the child does between loading the filter and becoming the program
    ([child.rs]), and what the runtimes are documented to need. *)
Definition launch_syscalls : list string :=
  ["setgroups"; "setresgid"; "setresuid"; "getuid"; "geteuid"; "setuid"; "execve"].

Definition runtime_syscalls : list string :=
  ["clone"; "clone3"; "fork"; "vfork"; "execve"; "execveat"; "kill"; "tgkill"; "socket"].

Definition needed : list string :=
  launch_syscalls ++ runtime_syscalls ++ map fst (map_to_list standard_runner).

Lemma needed_not_blocked : Forall (fun n => n ∉ blocked_syscalls) needed.
Proof. apply (bool_decide_unpack _). vm_compute. exact I. Qed.

Lemma numbers_of_names : blocked_syscall_numbers = map SYS blocked_syscalls.
Proof. reflexivity. Qed.

Lemma inserted_at (l : list Z) (m : gmap Z (list string)) z :
  foldl (fun rules nr => <[nr := []]> rules) m l !! z = if decide (z ∈ l) then Some [] else m !! z.
Proof.
  revert m. induction l as [|n l IH]; intros m; cbn [foldl].
  { rewrite decide_False; [done|apply not_elem_of_nil]. }
  rewrite IH. destruct (decide (z ∈ l)) as [Hz|Hz]; [rewrite decide_True; [done|by right]|].
  destruct (decide (n = z)) as [->|Hn].
  - rewrite lookup_insert_eq, decide_True; [done|by left].
  - rewrite lookup_insert_ne, decide_False by (try done; intros [?|?]%elem_of_cons; congruence). done.
Qed.

Lemma filter_rules_at z :
  filter_rules !! z = if decide (z ∈ map SYS blocked_syscalls) then Some [] else None.
Proof. unfold filter_rules. rewrite numbers_of_names, inserted_at. by rewrite lookup_empty. Qed.

(** What the crate documents of a loaded filter: [answers f z] is what happens to a system
    call of number [z] made on the filter's architecture.  A number without an entry gets the mismatch action, and one
    with an empty list of rules the match action, whatever its arguments. *)
Class FilterSemantics (answers : SeccompFilter -> Z -> SeccompAction) : Prop := {
  filter_mismatch f z : rules f !! z = None -> answers f z = mismatch_action f;
  filter_match f z : rules f !! z = Some [] -> answers f z = match_action f
}.

Context (answers : SeccompFilter -> Z -> SeccompAction) `{!FilterSemantics answers}.

(** C37. The filter that is loaded denies exactly the listed system calls.  Whatever the
    kernel replies, an installation that succeeds has set [NO_NEW_PRIVS] and then built,
    compiled and applied one filter; under it a system call fails with [EPERM] if its
    number is that of a listed name and is let through otherwise; and as long as the
    platform gives different calls different numbers, every call that the launch itself,
    the language runtimes or the documented allow-set need is let through. *)
Theorem seccomp_policy k h h' :
  (forall a b, a ∈ blocked_syscalls -> b ∈ needed -> SYS a = SYS b -> a = b) ->
  install k h = (h', Ok tt) ->
  exists t f, h' = (h ++ t)%list /\
    [SetNoNewPrivs; BuildFilter f; CompileFilter f; ApplyFilter f] `sublist_of` ok_calls t /\
    (forall z, answers f z = if decide (z ∈ map SYS blocked_syscalls) then Errno EPERM else Allow) /\
    forall n, n ∈ needed -> answers f (SYS n) = Allow.
Proof.
  intros Hinj E. destruct (performs_install k h) as (t & Ht & _ & Hs). rewrite E in Ht, Hs. cbn in Ht.
  exists t, deny_filter. split; [exact Ht|]. split.
  { etransitivity; [|by apply (Hs tt)]. unfold filter_calls. apply sublist_skip, sublist_cons. done. }
  assert (Hall : forall z, answers deny_filter z =
            if decide (z ∈ map SYS blocked_syscalls) then Errno EPERM else Allow).
  { intros z. pose proof (filter_rules_at z) as Hz. case_decide; [by apply filter_match|by apply filter_mismatch]. }
  split; [exact Hall|]. intros n Hn. rewrite Hall, decide_False; [done|].
  intros (b & Hb & Hbb)%list_elem_of_fmap.
  pose proof needed_not_blocked as Hnb. rewrite Forall_forall in Hnb.
  apply (Hnb n Hn). by rewrite <- (Hinj b n Hbb Hn ltac:(done)).
Qed.
End Numbers.

(** The x86-64 numbers, for the names above. *)
Definition x86_64 (n : string) : Z :=
  match standard_runner !! n with
  | Some z => z
  | None =>
      match list_find (fun p : string * Z => fst p = n)
        [("ptrace", 101); ("process_vm_readv", 310); ("process_vm_writev", 311); ("mount", 165);
         ("umount2", 166); ("pivot_root", 155); ("chroot", 161); ("swapon", 167); ("swapoff", 168);
         ("setns", 308); ("unshare", 272); ("init_module", 175); ("finit_module", 313);
         ("delete_module", 176); ("kexec_load", 246); ("reboot", 169); ("bpf", 321);
         ("perf_event_open", 298); ("io_uring_setup", 425); ("io_uring_enter", 426);
         ("io_uring_register", 427); ("userfaultfd", 323); ("add_key", 248); ("keyctl", 250);
         ("request_key", 249); ("settimeofday", 164); ("clock_settime", 227); ("adjtimex", 159);
         ("clock_adjtime", 305); ("acct", 163); ("quotactl", 179); ("setgroups", 116);
         ("setresgid", 119); ("setresuid", 117); ("setuid", 105); ("execve", 59); ("execveat", 322);
         ("clone", 56); ("clone3", 435); ("fork", 57); ("vfork", 58); ("kill", 62);
         ("tgkill", 234); ("socket", 41)] with
      | Some (_, (_, z)) => z
      | None => -1
      end
  end%Z.

Lemma x86_64_apart :
  Forall (fun a => Forall (fun b => x86_64 a <> x86_64 b) needed) blocked_syscalls.
Proof. apply (bool_decide_unpack _). vm_compute. exact I. Qed.

(** A filter whose rules have no conditions. *)
Definition plain_answers (f : SeccompFilter) (z : Z) : SeccompAction :=
  match rules f !! z with Some _ => match_action f | None => mismatch_action f end.

#[export] Instance plain_semantics : FilterSemantics plain_answers.
Proof. by split; intros f z E; unfold plain_answers; rewrite E. Qed.

Definition pc : Platform := MkPlatform x86_64 "x86_64".

Lemma seccomp_policy_witness :
  exists f, plain_answers f 101 = Errno EPERM /\ plain_answers f 59 = Allow.
Proof.
  destruct (seccomp_policy pc plain_answers (fun _ _ => MkReply 0 "") []
              (fst (install pc (fun _ _ => MkReply 0 "") []))) as (t & f & _ & _ & H1 & H2).
  - intros a b Ha Hb E. pose proof x86_64_apart as H. rewrite Forall_forall in H.
    specialize (H a Ha). rewrite Forall_forall in H. by elim (H b Hb).
  - vm_compute. reflexivity.
  - exists f. split; [rewrite H1; vm_compute; reflexivity|].
    apply (H2 "execve"). apply (bool_decide_unpack _); vm_compute; exact I.
Defined.

Close Scope string_scope.
