(* ===== verification/FsJail.v ===== *)
(** * The file-system jail

    [src/src/sandbox/fs.rs]: a tmpfs root with read-only system paths, a minimal
    [/dev], [/proc] and the workspace, entered with [pivot_root].  [CString::new] on
    a path with a NUL byte panics in the source; such paths are not modelled. *)

From S2P Require Import Prelude Os.

Open Scope string_scope.

Inductive FsError : Type :=
  | RootCreationFailed (m : string)
  | MountFailed (m : string)
  | DirCreationFailed (m : string)
  | PivotRootFailed (m : string)
  | UmountFailed (m : string)
  | BindMountFailed (m : string)
  | DevNodeFailed (m : string)
  | UnsupportedFsPlatform.

Record FsIsolation : Type := MkIsolation { root_path : string; jail_job_id : string }.

Definition shown (p : string) : string := to_string_lossy p.

Definition make_root_private : Os FsError unit :=
  sys_ok (Mount None "/" None [MS_REC; MS_PRIVATE] None)
    (fun _ => PivotRootFailed "Failed to make / recursively private").

Definition create_ephemeral_root (j : FsIsolation) (size_bytes : Z) : Os FsError unit :=
  _ ← sys_ok (CreateDirAll (root_path j))
        (fun e => RootCreationFailed ("Failed to create " +:+ shown (root_path j) +:+ ": " +:+ e));
  let opts := "size=" +:+ show_Z (size_bytes / (1024 * 1024)) +:+ "m,mode=0755" in
  sys_ok (Mount (Some "tmpfs") (shown (root_path j)) (Some "tmpfs") [] (Some opts))
    (fun _ => MountFailed ("Failed to mount tmpfs at " +:+ shown (root_path j))).

(** [source_path.strip_prefix("/").unwrap_or(source_path)] *)
Definition strip_root (p : string) : string :=
  of_bytes (drop_while (fun a => bool_decide (a = SLASH)) (as_bytes p)).

Definition ro_target (j : FsIsolation) (source : string) : string :=
  path_join (root_path j) (strip_root source).

Definition bind_call (source target : string) : Call :=
  Mount (Some (shown source)) (shown target) None [MS_BIND; MS_REC] None.

Definition remount_ro_call (source target : string) : Call :=
  Mount (Some (shown source)) (shown target) None [MS_BIND; MS_REC; MS_RDONLY; MS_REMOUNT] None.

(** One pass of the loop over the read-only paths: a path missing on the host is
    skipped, any other is bound and then remounted read-only. *)
Definition bind_readonly (j : FsIsolation) (source : string) : Os FsError unit :=
  let target := ro_target j source in
  _ ← (match path_parent target with
       | Some p => sys_ignore (CreateDirAll p)
       | None => mret tt
       end);
  made ← sys_bool (PathExists target);
  _ ← (if negb made
       then is_dir ← sys_bool (IsDir source);
            if (is_dir : bool)
            then sys_ok (CreateDirAll target)
                   (fun e => DirCreationFailed ("Failed to create " +:+ shown target +:+ ": " +:+ e))
            else mret tt
       else mret tt);
  _ ← sys_ok (bind_call source target)
        (fun _ => BindMountFailed ("Failed to bind mount " +:+ shown source +:+ " to " +:+ shown target));
  sys_ok (remount_ro_call source target)
    (fun _ => BindMountFailed ("Failed to make read-only: " +:+ shown target)).

Definition mount_readonly (j : FsIsolation) (source : string) : Os FsError unit :=
  there ← sys_bool (PathExists source);
  if negb there then mret tt else bind_readonly j source.

Definition setup_readonly_mounts (j : FsIsolation) (paths : list string) : Os FsError unit :=
  _ ← for_each ["usr"; "lib"; "lib64"; "bin"; "etc"] (fun dir =>
        sys_ok (CreateDirAll (path_join (root_path j) dir))
          (fun e => DirCreationFailed ("Failed to create " +:+
                      shown (path_join (root_path j) dir) +:+ ": " +:+ e)));
  for_each paths (mount_readonly j).

(** [S_IFCHR | 0o666] *)
Definition device_mode : Z := Z.lor 8192 438.

Definition create_device_node (dev_path name : string) (major minor : Z) : Os FsError unit :=
  sys_ok (Mknod (shown (path_join dev_path name)) device_mode major minor)
    (fun _ => DevNodeFailed ("Failed to create device node " +:+ name)).

Definition dev_dir (j : FsIsolation) : string := path_join (root_path j) "dev".
Definition proc_dir (j : FsIsolation) : string := path_join (root_path j) "proc".
Definition sandbox_dir (j : FsIsolation) : string := path_join (root_path j) "sandbox".

Definition dev_mount (j : FsIsolation) : Call :=
  Mount (Some "tmpfs") (shown (dev_dir j)) (Some "tmpfs") [] (Some "size=1m,mode=0755").
Definition proc_mount (j : FsIsolation) : Call :=
  Mount (Some "proc") (shown (proc_dir j)) (Some "proc") [] None.

Definition setup_dev (j : FsIsolation) : Os FsError unit :=
  _ ← sys_ok (CreateDirAll (dev_dir j)) (fun e => DirCreationFailed ("Failed to create /dev: " +:+ e));
  _ ← sys_ok (dev_mount j) (fun _ => MountFailed "Failed to mount /dev");
  _ ← create_device_node (dev_dir j) "null" 1 3;
  _ ← create_device_node (dev_dir j) "zero" 1 5;
  create_device_node (dev_dir j) "urandom" 1 9.

Definition setup_proc (j : FsIsolation) : Os FsError unit :=
  _ ← sys_ok (CreateDirAll (proc_dir j)) (fun e => DirCreationFailed ("Failed to create /proc: " +:+ e));
  sys_ok (proc_mount j) (fun _ => MountFailed "Failed to mount /proc").

(** The mount that puts a workspace at [/sandbox]. *)
Definition workspace_mount (j : FsIsolation) (host : option string) : Call :=
  match host with
  | Some dir => bind_call dir (sandbox_dir j)
  | None => Mount (Some "tmpfs") (shown (sandbox_dir j)) (Some "tmpfs") [] (Some "size=16m,mode=0755")
  end.

Definition setup_workspace (j : FsIsolation) (host : option string) : Os FsError unit :=
  _ ← sys_ok (CreateDirAll (sandbox_dir j))
        (fun e => DirCreationFailed ("Failed to create /sandbox: " +:+ e));
  match host with
  | Some dir =>
      sys_ok (workspace_mount j host)
        (fun _ => BindMountFailed ("Failed to bind mount workspace " +:+ shown dir +:+ " to " +:+
                                   shown (sandbox_dir j)))
  | None => sys_ok (workspace_mount j host) (fun _ => MountFailed "Failed to mount /sandbox")
  end.

Definition old_root (j : FsIsolation) : string := path_join (root_path j) ".old_root".

Definition root_readonly : Call := Mount None "/" None [MS_BIND; MS_REMOUNT; MS_RDONLY] None.

Definition pivot_into_new_root (j : FsIsolation) : Os FsError unit :=
  _ ← sys_ok (CreateDirAll (old_root j))
        (fun e => DirCreationFailed ("Failed to create .old_root: " +:+ e));
  _ ← sys_ok (PivotRoot (root_path j) (old_root j))
        (fun e => PivotRootFailed ("pivot_root failed: " +:+ e));
  _ ← sys_ok (Chdir "/sandbox")
        (fun e => PivotRootFailed ("Failed to chdir to /sandbox: " +:+ e));
  _ ← sys_ignore (UmountDetach "/.old_root");
  _ ← sys_ignore root_readonly;
  sys_ignore (RemoveDir "/.old_root").

(** [impl Drop for FsIsolation] *)
Definition drop_isolation {E : Type} (j : FsIsolation) : Os E unit :=
  _ ← sys_ignore (E := E) (UmountDetach (shown (root_path j)));
  sys_ignore (RemoveDirAll (root_path j)).

Definition FsIsolation_setup (job_id : string) (workspace : option string) (size : Z)
    (read_only_paths : list string) : Os FsError FsIsolation :=
  let j := MkIsolation ("/tmp/judge_root_" +:+ job_id) job_id in
  guarded
    (_ ← make_root_private;
     _ ← create_ephemeral_root j size;
     _ ← setup_readonly_mounts j read_only_paths;
     _ ← setup_dev j;
     _ ← setup_proc j;
     _ ← setup_workspace j workspace;
     _ ← pivot_into_new_root j;
     mret j)
    (drop_isolation j).

(* ------------------------------------------------------------------ *)
(** ** Lemmas *)

Lemma prepares_drop_isolation {E : Type} j : prepares (drop_isolation j : Os E unit).
Proof. unfold drop_isolation. os. Qed.

Lemma prepares_mount_readonly j source : prepares (mount_readonly j source).
Proof. unfold mount_readonly, bind_readonly. cbv zeta. os. Qed.

Lemma prepares_readonly j paths : prepares (setup_readonly_mounts j paths).
Proof.
  unfold setup_readonly_mounts. apply prepares_bind; [os|]. intros _.
  apply prepares_for_each. apply prepares_mount_readonly.
Qed.

#[export] Hint Resolve prepares_readonly prepares_drop_isolation : os.

Definition device (j : FsIsolation) (name : string) (major minor : Z) : Call :=
  Mknod (shown (path_join (dev_dir j) name)) device_mode major minor.

(** The calls whose success the jail depends on, in order. *)
Definition jail_calls (j : FsIsolation) (workspace : option string) (size : Z) : list Call :=
  [Mount None "/" None [MS_REC; MS_PRIVATE] None;
   Mount (Some "tmpfs") (shown (root_path j)) (Some "tmpfs") []
     (Some ("size=" +:+ show_Z (size / (1024 * 1024)) +:+ "m,mode=0755"));
   dev_mount j; device j "null" 1 3; device j "zero" 1 5; device j "urandom" 1 9;
   proc_mount j; workspace_mount j workspace;
   PivotRoot (root_path j) (old_root j); Chdir "/sandbox"].

Lemma performs_workspace j workspace : performs (setup_workspace j workspace) [workspace_mount j workspace].
Proof. unfold setup_workspace. performs_skip. destruct workspace; eauto with os. Qed.

Lemma performs_device j name major minor :
  performs (create_device_node (dev_dir j) name major minor) [device j name major minor].
Proof. unfold create_device_node. eauto with os. Qed.

#[export] Hint Resolve performs_device : os.

Lemma performs_dev j :
  performs (setup_dev j) [dev_mount j; device j "null" 1 3; device j "zero" 1 5; device j "urandom" 1 9].
Proof. unfold setup_dev. performs_skip. do 3 performs_step. apply performs_device. Qed.

Lemma performs_proc j : performs (setup_proc j) [proc_mount j].
Proof. unfold setup_proc. performs_skip. eauto with os. Qed.

Lemma performs_pivot j : performs (pivot_into_new_root j) [PivotRoot (root_path j) (old_root j); Chdir "/sandbox"].
Proof. unfold pivot_into_new_root. performs_skip. do 2 performs_step. apply performs_nil. os. Qed.

Lemma performs_root j size :
  performs (create_ephemeral_root j size)
    [Mount (Some "tmpfs") (shown (root_path j)) (Some "tmpfs") []
       (Some ("size=" +:+ show_Z (size / (1024 * 1024)) +:+ "m,mode=0755"))].
Proof. unfold create_ephemeral_root. performs_skip. eauto with os. Qed.

Lemma performs_private : performs make_root_private [Mount None "/" None [MS_REC; MS_PRIVATE] None].
Proof. unfold make_root_private. eauto with os. Qed.

#[export] Hint Resolve performs_workspace performs_dev performs_proc performs_root performs_private : os.

Lemma performs_setup job_id workspace size paths :
  performs (FsIsolation_setup job_id workspace size paths)
    (jail_calls (MkIsolation ("/tmp/judge_root_" +:+ job_id) job_id) workspace size).
Proof.
  unfold FsIsolation_setup, jail_calls. apply ensures_guarded; [|apply prepares_drop_isolation].
  do 2 performs_step. performs_skip.
  match goal with |- performs _ (?a :: ?b :: ?c :: ?d :: ?cs) =>
    change (a :: b :: c :: d :: cs) with ([a; b; c; d] ++ cs)%list end.
  apply performs_bind; [apply performs_dev|intros ?]. do 2 performs_step.
  match goal with |- performs _ ?cs => rewrite <- (app_nil_r cs) end.
  apply performs_bind; [apply performs_pivot|]. intros _. apply performs_nil. os.
Qed.

(** The promise of one read-only path: the kernel says it is not there, or it has
    been bound and then remounted read-only. *)
Definition bound_readonly (j : FsIsolation) (source : string) (t : History) : Prop :=
  (exists r, (PathExists source, r) ∈ t /\ ret r < 0) \/
  [bind_call source (ro_target j source); remount_ro_call source (ro_target j source)]
    `sublist_of` ok_calls t.

Lemma bound_readonly_app j source t1 t2 :
  bound_readonly j source t1 \/ bound_readonly j source t2 ->
  bound_readonly j source (t1 ++ t2)%list.
Proof.
  unfold bound_readonly. rewrite ok_calls_app.
  intros [[(r & Hr & Hn)|H]|[(r & Hr & Hn)|H]].
  - left. exists r. rewrite elem_of_app. auto.
  - right. by apply sublist_inserts_r.
  - left. exists r. rewrite elem_of_app. auto.
  - right. by apply sublist_inserts_l.
Qed.

Lemma performs_bind_readonly j source :
  performs (bind_readonly j source)
    [bind_call source (ro_target j source); remount_ro_call source (ro_target j source)].
Proof. unfold bind_readonly. cbv zeta. do 3 performs_skip. performs_step. eauto with os. Qed.

Lemma mount_readonly_bound j source :
  ensures (mount_readonly j source) (fun _ t => bound_readonly j source t).
Proof.
  unfold mount_readonly.
  eapply (ensures_bind _ _ (fun b t => b = false -> bound_readonly j source t)).
  - unfold sys_bool. eapply ensures_bind; [apply (ensures_sys _ (fun r t => t = [(PathExists source, r)])); done|].
    intros r. apply ensures_ret. intros t1 -> Hr. rewrite app_nil_r. left. exists r.
    split; [by apply list_elem_of_singleton|lia].
  - intros [|]; cbn [negb].
    + eapply ensures_conseq; [apply performs_bind_readonly|]. cbn.
      intros _ t2 Ht t1 _. apply bound_readonly_app. right. by right.
    + apply ensures_ret. intros t1 Ht1. rewrite app_nil_r. by apply Ht1.
Qed.

Lemma for_each_bound j paths :
  ensures (for_each paths (mount_readonly j)) (fun _ t => Forall (fun p => bound_readonly j p t) paths).
Proof.
  induction paths as [|p paths IH]; cbn [for_each]; [by apply ensures_ret|].
  eapply ensures_bind; [apply mount_readonly_bound|]. intros u.
  eapply ensures_conseq; [exact IH|]. cbn. intros v t2 H2 t1 H1. constructor.
  - apply bound_readonly_app. by left.
  - eapply Forall_impl; [exact H2|]. intros q Hq. apply bound_readonly_app. by right.
Qed.

Lemma bound_grows j paths : grows (fun t => Forall (fun p => bound_readonly j p t) paths).
Proof.
  intros t1 t2 [H|H]; (eapply Forall_impl; [exact H|]); intros p Hp; apply bound_readonly_app; auto.
Qed.

Lemma setup_bound job_id workspace size paths :
  ensures (FsIsolation_setup job_id workspace size paths)
    (fun _ t => Forall (fun p => bound_readonly
       (MkIsolation ("/tmp/judge_root_" +:+ job_id) job_id) p t) paths).
Proof.
  unfold FsIsolation_setup. apply ensures_guarded; [|apply prepares_drop_isolation].
  do 2 (apply ensures_before; [apply bound_grows|eapply prepares_performs; solve [eauto with os]|intros ?]).
  apply ensures_after; [apply bound_grows| |].
  - unfold setup_readonly_mounts. apply ensures_before; [apply bound_grows|os|]. intros ?. apply for_each_bound.
  - intros ?. do 3 (apply prepares_bind; [eapply prepares_performs; solve [eauto with os]|intros ?]).
    apply prepares_bind; [eapply prepares_performs, performs_pivot|]. intros ?. os.
Qed.

(** C35. The jail fails closed up to the pivot: if setting it up succeeds, then the
    mount tree was detached from the host first, and after it the tmpfs root and [/dev]
    were mounted, the device nodes [null], [zero] and [urandom] created, [/proc] and the
    workspace mounted, the root pivoted into and left for [/sandbox], in this order and
    all successfully; and every configured system path
    is either absent on the host or bound and then remounted read-only. *)
Theorem jail_fail_closed job_id workspace size paths k h h' j :
  FsIsolation_setup job_id workspace size paths k h = (h', Ok j) ->
  exists t, h' = (h ++ t)%list /\
    jail_calls (MkIsolation ("/tmp/judge_root_" +:+ job_id) job_id) workspace size
      `sublist_of` ok_calls t /\
    Forall (fun p => bound_readonly (MkIsolation ("/tmp/judge_root_" +:+ job_id) job_id) p t) paths.
Proof.
  intros E. destruct (performs_setup job_id workspace size paths k h) as (t & Ht & _ & Hs).
  destruct (setup_bound job_id workspace size paths k h) as (t' & Ht' & _ & Hb).
  rewrite E in Ht, Hs, Ht', Hb. cbn in Ht, Ht'. subst h'. apply app_inv_head in Ht' as <-.
  exists t. split_and!; [done|by apply (Hs j)|by apply (Hb j)].
Qed.

(** A kernel that grants everything, except the calls in a given list. *)
Definition refusing (l : list Call) : Kernel := fun h c =>
  if decide (c ∈ l) then MkReply (-1) "EPERM" else MkReply 0 "".

Lemma jail_fail_closed_witness :
  exists t, fst (FsIsolation_setup "j1" (Some "/tmp/x") (16 * 1024 * 1024) ["/usr"; "/lib"] (refusing []) []) = t /\
    Forall (fun p => bound_readonly (MkIsolation "/tmp/judge_root_j1" "j1") p t) ["/usr"; "/lib"].
Proof.
  destruct (jail_fail_closed "j1" (Some "/tmp/x") (16 * 1024 * 1024) ["/usr"; "/lib"] (refusing []) []
              (fst (FsIsolation_setup "j1" (Some "/tmp/x") (16 * 1024 * 1024) ["/usr"; "/lib"] (refusing []) []))
              (MkIsolation "/tmp/judge_root_j1" "j1")) as (t & Ht & _ & Hb).
  - vm_compute. reflexivity.
  - exists t. split; [exact Ht|exact Hb].
Defined.

Close Scope string_scope.
