(* ===== verification/Child.v ===== *)
(** * The sandboxed child

    [src/src/sandbox/child.rs]: the pipes to the child, and everything the child does
    between [fork] and [execve]: descriptors, resource limits, namespaces, the jail,
    the system call filter and the privilege drop.  A child ends in one of three
    ways: [setup_child_process] returns an error (its caller then exits), the process
    exits or aborts, or [execve] replaces it by the program. *)

From S2P Require Import Prelude Config Os Seccomp FsJail.

Open Scope string_scope.

Inductive ChildError : Type :=
  | PipeError
  | RlimitError (m : string)
  | PathConversionError (m : string)
  | ChdirError (m : string)
  | ExecveError (m : string)
  | NamespaceError (m : string)
  | IsolationError (e : FsError)
  | ChildSeccompError (e : SeccompError)
  | PrivDropError (m : string).

(* ------------------------------------------------------------------ *)
(** ** Pipes *)

Record ChildProcessPipes : Type := MkPipes {
  stdin_read : Z; stdin_write : Z;
  stdout_read : Z; stdout_write : Z;
  stderr_read : Z; stderr_write : Z
}.

Definition fcntl_set_cloexec (fd : Z) : Os ChildError unit :=
  sys_ok (SetCloexec fd) (fun _ => NamespaceError "Failed to set FD_CLOEXEC").

(** One [pipe] and its two [fcntl]s. *)
Definition new_pipe : Os ChildError (Z * Z) :=
  r ← sys Pipe;
  if decide (ret r = -1)%Z then stop PipeError
  else _ ← fcntl_set_cloexec (ret r); _ ← fcntl_set_cloexec (ret2 r); mret (ret r, ret2 r).

Definition ChildProcessPipes_new : Os ChildError ChildProcessPipes :=
  i ← new_pipe; o ← new_pipe; e ← new_pipe;
  mret (MkPipes (fst i) (snd i) (fst o) (snd o) (fst e) (snd e)).

Definition close_parent_ends {E : Type} (p : ChildProcessPipes) : Os E unit :=
  for_each [stdin_read p; stdout_write p; stderr_write p] (fun fd => sys_ignore (CloseFd fd)).

Definition close_child_ends {E : Type} (p : ChildProcessPipes) : Os E unit :=
  for_each [stdin_write p; stdout_read p; stderr_read p] (fun fd => sys_ignore (CloseFd fd)).

Definition close_all {E : Type} (p : ChildProcessPipes) : Os E unit :=
  for_each [stdin_read p; stdin_write p; stdout_read p; stdout_write p; stderr_read p; stderr_write p]
    (fun fd => sys_ignore (CloseFd fd)).

(* ------------------------------------------------------------------ *)
(** ** From fork to execve *)

(** How the child ends. *)
Inductive ChildEnd : Type :=
  | Returned (e : ChildError)   (** [setup_child_process] returned [Err(e)] *)
  | Exited (code : Z)           (** [libc::exit] *)
  | Aborted                     (** a panic *)
  | Replaced.                   (** [execve] succeeded *)

Definition STDIN_FILENO : Z := 0.
Definition STDOUT_FILENO : Z := 1.
Definition STDERR_FILENO : Z := 2.
Definition CHILD_UID : Z := 65534.
Definition CHILD_GID : Z := 65534.

(** [CString::new]: refused if the text holds a NUL byte. *)
Definition cstring (s : string) : option string :=
  if decide ("000"%char ∈ as_bytes s) then None else Some s.
Definition cstring_or_default (s : string) : string :=
  match cstring s with Some c => c | None => "" end.

Definition cpu_seconds (time_limit_ms : Z) : Z := Z.max 1 (wrap64 (time_limit_ms + 999) / 1000).

Definition fsize_limit (p : ExecutionProfile) : Z :=
  match p with Compile => 256 * 1024 * 1024 | Run => 16 * 1024 * 1024 end.

Definition stack_limit : Z := 64 * 1024 * 1024.

Definition set_limit (r : Rlimit) (name : string) (v : Z) : Os ChildEnd unit :=
  sys_ok (Setrlimit r v v) (fun e => Returned (RlimitError (name +:+ ": " +:+ e))).

Definition apply_resource_limits (config : SandboxConfig) : Os ChildEnd unit :=
  _ ← set_limit RLIMIT_CPU "RLIMIT_CPU" (cpu_seconds (time_limit_ms config));
  _ ← set_limit RLIMIT_FSIZE "RLIMIT_FSIZE" (fsize_limit (profile config));
  set_limit RLIMIT_STACK "RLIMIT_STACK" stack_limit.

Definition apply_environment_sanitization {E : Type} : Os E unit :=
  _ ← sys_ignore (E := E) Clearenv;
  _ ← sys_ignore (E := E) (Setenv "PATH" "/usr/bin:/bin");
  sys_ignore (Setenv "LANG" "C.UTF-8").

Definition dup_or_exit (old new : Z) : Os ChildEnd unit :=
  r ← sys (Dup2 old new); if decide (ret r = -1)%Z then stop (Exited 1) else mret tt.

Definition redirect (p : ChildProcessPipes) : Os ChildEnd unit :=
  _ ← dup_or_exit (stdin_read p) STDIN_FILENO;
  _ ← dup_or_exit (stdout_write p) STDOUT_FILENO;
  _ ← dup_or_exit (stderr_write p) STDERR_FILENO;
  for_each [stdin_read p; stdout_write p; stderr_write p] (fun fd => sys_ignore (CloseFd fd)).

Definition isolate_network (config : SandboxConfig) : Os ChildEnd unit :=
  if enable_network_isolation config
  then sys_ok (Unshare [CLONE_NEWNET; CLONE_NEWIPC])
         (fun e => Returned (NamespaceError ("network/IPC unshare failed: " +:+ e)))
  else mret tt.

(** The jail of this child, if any; [uuid] stands for the fallback identifier. *)
Definition child_jail_id (uuid : string) (config : SandboxConfig) : string :=
  if is_empty (jail_id config) then uuid else jail_id config.

Definition enter_jail (uuid : string) (config : SandboxConfig) : Os ChildEnd FsIsolation :=
  _ ← sys_ok (Unshare [CLONE_NEWNS])
        (fun e => Returned (NamespaceError ("mount-namespace unshare failed: " +:+ e)));
  lift_os (fun e => Returned (IsolationError e))
    (FsIsolation_setup (child_jail_id uuid config) (workspace_dir config)
       (fs_workdir_size_bytes config) (fs_readonly_paths config)).

Definition enter_work_dir (config : SandboxConfig) : Os ChildEnd unit :=
  match work_dir config with
  | None => mret tt
  | Some dir =>
      there ← sys_bool (Metadata dir);
      if (there : bool) then
        match cstring dir with
        | None => stop Aborted
        | Some d => r ← sys (Chdir d);
                    if decide (ret r = -1)%Z then stop (Returned (ChdirError "chdir failed"))
                    else mret tt
        end
      else mret tt
  end.

Definition argv_of (config : SandboxConfig) : list string :=
  cstring_or_default (match path_file_name (executable_path config) with
                      | Some f => f | None => "" end)
  :: map cstring_or_default (args config).

Definition gocache_dir (cached : bool) (config : SandboxConfig) : string :=
  if cached then "/var/cache/gocache"
  else match work_dir config with
       | Some wd => path_join wd ".gocache"
       | None => "/tmp"
       end.

Definition envp_of (gocache : string) : list string :=
  ["PATH=/usr/bin:/bin:/usr/local/bin"; "LANG=C.UTF-8"; "HOME=/tmp";
   "GOCACHE=" +:+ shown gocache; "GOPATH=" +:+ shown (path_join gocache "pkg")].

(** [CString::new(..).unwrap()] *)
Definition env_cstrings (gocache : string) : Os ChildEnd (list string) :=
  if decide (Forall (fun s => cstring s = Some s) (envp_of gocache))
  then mret (envp_of gocache) else stop Aborted.

Section Numbers.
Context (plat : Platform).

Definition drop_privileges : Os ChildEnd unit :=
  r ← sys SetgroupsEmpty;
  if negb (ret r =? 0)%Z then stop (Returned (PrivDropError "setgroups(0) failed")) else
  r ← sys (Setresgid CHILD_GID CHILD_GID CHILD_GID);
  if negb (ret r =? 0)%Z then stop (Returned (PrivDropError "setresgid failed")) else
  r ← sys (Setresuid CHILD_UID CHILD_UID CHILD_UID);
  if negb (ret r =? 0)%Z then stop (Returned (PrivDropError "setresuid failed")) else
  let still := stop (Returned (PrivDropError "privilege drop did not take effect (still privileged)")) in
  u ← sys Getuid; if (ret u =? 0)%Z then still else
  e ← sys Geteuid; if (ret e =? 0)%Z then still else
  s ← sys (Setuid 0); if (ret s =? 0)%Z then still else mret tt.

Definition confine (config : SandboxConfig) : Os ChildEnd unit :=
  if decide (profile config = Run) then
    _ ← lift_os (fun e => Returned (ChildSeccompError e)) (install plat);
    drop_privileges
  else mret tt.

(** The image the child will execute: path, arguments and environment. *)
Definition image (config : SandboxConfig) : Os ChildEnd (string * list string * list string) :=
  match cstring (executable_path config) with
  | None => stop (Returned (ExecveError "Invalid executable path"))
  | Some exe =>
      cached ← sys_bool (PathExists "/var/cache/gocache");
      envp ← env_cstrings (gocache_dir cached config);
      mret (exe, argv_of config, envp)
  end.

Definition run_image (i : string * list string * list string) : Os ChildEnd unit :=
  let '(exe, argv, envp) := i in
  r ← sys (Execve exe argv envp);
  if (0 <=? ret r)%Z then stop Replaced else stop (Exited 127).

(** The part of [setup_child_process] in which the jail's destructor is armed. *)
Definition inside (config : SandboxConfig) : Os ChildEnd unit :=
  _ ← enter_work_dir config;
  i ← image config;
  _ ← confine config;
  run_image i.

(** An error return runs the destructor; [exit], [abort] and [execve] do not. *)
Definition guarded_return {A : Type} (m : Os ChildEnd A) (on_drop : Os ChildEnd unit) : Os ChildEnd A :=
  fun k h => match m k h with
             | (h', Err (Returned e)) => (fst (on_drop k h'), Err (Returned e))
             | r => r
             end.

Definition setup_child_process (uuid : string) (config : SandboxConfig) (p : ChildProcessPipes)
  : Os ChildEnd unit :=
  _ ← close_child_ends p;
  _ ← redirect p;
  _ ← sys_ignore (Setpgid 0 0);
  _ ← apply_resource_limits config;
  _ ← apply_environment_sanitization;
  _ ← isolate_network config;
  if enable_fs_isolation config then
    jail ← enter_jail uuid config;
    guarded_return (inside config) (drop_isolation jail)
  else inside config.
End Numbers.

(* ------------------------------------------------------------------ *)
(** ** Lemmas *)

#[local] Open Scope list_scope.

(** [executes_after m Q]: [m] executes at most one program, as its very last call,
    and only after calls [t] with [Q t]; it then ends as [run_image] does. *)
Definition executes_after {A : Type} (m : Os ChildEnd A) (Q : History -> Prop) : Prop :=
  forall k h, exists t, fst (m k h) = h ++ t /\
    (no_exec t /\ (forall a, snd (m k h) <> Ok a) \/
     exists t1 exe argv envp r, t = t1 ++ [(Execve exe argv envp, r)] /\ no_exec t1 /\ Q t1 /\
       snd (m k h) = Err (if decide (0 <= ret r) then Replaced else Exited 127))%Z.

Lemma executes_run_image i (Q : History -> Prop) : Q [] -> executes_after (run_image i) Q.
Proof.
  intros HQ k h. destruct i as [[exe argv] envp]. unfold run_image, mbind, os_bind, sys.
  set (r := k h _). exists [(Execve exe argv envp, r)].
  destruct (Z.leb_spec 0 (ret r)); cbn; (split; [done|]); right; exists [], exe, argv, envp, r;
    (split_and!; [done|constructor|done|]); case_decide; (done || lia).
Qed.

Lemma executes_bind {A B : Type} (m : Os ChildEnd A) (f : A -> Os ChildEnd B)
    (R : A -> History -> Prop) (Q : History -> Prop) :
  ensures m R -> (forall a, executes_after (f a) (fun t2 => forall t1, R a t1 -> Q (t1 ++ t2))) ->
  executes_after (m ≫= f) Q.
Proof.
  intros Hm Hf k h. unfold mbind, os_bind. destruct (Hm k h) as (t1 & Ht1 & Hn1 & HR).
  destruct (m k h) as [h1 [a|e]]; cbn in Ht1, HR; subst h1.
  2:{ exists t1. split; [done|]. by left. }
  destruct (Hf a k (h ++ t1)) as (t2 & Ht2 & Hc). exists (t1 ++ t2).
  rewrite Ht2, <- app_assoc. split; [done|].
  destruct Hc as [[Hn2 Hr]|(t & exe & argv & envp & r & -> & Hn2 & HQ & Hr)].
  - left. split; [by apply Forall_app|done].
  - right. exists (t1 ++ t), exe, argv, envp, r. rewrite <- app_assoc.
    split_and!; [done|by apply Forall_app|by apply HQ, HR|done].
Qed.

Lemma executes_conseq {A : Type} (m : Os ChildEnd A) (Q Q' : History -> Prop) :
  executes_after m Q -> (forall t, Q t -> Q' t) -> executes_after m Q'.
Proof.
  intros H HQ k h. destruct (H k h) as (t & Ht & Hc). exists t. split; [done|].
  destruct Hc as [?|(t1 & exe & argv & envp & r & ? & ? & ? & ?)]; [by left|].
  right. exists t1, exe, argv, envp, r. auto.
Qed.

(** The three ways a promise passes through a sequence. *)
Lemma executes_seq {A B : Type} (m : Os ChildEnd A) (f : A -> Os ChildEnd B) cs ds :
  performs m cs -> (forall a, executes_after (f a) (fun t => ds `sublist_of` ok_calls t)) ->
  executes_after (m ≫= f) (fun t => cs ++ ds `sublist_of` ok_calls t).
Proof.
  intros Hm Hf. eapply executes_bind; [exact Hm|]. intros a. eapply executes_conseq; [apply Hf|].
  cbn. intros t2 H2 t1 H1. rewrite ok_calls_app. by apply sublist_app.
Qed.

Lemma executes_before {A B : Type} (m : Os ChildEnd A) (f : A -> Os ChildEnd B) Q :
  grows Q -> prepares m -> (forall a, executes_after (f a) Q) -> executes_after (m ≫= f) Q.
Proof.
  intros HQ Hm Hf. eapply executes_bind; [exact Hm|]. intros a.
  eapply executes_conseq; [apply Hf|]. intros t2 H2 t1 _. apply HQ. by right.
Qed.

Lemma executes_here {A B : Type} (m : Os ChildEnd A) (f : A -> Os ChildEnd B) Q :
  grows Q -> ensures m (fun _ => Q) -> (forall a, executes_after (f a) (fun _ => True)) ->
  executes_after (m ≫= f) Q.
Proof.
  intros HQ Hm Hf. eapply executes_bind; [exact Hm|]. intros a.
  eapply executes_conseq; [apply Hf|]. cbn. intros t2 _ t1 H1. apply HQ. by left.
Qed.

Lemma executes_guarded {A : Type} (m : Os ChildEnd A) d Q :
  executes_after m Q -> prepares d -> executes_after (guarded_return m d) Q.
Proof.
  intros Hm Hd k h. unfold guarded_return. destruct (Hm k h) as (t & Ht & Hc).
  destruct (m k h) as [h1 r]. cbn in Ht. subst h1.
  destruct Hc as [[Hn Hr]|(t1 & exe & argv & envp & q & -> & Hn & HQ & Hr)]; cbn in Hr.
  - destruct r as [a|[e|c| |]]; [by elim (Hr a)| | | |].
    2-4: exists t; split; [done|by left].
    destruct (Hd k (h ++ t)) as (t2 & Ht2 & Hn2 & _). exists (t ++ t2).
    rewrite Ht2, <- app_assoc. split; [done|]. left. split; [by apply Forall_app|done].
  - exists (t1 ++ [(Execve exe argv envp, q)]). subst r.
    destruct (decide (0 <= ret q)%Z); (split; [done|]); right;
      exists t1, exe, argv, envp, q; (split_and!; [done|done|done|]); case_decide; done.
Qed.

Lemma prepares_close {E : Type} l : prepares (for_each l (fun fd => sys_ignore (CloseFd fd)) : Os E unit).
Proof. os. Qed.

Lemma prepares_dup old new : prepares (dup_or_exit old new).
Proof. unfold dup_or_exit. os. Qed.

Lemma prepares_redirect p : prepares (redirect p).
Proof. unfold redirect. do 3 (apply prepares_bind; [apply prepares_dup|intros ?]). os. Qed.

Lemma prepares_env : prepares (apply_environment_sanitization (E := ChildEnd)).
Proof. unfold apply_environment_sanitization. os. Qed.

Lemma prepares_work_dir config : prepares (enter_work_dir config).
Proof. unfold enter_work_dir. destruct (work_dir config); os. Qed.

Lemma prepares_image config : prepares (image config).
Proof.
  unfold image, env_cstrings. destruct (cstring _); [|os].
  apply prepares_bind; [os|]. intros b. apply prepares_bind; [|os]. destruct (decide _); os.
Qed.

#[export] Hint Resolve prepares_close prepares_redirect prepares_env prepares_work_dir prepares_image : os.

Definition limit_calls (config : SandboxConfig) : list Call :=
  [Setrlimit RLIMIT_CPU (cpu_seconds (time_limit_ms config)) (cpu_seconds (time_limit_ms config));
   Setrlimit RLIMIT_FSIZE (fsize_limit (profile config)) (fsize_limit (profile config));
   Setrlimit RLIMIT_STACK stack_limit stack_limit].

Lemma performs_limits config : performs (apply_resource_limits config) (limit_calls config).
Proof. unfold apply_resource_limits, limit_calls, set_limit. do 2 performs_step. eauto with os. Qed.

Definition drop_calls : list Call :=
  [SetgroupsEmpty; Setresgid CHILD_GID CHILD_GID CHILD_GID; Setresuid CHILD_UID CHILD_UID CHILD_UID].

(** The child asked, and was neither root nor able to become root again. *)
Definition dropped (t : History) : Prop :=
  exists u e s, (Getuid, u) ∈ t /\ ret u <> 0%Z /\ (Geteuid, e) ∈ t /\ ret e <> 0%Z /\
                (Setuid 0, s) ∈ t /\ ret s <> 0%Z.

Lemma dropped_grows : grows dropped.
Proof.
  intros t1 t2 [H|H]; destruct H as (u & e & s & ? & ? & ? & ? & ? & ?);
    exists u, e, s; rewrite !elem_of_app; auto 10.
Qed.

Lemma ok_calls_cons c r t :
  ok_calls ((c, r) :: t) = if decide (0 <= ret r)%Z then c :: ok_calls t else ok_calls t.
Proof. unfold ok_calls. rewrite filter_cons. cbn. by case_decide. Qed.

(** The privilege drop, call by call: its replies determine everything it promises. *)
Lemma drop_privileges_ensures :
  ensures drop_privileges (fun _ t => drop_calls `sublist_of` ok_calls t /\ dropped t).
Proof.
  unfold drop_privileges.
  apply (ensures_check _ (fun r => negb (ret r =? 0)%Z)); [done|intros r1 H1%negb_false_iff%Z.eqb_eq].
  apply (ensures_check _ (fun r => negb (ret r =? 0)%Z)); [done|intros r2 H2%negb_false_iff%Z.eqb_eq].
  apply (ensures_check _ (fun r => negb (ret r =? 0)%Z)); [done|intros r3 H3%negb_false_iff%Z.eqb_eq].
  apply (ensures_check _ (fun r => ret r =? 0)%Z); [done|intros u Hu%Z.eqb_neq].
  apply (ensures_check _ (fun r => ret r =? 0)%Z); [done|intros e He%Z.eqb_neq].
  apply (ensures_check _ (fun r => ret r =? 0)%Z); [done|intros s Hs%Z.eqb_neq].
  apply ensures_ret. split.
  - rewrite !(ok_calls_cons _ r1), !(ok_calls_cons _ r2), !(ok_calls_cons _ r3).
    rewrite !decide_True by lia. repeat apply sublist_skip. apply sublist_nil_l.
  - exists u, e, s. rewrite !elem_of_cons. auto 20.
Qed.

Lemma performs_jail uuid config :
  performs (enter_jail uuid config)
    (Unshare [CLONE_NEWNS] ::
     jail_calls (MkIsolation ("/tmp/judge_root_" +:+ child_jail_id uuid config) (child_jail_id uuid config))
       (workspace_dir config) (fs_workdir_size_bytes config)).
Proof. unfold enter_jail. performs_step. apply performs_lift, performs_setup. Qed.

Lemma jail_bound uuid config :
  ensures (enter_jail uuid config)
    (fun _ t => Forall (fun p => bound_readonly
       (MkIsolation ("/tmp/judge_root_" +:+ child_jail_id uuid config) (child_jail_id uuid config)) p t)
       (fs_readonly_paths config)).
Proof.
  unfold enter_jail. apply ensures_before; [apply bound_grows|os|]. intros _.
  apply performs_lift, setup_bound.
Qed.

Section Confined.
Context (plat : Platform).

Lemma performs_confine config :
  profile config = Run -> performs (confine plat config) (filter_calls plat ++ drop_calls).
Proof.
  intros Hp. unfold confine. rewrite decide_True by done.
  apply performs_bind; [apply performs_lift, performs_install|]. intros _.
  eapply ensures_conseq; [apply drop_privileges_ensures|]. by intros _ t [H _].
Qed.

Lemma confine_dropped config :
  profile config = Run -> ensures (confine plat config) (fun _ => dropped).
Proof.
  intros Hp. unfold confine. rewrite decide_True by done.
  apply ensures_before; [apply dropped_grows| |].
  - eapply performs_prepares, performs_lift, performs_install.
  - intros _. eapply ensures_conseq; [apply drop_privileges_ensures|]. by intros _ t [_ H].
Qed.

Lemma prepares_confine config : prepares (confine plat config).
Proof.
  destruct (profile config) eqn:Hp.
  - unfold confine. rewrite decide_False by (rewrite Hp; done). apply prepares_ret.
  - by eapply prepares_performs, performs_confine.
Qed.

(** Everything a confined child must have done, in order, before it runs anything. *)
Definition confinement (uuid : string) (config : SandboxConfig) : list Call :=
  limit_calls config ++ [Unshare [CLONE_NEWNET; CLONE_NEWIPC]] ++
  (Unshare [CLONE_NEWNS] ::
   jail_calls (MkIsolation ("/tmp/judge_root_" +:+ child_jail_id uuid config) (child_jail_id uuid config))
     (workspace_dir config) (fs_workdir_size_bytes config)) ++
  filter_calls plat ++ drop_calls.

Lemma inside_performs config :
  profile config = Run ->
  executes_after (inside plat config) (fun t => filter_calls plat ++ drop_calls `sublist_of` ok_calls t).
Proof.
  intros Hp. unfold inside.
  change (filter_calls plat ++ drop_calls) with ([] ++ [] ++ (filter_calls plat ++ drop_calls)).
  apply executes_seq; [apply performs_nil; os|intros _].
  apply executes_seq; [apply performs_nil; os|intros i].
  rewrite <- (app_nil_r (filter_calls plat ++ drop_calls)).
  apply executes_seq; [by apply performs_confine|intros _].
  apply executes_run_image, sublist_nil_l.
Qed.

Lemma inside_any config Q : Q [] -> grows Q -> executes_after (inside plat config) Q.
Proof.
  intros HQ Hg. unfold inside.
  apply executes_before; [done|os|intros _]. apply executes_before; [done|os|intros i].
  apply executes_before; [done|apply prepares_confine|intros _]. by apply executes_run_image.
Qed.

Lemma inside_dropped config :
  profile config = Run -> executes_after (inside plat config) dropped.
Proof.
  intros Hp. unfold inside.
  apply executes_before; [apply dropped_grows|os|intros _].
  apply executes_before; [apply dropped_grows|os|intros i].
  apply executes_here; [apply dropped_grows|by apply confine_dropped|intros _].
  by apply executes_run_image.
Qed.

(** The steps before the jail. *)
Lemma before_jail uuid config p Q :
  grows Q -> enable_fs_isolation config = true ->
  executes_after (jail ← enter_jail uuid config;
                  guarded_return (inside plat config) (drop_isolation jail)) Q ->
  executes_after (setup_child_process plat uuid config p) Q.
Proof.
  intros HQ Hf Hj. unfold setup_child_process, close_child_ends, isolate_network. rewrite Hf.
  do 3 (apply executes_before; [done|os|intros ?]).
  apply executes_before; [done|eapply prepares_performs, performs_limits|intros ?].
  apply executes_before; [done|os|intros ?].
  apply executes_before; [done| |done]. destruct (enable_network_isolation config); os.
Qed.

Lemma setup_performs uuid config p :
  isolated config ->
  executes_after (setup_child_process plat uuid config p)
    (fun t => confinement uuid config `sublist_of` ok_calls t).
Proof.
  intros (Hp & Hn & Hf). unfold setup_child_process, close_child_ends, isolate_network, confinement.
  rewrite Hn, Hf.
  match goal with |- executes_after _ (fun t => ?cs `sublist_of` _) => change cs with ([] ++ [] ++ [] ++ cs) end.
  do 3 (apply executes_seq; [apply performs_nil; os|intros ?]).
  apply executes_seq; [apply performs_limits|intros ?].
  match goal with |- executes_after _ (fun t => ?cs `sublist_of` _) => change cs with ([] ++ cs) end.
  apply executes_seq; [apply performs_nil; os|intros ?].
  apply executes_seq; [eauto with os|intros ?].
  apply executes_seq; [apply performs_jail|intros j].
  apply executes_guarded; [by apply inside_performs|apply prepares_drop_isolation].
Qed.

Lemma setup_dropped uuid config p :
  isolated config -> executes_after (setup_child_process plat uuid config p) dropped.
Proof.
  intros (Hp & _ & Hf). apply before_jail; [apply dropped_grows|done|].
  apply executes_before; [apply dropped_grows|eapply prepares_performs, performs_jail|intros j].
  apply executes_guarded; [by apply inside_dropped|apply prepares_drop_isolation].
Qed.

Lemma setup_bound_paths uuid config p :
  isolated config ->
  executes_after (setup_child_process plat uuid config p)
    (fun t => Forall (fun q => bound_readonly
       (MkIsolation ("/tmp/judge_root_" +:+ child_jail_id uuid config) (child_jail_id uuid config)) q t)
       (fs_readonly_paths config)).
Proof.
  intros (_ & _ & Hf). apply before_jail; [apply bound_grows|done|].
  apply executes_here; [apply bound_grows|apply jail_bound|intros j].
  apply executes_guarded; [|apply prepares_drop_isolation].
  apply inside_any; [done|by intros t1 t2 _].
Qed.

(** [runs m P]: every program [m] executes satisfies [P]. *)
Definition runs {A : Type} (m : Os ChildEnd A) (P : string -> list string -> list string -> Prop) : Prop :=
  forall k h, exists t, fst (m k h) = h ++ t /\
    forall exe argv envp r, (Execve exe argv envp, r) ∈ t -> P exe argv envp.

Lemma no_exec_not_elem t exe argv envp r : no_exec t -> (Execve exe argv envp, r) ∉ t.
Proof. intros H Hin. unfold no_exec in H. rewrite Forall_forall in H. by specialize (H _ Hin). Qed.

Lemma runs_bind {A B : Type} (m : Os ChildEnd A) (f : A -> Os ChildEnd B) (R : A -> Prop) P :
  ensures m (fun a _ => R a) -> (forall a, R a -> runs (f a) P) -> runs (m ≫= f) P.
Proof.
  intros Hm Hf k h. unfold mbind, os_bind.
  destruct (Hm k h) as (t & Ht & Hn & HR). destruct (m k h) as [h1 [a|e]]; cbn in *; subst h1.
  - destruct (Hf a (HR a eq_refl) k (h ++ t)) as (t2 & -> & H2). exists (t ++ t2).
    rewrite <- app_assoc. split; [done|]. intros exe argv envp r [Hin|Hin]%elem_of_app.
    + by elim (no_exec_not_elem _ _ _ _ _ Hn Hin).
    + by eapply H2.
  - exists t. split; [done|]. intros exe argv envp r Hin.
    by elim (no_exec_not_elem _ _ _ _ _ Hn Hin).
Qed.

Lemma runs_prepared {A B : Type} (m : Os ChildEnd A) (f : A -> Os ChildEnd B) P :
  prepares m -> (forall a, runs (f a) P) -> runs (m ≫= f) P.
Proof. intros Hm Hf. apply (runs_bind _ _ (fun _ => True)); [exact Hm|by intros a _]. Qed.

Lemma runs_guarded {A : Type} (m : Os ChildEnd A) d P :
  runs m P -> prepares d -> runs (guarded_return m d) P.
Proof.
  intros Hm Hd k h. unfold guarded_return. destruct (Hm k h) as (t & Ht & HP).
  destruct (m k h) as [h1 [a|[e|c| |]]]; cbn in *; subst h1; try by exists t.
  destruct (Hd k (h ++ t)) as (t2 & -> & Hn & _). exists (t ++ t2). rewrite <- app_assoc.
  split; [done|]. intros exe argv envp r [Hin|Hin]%elem_of_app; [by eapply HP|].
  by elim (no_exec_not_elem _ _ _ _ _ Hn Hin).
Qed.

(** The program a configuration names, with a fixed environment. *)
Definition requested (config : SandboxConfig) (exe : string) (argv envp : list string) : Prop :=
  exe = executable_path config /\ argv = argv_of config /\
  exists cached, envp = envp_of (gocache_dir cached config).

Lemma image_requested config :
  ensures (image config) (fun i _ => requested config (fst (fst i)) (snd (fst i)) (snd i)).
Proof.
  unfold image, cstring. case_decide; [apply ensures_stop|].
  eapply ensures_bind; [apply (prepares_sys_bool (E := ChildEnd)); done|]. intros cached.
  unfold env_cstrings. case_decide.
  - eapply ensures_bind; [apply (ensures_ret _ (fun e _ => e = envp_of (gocache_dir cached config))); done|].
    intros e. apply ensures_ret. intros t1 -> t0 _. unfold requested; cbn. eauto.
  - intros k h. exists []. unfold stop, mbind, os_bind; cbn. rewrite app_nil_r.
    split_and!; [done|constructor|done].
Qed.

Lemma inside_runs config : runs (inside plat config) (requested config).
Proof.
  unfold inside. apply runs_prepared; [os|intros _].
  eapply runs_bind; [apply image_requested|]. intros [[exe argv] envp] Hi.
  apply runs_prepared; [apply prepares_confine|intros _].
  intros k h. unfold run_image, sys, mbind, os_bind. set (q := k h _).
  exists [(Execve exe argv envp, q)]. split; [by destruct (0 <=? ret q)%Z|].
  by intros exe' argv' envp' r [= -> -> -> _]%list_elem_of_singleton.
Qed.

Lemma setup_runs uuid config p : runs (setup_child_process plat uuid config p) (requested config).
Proof.
  unfold setup_child_process, close_child_ends, isolate_network.
  do 3 (apply runs_prepared; [os|intros ?]).
  apply runs_prepared; [eapply prepares_performs, performs_limits|intros ?].
  apply runs_prepared; [os|intros ?].
  apply runs_prepared; [destruct (enable_network_isolation config); os|intros ?].
  destruct (enable_fs_isolation config); [|apply inside_runs].
  apply runs_prepared; [eapply prepares_performs, performs_jail|intros ?].
  apply runs_guarded; [apply inside_runs|apply prepares_drop_isolation].
Qed.

Lemma executes_and {A : Type} (m : Os ChildEnd A) Q1 Q2 :
  executes_after m Q1 -> executes_after m Q2 -> executes_after m (fun t => Q1 t /\ Q2 t).
Proof.
  intros H1 H2 k h. destruct (H1 k h) as (t & Ht & C1), (H2 k h) as (t' & Ht' & C2).
  rewrite Ht in Ht'. apply app_inv_head in Ht' as <-. exists t. split; [done|].
  destruct C1 as [?|(t1 & exe & argv & envp & r & -> & Hn1 & HQ1 & Hr1)]; [by left|].
  right. exists t1, exe, argv, envp, r. split_and!; [done|done|done| |done].
  destruct C2 as [[Hn _]|(t2 & exe' & argv' & envp' & r' & E & _ & HQ2 & _)].
  - elim (no_exec_not_elem _ exe argv envp r Hn). apply elem_of_app. right. by left.
  - by apply app_inj_tail in E as [-> _].
Qed.

(** What [t] adds to the history of a child of [config]: no program, or as its last
    act the requested one, confined. *)
Definition confined_exec (uuid : string) (config : SandboxConfig) (t : History) : Prop :=
  no_exec t \/
  exists t1 exe argv envp r, t = t1 ++ [(Execve exe argv envp, r)] /\ no_exec t1 /\
    requested config exe argv envp /\
    confinement uuid config `sublist_of` ok_calls t1 /\ dropped t1 /\
    Forall (fun q => bound_readonly
      (MkIsolation ("/tmp/judge_root_" +:+ child_jail_id uuid config) (child_jail_id uuid config)) q t1)
      (fs_readonly_paths config).

Lemma child_confined uuid config p k h :
  isolated config ->
  exists t, fst (setup_child_process plat uuid config p k h) = h ++ t /\ confined_exec uuid config t.
Proof.
  intros Hi.
  destruct (executes_and _ _ _ (setup_performs uuid config p Hi)
              (executes_and _ _ _ (setup_dropped uuid config p Hi)
                 (setup_bound_paths uuid config p Hi)) k h) as (t & Ht & Hc).
  destruct (setup_runs uuid config p k h) as (t' & Ht' & HR).
  rewrite Ht in Ht'. apply app_inv_head in Ht' as <-. exists t. split; [done|].
  destruct Hc as [[Hn _]|(t1 & exe & argv & envp & r & -> & Hn & (H1 & H2 & H3) & _)]; [by left|].
  right. exists t1, exe, argv, envp, r. split_and!; try done.
  apply (HR exe argv envp r). apply elem_of_app. right. by left.
Qed.

(** C9. Untrusted code never runs unconfined.  For a configuration that asks for
    isolation, and for every kernel: [setup_child_process] executes at most one
    program, as the child's last act, and only when every one of the following
    succeeded before, in this order - the three resource limits, the network, IPC
    and mount namespaces, the jail, the system call filter, and the drop of groups,
    GID and UID - when the child saw that it is not root and cannot become root
    again, and when every configured system path is absent or read-only.  What it
    runs is the requested program with its arguments and a fixed environment. *)
Theorem exec_only_confined uuid config p k h :
  isolated config ->
  exists t, fst (setup_child_process plat uuid config p k h) = h ++ t /\
    (no_exec t \/
     exists t1 exe argv envp r, t = t1 ++ [(Execve exe argv envp, r)] /\ no_exec t1 /\
       requested config exe argv envp /\
       confinement uuid config `sublist_of` ok_calls t1 /\ dropped t1 /\
       Forall (fun q => bound_readonly
         (MkIsolation ("/tmp/judge_root_" +:+ child_jail_id uuid config) (child_jail_id uuid config)) q t1)
         (fs_readonly_paths config)).
Proof. intros Hi. exact (child_confined uuid config p k h Hi). Qed.
End Confined.

(** A kernel that grants everything but the calls in [l], to a child that is the
    sandbox user and cannot become root. *)
Definition granting (l : list Call) : Kernel := fun h c =>
  if decide (c ∈ l) then MkReply (-1) "EPERM"
  else match c with
       | Getuid | Geteuid => MkReply 65534 ""
       | Setuid _ => MkReply (-1) "EPERM"
       | _ => MkReply 0 ""
       end.

Definition demo_pipes : ChildProcessPipes := MkPipes 3 4 5 6 7 8.

Definition demo_run_config : SandboxConfig :=
  SandboxConfig.run "/sandbox/binary" "/tmp/x" 1000 (256 * MiB) 2.

Lemma demo_isolated : isolated demo_run_config.
Proof. done. Qed.

Lemma exec_only_confined_witness :
  exists t, fst (setup_child_process pc "u1" demo_run_config demo_pipes (granting []) []) = [] ++ t /\
    ~ no_exec t /\ confinement pc "u1" demo_run_config `sublist_of` ok_calls t.
Proof.
  destruct (exec_only_confined pc "u1" demo_run_config demo_pipes (granting []) [] demo_isolated)
    as (t & Ht & [Hn|(t1 & exe & argv & envp & r & -> & _ & _ & Hc & _)]).
  - exfalso. rewrite app_nil_l in Ht. rewrite <- Ht in Hn.
    assert (forallb (fun p : Call * Reply => negb (is_exec (fst p)))
              (fst (setup_child_process pc "u1" demo_run_config demo_pipes (granting []) [])) = true) as F.
    { apply forallb_forall. intros x Hx. unfold no_exec in Hn. rewrite Forall_forall in Hn.
      by rewrite (Hn x (proj2 (list_elem_of_In _ _) Hx)). }
    vm_compute in F. discriminate F.
  - exists (t1 ++ [(Execve exe argv envp, r)]). split; [exact Ht|]. split.
    + intros Hn. apply (no_exec_not_elem _ exe argv envp r Hn). apply elem_of_app. right. by left.
    + rewrite ok_calls_app. by apply sublist_inserts_r.
Defined.

(** The last two steps of entering the jail do not fail closed: their results
    are ignored, so there are kernels under which the program runs although the old
    root - the whole host file system - is still mounted at [/.old_root] and the new
    root was never made read-only. *)
Theorem old_root_unchecked :
  exists k, let h := fst (setup_child_process pc "u1" demo_run_config demo_pipes k []) in
    (exists exe argv envp, did (Execve exe argv envp) h) /\
    issued (UmountDetach "/.old_root") h /\ ~ did (UmountDetach "/.old_root") h /\
    issued root_readonly h /\ ~ did root_readonly h.
Proof.
  exists (granting [UmountDetach "/.old_root"; root_readonly]). cbv zeta. split_and!.
  - exists "/sandbox/binary", ["binary"], (envp_of "/var/cache/gocache").
    apply (bool_decide_unpack _). vm_compute. exact I.
  - apply (bool_decide_unpack _). vm_compute. exact I.
  - apply (bool_decide_unpack _). vm_compute. exact I.
  - apply (bool_decide_unpack _). vm_compute. exact I.
  - apply (bool_decide_unpack _). vm_compute. exact I.
Qed.

Close Scope string_scope.
