(* ===== verification/Reaper.v ===== *)
(** * The child reaper

    [src/src/sandbox/reaper.rs]: the global registry of supervised children, the
    handles supervisors hold, and [reap_all], the only caller of [wait4].  A [Slot]
    is an [Arc<Mutex<Option<ChildExit>>>] shared between the registry and a handle,
    so slots live in a store and both sides hold its location. *)

From S2P Require Import Prelude.

(** The fields of [libc::rusage] the program reads. *)
Record Rusage : Type := MkRusage {
  ru_utime_sec : Z; ru_utime_usec : Z; ru_stime_sec : Z; ru_stime_usec : Z; ru_maxrss : Z
}.

#[export] Instance Rusage_eq_dec : EqDecision Rusage.
Proof. solve_decision. Defined.

(** [std::mem::zeroed()] *)
Definition zero_rusage : Rusage := MkRusage 0 0 0 0 0.

Definition ChildExit : Type := Z * Rusage.
Definition Slot : Type := nat.

Record SupervisedChild : Type := MkChild { child_pid : Z; child_slot : Slot }.

#[export] Instance SupervisedChild_eq_dec : EqDecision SupervisedChild.
Proof. solve_decision. Defined.

Record Reaper : Type := MkReaper {
  registry : gmap Z Slot;
  slots : gmap Slot (option ChildExit)
}.

Definition reaper_init : Reaper := MkReaper ∅ ∅.

(** [Arc::new(Mutex::new(None))]: a location not in use. *)
Definition new_slot (s : Reaper) : Slot := fresh (dom (slots s) : gset Slot).

Definition register_child (pid : Z) (s : Reaper) : SupervisedChild * Reaper :=
  let l := new_slot s in
  (MkChild pid l, MkReaper (<[pid := l]> (registry s)) (<[l := None]> (slots s))).

Definition try_take (h : SupervisedChild) (s : Reaper) : option ChildExit * Reaper :=
  (match slots s !! child_slot h with Some v => v | None => None end,
   MkReaper (registry s) (<[child_slot h := None]> (slots s))).

(** [impl Drop for SupervisedChild] *)
Definition drop_child (h : SupervisedChild) (s : Reaper) : Reaper :=
  MkReaper (delete (child_pid h) (registry s)) (slots s).

(** One pass of the loop of [reap_all], for a [wait4] that returned [pid > 0]. *)
Definition reap_one (pid : Z) (e : ChildExit) (s : Reaper) : Reaper :=
  match registry s !! pid with
  | Some l => MkReaper (registry s) (<[l := Some e]> (slots s))
  | None => s
  end.

(** [reap_all]: [replies] are what successive [wait4(-1, WNOHANG)] calls return; the
    loop stops at the first non-positive pid (no terminated child, or no child). *)
Fixpoint reap_all (replies : list (Z * ChildExit)) (s : Reaper) : Reaper :=
  match replies with
  | [] => s
  | (pid, e) :: replies' => if pid <=? 0 then s else reap_all replies' (reap_one pid e s)
  end.

(* ------------------------------------------------------------------ *)
(** ** Interleavings

    Every operation holds the mutexes it needs, so concurrent callers interleave as
    sequences of these steps. *)

Inductive Step : Type :=
  | Register (pid : Z)
  | Take (h : SupervisedChild)
  | DropHandle (h : SupervisedChild)
  | Reap (pid : Z) (e : ChildExit).

Definition step (a : Step) (s : Reaper) : Reaper :=
  match a with
  | Register pid => snd (register_child pid s)
  | Take h => snd (try_take h s)
  | DropHandle h => drop_child h s
  | Reap pid e => reap_one pid e s
  end.

Definition run (t : list Step) (s : Reaper) : Reaper := foldl (fun s a => step a s) s t.

(** A step of somebody else: it neither reuses the pid nor polls this handle. *)
Definition unrelated (h : SupervisedChild) (a : Step) : Prop :=
  match a with
  | Register pid => pid <> child_pid h
  | Take h' => child_slot h' <> child_slot h
  | DropHandle h' => child_pid h' <> child_pid h
  | Reap pid _ => pid <> child_pid h
  end.

(** The registry points at allocated slots, and no two pids share one. *)
Definition reaper_ok (s : Reaper) : Prop :=
  (forall pid l, registry s !! pid = Some l -> l ∈ dom (slots s)) /\
  (forall p q l, registry s !! p = Some l -> registry s !! q = Some l -> p = q).

(** A handle whose child is still registered, with [v] in its slot. *)
Definition holds (h : SupervisedChild) (v : option ChildExit) (s : Reaper) : Prop :=
  registry s !! child_pid h = Some (child_slot h) /\ slots s !! child_slot h = Some v.

Lemma new_slot_fresh s : slots s !! new_slot s = None.
Proof. apply not_elem_of_dom. unfold new_slot. exact (is_fresh (dom (slots s) : gset Slot)). Qed.

Lemma reaper_ok_init : reaper_ok reaper_init.
Proof. split; cbn; intros *; by rewrite lookup_empty. Qed.

Lemma reaper_ok_step a s : reaper_ok s -> reaper_ok (step a s).
Proof.
  intros [Hd Hi]. destruct a as [pid|h|h|pid e]; cbn.
  - pose proof (new_slot_fresh s) as Hf. split; cbn; intros p.
    + intros l. rewrite dom_insert, elem_of_union, elem_of_singleton, lookup_insert_Some.
      intros [[-> ->]|[_ H]]; [by left|right; by eapply Hd].
    + intros q l. rewrite !lookup_insert_Some.
      intros [[-> <-]|[Hp H]] [[-> E]|[Hq H']]; try done.
      * exfalso. apply Hd, elem_of_dom in H' as [v Hv]. congruence.
      * exfalso. subst l. apply Hd, elem_of_dom in H as [v Hv]. congruence.
      * by eapply Hi.
  - split; cbn; [|done]. intros p l H. rewrite dom_insert. apply Hd in H. set_solver.
  - split; cbn; intros p; [intros l|intros q l]; rewrite ?lookup_delete_Some; intros.
    + destruct H as [_ H]. by eapply Hd.
    + destruct H as [_ H], H0 as [_ H0]. by eapply Hi.
  - unfold reap_one. destruct (registry s !! pid) as [k|] eqn:E; [|done].
    split; cbn; [|done]. intros p l H. rewrite dom_insert. apply Hd in H. set_solver.
Qed.

Lemma reaper_ok_run t s : reaper_ok s -> reaper_ok (run t s).
Proof.
  unfold run. revert s. induction t as [|a t IH]; intros s H; cbn; [done|].
  by apply IH, reaper_ok_step.
Qed.

Lemma register_holds pid s : let '(h, s') := register_child pid s in holds h None s'.
Proof. unfold register_child, holds; cbn. by rewrite !lookup_insert_eq. Qed.

(** Other supervisors and other children do not disturb a registered handle. *)
Lemma holds_unrelated h v a s :
  reaper_ok s -> holds h v s -> unrelated h a -> holds h v (step a s).
Proof.
  intros [Hd Hi] [Hr Hs] Hu. destruct a as [pid|h'|h'|pid e]; cbn in *; unfold holds; cbn.
  - rewrite lookup_insert_ne by done. split; [done|].
    rewrite lookup_insert_ne; [done|]. intros E. pose proof (new_slot_fresh s). congruence.
  - split; [done|]. by rewrite lookup_insert_ne.
  - by rewrite lookup_delete_ne.
  - unfold reap_one. destruct (registry s !! pid) as [l|] eqn:E; [|done]. cbn.
    split; [done|]. rewrite lookup_insert_ne; [done|]. intros ->. apply Hu. by eapply Hi.
Qed.

Lemma holds_run h v t s :
  reaper_ok s -> holds h v s -> Forall (unrelated h) t -> holds h v (run t s).
Proof.
  intros Hok Hh Ht. revert s Hok Hh. unfold run. induction Ht as [|a t Ha _ IH]; intros s Hok Hh; [done|].
  cbn. apply IH; [by apply reaper_ok_step|by apply holds_unrelated].
Qed.

Lemma run_app t1 t2 s : run (t1 ++ t2) s = run t2 (run t1 s).
Proof. apply foldl_app. Qed.

Lemma holds_reap h v e s : holds h v s -> holds h (Some e) (reap_one (child_pid h) e s).
Proof.
  intros [Hr Hs]. unfold reap_one, holds. rewrite Hr. cbn. by rewrite lookup_insert_eq.
Qed.

Lemma take_holds h v s :
  holds h v s -> fst (try_take h s) = v /\ holds h None (snd (try_take h s)).
Proof.
  intros [Hr Hs]. unfold try_take, holds; cbn. by rewrite Hs, lookup_insert_eq.
Qed.

(* ------------------------------------------------------------------ *)
(** ** Properties *)

(** C39. Exit information is delivered exactly once and to the right supervisor: a
    child registered in any reachable state, whose pid nobody else registers or
    drops meanwhile, has its own status and usage in its slot once the reaper has
    collected it - however many other children are registered, polled, dropped and
    reaped in between; polling returns it, and polling again returns nothing. *)
Theorem exit_delivered_once pid e t0 t1 t2 :
  let '(h, s) := register_child pid (run t0 reaper_init) in
  Forall (unrelated h) t1 -> Forall (unrelated h) t2 ->
  let s' := run (t1 ++ [Reap pid e] ++ t2) s in
  fst (try_take h s') = Some e /\ fst (try_take h (snd (try_take h s'))) = None.
Proof.
  pose proof (register_holds pid (run t0 reaper_init)) as Hh.
  assert (Hok : reaper_ok (snd (register_child pid (run t0 reaper_init)))).
  { apply (reaper_ok_step (Register pid)), reaper_ok_run, reaper_ok_init. }
  destruct (register_child pid (run t0 reaper_init)) as [h s] eqn:E. cbn in Hok.
  assert (child_pid h = pid) as <- by by injection E as <- _.
  intros H1 H2. cbv zeta. rewrite !run_app.
  assert (holds h (Some e) (run t2 (run [Reap (child_pid h) e] (run t1 s)))) as H.
  { apply holds_run; [|by eapply holds_reap, holds_run|done].
    by apply reaper_ok_run, reaper_ok_run. }
  destruct (take_holds _ _ _ H) as [-> H']. by destruct (take_holds _ _ _ H') as [-> _].
Qed.

Lemma reap_all_run replies s :
  Forall (fun r => 0 < fst r) replies ->
  reap_all replies s = run (map (fun r => Reap (fst r) (snd r)) replies) s.
Proof.
  intros H. unfold run. revert s. induction H as [|[pid e] replies Hp _ IH]; intros s; [done|].
  cbn in Hp |- *. destruct (Z.leb_spec pid 0); [lia|]. apply IH.
Qed.

Lemma reap_all_stops l pid e k s :
  Forall (fun r => 0 < fst r) l -> pid <= 0 ->
  reap_all (l ++ (pid, e) :: k) s = reap_all l s.
Proof.
  intros H Hp. revert s. induction H as [|[q f] l Hq _ IH]; intros s; cbn in *.
  - by destruct (Z.leb_spec pid 0); [|lia].
  - destruct (q <=? 0); [done|]. apply IH.
Qed.

Lemma run_orphans t s :
  Forall (fun a => exists pid e, a = Reap pid e /\ registry s !! pid = None) t -> run t s = s.
Proof.
  unfold run. induction 1 as [|a t (pid & e & -> & H) _ IH]; [done|]. cbn.
  unfold reap_one. by rewrite H.
Qed.

(** One [SIGCHLD] drains everything: [reap_all] keeps collecting until [wait4]
    reports nothing left, so a supervised child anywhere in the queue is delivered
    even behind any number of orphans and other children, and orphans leave the
    registry and the slots as they were. *)
Theorem reap_all_drains h v e before after rest s :
  reaper_ok s -> holds h v s ->
  Forall (fun r => 0 < fst r /\ fst r <> child_pid h) (before ++ after) -> 0 < child_pid h ->
  let replies := before ++ (child_pid h, e) :: after ++ (0, (0, zero_rusage)) :: rest in
  holds h (Some e) (reap_all replies s) /\
  forall orphans, Forall (fun r => 0 < fst r /\ registry s !! fst r = None) orphans ->
    reap_all orphans s = s.
Proof.
  intros Hok Hh Hf Hp replies. split.
  - assert (Forall (fun r : Z * ChildExit => 0 < fst r) (before ++ (child_pid h, e) :: after)) as Hpos.
    { apply Forall_app in Hf as [Hb Ha]. apply Forall_app. split.
      - eapply Forall_impl; [exact Hb|]. by intros r [? _].
      - constructor; [done|]. eapply Forall_impl; [exact Ha|]. by intros r [? _]. }
    unfold replies. change ((child_pid h, e) :: after ++ _) with
      (((child_pid h, e) :: after) ++ (0, (0, zero_rusage)) :: rest).
    rewrite (app_assoc before), reap_all_stops by done.
    rewrite reap_all_run, map_app by done. cbn [map]. rewrite run_app.
    change (?a :: ?t) with ([a] ++ t). rewrite run_app.
    apply Forall_app in Hf as [Hb Ha].
    assert (U : forall l, Forall (fun r : Z * ChildExit => 0 < fst r /\ fst r <> child_pid h) l ->
              Forall (unrelated h) (map (fun r => Reap (fst r) (snd r)) l)).
    { intros l Hl. apply Forall_map. eapply Forall_impl; [exact Hl|]. by intros r [_ ?]. }
    apply holds_run; [|by eapply holds_reap, holds_run; [| |apply U]|by apply U].
    by apply reaper_ok_run, reaper_ok_run.
  - intros orphans Ho. rewrite reap_all_run.
    + apply run_orphans, Forall_map. eapply Forall_impl; [exact Ho|].
      intros r [_ Hr]. by exists (fst r), (snd r).
    + eapply Forall_impl; [exact Ho|]. by intros r [? _].
Qed.

Lemma reap_dropped h e s : reap_one (child_pid h) e (drop_child h s) = drop_child h s.
Proof. unfold reap_one, drop_child; cbn. by rewrite lookup_delete_eq. Qed.

Lemma take_after_drop h h' s : holds h None s -> fst (try_take h (drop_child h' s)) = None.
Proof. intros [_ Hs]. unfold try_take; cbn. by rewrite Hs. Qed.

(** The registration is by pid alone, and two windows lose an exit for good: a
    child that is reaped before [register_child] runs, and a child that got the pid
    of an earlier one whose handle is dropped after it was registered.  In both the
    supervisor's polls return nothing. *)
Theorem exit_lost_windows pid e e' s :
  (let '(h, s') := register_child pid (reap_one pid e (MkReaper (delete pid (registry s)) (slots s))) in
   fst (try_take h s') = None) /\
  (let '(h1, s1) := register_child pid s in
   let '(h2, s2) := register_child pid (reap_one pid e s1) in
   fst (try_take h2 (reap_one pid e' (drop_child h1 s2))) = None).
Proof.
  split.
  - match goal with |- context [register_child pid ?s0] =>
      pose proof (register_holds pid s0) as H; destruct (register_child pid s0) as [h s'] end.
    by destruct (take_holds _ _ _ H).
  - destruct (register_child pid s) as [h1 s1] eqn:E1.
    pose proof (register_holds pid (reap_one pid e s1)) as H.
    destruct (register_child pid (reap_one pid e s1)) as [h2 s2] eqn:E2.
    assert (child_pid h1 = pid) as <- by by injection E1 as <- _.
    rewrite reap_dropped. by apply take_after_drop.
Qed.

Definition demo_child : SupervisedChild := MkChild 42 (new_slot reaper_init).

Lemma demo_child_register : register_child 42 reaper_init =
  (demo_child, MkReaper {[42 := new_slot reaper_init]} {[new_slot reaper_init := None]}).
Proof. reflexivity. Qed.

Lemma exit_delivered_once_witness :
  let s := run ([Register 43; Reap 43 (0, zero_rusage)] ++ [Reap 42 (256, zero_rusage)] ++ [Reap 7 (9, zero_rusage)])
             (snd (register_child 42 reaper_init)) in
  fst (try_take demo_child s) = Some (256, zero_rusage) /\
  fst (try_take demo_child (snd (try_take demo_child s))) = None.
Proof.
  apply (exit_delivered_once 42 (256, zero_rusage) []
           [Register 43; Reap 43 (0, zero_rusage)] [Reap 7 (9, zero_rusage)]);
    repeat constructor; discriminate.
Defined.

Lemma reap_all_drains_witness :
  holds demo_child (Some (256, zero_rusage))
    (reap_all [(7, (0, zero_rusage)); (42, (256, zero_rusage)); (0, (0, zero_rusage))]
       (snd (register_child 42 reaper_init))).
Proof.
  apply (reap_all_drains demo_child None (256, zero_rusage) [(7, (0, zero_rusage))] [] []).
  - apply (reaper_ok_step (Register 42)), reaper_ok_init.
  - exact (register_holds 42 reaper_init).
  - repeat constructor. discriminate.
  - reflexivity.
Defined.
