(* ===== verification/Supervisor.v ===== *)
(** * The process supervisor

    [src/src/sandbox/supervisor.rs]: polling the reaper for the child's exit, the
    wall-time deadline with its grace period, the classification of an exit, and the
    reader of the child's output pipes. *)

From S2P Require Import Prelude Config Os Cgroups Reaper.

(* ------------------------------------------------------------------ *)
(** ** Wait statuses, as an interface *)

(** The [libc] macros on a raw wait status. *)
Class WaitStatus := {
  WIFEXITED : Z -> bool;
  WEXITSTATUS : Z -> Z;
  WIFSIGNALED : Z -> bool;
  WTERMSIG : Z -> Z
}.

(** Their documented behaviour: an exit with code [c] is [c << 8], a death by signal
    [s] is [s] (a core dump adds 128). *)
Class WaitLaws `{WaitStatus} : Prop := {
  wait_exited c : 0 <= c < 256 ->
    WIFEXITED (c * 256) = true /\ WEXITSTATUS (c * 256) = c;
  wait_signaled s core : 0 < s < 127 ->
    let w := if core : bool then s + 128 else s in
    WIFEXITED w = false /\ WIFSIGNALED w = true /\ WTERMSIG w = s
}.

(** Linux. *)
Module Linux.
#[export] Instance linux_wait : WaitStatus := {
  WIFEXITED w := Z.land w 127 =? 0;
  WEXITSTATUS w := Z.land (Z.shiftr w 8) 255;
  WIFSIGNALED w := let t := Z.land w 127 in (0 <? t) && (t <? 127);
  WTERMSIG w := Z.land w 127
}.

#[export] Instance linux_laws : WaitLaws.
Proof.
  assert (L : forall w, Z.land w 127 = w mod 128) by (intros w; apply (Z.land_ones w 7); lia).
  assert (L' : forall w, Z.land w 255 = w mod 256) by (intros w; apply (Z.land_ones w 8); lia).
  split.
  - intros c Hc. cbn [WIFEXITED WEXITSTATUS linux_wait]. rewrite L, L', Z.shiftr_div_pow2 by lia.
    change (2 ^ 8) with 256. rewrite Z.div_mul by lia.
    split; [|by apply Z.mod_small]. apply Z.eqb_eq. div_lia.
  - intros s core Hs w. cbn [WIFEXITED WIFSIGNALED WTERMSIG linux_wait]. rewrite L.
    assert (w mod 128 = s) as -> by (subst w; destruct core; div_lia).
    split_and!; [by apply Z.eqb_neq; lia| |done]. apply andb_true_intro; lia.
Qed.
End Linux.

(* ------------------------------------------------------------------ *)
(** ** Classifying an exit *)

(** Two's complement: what 64-bit signed arithmetic leaves of [z]. *)
Definition wrap_i64 (z : Z) : Z := (z + 2 ^ 63) mod 2 ^ 64 - 2 ^ 63.

Definition cpu_time_of (ru : Rusage) : Z :=
  let user_us := wrap_i64 (wrap_i64 (ru_utime_sec ru * 1000000) + ru_utime_usec ru) in
  let sys_us := wrap_i64 (wrap_i64 (ru_stime_sec ru * 1000000) + ru_stime_usec ru) in
  as_u64 (Z.quot (wrap_i64 (user_us + sys_us)) 1000).

Definition memory_of (stats : option CgroupStats) (ru : Rusage) : Z :=
  match stats with
  | Some s => Z.max (memory_peak_bytes s / 1024) (as_u64 (ru_maxrss ru))
  | None => as_u64 (ru_maxrss ru)
  end.

Definition oom_killed (stats : option CgroupStats) : bool :=
  match stats with Some s => oom_kill_count s >? 0 | None => false end.

Section Supervisor.
Context {W : WaitStatus}.

Definition classify (config : SandboxConfig) (oom : bool) (status wall_ms cpu_ms mem_kb : Z)
  : SandboxStatus :=
  let limit_kb := memory_limit_bytes config / 1024 in
  let over := (limit_kb >? 0) && (mem_kb >? limit_kb) in
  let code := WEXITSTATUS status in
  if oom then StMemoryLimitExceeded
  else if WIFEXITED status then
    if code =? 0 then if over then StMemoryLimitExceeded else StOk
    else StRuntimeError code
  else if WIFSIGNALED status then
    let sig := WTERMSIG status in
    if sig =? SIGKILL then
      if (wall_ms >=? wall_time_limit_ms config) ||
         (cpu_ms >=? saturating_sub (time_limit_ms config) 50) then StTimeLimitExceeded
      else if over then StMemoryLimitExceeded
      else StTimeLimitExceeded
    else StSignaled sig
  else StRuntimeError (-1).

(** [build_result]; [wall_ms] is [start_time.elapsed()] at the call, [stats] what the
    cgroup reports. *)
Definition result_of (config : SandboxConfig) (stats : option CgroupStats) (wall_ms status : Z)
    (ru : Rusage) : ExecutionResult :=
  let cpu_ms := cpu_time_of ru in
  let mem_kb := memory_of stats ru in
  ExecutionResult_new (classify config (oom_killed stats) status wall_ms cpu_ms mem_kb)
    (WEXITSTATUS status)
  .> with_cpu_time cpu_ms .> with_wall_time wall_ms .> with_memory mem_kb.

(* ------------------------------------------------------------------ *)
(** ** The supervision loop *)

(** What the loop observes in its [i]-th pass: the reaper's answer and three readings
    of the clock, in nanoseconds since [start_time]: [now], the [elapsed] of the
    deadline test, and that of [build_result]. *)
Record Pass : Type := MkPass {
  poll : option ChildExit; now : Z; elapsed : Z; built : Z
}.

Context (config : SandboxConfig) (pid : Z) (cgroup : option CgroupManager).
Context (passes : nat -> Pass).

Definition millis (ns : Z) : Z := as_u64 (ns / 1000000).

Definition kill_process_tree {E : Type} : Os E unit :=
  _ ← (match cgroup with Some cg => kill_all cg | None => mret tt end);
  _ ← sys_ignore (E := E) (Kill (- pid) SIGKILL);
  sys_ignore (Kill pid SIGKILL).

Definition read_cgroup {E : Type} : Os E (option CgroupStats) :=
  match cgroup with
  | Some cg => s ← read_stats (E := E) cg; mret (Some s)
  | None => mret None
  end.

Definition build_result {E : Type} (i : nat) (e : ChildExit) : Os E ExecutionResult :=
  stats ← read_cgroup;
  mret (result_of config stats (millis (built (passes i))) (fst e) (snd e)).

(** [kill_grace.is_none() && elapsed >= deadline] *)
Definition past_deadline (i : nat) : bool :=
  millis (elapsed (passes i)) >=? wall_time_limit_ms config.

Definition grace_ns : Z := 1000000000.

(** The loop, from pass [i]; [None]: out of fuel. *)
Fixpoint supervise_loop {E : Type} (fuel i : nat) (kill_grace : option Z)
  : Os E (option ExecutionResult) :=
  match fuel with
  | O => mret None
  | S fuel' =>
      match poll (passes i) with
      | Some e =>
          _ ← (match kill_grace with None => kill_process_tree | Some _ => mret tt end);
          r ← build_result i e; mret (Some r)
      | None =>
          kill_grace ←
            (match kill_grace with
             | None => if past_deadline i
                       then _ ← kill_process_tree; mret (Some (now (passes i) + grace_ns))
                       else mret None
             | Some d => mret (Some d)
             end);
          match (kill_grace : option Z) with
          | Some d =>
              if now (passes i) >=? d
              then r ← build_result i (SIGKILL, zero_rusage); mret (Some r)
              else supervise_loop fuel' (S i) kill_grace
          | None => supervise_loop fuel' (S i) kill_grace
          end
      end
  end.

(** [cleanup_cgroup_offloaded]: the source hands the teardown to a blocking task that it
    does not await; the model runs it at the hand-over. *)
Definition cleanup_cgroup {E : Type} : Os E unit :=
  match cgroup with Some cg => drop_cgroup cg | None => mret tt end.

Definition supervise {E : Type} (fuel : nat) : Os E (option ExecutionResult) :=
  r ← supervise_loop fuel 0 None;
  _ ← cleanup_cgroup;
  mret r.
End Supervisor.

(* ------------------------------------------------------------------ *)
(** ** Reading a pipe *)

(** One return of [read(2)] with an 8192-byte buffer. *)
Inductive ReadReply : Type :=
  | Data (b : bytes)      (** [ret > 0] *)
  | Eof                   (** [ret = 0] *)
  | Interrupted           (** [EINTR] *)
  | ReadFailed.           (** any other error *)

(** [read_pipe_output]; [None]: still blocked in [read] after these replies. *)
Fixpoint read_loop (max_bytes : nat) (replies : list ReadReply) (buffer : bytes) : option bytes :=
  match replies with
  | [] => None
  | Interrupted :: replies' => read_loop max_bytes replies' buffer
  | ReadFailed :: _ | Eof :: _ => Some buffer
  | Data chunk :: replies' =>
      if (max_bytes <? length buffer + length chunk)%nat
      then Some (buffer ++ take (max_bytes - length buffer) chunk)
      else read_loop max_bytes replies' (buffer ++ chunk)
  end.

Definition read_pipe_output (max_bytes : nat) (replies : list ReadReply) : option bytes :=
  read_loop max_bytes replies [].

(* ------------------------------------------------------------------ *)
(** ** Lemmas *)

Lemma run_total {E A : Type} (m : Os E A) k h :
  total m -> prepares m -> exists t a, m k h = (h ++ t, Ok a) /\ no_exec t.
Proof.
  intros Ht Hp. destruct (Ht k h) as [a Ha], (Hp k h) as (t & Hh & Hn & _).
  exists t, a. destruct (m k h). cbn in *. by subst.
Qed.

Section Loop.
Context {W : WaitStatus} (config : SandboxConfig) (pid : Z) (cgroup : option CgroupManager).
Context (passes : nat -> Pass).

(** Which pass ends the loop, and with which exit. *)
Fixpoint plan (fuel i : nat) (kill_grace : option Z) : option (nat * ChildExit) :=
  match fuel with
  | O => None
  | S fuel' =>
      match poll (passes i) with
      | Some e => Some (i, e)
      | None =>
          let g := match kill_grace with
                   | None => if past_deadline config passes i
                             then Some (now (passes i) + grace_ns) else None
                   | Some d => Some d
                   end in
          match g with
          | Some d => if now (passes i) >=? d then Some (i, (SIGKILL, zero_rusage))
                      else plan fuel' (S i) g
          | None => plan fuel' (S i) g
          end
      end
  end.

(** The tree was killed: the process and its whole group were signalled. *)
Definition killed (h : History) : Prop :=
  issued (Kill (- pid) SIGKILL) h /\ issued (Kill pid SIGKILL) h.

Lemma killed_app h k : killed h \/ killed k -> killed (h ++ k).
Proof. unfold killed. rewrite !issued_app. tauto. Qed.

Lemma kill_tree_run {E : Type} k h :
  exists t, kill_process_tree pid cgroup (E := E) k h = (h ++ t, Ok tt) /\ killed t.
Proof.
  unfold kill_process_tree.
  assert (exists t, (match cgroup with Some cg => kill_all cg | None => mret tt end : Os E unit) k h
                    = (h ++ t, Ok tt)) as [t Ht].
  { destruct cgroup as [cg|]; [|exists []; by rewrite app_nil_r].
    destruct (run_total (kill_all cg : Os E unit) k h) as (t & [] & Ht & _);
      [apply total_kill_all|apply prepares_kill_all|by exists t]. }
  unfold mbind at 1, os_bind at 1. rewrite Ht. unfold sys_ignore, sys, mbind, os_bind. cbn.
  rewrite <- !app_assoc. eexists. split; [reflexivity|].
  apply killed_app. right. unfold killed, issued. cbn. split; [by left|by right; left].
Qed.

(** [stats] is what reading the cgroup gives, at the end of the run that adds [t]. *)
Definition last_read {E : Type} (k : Kernel) (h t : History) (stats : option CgroupStats) : Prop :=
  exists t1 t2, t = t1 ++ t2 /\ read_cgroup cgroup (E := E) k (h ++ t1) = ((h ++ t1) ++ t2, Ok stats).

Lemma last_read_app {E : Type} k h t1 t2 stats :
  last_read (E := E) k (h ++ t1) t2 stats -> last_read (E := E) k h (t1 ++ t2) stats.
Proof.
  intros (u1 & u2 & -> & Hr). exists (t1 ++ u1), u2. split; [by rewrite app_assoc|].
  rewrite (app_assoc h). exact Hr.
Qed.

Lemma build_run {E : Type} i e k h :
  exists t stats, build_result config cgroup passes i e (E := E) k h =
    (h ++ t, Ok (result_of config stats (millis (built (passes i))) (fst e) (snd e))) /\
    last_read (E := E) k h t stats.
Proof.
  assert (exists t stats, read_cgroup cgroup (E := E) k h = (h ++ t, Ok stats)) as (t & stats & Hr).
  { unfold read_cgroup. destruct cgroup as [cg|]; [|exists [], None; by rewrite app_nil_r].
    destruct (run_total (read_stats cg : Os E CgroupStats) k h) as (t & s & Ht & _);
      [apply total_read_stats|apply prepares_read_stats|].
    exists t, (Some s). unfold mbind, os_bind. by rewrite Ht. }
  exists t, stats. unfold build_result. rewrite run_bind, Hr. split; [done|].
  exists [], t. split; [done|]. by rewrite app_nil_r.
Qed.

(** A pass of the grace period: the child is given up, or the loop goes on. *)
Lemma grace_pass {E : Type} fuel i d k h :
  (exists t o, supervise_loop config pid cgroup passes fuel (S i) (Some d) (E := E) k h = (h ++ t, Ok o) /\
     match plan fuel (S i) (Some d) with
     | None => o = None
     | Some (j, e) => exists stats,
         o = Some (result_of config stats (millis (built (passes j))) (fst e) (snd e)) /\
         last_read (E := E) k h t stats /\ (Some d = None -> killed t)
     end) ->
  exists t o,
    (if now (passes i) >=? d
     then r ← build_result config cgroup passes i (SIGKILL, zero_rusage); mret (Some r)
     else supervise_loop config pid cgroup passes fuel (S i) (Some d)) k h = (h ++ t, @Ok E _ o) /\
    match (if now (passes i) >=? d then Some (i, (SIGKILL, zero_rusage)) else plan fuel (S i) (Some d)) with
    | None => o = None
    | Some (j, e) => exists stats,
        o = Some (result_of config stats (millis (built (passes j))) (fst e) (snd e)) /\
        last_read (E := E) k h t stats
    end.
Proof.
  intros (t & o & Hl & Ho). destruct (now (passes i) >=? d).
  - unfold mbind, os_bind.
    destruct (build_run (E := E) i (SIGKILL, zero_rusage) k h) as (t' & stats & -> & Hs). cbn.
    exists t'. eexists. split; [reflexivity|]. by exists stats.
  - exists t, o. split; [exact Hl|]. destruct (plan fuel (S i) (Some d)) as [[j e]|]; [|done].
    destruct Ho as (stats & ? & ? & _). eauto.
Qed.

(** The loop does what the plan says: it ends exactly when the plan does, with the
    result of the planned exit, after killing the tree. *)
Lemma loop_plan {E : Type} fuel i g k h :
  exists t o, supervise_loop config pid cgroup passes fuel i g (E := E) k h = (h ++ t, Ok o) /\
    match plan fuel i g with
    | None => o = None
    | Some (j, e) => exists stats,
        o = Some (result_of config stats (millis (built (passes j))) (fst e) (snd e)) /\
        last_read (E := E) k h t stats /\ (g = None -> killed t)
    end.
Proof.
  revert i g h. induction fuel as [|fuel IH]; intros i g h; cbn [supervise_loop plan].
  { exists [], None. by rewrite app_nil_r. }
  destruct (poll (passes i)) as [e|].
  - destruct g as [d|].
    + unfold mbind, os_bind. cbn.
      destruct (build_run (E := E) i e k h) as (t & stats & -> & Hs). cbn.
      exists t. eexists. split; [reflexivity|]. by exists stats.
    + unfold mbind, os_bind. destruct (kill_tree_run (E := E) k h) as (t1 & -> & Hk).
      destruct (build_run (E := E) i e k (h ++ t1)) as (t2 & stats & -> & Hs). cbn.
      exists (t1 ++ t2). rewrite <- app_assoc. eexists. split; [reflexivity|].
      exists stats. split_and!; [done|by apply last_read_app|]. intros _. apply killed_app. by left.
  - pose proof (fun d h1 => grace_pass (E := E) fuel i d k h1 (IH (S i) (Some d) h1)) as Hrest.
    destruct g as [d|]; cbn zeta.
    + unfold mbind at 1, os_bind at 1. cbn [mret os_ret].
      destruct (Hrest d h) as (t & o & Ht & Ho). exists t, o. split; [exact Ht|].
      destruct (now (passes i) >=? d); [|destruct (plan fuel (S i) (Some d)) as [[j e]|]; [|done]];
        destruct Ho as (stats & ? & ?); by exists stats.
    + destruct (past_deadline config passes i).
      * rewrite !run_bind. destruct (kill_tree_run (E := E) k h) as (t1 & -> & Hk).
        cbn [mret os_ret].
        destruct (Hrest (now (passes i) + grace_ns) (h ++ t1)) as (t & o & Ht & Ho).
        exists (t1 ++ t), o. rewrite (app_assoc h). split; [exact Ht|].
        assert (killed (t1 ++ t)) as Hkt by (apply killed_app; by left).
        destruct (now (passes i) >=? _); [|destruct (plan fuel (S i) _) as [[j e]|]; [|done]];
          destruct Ho as (stats & ? & ?%last_read_app); by exists stats.
      * unfold mbind at 1, os_bind at 1. cbn [mret os_ret]. apply IH.
Qed.

(** What the clock does: it advances by at least 5 ms per pass ([sleep]), a later
    reading is not smaller, and the process has been up for less than 2^64 ms. *)
Definition clock_ok (n : nat) : Prop :=
  0 <= now (passes 0) /\
  forall i, (i < n)%nat ->
    now (passes i) + 5000000 <= now (passes (S i)) /\
    now (passes i) <= elapsed (passes i) <= built (passes i) /\
    built (passes i) / 1000000 <= u64_max.

Lemma clock_advance n i j :
  clock_ok n -> (i + j <= n)%nat -> now (passes i) + 5000000 * Z.of_nat j <= now (passes (i + j)).
Proof.
  intros [_ Hc]. induction j as [|j IH]; intros Hn; [rewrite Nat.add_0_r; lia|].
  rewrite Nat.add_succ_r. destruct (Hc (i + j)%nat ltac:(lia)) as [H _]. specialize (IH ltac:(lia)). lia.
Qed.

Lemma now_nonneg n i : clock_ok n -> (i <= n)%nat -> 0 <= now (passes i).
Proof.
  intros Hc Hi. pose proof (clock_advance n 0 i Hc ltac:(lia)) as H. destruct Hc as [H0 _].
  change (0 + i)%nat with i in H. lia.
Qed.

Lemma plan_grace n d fuel i :
  clock_ok n -> (i + fuel <= n)%nat -> d <= now (passes i) + 5000000 * (Z.of_nat fuel - 1) ->
  (0 < fuel)%nat -> plan fuel i (Some d) <> None.
Proof.
  intros Hc. revert i. induction fuel as [|fuel IH]; intros i Hn Hd Hf; [lia|]. cbn [plan].
  destruct (poll (passes i)); [done|]. rewrite Z.geb_leb. destruct (Z.leb_spec d (now (passes i))); [done|].
  destruct fuel as [|fuel]; [lia|]. apply IH; [lia| |lia].
  pose proof (clock_advance n i 1 Hc ltac:(lia)) as Ha. rewrite Nat.add_1_r in Ha. lia.
Qed.

Lemma plan_ends n m fuel i :
  clock_ok n -> (i + fuel <= n)%nat -> (m + 201 <= fuel)%nat ->
  wall_time_limit_ms config * 1000000 <= now (passes i) + 5000000 * Z.of_nat m ->
  plan fuel i None <> None.
Proof.
  intros Hc. revert fuel i. induction m as [|m IH]; intros fuel i Hn Hf Hw;
    (destruct fuel as [|fuel]; [lia|]); cbn [plan]; (destruct (poll (passes i)); [done|]); cbn zeta.
  all: destruct (past_deadline config passes i) eqn:Hp.
  all: try (rewrite Z.geb_leb;
    destruct (Z.leb_spec (now (passes i) + grace_ns) (now (passes i))); [done|];
    pose proof (clock_advance n i 1 Hc ltac:(lia)) as Ha; rewrite Nat.add_1_r in Ha;
    apply (plan_grace n); [done|lia|unfold grace_ns in *; lia|lia]).
  - exfalso. unfold past_deadline, millis, as_u64 in Hp. rewrite Z.geb_leb in Hp.
    apply Z.leb_gt in Hp. destruct Hc as [H0 Hc'].
    destruct (Hc' i ltac:(lia)) as (_ & He & Hb).
    pose proof (now_nonneg n i (conj H0 Hc') ltac:(lia)) as Hnn.
    rewrite wrap64_small in Hp; [|unfold u64; div_lia].
    div_lia.
  - pose proof (clock_advance n i 1 Hc ltac:(lia)) as Ha. rewrite Nat.add_1_r in Ha.
    apply IH; [lia|lia|lia].
Qed.
End Loop.

(* ------------------------------------------------------------------ *)
(** ** Properties *)

(** The passes the loop needs: the deadline in 5 ms steps, the 1 s grace, one more. *)
Definition pass_bound (config : SandboxConfig) : nat :=
  Z.to_nat ((wall_time_limit_ms config + 4) / 5) + 201.

Section Properties.
Context {W : WaitStatus} {L : WaitLaws}.
Context (config : SandboxConfig) (pid : Z) (cgroup : option CgroupManager) (passes : nat -> Pass).

(** [stats] is what the cgroup reported, on this kernel, at the end of a run of
    [supervise] that adds [t]: after everything else but the teardown of the cgroup. *)
Definition judged_on {E : Type} (k : Kernel) (h t : History) (stats : option CgroupStats) : Prop :=
  exists t1 t2 t3, t = t1 ++ t2 ++ t3 /\
    read_cgroup cgroup (E := E) k (h ++ t1) = ((h ++ t1) ++ t2, Ok stats) /\
    cleanup_cgroup cgroup (E := E) k ((h ++ t1) ++ t2) = (((h ++ t1) ++ t2) ++ t3, Ok tt).

Lemma supervise_plan {E : Type} fuel k h :
  exists t o, supervise config pid cgroup passes fuel (E := E) k h = (h ++ t, Ok o) /\
    match plan config passes fuel 0 None with
    | None => o = None
    | Some (j, e) => exists stats,
        o = Some (result_of config stats (millis (built (passes j))) (fst e) (snd e)) /\
        judged_on (E := E) k h t stats /\ killed pid t
    end.
Proof.
  destruct (loop_plan config pid cgroup passes (E := E) fuel 0 None k h) as (t & o & Hl & Ho).
  unfold supervise. rewrite run_bind, Hl, run_bind.
  assert (exists t2, (cleanup_cgroup cgroup : Os E unit) k (h ++ t) = ((h ++ t) ++ t2, Ok tt)) as [t2 Hcl].
  { unfold cleanup_cgroup. destruct cgroup as [cg|]; [|exists []; by rewrite app_nil_r].
    destruct (run_total (drop_cgroup cg : Os E unit) k (h ++ t)) as (t2 & [] & -> & _).
    - unfold drop_cgroup. os.
    - unfold drop_cgroup. apply prepares_bind; [apply prepares_catch, prepares_cleanup|]. intros _. os.
    - by exists t2. }
  rewrite Hcl. exists (t ++ t2), o. rewrite <- app_assoc. split; [done|].
  destruct (plan config passes fuel 0 None) as [[j e]|]; [|done].
  destruct Ho as (stats & ? & (u1 & u2 & -> & Hr) & Hk). exists stats. split_and!; [done| |].
  - exists u1, u2, t2. rewrite <- app_assoc. split; [done|]. split; [exact Hr|].
    by rewrite (app_assoc h) in Hcl.
  - apply killed_app. left. by apply Hk.
Qed.

(** C13. Supervision always ends, and never leaves the child behind: with a clock
    that advances 5 ms per pass the loop returns a result within the wall limit in
    5 ms steps plus the one-second grace, whatever the reaper delivers or fails to
    deliver, and by then the process and its group have been sent [SIGKILL]. *)
Theorem supervise_ends {E : Type} k h :
  clock_ok passes (pass_bound config) -> 0 <= wall_time_limit_ms config ->
  exists t res, supervise config pid cgroup passes (pass_bound config) (E := E) k h
                = (h ++ t, Ok (Some res)) /\ killed pid t.
Proof.
  intros Hc Hw. destruct (supervise_plan (E := E) (pass_bound config) k h) as (t & o & Hs & Ho).
  assert (plan config passes (pass_bound config) 0 None <> None) as Hp.
  { apply (plan_ends config passes (pass_bound config) (Z.to_nat ((wall_time_limit_ms config + 4) / 5)));
      [done|lia|unfold pass_bound; lia|].
    destruct Hc as [H0 _]. rewrite Z2Nat.id by div_lia. div_lia. }
  destruct (plan config passes (pass_bound config) 0 None) as [[j e]|]; [|done].
  destruct Ho as (stats & -> & _ & Hk). eauto.
Qed.

(** Nothing happens before pass [i]: no exit delivered, deadline not reached. *)
Definition quiet_until (i : nat) : Prop :=
  forall j, (j < i)%nat -> poll (passes j) = None /\ past_deadline config passes j = false.

Lemma plan_quiet fuel i n :
  quiet_until i -> (n <= i)%nat -> (i < n + fuel)%nat ->
  plan config passes fuel n None = plan config passes (fuel - (i - n)) i None.
Proof.
  intros Hq. revert n. induction fuel as [|fuel IH]; intros n Hn Hf; [lia|].
  destruct (decide (n = i)) as [->|]; [by rewrite Nat.sub_diag, Nat.sub_0_r|].
  cbn [plan]. destruct (Hq n ltac:(lia)) as [-> ->]. cbn zeta.
  rewrite IH by lia. f_equal. lia.
Qed.

(** A child that ends before the deadline is judged on its own exit: the
    result is built from exactly the status and usage the reaper delivered, in the
    pass it is first seen. *)
Theorem supervise_natural_exit {E : Type} fuel i e k h :
  quiet_until i -> poll (passes i) = Some e -> (i < fuel)%nat ->
  exists t stats, supervise config pid cgroup passes fuel (E := E) k h =
    (h ++ t, Ok (Some (result_of config stats (millis (built (passes i))) (fst e) (snd e)))) /\
    judged_on (E := E) k h t stats /\ killed pid t.
Proof.
  intros Hq He Hf. destruct (supervise_plan (E := E) fuel k h) as (t & o & Hs & Ho).
  rewrite (plan_quiet fuel i 0) in Ho by (done || lia).
  destruct (fuel - (i - 0))%nat as [|f] eqn:Ef; [lia|]. cbn [plan] in Ho. rewrite He in Ho.
  destruct Ho as (stats & -> & ? & ?). exists t, stats. done.
Qed.

Lemma result_status stats wall status ru :
  Config.status (result_of config stats wall status ru) =
  classify config (oom_killed stats) status wall (cpu_time_of ru) (memory_of stats ru).
Proof. done. Qed.

Lemma classify_killed oom wall cpu mem :
  wall_time_limit_ms config <= wall ->
  classify config oom SIGKILL wall cpu mem =
    if oom then StMemoryLimitExceeded else StTimeLimitExceeded.
Proof.
  intros Hw. unfold classify. destruct oom; [done|].
  destruct (wait_signaled SIGKILL false ltac:(unfold SIGKILL; lia)) as (-> & -> & ->).
  rewrite Z.eqb_refl. rewrite Z.geb_leb. by destruct (Z.leb_spec (wall_time_limit_ms config) wall); [|lia].
Qed.

(** Whatever ends the loop comes from a delivery, or after the deadline. *)
Lemma plan_after_deadline fuel i g j e :
  plan config passes fuel i g = Some (j, e) ->
  (i <= j < i + fuel)%nat /\
  (poll (passes j) = Some e \/
   (e = (SIGKILL, zero_rusage) /\
    (g <> None \/ exists d, (i <= d <= j)%nat /\ past_deadline config passes d = true))).
Proof.
  revert i g. induction fuel as [|fuel IH]; intros i g; [done|]. cbn [plan].
  destruct (poll (passes i)) as [e'|] eqn:Hp.
  { intros [= <- <-]. split; [lia|by left]. }
  cbn zeta. destruct g as [d|].
  - destruct (now (passes i) >=? d).
    + intros [= <- <-]. split; [lia|]. right. split; [done|by left].
    + intros [H1 H2]%IH. split; [lia|]. destruct H2 as [?|[? _]]; [by left|].
      right. split; [done|by left].
  - destruct (past_deadline config passes i) eqn:Hd.
    + destruct (now (passes i) >=? _).
      * intros [= <- <-]. split; [lia|]. right. split; [done|]. right. exists i. split; [lia|done].
      * intros [H1 H2]%IH. split; [lia|]. destruct H2 as [?|[? _]]; [by left|].
        right. split; [done|]. right. exists i. split; [lia|done].
    + intros [H1 H2]%IH. split; [lia|]. destruct H2 as [?|[? [?|(d & ? & ?)]]]; [by left|done|].
      right. split; [done|]. right. exists d. split; [lia|done].
Qed.

Lemma built_after_deadline n d j :
  clock_ok passes n -> (d <= j < n)%nat -> past_deadline config passes d = true ->
  (forall a b, (a <= b < n)%nat -> elapsed (passes a) <= built (passes b)) ->
  wall_time_limit_ms config <= millis (built (passes j)).
Proof.
  intros Hc Hdj Hd Hm. unfold past_deadline in Hd. rewrite Z.geb_leb in Hd. apply Z.leb_le in Hd.
  pose proof (now_nonneg passes n d Hc ltac:(lia)) as Hnn.
  destruct Hc as [_ Hc]. destruct (Hc d ltac:(lia)) as (_ & He & Hb).
  destruct (Hc j ltac:(lia)) as (_ & _ & Hb').
  pose proof (Hm d j ltac:(lia)) as Hmono.
  unfold millis, as_u64 in *. rewrite wrap64_small in * by (unfold u64; div_lia). div_lia.
Qed.

(** A child that did not end before the wall limit. *)
Lemma deadline_status {E : Type} n fuel k h h' res :
  clock_ok passes n -> (fuel <= n)%nat ->
  (forall a b, (a <= b < n)%nat -> elapsed (passes a) <= built (passes b)) ->
  (forall i e, poll (passes i) = Some e ->
     fst e = SIGKILL /\ exists d, (d < i)%nat /\ past_deadline config passes d = true) ->
  supervise config pid cgroup passes fuel (E := E) k h = (h', Ok (Some res)) ->
  exists t stats, h' = h ++ t /\ judged_on (E := E) k h t stats /\
    Config.status res = if oom_killed stats then StMemoryLimitExceeded else StTimeLimitExceeded.
Proof.
  intros Hc Hf Hm Hd Hs. destruct (supervise_plan (E := E) fuel k h) as (t & o & Hs' & Ho).
  rewrite Hs in Hs'. destruct (plan config passes fuel 0 None) as [[j e]|] eqn:Hp;
    [|subst o; by injection Hs']. destruct Ho as (stats & -> & Hj & _). injection Hs' as -> ->.
  exists t, stats. split; [done|]. split; [done|]. rewrite result_status.
  apply plan_after_deadline in Hp as [Hjf [Hdel|[-> Hdl]]].
  - destruct (Hd j e Hdel) as (-> & d & Hdj & Hdd). apply classify_killed.
    by apply (built_after_deadline n d j); [|lia| |].
  - destruct Hdl as [?|(d & Hdj & Hdd)]; [done|]. apply classify_killed.
    by apply (built_after_deadline n d j); [|lia| |].
Qed.

(** C20. The deadline is enforced: if the child did not end before the wall limit -
    the reaper delivers nothing, or only the [SIGKILL] death that follows it - the
    verdict is decided by what the cgroup reports on this kernel at the end of the run,
    the last thing done before the teardown: a memory limit when its count of
    OOM kills is positive, a time limit when it is zero or there is no cgroup; never
    anything else. *)
Theorem supervise_deadline {E : Type} n fuel k h h' res :
  clock_ok passes n -> (fuel <= n)%nat ->
  (forall a b, (a <= b < n)%nat -> elapsed (passes a) <= built (passes b)) ->
  (forall i e, poll (passes i) = Some e ->
     fst e = SIGKILL /\ exists d, (d < i)%nat /\ past_deadline config passes d = true) ->
  supervise config pid cgroup passes fuel (E := E) k h = (h', Ok (Some res)) ->
  exists t stats, h' = h ++ t /\ judged_on (E := E) k h t stats /\
    Config.status res =
      match stats with
      | Some s => if decide (0 < oom_kill_count s) then StMemoryLimitExceeded else StTimeLimitExceeded
      | None => StTimeLimitExceeded
      end.
Proof.
  intros H1 H2 H3 H4 H5. destruct (deadline_status n fuel k h h' res H1 H2 H3 H4 H5) as (t & stats & Hh & Hj & ->).
  exists t, stats. split; [exact Hh|]. split; [exact Hj|]. destruct stats as [s|]; [|done]. cbn.
  rewrite Z.gtb_ltb. case_decide; destruct (Z.ltb_spec 0 (oom_kill_count s)); (done || lia).
Qed.

(** The tests of [classify]. *)
Lemma oom_decided stats :
  oom_killed stats = match stats with Some s => bool_decide (0 < oom_kill_count s) | None => false end.
Proof.
  destruct stats as [s|]; [|done]. cbn. rewrite Z.gtb_ltb.
  case_bool_decide; destruct (Z.ltb_spec 0 (oom_kill_count s)); (done || lia).
Qed.

Lemma over_decided limit mem : (limit >? 0) && (mem >? limit) = bool_decide (0 < limit < mem).
Proof.
  rewrite !Z.gtb_ltb. case_bool_decide; destruct (Z.ltb_spec 0 limit), (Z.ltb_spec limit mem); cbn; (done || lia).
Qed.

Lemma late_decided wall cpu (w c : Z) :
  (wall >=? w) || (cpu >=? c) = bool_decide (w <= wall \/ c <= cpu).
Proof.
  rewrite !Z.geb_leb. case_bool_decide; destruct (Z.leb_spec w wall), (Z.leb_spec c cpu); cbn; (done || lia).
Qed.

(** How a process can end, and the raw wait status of each end. *)
Inductive Ending : Type := Exited (code : Z) | Killed (sig : Z) (core : bool).

Definition raw_status (e : Ending) : Z :=
  match e with Exited c => c * 256 | Killed s core => if core : bool then s + 128 else s end.

Definition possible (e : Ending) : Prop :=
  match e with Exited c => 0 <= c < 256 | Killed s _ => 0 < s < 127 end.

(** C40. The classification of an exit, for every way a process can end - any exit code,
    any signal, with or without a core dump.  An OOM kill counted by the cgroup wins.
    Otherwise: code 0 is [Ok], or a memory limit when the memory is above the limit; any
    other code is a runtime error with that code; a signal other than [SIGKILL] is that
    signal; and a death by [SIGKILL] is a memory limit exactly when the memory is above
    the limit while neither the wall limit nor the CPU limit less 50 ms was reached, and
    a time limit in every other case. *)
Theorem result_of_exit stats wall ru e :
  possible e ->
  let mem := memory_of stats ru in
  let oom := match stats with Some s => bool_decide (0 < oom_kill_count s) | None => false end in
  let over := bool_decide (0 < memory_limit_bytes config / 1024 < mem) in
  let late := bool_decide (wall_time_limit_ms config <= wall \/
                           saturating_sub (time_limit_ms config) 50 <= cpu_time_of ru) in
  let res := result_of config stats wall (raw_status e) ru in
  Config.status res =
    (if oom then StMemoryLimitExceeded else
     match e with
     | Exited 0 => if over then StMemoryLimitExceeded else StOk
     | Exited c => StRuntimeError c
     | Killed s _ =>
         if decide (s <> SIGKILL) then StSignaled s
         else if over && negb late then StMemoryLimitExceeded else StTimeLimitExceeded
     end) /\
  match e with Exited c => exit_code res = c | Killed _ _ => True end.
Proof.
  intros He. cbv zeta. rewrite result_status, oom_decided. unfold classify. rewrite over_decided.
  destruct e as [code|s core]; cbn [raw_status possible] in *.
  - destruct (wait_exited code He) as [E1 E2].
    assert (exit_code (result_of config stats wall (code * 256) ru) = code) as Hx by exact E2.
    rewrite E1, E2. split; [|exact Hx]. case_match; [done|]. by destruct code.
  - split; [|done]. destruct (wait_signaled s core He) as (-> & -> & ->). case_match; [done|].
    destruct (Z.eqb_spec s SIGKILL) as [->|Hs]; [|by rewrite decide_True].
    rewrite decide_False by tauto. rewrite late_decided. by do 2 case_bool_decide.
Qed.
End Properties.

(** The bytes of a sequence of reads. *)
Fixpoint data_of (replies : list ReadReply) : bytes :=
  match replies with
  | [] => []
  | Data b :: rs => b ++ data_of rs
  | _ :: rs => data_of rs
  end.

Definition no_end (r : ReadReply) : Prop := match r with Data _ | Interrupted => True | _ => False end.

Lemma read_loop_spec max rs rest buf :
  Forall no_end rs -> (length buf <= max)%nat ->
  read_loop max (rs ++ Eof :: rest) buf = Some (take max (buf ++ data_of rs)).
Proof.
  intros Hrs. revert buf. induction Hrs as [|r rs Hr _ IH]; intros buf Hb;
    cbn [app read_loop data_of].
  { by rewrite app_nil_r, take_ge. }
  destruct r as [b| | |]; try done; [|by apply IH].
  destruct (Nat.ltb_spec max (length buf + length b)).
  - rewrite (take_app buf), (take_ge buf) by lia.
    by rewrite (take_app_le b (data_of rs) (max - length buf)) by lia.
  - rewrite IH by (rewrite length_app; lia). by rewrite <- app_assoc.
Qed.

Lemma read_loop_length max rs buf out :
  (length buf <= max)%nat -> read_loop max rs buf = Some out -> (length out <= max)%nat.
Proof.
  revert buf. induction rs as [|r rs IH]; intros buf Hb; cbn [read_loop]; [done|].
  destruct r as [b| | |]; [|by intros [= <-]|by apply IH|by intros [= <-]].
  destruct (Nat.ltb_spec max (length buf + length b)).
  - intros [= <-]. rewrite length_app, length_take. lia.
  - apply IH. rewrite length_app. lia.
Qed.

(** The captured output is what the child wrote, however the kernel delivers
    it: for every way of cutting the stream into reads, with any number of
    interruptions in between, the reader returns the bytes up to the end of file,
    cut at the output limit - and never more than the limit, even on a read error. *)
Theorem read_pipe_output_spec max rs rest :
  (Forall no_end rs ->
   read_pipe_output max (rs ++ Eof :: rest) = Some (take max (data_of rs))) /\
  (forall out, read_pipe_output max rs = Some out -> (length out <= max)%nat).
Proof.
  split; [intros H; apply (read_loop_spec max rs rest []); [done|cbn; lia]|].
  intros out. apply read_loop_length. cbn. lia.
Qed.

(* ------------------------------------------------------------------ *)
(** ** Witnesses: a 100 ms wall limit *)

Import Linux.

Definition demo_limits : SandboxConfig :=
  with_wall_time_limit 100 (SandboxConfig.run "/sandbox/binary" "/tmp/x" 50 (256 * MiB) 2).

(** Nothing is ever delivered. *)
Definition silent (i : nat) : Pass :=
  let ns := Z.of_nat i * 5000000 in MkPass None ns ns ns.

(** The child exits with code 3 in the third pass. *)
Definition exits (i : nat) : Pass :=
  let ns := Z.of_nat i * 5000000 in
  MkPass (if (i =? 2)%nat then Some (3 * 256, zero_rusage) else None) ns ns ns.

Definition no_kernel : Kernel := fun _ _ => MkReply 0 "".

Lemma silent_clock n : (n <= 1000)%nat -> clock_ok silent n.
Proof. intros Hn. split; [done|]. intros i Hi. cbn. unfold u64_max. split_and!; try lia. div_lia. Qed.

Lemma supervise_ends_witness :
  exists t res, supervise (E := string) demo_limits 42 None silent (pass_bound demo_limits) no_kernel []
                = ([] ++ t, Ok (Some res)) /\ killed 42 t.
Proof.
  assert (pass_bound demo_limits = 221%nat) as E by reflexivity.
  apply supervise_ends; [rewrite E; apply silent_clock; lia|cbn; lia].
Defined.

Lemma supervise_natural_exit_witness :
  exists t stats, supervise (E := string) demo_limits 42 None exits 5 no_kernel [] =
    ([] ++ t, Ok (Some (result_of demo_limits stats 10 (3 * 256) zero_rusage))) /\
    judged_on (E := string) None no_kernel [] t stats /\ killed 42 t.
Proof.
  apply (supervise_natural_exit demo_limits 42 None exits 5 2 (3 * 256, zero_rusage));
    [|reflexivity|lia].
  intros [|[|j]] Hj; [by vm_compute|by vm_compute|lia].
Defined.

Lemma silent_run :
  snd (supervise (E := string) demo_limits 42 None silent 300 no_kernel []) =
  Ok (Some (result_of demo_limits None 1100 SIGKILL zero_rusage)).
Proof. vm_compute. reflexivity. Qed.

Lemma supervise_deadline_witness :
  exists t stats, judged_on (E := string) None no_kernel [] t stats /\
    Config.status (result_of demo_limits None 1100 SIGKILL zero_rusage) =
      match stats with
      | Some s => if decide (0 < oom_kill_count s) then StMemoryLimitExceeded else StTimeLimitExceeded
      | None => StTimeLimitExceeded
      end.
Proof.
  destruct (supervise_deadline (E := string) demo_limits 42 None silent 300 300 no_kernel []
           (fst (supervise (E := string) demo_limits 42 None silent 300 no_kernel []))
           (result_of demo_limits None 1100 SIGKILL zero_rusage)) as (t & stats & _ & Hj & Hs).
  - apply silent_clock. lia.
  - lia.
  - intros a b Hab. cbn. lia.
  - intros i e He. discriminate He.
  - rewrite <- silent_run. apply surjective_pairing.
  - exists t, stats. split; [exact Hj|exact Hs].
Defined.

(** A [SIGKILL] after 10 ms with little memory: nobody else would have sent it. *)
Lemma result_of_exit_witness :
  Config.status (result_of demo_limits None 10 9 zero_rusage) = StTimeLimitExceeded.
Proof.
  refine (proj1 (result_of_exit demo_limits None 10 zero_rusage (Killed 9 false) _)). cbn. lia.
Defined.
