(* ===== verification/SandboxExec.v ===== *)
(** * Running one configuration

    [src/src/sandbox/mod.rs], [Sandbox::execute] after admission (the permit is the
    subject of [Admission]): pipes, cgroup, fork, attachment, supervision, and the
    collection of the output.  The child's side of the fork is [Child]. *)

From S2P Require Import Prelude Config Admission Os Cgroups Reaper Child Supervisor.

Inductive SandboxError : Type :=
  | ForkError (m : string)
  | SandboxChildError (e : ChildError)
  | SandboxCgroupError (e : CgroupError)
  | OutOfFuel.

(** [nix::errno::Errno::EAGAIN]; a failing [fork] replies with minus its [errno]. *)
Definition EAGAIN : Z := 11.

(** The retry loop around [fork]: [n] retries are left. *)
Fixpoint fork_retry {E : Type} (n : nat) : Os E Reply :=
  r ← sys Fork;
  if decide (ret r = - EAGAIN) then
    match n with
    | O => mret r
    | S n' => fork_retry n'
    end
  else mret r.

Definition max_fork_retries : nat := 10.

(** [write_all_to_fd]: [rets] are the returns of successive [write]s; the number of
    bytes written when the loop ends, [None] while a [write] is still blocked. *)
Fixpoint write_all_to_fd (len total_written : Z) (rets : list Z) : option Z :=
  if total_written <? len then
    match rets with
    | [] => None
    | r :: rets' => if r <=? 0 then Some total_written
                    else write_all_to_fd len (total_written + r) rets'
    end
  else Some total_written.

Definition drain_timeout_ms (env : Env) : Z := env_u64 env "JUDGE_DRAIN_TIMEOUT_MS" 5000.

(** How draining one output pipe goes: what the reads return, and whether the drain
    timeout - [drain_timeout_ms] - fires first. *)
Record Drain : Type := MkDrain { replies : list ReadReply; timed_out : bool }.

(** [timeout(.., read_pipe_output(..)).await.ok().and_then(..).unwrap_or_default()] *)
Definition drained (max_bytes : Z) (d : Drain) : bytes :=
  if timed_out d then []
  else match read_pipe_output (Z.to_nat max_bytes) (replies d) with Some b => b | None => [] end.

(** The end of [execute]: the output, and the verdict it can override. *)
Definition finish (config : SandboxConfig) (out err : bytes) (res : ExecutionResult) : ExecutionResult :=
  let res := with_stderr err (with_stdout out res) in
  if Z.of_nat (length (stdout res)) >=? max_output_bytes config
  then MkExec StOutputLimitExceeded (exit_code res) (cpu_time_ms res) (wall_time_ms res)
         (memory_kb res) (stdout res) (stderr res)
  else res.

Section Execute.
Context {W : WaitStatus}.
(** Fresh identifiers for the jail and the cgroup, what supervision observes, and
    how the output pipes drain once supervision is over. *)
Context (jail_uuid cgroup_uuid : string) (passes : nat -> Pass) (out_drain err_drain : Drain).

(** Per-execution jail id, assigned in the parent. *)
Definition with_jail (config : SandboxConfig) : SandboxConfig :=
  if enable_fs_isolation config && is_empty (jail_id config)
  then with_jail_id jail_uuid config else config.

(** Attach the child, or kill it and give up. *)
Definition attach_or_kill (cg : CgroupManager) (pid : Z) : Os SandboxError unit :=
  attached ← catch (attach_proc cg pid);
  match attached with
  | Ok _ => mret tt
  | Err e => _ ← sys_ignore (Kill pid SIGKILL); stop (SandboxCgroupError e)
  end.

Definition remove_jail_dir {E : Type} (config : SandboxConfig) : Os E unit :=
  if enable_fs_isolation config && negb (is_empty (jail_id config))
  then sys_ignore (RemoveDir ("/tmp/judge_root_" +:+ jail_id config))
  else mret tt.

(** From [fork] to the attached child. *)
Definition spawn (pipes : ChildProcessPipes) (cg : CgroupManager) : Os SandboxError Z :=
  r ← fork_retry max_fork_retries;
  if ret r <? 0 then stop (ForkError (text r))
  else
    _ ← close_parent_ends pipes;
    _ ← attach_or_kill cg (ret r);
    mret (ret r).

(** Up to the hand-over of the cgroup to the supervisor; until then an error return
    drops the cgroup. *)
Definition launch (pipes : ChildProcessPipes) (cg : CgroupManager) : Os SandboxError Z :=
  guarded (spawn pipes cg) (drop_cgroup cg).

(** The writer and reader tasks own their ends of the pipes and close them. *)
Definition close_task_ends {E : Type} (pipes : ChildProcessPipes) : Os E unit :=
  for_each [stdin_write pipes; stdout_read pipes; stderr_read pipes]
    (fun fd => sys_ignore (CloseFd fd)).

Definition execute (fuel : nat) (config0 : SandboxConfig) : Os SandboxError ExecutionResult :=
  let config := with_jail config0 in
  pipes ← lift_os SandboxChildError ChildProcessPipes_new;
  cg ← lift_os SandboxCgroupError (CgroupManager_new cgroup_uuid config);
  pid ← launch pipes cg;
  res ← supervise config pid (Some cg) passes fuel;
  _ ← remove_jail_dir config;
  _ ← close_task_ends pipes;
  match (res : option ExecutionResult) with
  | None => stop OutOfFuel
  | Some r => mret (finish config (drained (max_output_bytes config) out_drain)
                      (drained (max_output_bytes config) err_drain) r)
  end.

(* ------------------------------------------------------------------ *)
(** ** Lemmas *)

Lemma prepares_fork {E : Type} n : prepares (fork_retry n : Os E Reply).
Proof.
  induction n as [|n IH]; cbn [fork_retry]; (apply prepares_bind; [by apply prepares_sys|intros r]);
    case_decide; (apply prepares_ret || exact IH).
Qed.

(** A successful fork is in the history. *)
Lemma fork_did {E : Type} n :
  ensures (fork_retry n : Os E Reply) (fun r t => 0 <= ret r -> (Fork, r) ∈ t).
Proof.
  induction n as [|n IH]; cbn [fork_retry];
    (eapply ensures_bind; [apply (ensures_sys Fork (fun r t => t = [(Fork, r)])); done|intros r]);
    (case_decide as Hr; [|apply ensures_ret; intros t1 -> _; by left]).
  - apply ensures_ret. intros t1 -> _. by left.
  - eapply ensures_conseq; [exact IH|]. cbn. intros r' t2 H2 t1 _ Hp.
    apply elem_of_app. right. by apply H2.
Qed.

Lemma attach_spec cg pid k h :
  exists t, fst (attach_or_kill cg pid k h) = h ++ t /\ no_exec t /\
    match snd (attach_or_kill cg pid k h) with
    | Ok _ => did (WriteAll (path_join (cgroup_path cg) "cgroup.procs") (show_Z pid)) t
    | Err (SandboxCgroupError _) => issued (Kill pid SIGKILL) t
    | Err _ => False
    end.
Proof.
  unfold attach_or_kill. rewrite run_bind. unfold catch.
  destruct (performs_write (E := CgroupError) id (path_join (cgroup_path cg) "cgroup.procs")
              (show_Z pid) k h) as (t & Ht & Hn & Hw).
  unfold attach_proc. destruct (write_cgroup_file _ _ _ k h) as [h1 [[]|e]]; cbn in Ht, Hw; subst h1.
  - exists t. cbn. split_and!; [done|done|]. apply singleton_sublist_l, (Hw tt eq_refl).
  - rewrite run_bind. cbn. exists (t ++ [(Kill pid SIGKILL, k (h ++ t) (Kill pid SIGKILL))]).
    rewrite ?app_assoc. split_and!; [done|apply Forall_app; split; [done|by constructor]|].
    apply issued_app. right. by left.
Qed.

Lemma attach_ensures cg pid :
  ensures (attach_or_kill cg pid)
    (fun _ t => did (WriteAll (path_join (cgroup_path cg) "cgroup.procs") (show_Z pid)) t).
Proof.
  intros k h. destruct (attach_spec cg pid k h) as (t & Ht & Hn & Hr).
  exists t. split_and!; [done|done|]. intros a Ha. by rewrite Ha in Hr.
Qed.

Lemma prepares_pipes : prepares ChildProcessPipes_new.
Proof.
  assert (prepares new_pipe) by (unfold new_pipe, fcntl_set_cloexec; os).
  unfold ChildProcessPipes_new. do 3 (apply prepares_bind; [done|intros ?]). os.
Qed.

(** A child that was attached: its pid came from a successful fork, and it was put
    into the cgroup. *)
Definition attached (path : string) (pid : Z) (t : History) : Prop :=
  0 <= pid /\ (exists r, (Fork, r) ∈ t /\ ret r = pid) /\
  did (WriteAll (path_join path "cgroup.procs") (show_Z pid)) t.

Lemma launch_attached pipes cg :
  ensures (launch pipes cg) (fun pid t => attached (cgroup_path cg) pid t).
Proof.
  unfold launch. apply ensures_guarded; [|apply prepares_drop_cgroup]. unfold spawn.
  eapply ensures_bind; [apply fork_did|]. intros r.
  destruct (Z.ltb_spec (ret r) 0) as [|Hr]; [apply ensures_stop|].
  eapply ensures_bind; [apply (prepares_close (E := SandboxError))|]. intros ?.
  eapply ensures_bind; [apply attach_ensures|]. intros ?. apply ensures_ret.
  intros t3 H3 t2 _ t1 H1. rewrite app_nil_r. split_and!; [done| |].
  - exists r. split; [|done]. apply elem_of_app. left. by apply H1.
  - rewrite !did_app. auto.
Qed.

Lemma prepares_kill_tree {E : Type} pid cg : prepares (kill_process_tree pid cg : Os E unit).
Proof.
  unfold kill_process_tree. destruct cg; [|os].
  apply prepares_bind; [apply prepares_kill_all|]. intros _. os.
Qed.

Lemma performs_cgroup config :
  ensures (lift_os SandboxCgroupError (CgroupManager_new cgroup_uuid config))
    (fun cg t => cgroup_path cg = path_join CGROUP_ROOT cgroup_uuid /\
       mandatory (path_join CGROUP_ROOT cgroup_uuid) config `sublist_of` ok_calls t).
Proof.
  apply performs_lift. intros k h. destruct (performs_new cgroup_uuid config k h) as (t & Ht & Hn & Hm).
  destruct (new_path cgroup_uuid config k h) as (_ & _ & _ & Hp).
  exists t. split_and!; [done|done|]. intros a Ha. split; [by apply (Hp a)|by apply (Hm a)].
Qed.

(** The execution up to the hand-over to the supervisor. *)
Definition prepared_launch (config : SandboxConfig) : Os SandboxError (ChildProcessPipes * CgroupManager * Z) :=
  pipes ← lift_os SandboxChildError ChildProcessPipes_new;
  cg ← lift_os SandboxCgroupError (CgroupManager_new cgroup_uuid config);
  pid ← launch pipes cg;
  mret (pipes, cg, pid).

Definition after_launch (fuel : nat) (config : SandboxConfig)
    (x : ChildProcessPipes * CgroupManager * Z) : Os SandboxError ExecutionResult :=
  let '(pipes, cg, pid) := x in
  res ← supervise config pid (Some cg) passes fuel;
  _ ← remove_jail_dir config;
  _ ← close_task_ends pipes;
  match (res : option ExecutionResult) with
  | None => stop OutOfFuel
  | Some r => mret (finish config (drained (max_output_bytes config) out_drain)
                      (drained (max_output_bytes config) err_drain) r)
  end.

Lemma execute_split fuel config k h :
  execute fuel config k h = (prepared_launch (with_jail config) ≫= after_launch fuel (with_jail config)) k h.
Proof.
  unfold execute, prepared_launch. rewrite !run_bind.
  destruct (lift_os SandboxChildError ChildProcessPipes_new k h) as [h1 [pipes|e]]; [|done].
  rewrite !run_bind.
  destruct (lift_os SandboxCgroupError _ k h1) as [h2 [cg|e]]; [|done].
  rewrite !run_bind. by destruct (launch pipes cg k h2) as [h3 [pid|e]].
Qed.

Lemma prepared_launch_spec config :
  ensures (prepared_launch config) (fun x t =>
    attached (path_join CGROUP_ROOT cgroup_uuid) (snd x) t /\
    mandatory (path_join CGROUP_ROOT cgroup_uuid) config ++
      [WriteAll (path_join (path_join CGROUP_ROOT cgroup_uuid) "cgroup.procs") (show_Z (snd x))]
      `sublist_of` ok_calls t).
Proof.
  unfold prepared_launch.
  eapply ensures_bind; [apply performs_lift, prepares_pipes|]. intros pipes.
  eapply ensures_bind; [apply performs_cgroup|]. intros cg.
  eapply ensures_bind; [apply launch_attached|]. intros pid. apply ensures_ret. cbn [snd].
  intros t3 (Hp & (r & Hr & Hrp) & Hd) t2 (Hcg & Hm) t1 _. rewrite Hcg in Hd. rewrite app_nil_r.
  split.
  - split_and!; [done| |rewrite !did_app; auto].
    exists r. split; [|done]. rewrite !elem_of_app. auto.
  - rewrite ok_calls_app. apply sublist_inserts_l. rewrite ok_calls_app.
    apply sublist_app; [done|]. by apply singleton_sublist_l.
Qed.

Lemma finish_status config out err r :
  Z.of_nat (length out) < max_output_bytes config -> Config.status (finish config out err r) = Config.status r.
Proof.
  intros H. unfold finish. destruct r as [s c t w m o e]. cbn -[Z.geb]. rewrite Z.geb_leb.
  by destruct (Z.leb_spec (max_output_bytes config) (Z.of_nat (length out))); [lia|].
Qed.

Lemma read_loop_data max rs buf out :
  read_loop max rs buf = Some out -> (length out <= length buf + length (data_of rs))%nat.
Proof.
  revert buf. induction rs as [|r rs IH]; intros buf; cbn [read_loop data_of]; [done|].
  destruct r as [b| | |]; [|intros [= <-]; lia|apply IH|intros [= <-]; lia].
  rewrite length_app. destruct (max <? _)%nat.
  - intros [= <-]. rewrite length_app, length_take. lia.
  - intros H%IH. rewrite length_app in H. lia.
Qed.

Lemma drained_data max d : (length (drained max d) <= length (data_of (replies d)))%nat.
Proof.
  unfold drained. destruct (timed_out d); [cbn; lia|]. unfold read_pipe_output.
  destruct (read_loop _ _ _) as [b|] eqn:E; [|cbn; lia]. apply read_loop_data in E. cbn in E. lia.
Qed.

Lemma drained_length max d : 0 <= max -> Z.of_nat (length (drained max d)) <= max.
Proof.
  intros Hm. unfold drained. destruct (timed_out d); [cbn; lia|]. unfold read_pipe_output.
  destruct (read_loop _ _ _) as [b|] eqn:E; [|cbn; lia]. apply read_loop_length in E; [lia|cbn; lia].
Qed.

(** What a completed execution consists of. *)
Lemma completed_execution fuel config k h h' res :
  execute fuel config k h = (h', Ok res) ->
  exists t1 t2 cg pid r h2, h' = h ++ t1 ++ t2 /\
    attached (path_join CGROUP_ROOT cgroup_uuid) pid t1 /\
    mandatory (path_join CGROUP_ROOT cgroup_uuid) (with_jail config) ++
      [WriteAll (path_join (path_join CGROUP_ROOT cgroup_uuid) "cgroup.procs") (show_Z pid)]
      `sublist_of` ok_calls t1 /\ killed pid t2 /\
    supervise (with_jail config) pid (Some cg) passes fuel (E := SandboxError) k (h ++ t1) =
      (h2, Ok (Some r)) /\
    res = finish (with_jail config) (drained (max_output_bytes (with_jail config)) out_drain)
            (drained (max_output_bytes (with_jail config)) err_drain) r.
Proof.
  rewrite execute_split, run_bind. intros E.
  destruct (prepared_launch_spec (with_jail config) k h) as (t1 & Ht1 & _ & Hs).
  destruct (prepared_launch (with_jail config) k h) as [h1 [[[pipes cg] pid]|e]]; [|done].
  cbn in Ht1. subst h1. destruct (Hs _ eq_refl) as [Ha Hm]. cbn [snd] in Ha, Hm.
  unfold after_launch in E. rewrite run_bind in E.
  destruct (supervise_plan (with_jail config) pid (Some cg) passes (E := SandboxError) fuel k (h ++ t1))
    as (t2 & o & Hsup & Hplan).
  rewrite Hsup in E.
  assert (exists t3 : History, (_ ← remove_jail_dir (with_jail config); _ ← close_task_ends pipes;
      match o with
      | None => stop OutOfFuel
      | Some r => mret (finish (with_jail config) (drained (max_output_bytes (with_jail config)) out_drain)
                          (drained (max_output_bytes (with_jail config)) err_drain) r)
      end) k ((h ++ t1) ++ t2) = (((h ++ t1) ++ t2) ++ t3,
      match o with
      | None => Err OutOfFuel
      | Some r => Ok (finish (with_jail config) (drained (max_output_bytes (with_jail config)) out_drain)
                          (drained (max_output_bytes (with_jail config)) err_drain) r)
      end)) as [t3 E3].
  { destruct (run_total (_ ← remove_jail_dir (with_jail config); close_task_ends pipes : Os SandboxError unit)
                k ((h ++ t1) ++ t2)) as (t3 & [] & Hr & _).
    - unfold remove_jail_dir, close_task_ends. os.
    - unfold remove_jail_dir, close_task_ends. os.
    - exists t3. rewrite run_bind. unfold mbind, os_bind in Hr.
      destruct (remove_jail_dir _ k _) as [h4 [[]|e]]; [|done].
      rewrite run_bind, Hr. by destruct o. }
  rewrite E3 in E. destruct o as [r|]; [|done]. injection E as <- <-.
  destruct (plan (with_jail config) passes fuel 0 None) as [[j e]|]; [|done].
  destruct Hplan as (stats & _ & _ & Hk).
  exists t1, (t2 ++ t3), cg, pid, r, ((h ++ t1) ++ t2).
  split_and!; [by rewrite <- !app_assoc|done|done|apply killed_app; by left|done|done].
Qed.

Lemma finish_bounds config out err r :
  let res := finish config out err r in
  stdout res = out /\ stderr res = err /\
  (max_output_bytes config <= Z.of_nat (length out) -> Config.status res = StOutputLimitExceeded).
Proof.
  unfold finish. destruct r as [s c t w m o e]. cbn -[Z.geb]. rewrite Z.geb_leb.
  destruct (Z.leb_spec (max_output_bytes config) (Z.of_nat (length out))) as [H|H]; cbn;
    (split; [done|split; [done|intros ?]]); [done|lia].
Qed.

Lemma with_jail_cases config :
  with_jail config = config \/ with_jail config = with_jail_id jail_uuid config.
Proof. unfold with_jail. destruct (enable_fs_isolation config && _); auto. Qed.

Lemma with_jail_output config : max_output_bytes (with_jail config) = max_output_bytes config.
Proof. destruct (with_jail_cases config) as [-> | ->]; [done|by destruct config]. Qed.

Lemma with_jail_mandatory path config : mandatory path (with_jail config) = mandatory path config.
Proof. destruct (with_jail_cases config) as [-> | ->]; [done|by destruct config]. Qed.

(** C15. A completed execution ran under its limits: the mandatory limits were
    written into the execution's cgroup before the child, whose pid came from a
    successful [fork], was put into it; the process and its group were signalled with
    [SIGKILL] after that; the captured outputs are within the output limit, and a
    stdout that reaches it gives [OutputLimitExceeded]. *)
Theorem execute_confined fuel config k h h' res :
  0 <= max_output_bytes config ->
  execute fuel config k h = (h', Ok res) ->
  (exists t1 t2 pid, h' = h ++ t1 ++ t2 /\
     attached (path_join CGROUP_ROOT cgroup_uuid) pid t1 /\
     mandatory (path_join CGROUP_ROOT cgroup_uuid) config ++
       [WriteAll (path_join (path_join CGROUP_ROOT cgroup_uuid) "cgroup.procs") (show_Z pid)]
       `sublist_of` ok_calls t1 /\
     killed pid t2) /\
  Z.of_nat (length (stdout res)) <= max_output_bytes config /\
  Z.of_nat (length (stderr res)) <= max_output_bytes config /\
  (Z.of_nat (length (stdout res)) = max_output_bytes config ->
   Config.status res = StOutputLimitExceeded).
Proof.
  intros Hm E. destruct (completed_execution _ _ _ _ _ _ E) as (t1 & t2 & cg & pid & r & h2 & Hh & Ha & Hs & Hk & _ & ->).
  destruct (finish_bounds (with_jail config) (drained (max_output_bytes (with_jail config)) out_drain)
              (drained (max_output_bytes (with_jail config)) err_drain) r) as (-> & -> & Hst).
  rewrite with_jail_output in *. split; [|split_and!].
  - exists t1, t2, pid. split_and!; [done|done| |done]. by rewrite <- with_jail_mandatory.
  - by apply drained_length.
  - by apply drained_length.
  - intros Hl. apply Hst. lia.
Qed.

(** What [launch] leaves behind when it does not return a pid. *)
Definition launch_failure (t : History) (e : SandboxError) : Prop :=
  match e with
  | ForkError m => exists r, (Fork, r) ∈ t /\ ret r < 0 /\ m = text r
  | SandboxCgroupError _ =>
      exists r, (Fork, r) ∈ t /\ 0 <= ret r /\ issued (Kill (ret r) SIGKILL) t
  | _ => False
  end.

Lemma launch_failure_app t1 t2 e : launch_failure t1 e -> launch_failure (t1 ++ t2) e.
Proof.
  destruct e; cbn; try done; intros (r & Hr & Hs & Hx); exists r; rewrite elem_of_app.
  - auto.
  - rewrite issued_app. auto.
Qed.

Lemma fork_last {E : Type} n k h :
  exists t r, (fork_retry n : Os E Reply) k h = (h ++ t, Ok r) /\ (Fork, r) ∈ t.
Proof.
  revert h. induction n as [|n IH]; intros h; cbn [fork_retry]; rewrite run_bind; cbn [sys].
  all: set (r := k h Fork); case_decide; cbn [mret os_ret].
  - exists [(Fork, r)], r. split; [done|by left].
  - exists [(Fork, r)], r. split; [done|by left].
  - destruct (IH (h ++ [(Fork, r)])) as (t & r' & -> & Hin). exists ([(Fork, r)] ++ t), r'.
    rewrite app_assoc. split; [done|]. by right.
  - exists [(Fork, r)], r. split; [done|by left].
Qed.

Lemma spawn_spec pipes cg k h :
  exists t, fst (spawn pipes cg k h) = h ++ t /\
  match snd (spawn pipes cg k h) with
  | Ok pid => attached (cgroup_path cg) pid t
  | Err e => launch_failure t e
  end.
Proof.
  unfold spawn.
  rewrite run_bind. destruct (fork_last (E := SandboxError) max_fork_retries k h) as (t1 & r & -> & Hin).
  destruct (Z.ltb_spec (ret r) 0) as [Hr|Hr].
  { exists t1. split; [done|]. cbn. by exists r. }
  rewrite run_bind.
  assert (total (close_parent_ends pipes : Os SandboxError unit)) as Ht by (unfold close_parent_ends; os).
  destruct (run_total _ k (h ++ t1) Ht (prepares_close _)) as (t2 & u & -> & _).
  rewrite run_bind. destruct (attach_spec cg (ret r) k ((h ++ t1) ++ t2)) as (t3 & Hh & _ & Hx).
  destruct (attach_or_kill cg (ret r) k ((h ++ t1) ++ t2)) as [h3 [[]|e]]; cbn in Hh, Hx |- *; subst h3;
    exists (t1 ++ t2 ++ t3); rewrite <- !app_assoc; (split; [done|]).
  - split_and!; [done| |rewrite !did_app; auto]. exists r. rewrite elem_of_app. auto.
  - destruct e as [m|c|c|]; try done. exists r. rewrite elem_of_app, !issued_app. auto.
Qed.

(** No child is left unattached: when the launch succeeds, the pid it returns
    came from a successful [fork] and is in the job's cgroup; when it fails, either the
    last [fork] failed and its error is reported, or the child that could not be put
    into the cgroup was sent [SIGKILL].  The [fork] is tried at most eleven times. *)
Theorem launch_spec pipes cg k h :
  exists t, fst (launch pipes cg k h) = h ++ t /\
  match snd (launch pipes cg k h) with
  | Ok pid => attached (cgroup_path cg) pid t
  | Err e => launch_failure t e
  end.
Proof.
  destruct (spawn_spec pipes cg k h) as (t & Hh & Hx). unfold launch, guarded.
  destruct (spawn pipes cg k h) as [h1 [pid|e]]; cbn in Hh, Hx |- *; subst h1; [by exists t|].
  destruct (prepares_drop_cgroup (E := SandboxError) cg k (h ++ t)) as (t2 & -> & _ & _).
  exists (t ++ t2). rewrite <- app_assoc. split; [done|by apply launch_failure_app].
Qed.

(** The status of an execution whose output is below the limit is the supervisor's. *)
Lemma execute_status fuel config k h h' res :
  Z.of_nat (length (data_of (replies out_drain))) < max_output_bytes config ->
  execute fuel config k h = (h', Ok res) ->
  exists k2 h1 h2 pid cg r, Config.status res = Config.status r /\
    supervise (with_jail config) pid (Some cg) passes fuel (E := SandboxError) k2 h1 = (h2, Ok (Some r)).
Proof.
  intros Hl E. destruct (completed_execution _ _ _ _ _ _ E) as (t1 & t2 & cg & pid & r & h2 & _ & _ & _ & _ & Hs & ->).
  exists k, (h ++ t1), h2, pid, cg, r. split; [|done]. apply finish_status.
  pose proof (drained_data (max_output_bytes (with_jail config)) out_drain).
  rewrite with_jail_output in *. lia.
Qed.

(** The output pipes are only read once supervision is over, so a child that
    writes more than a pipe holds ([capacity], 65536 bytes on Linux) blocks until the
    wall limit: whatever it is still writing, the verdict of such an execution is a
    time limit (or a memory limit after an OOM kill), never [OutputLimitExceeded],
    for every output limit above the capacity - all of those the code configures. *)
Theorem large_output_times_out {L : WaitLaws} n fuel capacity config k h h' res :
  Z.of_nat (length (data_of (replies out_drain))) <= capacity ->
  capacity < max_output_bytes config ->
  clock_ok passes n -> (fuel <= n)%nat ->
  (forall a b, (a <= b < n)%nat -> elapsed (passes a) <= built (passes b)) ->
  (forall i e, poll (passes i) = Some e ->
     fst e = SIGKILL /\ exists d, (d < i)%nat /\ past_deadline config passes d = true) ->
  execute fuel config k h = (h', Ok res) ->
  Config.status res = StTimeLimitExceeded \/ Config.status res = StMemoryLimitExceeded.
Proof.
  intros Hl Hc Hck Hf Hm Hd E.
  destruct (execute_status fuel config k h h' res ltac:(lia) E) as (k2 & h1 & h2 & pid & cg & r & -> & Hs).
  destruct (deadline_status (E := SandboxError) (with_jail config) pid (Some cg) passes n fuel k2 h1 h2 r Hck Hf Hm)
    as (t & stats & _ & _ & ->); [|exact Hs|destruct (oom_killed stats); auto].
  intros i e He. destruct (Hd i e He) as (? & d & ? & Hp). split; [done|]. exists d. split; [done|].
  unfold past_deadline in *. rewrite <- Hp. f_equal. destruct (with_jail_cases config) as [-> | ->]; [done|by destruct config].
Qed.
End Execute.

(* ------------------------------------------------------------------ *)
(** ** Witnesses, and the descriptors of a failed setup *)

Import Linux.

(** A kernel on which everything succeeds: pipes get the next two descriptors, and
    the child's pid is 42. *)
Definition calls_of (c : Call) (h : History) : Z :=
  Z.of_nat (length (filter (fun p : Call * Reply => fst p = c) h)).

Definition willing : Kernel := fun h c =>
  if decide (c = Fork) then MkReply 42 ""
  else if decide (c = Pipe) then FullReply (3 + 2 * calls_of Pipe h) "" (4 + 2 * calls_of Pipe h)
  else MkReply 0 "".

(** The same kernel, but the memory limit cannot be written. *)
Definition unlimited : Kernel := fun h c =>
  match c with
  | WriteAll p _ => if decide (p = "/sys/fs/cgroup/judge/u1/memory.max") then MkReply (-1) "Permission denied" else willing h c
  | _ => willing h c
  end.

(** The same kernel, but processes cannot be attached. *)
Definition unattachable : Kernel := fun h c =>
  match c with
  | WriteAll p _ => if decide (p = "/sys/fs/cgroup/judge/u1/cgroup.procs") then MkReply (-1) "Invalid argument" else willing h c
  | _ => willing h c
  end.

Definition three_bytes : Drain := MkDrain [Data (as_bytes "ab"); Interrupted; Data (as_bytes "c"); Eof] false.
Definition no_bytes : Drain := MkDrain [Eof] false.

(** The descriptors of an execution that fails before the fork are never closed:
    there is a kernel on which the three pipes are created, the cgroup's memory limit
    cannot be written, [execute] returns that error, and no [close] was issued - the
    six descriptors stay open in the judge. *)
Theorem cgroup_failure_leaks :
  let '(h, res) := execute (W := linux_wait) "j1" "u1" exits three_bytes no_bytes 5
                     demo_limits unlimited [] in
  (exists e, res = Err (SandboxCgroupError (SettingWriteFailed e))) /\
  [(Pipe, FullReply 3 "" 4); (Pipe, FullReply 5 "" 6); (Pipe, FullReply 7 "" 8)] ⊆ h /\
  forall fd, ~ issued (CloseFd fd) h.
Proof.
  destruct (execute _ _ _ _ _ _ _ _ _) as [h res] eqn:E. vm_compute in E. injection E as <- <-.
  split; [by eexists|]. split.
  - apply (bool_decide_unpack _). vm_compute. exact I.
  - intros fd. unfold issued. cbn [map fst]. rewrite !elem_of_cons, elem_of_nil.
    intros H. repeat (destruct H as [H|H]; [discriminate H|]). exact H.
Qed.

Lemma execute_run :
  snd (execute "j1" "u1" exits three_bytes no_bytes 5 demo_limits willing []) =
  Ok (MkExec (StRuntimeError 3) 3 0 10 0 (as_bytes "abc") []).
Proof. vm_compute. reflexivity. Qed.

Lemma execute_confined_witness :
  let res := MkExec (StRuntimeError 3) 3 0 10 0 (as_bytes "abc") [] in
  (exists t1 t2 pid, fst (execute "j1" "u1" exits three_bytes no_bytes 5 demo_limits willing []) = [] ++ t1 ++ t2 /\
     attached "/sys/fs/cgroup/judge/u1" pid t1 /\
     mandatory "/sys/fs/cgroup/judge/u1" demo_limits ++
       [WriteAll "/sys/fs/cgroup/judge/u1/cgroup.procs" (show_Z pid)] `sublist_of` ok_calls t1 /\
     killed pid t2) /\
  Z.of_nat (length (stdout res)) <= max_output_bytes demo_limits.
Proof.
  destruct (execute_confined "j1" "u1" exits three_bytes no_bytes 5 demo_limits willing []
              (fst (execute "j1" "u1" exits three_bytes no_bytes 5 demo_limits willing []))
              (MkExec (StRuntimeError 3) 3 0 10 0 (as_bytes "abc") [])) as (H1 & H2 & _).
  - cbn. lia.
  - rewrite <- execute_run. apply surjective_pairing.
  - split; [exact H1|exact H2].
Defined.

(** A child that filled its stdout pipe and was killed at the limit. *)
Definition full_pipe : Drain := MkDrain [Data (replicate 8192 "x"%char); Eof] false.

Lemma full_pipe_run :
  exists out, snd (execute "j1" "u1" silent full_pipe no_bytes 300 demo_limits willing []) =
  Ok (MkExec StTimeLimitExceeded 0 0 1100 0 out []).
Proof. eexists. vm_compute. reflexivity. Qed.

Lemma large_output_times_out_witness :
  exists h' res, execute "j1" "u1" silent full_pipe no_bytes 300 demo_limits willing [] = (h', Ok res) /\
    (Config.status res = StTimeLimitExceeded \/ Config.status res = StMemoryLimitExceeded).
Proof.
  destruct full_pipe_run as [out Hrun].
  destruct (execute "j1" "u1" silent full_pipe no_bytes 300 demo_limits willing []) as [h' r] eqn:E.
  cbn [snd] in Hrun. subst r. eexists h', _. split; [reflexivity|].
  apply (large_output_times_out "j1" "u1" silent full_pipe no_bytes 300 300 65536 demo_limits
           willing [] h'); [| |apply silent_clock; lia|lia| | |exact E].
  - vm_compute. discriminate.
  - vm_compute. reflexivity.
  - intros a b Hab. cbn. lia.
  - intros i e He. discriminate He.
Defined.
