(* ===== verification/Pool.v ===== *)
(** * The worker pool

    [src/src/orchestrator/pool.rs]: [JudgeWorkerPool::submit] and the worker tasks of
    [run_workers] as one transition system.  A label is one atomic action of one task -
    a load or a [fetch_add] of a counter, a send or receive on the unbounded channel, a
    reply on the oneshot channel - and tasks interleave arbitrarily.  What the
    pipeline may return for a request is a parameter (its model is [Pipeline]).

    The release profile of [Cargo.toml] aborts the process on a panic, so there the label
    [Panic] never occurs and no worker is ever [Panicked].  In a build that unwinds, the
    development profile, a panic ends the worker's task only.  The system has the steps
    of both builds: its invariants hold in either, and progress is about workers that
    have not panicked - in the release build, every worker. *)

From S2P Require Import Prelude Admission Job.

(** How many elements satisfy [p]. *)
Fixpoint count {A : Type} (p : A -> bool) (l : list A) : Z :=
  match l with
  | [] => 0
  | a :: l' => (if p a then 1 else 0) + count p l'
  end.

(* ------------------------------------------------------------------ *)
(** ** State *)

(** The memory clamp and the server-side identifier of [submit]. *)
Definition prepare (env : Env) (uuid : string) (r : JobRequest) : JobRequest :=
  MkRequest (if is_empty (job_id r) then uuid else job_id r) (req_language r) (source_code r)
    (req_time_limit_ms r)
    (if req_memory_limit_bytes r >? max_job_memory_bytes env
     then max_job_memory_bytes env else req_memory_limit_bytes r)
    (test_cases r) (stop_on_first_fail r).

(** [JobEnvelope]; the oneshot sender is the ticket of the submission it answers. *)
Record JobEnvelope : Type := MkEnvelope { ticket : nat; request : JobRequest }.

(** Where a call of [submit] is. *)
Inductive Phase : Type :=
  | Passed                                   (** the queue test let it through *)
  | Counted                                  (** [queued_jobs] incremented *)
  | Awaiting                                 (** envelope sent, awaiting the reply *)
  | Dropped                                  (** its future was dropped while awaiting *)
  | Returned (res : result string JobResult).

Record Submission : Type := MkSubmission { asked : JobRequest; fresh_id : string; phase : Phase }.

(** Where a worker task is. *)
Inductive Worker : Type :=
  | Idle
  | Took (e : JobEnvelope)       (** received *)
  | Dequeued (e : JobEnvelope)   (** [queued] decremented *)
  | Working (e : JobEnvelope)    (** [busy] incremented, running the pipeline *)
  | Replied                      (** result sent, [busy] not yet decremented *)
  | Panicked.                    (** the pipeline panicked and unwound: the task is gone *)

(** [submissions] and [workers] are indexed by ticket and worker number; [channel] is
    [None] once the receiver has been dropped. *)
Record JudgeWorkerPool : Type := MkPool {
  max_queue_size : Z;
  queued_jobs : Z;
  busy_workers : Z;
  channel : option (list JobEnvelope);
  submissions : list Submission;
  workers : list Worker
}.

Definition num_workers (s : JudgeWorkerPool) : Z := Z.of_nat (length (workers s)).
Definition idle_workers (s : JudgeWorkerPool) : Z := saturating_sub (num_workers s) (busy_workers s).

(** [JudgeWorkerPool::new] followed by the spawning of the workers; [cpus] is
    [available_parallelism], [None] when it fails. *)
Definition worker_count (num : option nat) (cpus : option nat) : nat :=
  match num with Some n => n | None => match cpus with Some p => p | None => 4%nat end end.

Definition max_queue (env : Env) : Z :=
  match env "JUDGE_MAX_QUEUE"%string with
  | Some v => match parse_u64 v with Some n => n | None => 128 end
  | None => 128
  end.

Definition pool_new (env : Env) (num cpus : option nat) : JudgeWorkerPool :=
  MkPool (max_queue env) 0 0 (Some []) [] (replicate (worker_count num cpus) Idle).

(* ------------------------------------------------------------------ *)
(** ** Steps *)

Inductive PoolLabel : Type :=
  | Submit (req : JobRequest) (uuid : string)   (** the load and test of [queued_jobs] *)
  | Count (t : nat)                             (** [queued_jobs.fetch_add] *)
  | Send (t : nat)                              (** [sender.send] *)
  | DropFuture (t : nat)                        (** the caller of [submit] goes away *)
  | Take (w : nat)                              (** [recv] *)
  | Dequeue (w : nat)                           (** [queued.fetch_sub] *)
  | Start (w : nat)                             (** [busy.fetch_add] *)
  | Finish (w : nat) (res : result string JobResult)  (** the pipeline returns, [result_tx.send] *)
  | Release (w : nat)                           (** [busy.fetch_sub] *)
  | Panic (w : nat)                             (** the pipeline panics and unwinds (not in the release build) *)
  | Close.                                      (** [run_workers] returns: no worker is left *)

Definition queue_full : result string JobResult := Err "QUEUE_FULL"%string.
Definition submit_failed : result string JobResult := Err "Failed to submit job to worker pool"%string.
Definition connection_lost : result string JobResult := Err "Worker lost connection"%string.

Definition in_phase (p : Phase) (x : Submission) : Submission := MkSubmission (asked x) (fresh_id x) p.

Definition set_phase (t : nat) (p : Phase) (l : list Submission) : list Submission :=
  alter (in_phase p) t l.

Definition awaiting (x : Submission) : bool := match phase x with Awaiting => true | _ => false end.

(** The receiving half of the oneshot: nothing happens if the future is gone. *)
Definition reply (res : result string JobResult) (t : nat) (l : list Submission) : list Submission :=
  alter (fun x => if awaiting x then in_phase (Returned res) x else x) t l.

Definition is_panicked (w : Worker) : bool := match w with Panicked => true | _ => false end.

Section Steps.
Context (env : Env).

Definition pool_step (l : PoolLabel) (s : JudgeWorkerPool) : option JudgeWorkerPool :=
  let '(MkPool mq q b ch subs ws) := s in
  match l with
  | Submit req uuid =>
      Some (MkPool mq q b ch
              (subs ++ [MkSubmission req uuid (if q >=? mq then Returned queue_full else Passed)]) ws)
  | Count t =>
      match subs !! t with
      | Some (MkSubmission _ _ Passed) => Some (MkPool mq (wrap64 (q + 1)) b ch (set_phase t Counted subs) ws)
      | _ => None
      end
  | Send t =>
      match subs !! t with
      | Some (MkSubmission r u Counted) =>
          match ch with
          | Some c => Some (MkPool mq q b (Some (c ++ [MkEnvelope t (prepare env u r)]))
                              (set_phase t Awaiting subs) ws)
          | None => Some (MkPool mq (wrap64 (q - 1)) b None (set_phase t (Returned submit_failed) subs) ws)
          end
      | _ => None
      end
  | DropFuture t =>
      match subs !! t with
      | Some (MkSubmission _ _ Awaiting) => Some (MkPool mq q b ch (set_phase t Dropped subs) ws)
      | _ => None
      end
  | Take w =>
      match ws !! w, ch with
      | Some Idle, Some (e :: c) => Some (MkPool mq q b (Some c) subs (<[w := Took e]> ws))
      | _, _ => None
      end
  | Dequeue w =>
      match ws !! w with
      | Some (Took e) => Some (MkPool mq (wrap64 (q - 1)) b ch subs (<[w := Dequeued e]> ws))
      | _ => None
      end
  | Start w =>
      match ws !! w with
      | Some (Dequeued e) => Some (MkPool mq q (wrap64 (b + 1)) ch subs (<[w := Working e]> ws))
      | _ => None
      end
  | Finish w res =>
      match ws !! w with
      | Some (Working e) => Some (MkPool mq q b ch (reply res (ticket e) subs) (<[w := Replied]> ws))
      | _ => None
      end
  | Release w =>
      match ws !! w with
      | Some Replied => Some (MkPool mq q (wrap64 (b - 1)) ch subs (<[w := Idle]> ws))
      | _ => None
      end
  | Panic w =>
      match ws !! w with
      | Some (Working e) =>
          Some (MkPool mq q b ch (reply connection_lost (ticket e) subs) (<[w := Panicked]> ws))
      | _ => None
      end
  | Close =>
      match ch with
      | Some c => if forallb is_panicked ws
                  then Some (MkPool mq q b None (foldr (fun e => reply connection_lost (ticket e)) subs c) ws)
                  else None
      | None => None
      end
  end.

(** [pipeline r res]: [ExecutionPipeline::execute] may return [res] on [r]. *)
Context (pipeline : JobRequest -> result string JobResult -> Prop).

Definition allowed (l : PoolLabel) (s : JudgeWorkerPool) : Prop :=
  match l with
  | Finish w res => forall e, workers s !! w = Some (Working e) -> pipeline (request e) res
  | _ => True
  end.

Definition pool_rel (s s' : JudgeWorkerPool) : Prop :=
  exists l, allowed l s /\ pool_step l s = Some s'.

End Steps.

(* ------------------------------------------------------------------ *)
(** ** Counting *)

Definition b2z (b : bool) : Z := if b then 1 else 0.

Lemma count_app {A : Type} (p : A -> bool) l k : count p (l ++ k) = count p l + count p k.
Proof. induction l as [|a l IH]; cbn [count app]; lia. Qed.

Lemma count_bounds {A : Type} (p : A -> bool) l : 0 <= count p l <= Z.of_nat (length l).
Proof. induction l as [|a l IH]; cbn [count length]; [lia|destruct (p a); lia]. Qed.

Lemma count_alter {A : Type} (p : A -> bool) f i l x :
  l !! i = Some x -> count p (alter f i l) = count p l - b2z (p x) + b2z (p (f x)).
Proof.
  revert i. induction l as [|a l IH]; intros [|i]; cbn [lookup list_lookup]; try done.
  - intros [= ->]. change (alter f 0%nat (x :: l)) with (f x :: l). cbn [count]. unfold b2z. lia.
  - intros H. change (alter f (S i) (a :: l)) with (a :: alter f i l). cbn [count]. rewrite (IH i H). lia.
Qed.

Lemma count_insert {A : Type} (p : A -> bool) i l x y :
  l !! i = Some x -> count p (<[i := y]> l) = count p l - b2z (p x) + b2z (p y).
Proof. intros H. rewrite list_insert_alter. by apply (count_alter p (fun _ => y) i l x). Qed.

Lemma count_alter_same {A : Type} (p : A -> bool) f i l :
  (forall x, p (f x) = p x) -> count p (alter f i l) = count p l.
Proof.
  intros Hf. revert i. induction l as [|a l IH]; intros [|i]; try done.
  - change (alter f 0%nat (a :: l)) with (f a :: l). cbn [count]. by rewrite Hf.
  - change (alter f (S i) (a :: l)) with (a :: alter f i l). cbn [count]. by rewrite IH.
Qed.

Definition is_counted (x : Submission) : bool := match phase x with Counted => true | _ => false end.
Definition is_took (w : Worker) : bool := match w with Took _ => true | _ => false end.
Definition is_busy (w : Worker) : bool :=
  match w with Working _ | Replied | Panicked => true | _ => false end.

Definition queue (s : JudgeWorkerPool) : list JobEnvelope := match channel s with Some c => c | None => [] end.

Lemma count_reply res t l : count is_counted (reply res t l) = count is_counted l.
Proof.
  apply count_alter_same. intros [r u p]. unfold is_counted, awaiting. cbn. by destruct p.
Qed.

Lemma count_replies res c l :
  count is_counted (foldr (fun e => reply res (ticket e)) l c) = count is_counted l.
Proof. induction c as [|e c IH]; [done|]. cbn. by rewrite count_reply. Qed.

(** What the counters mean: [queued_jobs] counts the submissions between their
    [fetch_add] and the worker's [fetch_sub] - and, once the receiver is gone, the
    [lost] jobs that were still in the channel. *)
Definition counts (s : JudgeWorkerPool) : Prop :=
  busy_workers s = wrap64 (count is_busy (workers s)) /\
  exists lost, 0 <= lost /\ (channel s <> None -> lost = 0) /\
    queued_jobs s = wrap64 (count is_counted (submissions s) + Z.of_nat (length (queue s)) +
                            count is_took (workers s) + lost).

Lemma wrap64_step a d : wrap64 (wrap64 a + d) = wrap64 (a + d).
Proof. unfold wrap64. by rewrite Zplus_mod_idemp_l. Qed.

Lemma wrap64_step_sub a d : wrap64 (wrap64 a - d) = wrap64 (a - d).
Proof. apply (wrap64_step a (- d)). Qed.

Section Counting.
Context (env : Env).

(** Rewrites the counts of an updated list into the counts of the old one. *)
Ltac counting :=
  unfold set_phase; rewrite ?wrap64_step, ?wrap64_step_sub, ?count_reply, ?count_replies, ?count_app, ?length_app;
  repeat match goal with
  | H : ?l !! ?i = Some ?x |- context [count ?p (<[?i := ?y]> ?l)] => rewrite (count_insert p i l x y H)
  | H : ?l !! ?i = Some ?x |- context [count ?p (alter ?f ?i ?l)] => rewrite (count_alter p f i l x H)
  end; cbn [b2z count is_counted is_took is_busy phase in_phase length]; try (f_equal; lia).

Lemma counts_step l s s' : counts s -> pool_step env l s = Some s' -> counts s'.
Proof.
  destruct s as [mq q b ch subs ws]. unfold counts, queue. cbn [busy_workers workers channel submissions queued_jobs].
  intros (Hb & lost & Hl & Ho & Hq). subst q b.
  assert (Hsome : forall c c' : list JobEnvelope, ch = Some c -> Some c' <> None -> lost = 0).
  { intros c c' -> _. by apply Ho. }
  destruct l as [req uuid|t|t|t|w|w|w|w res|w|w|]; cbn [pool_step]; intros Hs; repeat case_match; simplify_eq/=;
    (split; [counting|]); try (exists lost; split_and!; [done|by eauto|solve [counting]]).
  exists (lost + Z.of_nat (length l)). split_and!; [lia|done|counting].
Qed.

Lemma counts_init num cpus : counts (pool_new env num cpus).
Proof.
  assert (forall p n, p Idle = false -> count p (replicate n Idle) = 0) as H.
  { intros p n Hp. induction n as [|n IH]; [done|]. cbn. by rewrite Hp, IH. }
  unfold counts, queue, pool_new. cbn. rewrite !H by done. split; [done|]. by exists 0.
Qed.

(** The number of workers never changes. *)
Lemma workers_step l s s' :
  pool_step env l s = Some s' -> length (workers s') = length (workers s).
Proof.
  destruct s as [mq q b ch subs ws]. destruct l; cbn [pool_step]; intros Hs; repeat case_match;
    simplify_eq/=; by rewrite ?length_insert.
Qed.
End Counting.

(* ------------------------------------------------------------------ *)
(** ** Jobs in flight *)

Definition held (w : Worker) : list JobEnvelope :=
  match w with Took e | Dequeued e | Working e => [e] | _ => [] end.

Definition in_flight (s : JudgeWorkerPool) : list JobEnvelope := queue s ++ flat_map held (workers s).

(** [jobs_ok F l]: the envelopes [F] carry one job each of the submissions [l] that
    wait for a reply - or whose caller has left - and no waiting submission is
    missing. *)
Definition matched (env : Env) (l : list Submission) (e : JobEnvelope) : Prop :=
  exists x, l !! ticket e = Some x /\ request e = prepare env (fresh_id x) (asked x) /\
            (phase x = Awaiting \/ phase x = Dropped).

Definition jobs_ok (env : Env) (F : list JobEnvelope) (l : list Submission) : Prop :=
  Forall (matched env l) F /\ NoDup (map ticket F) /\
  forall t x, l !! t = Some x -> phase x = Awaiting -> t ∈ map ticket F.

(** Only the set of jobs in flight matters, not who holds them. *)
#[export] Instance jobs_ok_perm env : Proper ((≡ₚ) ==> (=) ==> iff) (jobs_ok env).
Proof.
  intros F G HFG l ? <-. unfold jobs_ok.
  assert (map ticket F ≡ₚ map ticket G) as Hm by by apply Permutation_map.
  rewrite HFG. by setoid_rewrite Hm.
Qed.

Lemma held_update ws w x y :
  ws !! w = Some x ->
  exists R, flat_map held ws ≡ₚ held x ++ R /\ flat_map held (<[w := y]> ws) ≡ₚ held y ++ R.
Proof.
  intros Hw. exists (flat_map held (take w ws) ++ flat_map held (drop (S w) ws)).
  split.
  - rewrite <- (take_drop_middle ws w x Hw) at 1. rewrite flat_map_app. cbn. by rewrite Permutation_app_swap_app.
  - rewrite insert_take_drop by (eapply lookup_lt_Some; eassumption).
    rewrite flat_map_app. cbn. by rewrite Permutation_app_swap_app.
Qed.


Section Jobs.
Context (env : Env).

Lemma lookup_set_phase t p l i :
  set_phase t p l !! i = if decide (t = i) then in_phase p <$> l !! t else l !! i.
Proof. unfold set_phase. rewrite list_lookup_alter. by case_decide. Qed.

Lemma matched_keep l l' e :
  l' !! ticket e = l !! ticket e -> matched env l e -> matched env l' e.
Proof. intros H (x & Hx & Hr). exists x. by rewrite H. Qed.

Lemma jobs_submit F l x :
  phase x <> Awaiting -> jobs_ok env F l -> jobs_ok env F (l ++ [x]).
Proof.
  intros Hx (Hm & Hn & Ha). split_and!; [|done|].
  - eapply Forall_impl; [exact Hm|]. intros e (y & Hy & Hr). exists y.
    split; [by apply lookup_app_l_Some|done].
  - intros t y Hy Hp. apply lookup_app_Some in Hy as [Hy|[_ Hy]]; [by eapply Ha|].
    apply list_lookup_singleton_Some in Hy as [_ <-]. done.
Qed.

(** A submission that is not in flight moves to another phase without a job. *)
Lemma jobs_leave F l t x p :
  l !! t = Some x -> phase x <> Awaiting -> phase x <> Dropped -> p <> Awaiting ->
  jobs_ok env F l -> jobs_ok env F (set_phase t p l).
Proof.
  intros Hx H1 H2 Hp (Hm & Hn & Ha). split_and!; [|done|].
  - eapply Forall_impl; [exact Hm|]. intros e He. eapply matched_keep; [|exact He].
    rewrite lookup_set_phase. case_decide as E; [|done].
    destruct He as (y & Hy & _ & [?|?]); congruence.
  - intros i y. rewrite lookup_set_phase. case_decide; [|by apply Ha].
    rewrite Hx. cbn. by intros [= <-].
Qed.

Lemma jobs_drop F l t x :
  l !! t = Some x -> phase x = Awaiting ->
  jobs_ok env F l -> jobs_ok env F (set_phase t Dropped l).
Proof.
  intros Hx H1 (Hm & Hn & Ha). split_and!; [|done|].
  - eapply Forall_impl; [exact Hm|]. intros e (y & Hy & Hr & Hp). unfold matched.
    rewrite lookup_set_phase. case_decide as E; [|eauto]. subst t. rewrite Hy. cbn.
    eexists. split; [done|]. cbn. auto.
  - intros i y. rewrite lookup_set_phase. case_decide; [|by apply Ha].
    rewrite Hx. cbn. by intros [= <-].
Qed.

Lemma jobs_send F l t x :
  l !! t = Some x -> phase x = Counted -> jobs_ok env F l ->
  jobs_ok env (F ++ [MkEnvelope t (prepare env (fresh_id x) (asked x))]) (set_phase t Awaiting l).
Proof.
  intros Hx H1 (Hm & Hn & Ha).
  assert (Hf : forall e, e ∈ F -> ticket e <> t).
  { rewrite Forall_forall in Hm. intros e He Et. destruct (Hm e He) as (y & Hy & _ & [?|?]); congruence. }
  unfold jobs_ok. rewrite map_app. split_and!.
  - apply Forall_app_2.
    + rewrite Forall_forall in Hm |- *. intros e He. eapply matched_keep; [|by apply Hm].
      rewrite lookup_set_phase. case_decide; [|done]. by destruct (Hf e He).
    + constructor; [|constructor]. unfold matched. cbn. rewrite lookup_set_phase, decide_True by done.
      rewrite Hx. cbn. eauto.
  - apply NoDup_app. split_and!; [done| |apply NoDup_singleton].
    intros i Hi. cbn. rewrite list_elem_of_singleton. intros ->.
    apply list_elem_of_fmap in Hi as (e & -> & He). by apply (Hf e He).
  - intros i y. rewrite lookup_set_phase. rewrite elem_of_app. case_decide as E.
    + intros _ _. right. subst i. by left.
    + intros Hy Hp. left. by eapply Ha.
Qed.

(** The reply to a job takes it out of flight, whether or not its caller still waits. *)
Lemma jobs_reply e F l res :
  jobs_ok env (e :: F) l -> jobs_ok env F (reply res (ticket e) l).
Proof.
  intros (Hm & Hn & Ha). cbn [map] in Hn, Ha. apply NoDup_cons in Hn as [Hn1 Hn2].
  apply Forall_cons in Hm as [_ Hm]. split_and!; [|done|].
  - rewrite Forall_forall in Hm |- *. intros f Hf. eapply matched_keep; [|by apply Hm].
    unfold reply. rewrite list_lookup_alter. case_decide as E; [|done].
    destruct Hn1. rewrite E. by apply list_elem_of_fmap_2.
  - intros i y. unfold reply. rewrite list_lookup_alter. case_decide as E.
    + destruct (l !! ticket e) as [x|]; [|done]. cbn. intros [= <-]. unfold awaiting.
      destruct (phase x) eqn:Ep; cbn; congruence.
    + intros Hy Hp. specialize (Ha i y Hy Hp). apply elem_of_cons in Ha as [->|?]; [done|done].
Qed.

Lemma jobs_replies c F l res :
  jobs_ok env (c ++ F) l -> jobs_ok env F (foldr (fun e => reply res (ticket e)) l c).
Proof.
  revert F. induction c as [|e c IH]; intros F H; [done|]. cbn.
  apply jobs_reply. apply IH. cbn in H. by rewrite <- Permutation_middle.
Qed.

Lemma jobs_init num cpus : jobs_ok env (in_flight (pool_new env num cpus)) (submissions (pool_new env num cpus)).
Proof.
  unfold in_flight, queue, pool_new. cbn [channel workers submissions].
  assert (flat_map held (replicate (worker_count num cpus) Idle) = []) as ->.
  { by induction (worker_count num cpus). }
  cbn. split_and!; [constructor|constructor|]. intros t x Hx. by rewrite lookup_nil in Hx.
Qed.

(** Replaces the jobs of worker [w] in the goal and in [H]. *)
Ltac worker_jobs w y H :=
  match goal with
  | Hw : _ !! w = Some ?x |- _ =>
      destruct (held_update _ w x y Hw) as (R & HR1 & HR2);
      cbn [held] in HR1, HR2; rewrite HR1 in H; rewrite HR2; cbn [app] in *
  end.

Lemma jobs_step l s s' :
  jobs_ok env (in_flight s) (submissions s) -> pool_step env l s = Some s' ->
  jobs_ok env (in_flight s') (submissions s').
Proof.
  destruct s as [mq q b ch subs ws]. unfold in_flight, queue. cbn [workers channel submissions].
  intros H. destruct l as [req uuid|t|t|t|w|w|w|w res|w|w|]; cbn [pool_step]; intros Hs.
  - simplify_eq/=. apply jobs_submit; [by destruct (q >=? mq)|done].
  - repeat case_match; simplify_eq/=; eapply jobs_leave; eauto; done.
  - destruct (subs !! t) as [[r u []]|] eqn:Hx; try done. destruct ch as [c|]; simplify_eq/=.
    + rewrite <- app_assoc, (Permutation_app_comm [_]), app_assoc.
      by apply (jobs_send _ _ _ (MkSubmission r u Counted)).
    + eapply jobs_leave; eauto; done.
  - repeat case_match; simplify_eq/=; eapply jobs_drop; eauto; done.
  - repeat case_match; simplify_eq/=; worker_jobs w (Took j) H;
    by rewrite <- Permutation_middle.
  - repeat case_match; simplify_eq/=; by worker_jobs w (Dequeued e) H.
  - repeat case_match; simplify_eq/=; by worker_jobs w (Working e) H.
  - repeat case_match; simplify_eq/=; worker_jobs w Replied H; apply jobs_reply;
      by rewrite ?Permutation_middle.
  - repeat case_match; simplify_eq/=; by worker_jobs w Idle H.
  - repeat case_match; simplify_eq/=; worker_jobs w Panicked H; apply jobs_reply;
      by rewrite ?Permutation_middle.
  - repeat case_match; simplify_eq/=. by apply jobs_replies.
Qed.
End Jobs.

(* ------------------------------------------------------------------ *)
(** ** Reachable states *)

Section Reachable.
Context (env : Env) (pipeline : JobRequest -> result string JobResult -> Prop).

(** The replies the pool makes up itself. *)
Definition pool_errors : list (result string JobResult) := [queue_full; submit_failed; connection_lost].

Definition replies_ok (l : list Submission) : Prop :=
  forall t x res, l !! t = Some x -> phase x = Returned res ->
    res ∈ pool_errors \/ pipeline (prepare env (fresh_id x) (asked x)) res.

Lemma replies_set l t p :
  (forall res, p = Returned res -> res ∈ pool_errors) -> replies_ok l -> replies_ok (set_phase t p l).
Proof.
  intros Hp Hr i y res. rewrite lookup_set_phase. case_decide as E; [|apply Hr].
  destruct (l !! t) as [x|]; [|done]. cbn. intros [= <-]. cbn. auto.
Qed.

Lemma replies_reply l t res :
  (forall x, l !! t = Some x -> res ∈ pool_errors \/ pipeline (prepare env (fresh_id x) (asked x)) res) ->
  replies_ok l -> replies_ok (reply res t l).
Proof.
  intros Hp Hr i y r. unfold reply. rewrite list_lookup_alter. case_decide as E; [|apply Hr].
  destruct (l !! t) as [x|] eqn:Hx; [|done]. cbn. intros [= <-].
  destruct (awaiting x); [|by apply (Hr t x r Hx)]. cbn. intros [= <-]. by apply Hp.
Qed.

Lemma replies_submit l x :
  (forall res, phase x = Returned res -> res ∈ pool_errors) -> replies_ok l -> replies_ok (l ++ [x]).
Proof.
  intros Hx Hr i y res Hy Hp. apply lookup_app_Some in Hy as [Hy|[_ Hy]]; [by eapply Hr|].
  apply list_lookup_singleton_Some in Hy as [_ <-]. left. by apply Hx.
Qed.

Lemma replies_lost c l : replies_ok l -> replies_ok (foldr (fun e => reply connection_lost (ticket e)) l c).
Proof.
  intros Hr. induction c as [|e c IH]; [done|]. cbn. apply replies_reply; [|done].
  intros x _. left. by right; right; left.
Qed.

(** The request a worker holds is the one its submitter prepared. *)
Lemma held_request s w e x :
  jobs_ok env (in_flight s) (submissions s) -> workers s !! w = Some (Working e) ->
  submissions s !! ticket e = Some x -> request e = prepare env (fresh_id x) (asked x).
Proof.
  intros (Hm & _) Hw Hx. destruct (held_update (workers s) w _ Idle Hw) as (R & HR & _).
  unfold in_flight in Hm. rewrite HR in Hm. cbn [held app] in Hm. rewrite <- Permutation_middle in Hm.
  apply Forall_cons in Hm as [(y & Hy & Hq & _) _]. by simplify_eq.
Qed.

Lemma replies_step l s s' :
  jobs_ok env (in_flight s) (submissions s) -> replies_ok (submissions s) ->
  allowed pipeline l s -> pool_step env l s = Some s' -> replies_ok (submissions s').
Proof.
  intros Hj Hr Ha. pose proof (held_request s) as Hreq.
  destruct s as [mq q b ch subs ws]. cbn [submissions workers] in *.
  destruct l as [req uuid|t|t|t|w|w|w|w res|w|w|]; cbn [pool_step]; intros Hs.
  - simplify_eq/=. apply replies_submit; [|done]. cbn. destruct (q >=? mq); [|done].
    intros ? [= <-]. by left.
  - repeat case_match; simplify_eq/=; by apply replies_set.
  - repeat case_match; simplify_eq/=; apply replies_set; try done. intros ? [= <-]. by right; left.
  - repeat case_match; simplify_eq/=; by apply replies_set.
  - repeat case_match; by simplify_eq/=.
  - repeat case_match; by simplify_eq/=.
  - repeat case_match; by simplify_eq/=.
  - destruct (ws !! w) as [[]|] eqn:Hw; simplify_eq/=. apply replies_reply; [|done].
    intros x Hx. right. rewrite <- (Hreq w e x Hj Hw Hx). by apply Ha.
  - repeat case_match; by simplify_eq/=.
  - repeat case_match; simplify_eq/=; apply replies_reply; try done. intros x _. left.
    by right; right; left.
  - repeat case_match; simplify_eq/=. by apply replies_lost.
Qed.

(** The invariant of the pool. *)
Definition pool_ok (s : JudgeWorkerPool) : Prop :=
  counts s /\ jobs_ok env (in_flight s) (submissions s) /\ replies_ok (submissions s).

Lemma pool_ok_invariant : invariant_of (pool_rel env pipeline) pool_ok.
Proof.
  intros s s' (Hc & Hj & Hr) (l & Ha & Hs). split_and!.
  - by eapply counts_step.
  - by eapply jobs_step.
  - by eapply replies_step.
Qed.

Lemma pool_ok_init num cpus : pool_ok (pool_new env num cpus).
Proof.
  split_and!; [apply counts_init|apply jobs_init|]. intros t x res Hx. by destruct t.
Qed.

Definition reachable (num cpus : option nat) (s : JudgeWorkerPool) : Prop :=
  rtc (pool_rel env pipeline) (pool_new env num cpus) s.

Lemma reachable_ok num cpus s : reachable num cpus s -> pool_ok s.
Proof. intros H. by_invariant pool_ok_invariant pool_ok_init. Qed.

Lemma reachable_workers num cpus s :
  reachable num cpus s -> length (workers s) = worker_count num cpus.
Proof.
  intros H. apply (invariant_reachable (pool_rel env pipeline)
    (fun s => length (workers s) = worker_count num cpus)) with (pool_new env num cpus); [| |exact H].
  - intros s1 s2 Hl (l & _ & Hs). by rewrite (workers_step env l s1 s2 Hs).
  - cbn. by rewrite length_replicate.
Qed.

(* ------------------------------------------------------------------ *)
(** ** Serving the queue *)

Context (pipeline_total : forall r, exists res, pipeline r res).

(** [w] gets free from [s], giving the job it holds its reply and leaving the queue
    and the other submissions alone. *)
Definition gets_free (w : nat) (s : JudgeWorkerPool) : Prop :=
  exists s', rtc (pool_rel env pipeline) s s' /\ workers s' !! w = Some Idle /\ channel s' = channel s /\
    forall x, workers s !! w = Some x ->
      (forall t, t ∉ map ticket (held x) -> submissions s' !! t = submissions s !! t) /\
      (forall e y, e ∈ held x -> submissions s !! ticket e = Some y -> phase y = Awaiting ->
         exists res, pipeline (request e) res /\ submissions s' !! ticket e = Some (in_phase (Returned res) y)).

(** One step of [w] that changes neither the queue nor the submissions. *)
Lemma gets_free_step l w s s1 x y :
  pool_step env l s = Some s1 -> allowed pipeline l s ->
  workers s !! w = Some x -> workers s1 !! w = Some y -> held y = held x ->
  channel s1 = channel s -> submissions s1 = submissions s ->
  gets_free w s1 -> gets_free w s.
Proof.
  intros Hs Ha Hx Hy Hh Hc Hsub (s' & Hr & Hi & Hc' & Hrest). exists s'. split_and!; [|done|congruence|].
  - eapply rtc_l; [|exact Hr]. by exists l.
  - intros z Hz. simplify_eq. rewrite <- Hsub, <- Hh. by apply Hrest.
Qed.

Lemma upd (ws : list Worker) w x y : ws !! w = Some x -> <[w := y]> ws !! w = Some y.
Proof. intros H. apply list_lookup_insert_eq. by eapply lookup_lt_Some. Qed.

Ltac worker_step l :=
  match goal with Hw : ?ws !! ?w = Some ?x |- gets_free ?w ?s =>
    eapply (gets_free_step l w s _ x);
      [cbn [pool_step]; rewrite Hw; reflexivity|done|exact Hw|cbn; eapply upd; exact Hw|done|done|done|]
  end.

Lemma free_idle mq q b ch subs ws w : ws !! w = Some Idle -> gets_free w (MkPool mq q b ch subs ws).
Proof.
  intros Hw. eexists. split_and!; [apply rtc_refl|done|done|]. intros x Hx. cbn in *. simplify_eq.
  split; [done|]. intros e y He. by apply elem_of_nil in He.
Qed.

Lemma free_replied mq q b ch subs ws w : ws !! w = Some Replied -> gets_free w (MkPool mq q b ch subs ws).
Proof.
  intros Hw. worker_step (Release w). apply free_idle. by eapply upd.
Qed.

Lemma free_working mq q b ch subs ws w e : ws !! w = Some (Working e) -> gets_free w (MkPool mq q b ch subs ws).
Proof.
  intros Hw. destruct (pipeline_total (request e)) as [res Hres].
  destruct (free_replied mq q b ch (reply res (ticket e) subs) (<[w := Replied]> ws) w) as (s' & Hr & Hi & Hc & Hs);
    [by eapply upd|].
  exists s'. split_and!; [|done|done|].
  - eapply rtc_l; [|exact Hr]. exists (Finish w res). split; [|cbn; by rewrite Hw].
    cbn. intros e' He'. by simplify_eq.
  - intros x Hx. cbn in *. simplify_eq. destruct (Hs Replied ltac:(by eapply upd)) as [Hs' _]. cbn in Hs'.
    split.
    + intros t Ht. rewrite Hs' by apply not_elem_of_nil. unfold reply. rewrite list_lookup_alter_ne; [done|].
      intros Et. apply Ht. rewrite <- Et. by left.
    + intros e' y He Hy Hp. apply list_elem_of_singleton in He as ->. exists res. split; [done|].
      rewrite Hs' by apply not_elem_of_nil. unfold reply. rewrite list_lookup_alter_eq, Hy. cbn.
      unfold awaiting. by rewrite Hp.
Qed.

Lemma free_dequeued mq q b ch subs ws w e : ws !! w = Some (Dequeued e) -> gets_free w (MkPool mq q b ch subs ws).
Proof. intros Hw. worker_step (Start w). eapply free_working. by eapply upd. Qed.

Lemma free_took mq q b ch subs ws w e : ws !! w = Some (Took e) -> gets_free w (MkPool mq q b ch subs ws).
Proof. intros Hw. worker_step (Dequeue w). eapply free_dequeued. by eapply upd. Qed.

Lemma free_live s w x : workers s !! w = Some x -> x <> Panicked -> gets_free w s.
Proof.
  destruct s as [mq q b ch subs ws]. cbn. intros Hw Hx.
  destruct x; [by apply free_idle|by eapply free_took|by eapply free_dequeued|by eapply free_working
              |by apply free_replied|done].
Qed.
End Reachable.

(* ------------------------------------------------------------------ *)
(** ** Properties *)

Section Properties.
Context (env : Env) (pipeline : JobRequest -> result string JobResult -> Prop).

(** The counters mean what the health and metrics endpoints report.  In every
    reachable state, for any interleaving of submitters and workers, [busy_workers] is
    the number of workers between their two counter updates - it never exceeds the
    pool size, so [idle_workers] is the number of the others; a worker whose pipeline
    panicked stays busy forever - and while the receiver lives [queued_jobs] is the
    number of submitted jobs no worker has yet taken over: neither ever wraps below
    zero. *)
Theorem pool_counters num cpus s :
  reachable env pipeline num cpus s -> Z.of_nat (worker_count num cpus) <= u64_max ->
  num_workers s = Z.of_nat (worker_count num cpus) /\
  busy_workers s = count is_busy (workers s) /\
  idle_workers s = count (fun w => negb (is_busy w)) (workers s) /\
  (channel s <> None ->
   let pending := count is_counted (submissions s) + Z.of_nat (length (queue s)) +
                  count is_took (workers s) in
   pending <= u64_max -> queued_jobs s = pending).
Proof.
  intros Hr Hn. pose proof (reachable_workers env pipeline num cpus s Hr) as Hw.
  destruct (reachable_ok env pipeline num cpus s Hr) as [[Hb (lost & Hl & Ho & Hq)] _].
  pose proof (count_bounds is_busy (workers s)) as B.
  assert (busy_workers s = count is_busy (workers s)) as Hb'.
  { rewrite Hb. apply wrap64_small. unfold u64. lia. }
  split_and!.
  - unfold num_workers. by rewrite Hw.
  - done.
  - unfold idle_workers, num_workers. rewrite Hb'. clear. unfold saturating_sub.
    induction (workers s) as [|w ws IH]; [done|]. cbn [count length].
    pose proof (count_bounds is_busy ws). pose proof (count_bounds (fun w => negb (is_busy w)) ws).
    destruct (is_busy w); cbn [negb]; lia.
  - cbv zeta. intros Hc Hp. rewrite Hq, (Ho Hc), Z.add_0_r. apply wrap64_small. unfold u64.
    pose proof (count_bounds is_counted (submissions s)). pose proof (count_bounds is_took (workers s)). lia.
Qed.

(** C11. No job is lost, duplicated or mixed up: in every reachable state each waiting
    submission has exactly one envelope, in the channel or with a worker, carrying the
    request it asked for - with a job id, and memory clamped to the deployment
    ceiling - and every reply a submission got is either one of the pool's own errors
    or what the pipeline returned for that very request. *)
Theorem pool_serves_own_job num cpus s t x :
  reachable env pipeline num cpus s -> submissions s !! t = Some x ->
  (phase x = Awaiting ->
   exists e R, in_flight s ≡ₚ (e :: R) /\ ticket e = t /\ (t ∉ map ticket R) /\
     request e = prepare env (fresh_id x) (asked x)) /\
  (forall res, phase x = Returned res ->
     res ∈ pool_errors \/ pipeline (prepare env (fresh_id x) (asked x)) res).
Proof.
  intros Hr Hx. destruct (reachable_ok env pipeline num cpus s Hr) as (_ & (Hm & Hn & Ha) & Hres).
  split; [|intros res Hp; by apply (Hres t x res Hx)]. intros Hp.
  destruct (proj1 (list_elem_of_fmap _ _ _) (Ha t x Hx Hp)) as (e & -> & He).
  apply elem_of_Permutation in He as [R HR]. exists e, R. rewrite HR in Hm, Hn.
  cbn [map] in Hn. apply NoDup_cons in Hn as [Hn _]. apply Forall_cons in Hm as [(y & Hy & Hq & _) _].
  split_and!; [done|done|done|]. by simplify_eq.
Qed.

(** C23. A queued job is served: in every reachable state with a worker that has not
    panicked, the oldest job in the channel can be run to its reply - the worker
    finishes what it holds, takes the job, and a caller that still waits gets what the
    pipeline returns for it - however the state was reached. *)
Theorem pool_progress num cpus s w x e c :
  (forall r, exists res, pipeline r res) ->
  reachable env pipeline num cpus s ->
  workers s !! w = Some x -> x <> Panicked -> channel s = Some (e :: c) ->
  exists s', rtc (pool_rel env pipeline) s s' /\ channel s' = Some c /\
    forall y, submissions s !! ticket e = Some y -> phase y = Awaiting ->
      exists res, pipeline (request e) res /\
        submissions s' !! ticket e = Some (in_phase (Returned res) y).
Proof.
  intros Ht Hr Hw Hx Hc. destruct (reachable_ok env pipeline num cpus s Hr) as (_ & (_ & Hn & _) & _).
  destruct (free_live env pipeline Ht s w x Hw Hx) as (s1 & Hr1 & Hi & Hc1 & Hs1).
  destruct (Hs1 x Hw) as [Hkeep _]. clear Hs1.
  destruct s1 as [mq q b ch subs ws]. cbn in Hi, Hc1, Hkeep. rewrite Hc in Hc1. subst ch.
  destruct (free_took env pipeline Ht mq q b (Some c) subs (<[w := Took e]> ws) w e) as (s2 & Hr2 & _ & Hc2 & Hs2);
    [by eapply upd|].
  exists s2. split_and!; [|done|].
  - etrans; [exact Hr1|]. eapply rtc_l; [|exact Hr2]. exists (Take w). split; [done|]. cbn. by rewrite Hi.
  - intros y Hy Hp. destruct (Hs2 (Took e) ltac:(cbn; by eapply upd)) as [_ Hgot].
    apply (Hgot e y); [by left| |done]. cbn. rewrite Hkeep; [done|].
    unfold in_flight, queue in Hn. rewrite Hc in Hn. cbn [app map] in Hn. apply NoDup_cons in Hn as [Hn _].
    intros Hin. apply Hn. rewrite map_app, elem_of_app. right.
    destruct (held_update (workers s) w x Idle Hw) as (R & HR & _). rewrite HR, map_app, elem_of_app. by left.
Qed.
End Properties.

(** A request, and an environment that limits the queue to one job. *)
Definition demo_request : JobRequest :=
  MkRequest "j" "cpp" "int main(){}" 1000 (4 * 1024 * 1024 * 1024) [MkTest "" None] None.

Definition one_slot : Env := fun k => if decide (k = "JUDGE_MAX_QUEUE"%string) then Some "1"%string else None.

(** Two callers pass the test before either increments the counter. *)
Definition race : list PoolLabel :=
  [Submit demo_request "u1"; Submit demo_request "u2"; Count 0; Send 0; Count 1; Send 1].

(** The queue limit is a check-then-act: with [JUDGE_MAX_QUEUE=1] there is an
    interleaving of two submissions that both pass the test and leave two jobs in the
    channel and [queued_jobs] above the limit. *)
Theorem queue_limit_soft :
  exists s, run_labels (pool_step one_slot) race (pool_new one_slot (Some 1%nat) None) = Some s /\
    length (queue s) = 2%nat /\ max_queue_size s = 1 /\ max_queue_size s < queued_jobs s.
Proof. eexists. split; [vm_compute; reflexivity|]. by vm_compute. Qed.

(* ------------------------------------------------------------------ *)
(** ** Witnesses *)

(** A pipeline that accepts everything. *)
Definition accepting (r : JobRequest) (res : result string JobResult) : Prop :=
  res = Ok (MkResult (job_id r) Accepted 0 0 None []).

Definition no_env : Env := fun _ => None.

Lemma labels_reachable env pipeline ls s s' :
  (forall l, l ∈ ls -> match l with Finish _ _ => False | _ => True end) ->
  run_labels (pool_step env) ls s = Some s' -> rtc (pool_rel env pipeline) s s'.
Proof.
  revert s. induction ls as [|l ls IH]; intros s Hl; cbn [run_labels]; [by intros [= ->]|].
  destruct (pool_step env l s) as [s1|] eqn:E; [|done]. intros H. eapply rtc_l.
  - exists l. split; [|exact E]. specialize (Hl l ltac:(by left)). by destruct l.
  - apply IH; [|done]. intros k Hk. apply Hl. by right.
Qed.

(** Two queued jobs, and a worker that has taken the first. *)
Definition two_jobs : list PoolLabel := race ++ [Take 0; Dequeue 0].

Definition demo_state : JudgeWorkerPool :=
  match run_labels (pool_step no_env) two_jobs (pool_new no_env (Some 1%nat) None) with
  | Some s => s
  | None => pool_new no_env None None
  end.

Lemma demo_reachable : reachable no_env accepting (Some 1%nat) None demo_state.
Proof.
  apply labels_reachable with two_jobs; [|by vm_compute].
  intros l Hl. assert (Forall (fun l => match l with Finish _ _ => False | _ => True end) two_jobs) as H
    by (unfold two_jobs, race; cbn; repeat constructor).
  by apply (proj1 (Forall_forall _ _) H).
Qed.

Lemma pool_counters_witness :
  num_workers demo_state = 1 /\ busy_workers demo_state = 0 /\ queued_jobs demo_state = 1.
Proof.
  destruct (pool_counters no_env accepting (Some 1%nat) None demo_state demo_reachable) as (H1 & H2 & _ & H4);
    [by vm_compute|].
  split_and!; [exact H1|rewrite H2; by vm_compute|]. rewrite H4; [by vm_compute|done|by vm_compute].
Defined.

Lemma pool_serves_own_job_witness :
  exists e R, in_flight demo_state ≡ₚ (e :: R) /\ ticket e = 0%nat /\
    req_memory_limit_bytes (request e) = DEFAULT_MAX_JOB_BYTES.
Proof.
  destruct (pool_serves_own_job no_env accepting (Some 1%nat) None demo_state 0
              (MkSubmission demo_request "u1" Awaiting) demo_reachable eq_refl) as [H _].
  destruct (H eq_refl) as (e & R & HR & He & _ & Hq). exists e, R.
  split_and!; [exact HR|exact He|]. rewrite Hq. vm_compute. reflexivity.
Defined.

Lemma pool_progress_witness :
  exists s', rtc (pool_rel no_env accepting) demo_state s' /\ channel s' = Some [] /\
    exists res, submissions s' !! 1%nat = Some (MkSubmission demo_request "u2" (Returned res)).
Proof.
  destruct (pool_progress no_env accepting (Some 1%nat) None demo_state 0
              (Dequeued (MkEnvelope 0 (prepare no_env "u1" demo_request)))
              (MkEnvelope 1 (prepare no_env "u2" demo_request)) []) as (s' & Hr & Hc & Hs).
  - intros r. by eexists.
  - exact demo_reachable.
  - by vm_compute.
  - done.
  - by vm_compute.
  - exists s'. split_and!; [exact Hr|exact Hc|].
    destruct (Hs (MkSubmission demo_request "u2" Awaiting) eq_refl eq_refl) as (res & _ & H). by exists res.
Defined.
