(* ===== verification/Api.v ===== *)
(** * The HTTP gateway: authentication and routing

    [src/src/api/mod.rs]: the comparison of the API secret, the reading of the
    [JUDGE_*] variables, the authentication middleware, the CORS policy and the route
    table of [create_router].  Header values, header parsing and path matching belong
    to the [http] and [axum] crates and are parameters. *)

From S2P Require Import Prelude Admission Languages.

Open Scope string_scope.

(* ------------------------------------------------------------------ *)
(** ** The secret *)

(** One step of the loop of [secret_eq]: [diff |= a ^ b]. *)
Definition diff_step (diff : Z) (p : ascii * ascii) : Z :=
  Z.lor diff (Z.lxor (code (fst p)) (code (snd p))).

Definition secret_eq (provided expected : bytes) : bool :=
  if negb (length provided =? length expected)%nat then false
  else (foldl diff_step 0 (zip provided expected) =? 0)%Z.

(** An empty or whitespace-only secret is no secret. *)
Definition normalize_secret (secret : option string) : option string :=
  match secret with
  | Some s => if is_empty (trim s) then None else Some s
  | None => None
  end.

Definition require_auth_enabled (env : Env) : bool :=
  match env "JUDGE_REQUIRE_AUTH" with
  | Some v => bool_decide (to_ascii_lowercase (trim v) ∈ ["1"; "true"; "yes"; "on"])
  | None => false
  end.

(* ------------------------------------------------------------------ *)
(** ** CORS *)

Inductive CorsLayer : Type :=
  | Permissive
  | Restricted (origins methods headers : list string).

(** [parse_header]: [str::parse::<HeaderValue>]. *)
Definition build_cors_layer (parse_header : string -> option string) (env : Env) : CorsLayer :=
  match env "JUDGE_CORS_ALLOW_ORIGIN" with
  | Some v =>
      if decide (trim v = "*") then Permissive
      else if negb (is_empty (trim v)) then
        Restricted (omap (fun o => parse_header (trim o)) (split ","%char v))
          ["GET"; "POST"] ["content-type"; "authorization"; "x-judge-secret"]
      else Permissive
  | None => Permissive
  end.

(* ------------------------------------------------------------------ *)
(** ** Routes *)

Inductive Method : Type := GET | POST.

Inductive Handler : Type :=
  | H_submit | H_submit_async | H_get_result | H_websocket | H_result_ws
  | H_health | H_metrics.

#[export] Instance Method_eq_dec : EqDecision Method.
Proof. solve_decision. Defined.

#[export] Instance Handler_eq_dec : EqDecision Handler.
Proof. solve_decision. Defined.

Record Route : Type := MkRoute { pattern : string; method : Method; handler : Handler }.

(** The routes under the authentication layer, and the others. *)
Definition protected_routes : list Route :=
  [MkRoute "/api/v1/submit" POST H_submit;
   MkRoute "/api/v1/submit/async" POST H_submit_async;
   MkRoute "/api/v1/result/:job_id" GET H_get_result;
   MkRoute "/api/v1/ws/execute" GET H_websocket;
   MkRoute "/api/v1/ws/result/:job_id" GET H_result_ws].

Definition public_routes : list Route :=
  [MkRoute "/health" GET H_health; MkRoute "/metrics" GET H_metrics].

Definition body_limit : Z := 2 * 1024 * 1024.

Section Api.
(** The result bus, and the values of headers. *)
Context {Bus HeaderValue : Type}.
(** [HeaderValue::to_str] and [parse::<HeaderValue>] *)
Context (to_str : HeaderValue -> option string) (parse_header : string -> option string).
(** [ResultBus::spawn] on a URL *)
Context (spawn_bus : string -> option Bus).
(** Whether a request path matches a route pattern. *)
Context (path_matches : string -> string -> bool).

Record ApiState : Type := MkState {
  secret : option string;
  redis_url : option string;
  enabled_languages : option (gset SupportedLanguage);
  result_bus : option Bus
}.

Record Router : Type := MkRouter {
  state : ApiState;
  routes : list (bool * Route);   (** with the authentication layer, or without *)
  max_body : Z;
  cors : CorsLayer
}.

Definition create_router (env : Env) (secret redis_url : option string)
    (enabled : option (gset SupportedLanguage)) : Router :=
  let bus := match redis_url with Some u => spawn_bus u | None => None end in
  let secret := normalize_secret secret in
  MkRouter (MkState secret redis_url enabled bus)
    (map (pair true) protected_routes ++ map (pair false) public_routes)%list
    body_limit (build_cors_layer parse_header env).

Definition Headers : Type := string -> option HeaderValue.

(** The text of a header; [None] if it is absent or not a string. *)
Definition header_str (headers : Headers) (name : string) : option string :=
  match headers name with Some v => to_str v | None => None end.

(** The credential a request presents. *)
Definition provided_secret (headers : Headers) : option string :=
  match header_str headers "x-judge-secret" with
  | Some p => Some p
  | None => match header_str headers "authorization" with
            | Some v => strip_prefix "Bearer " v
            | None => None
            end
  end.

Definition unauthorized : Z := 401.

(** [auth_middleware]: [next] is what the inner service answers. *)
Definition auth_middleware {R : Type} (st : ApiState) (headers : Headers) (next : R) : result Z R :=
  match secret st with
  | Some expected =>
      let authorized := match provided_secret headers with
                        | Some p => secret_eq (as_bytes p) (as_bytes expected)
                        | None => false
                        end in
      if authorized then Ok next else Err unauthorized
  | None => Ok next
  end.

Definition reaches (m : Method) (path : string) (r : bool * Route) : bool :=
  bool_decide (method (snd r) = m) && path_matches (pattern (snd r)) path.

(** The handler a request is given to, or the status it is refused with; [None]: no
    such route. *)
Definition serve (r : Router) (m : Method) (path : string) (headers : Headers) : option (result Z Handler) :=
  match List.find (reaches m path) (routes r) with
  | Some (guarded, route) =>
      Some (if guarded : bool then auth_middleware (state r) headers (handler route) else Ok (handler route))
  | None => None
  end.

(* ------------------------------------------------------------------ *)
(** ** Lemmas *)

Lemma code_inj a b : code a = code b -> a = b.
Proof. unfold code. intros H%N2Z.inj. by rewrite <- (ascii_N_embedding a), H, ascii_N_embedding. Qed.

Lemma lor_zero a b : Z.lor a b = 0%Z <-> a = 0%Z /\ b = 0%Z.
Proof. apply Z.lor_eq_0_iff. Qed.

Lemma diff_zero ps : forall d, foldl diff_step d ps = 0%Z <-> d = 0%Z /\ Forall (fun p => fst p = snd p) ps.
Proof.
  induction ps as [|[a b] ps IH]; intros d; cbn [foldl].
  - split; [by split|by intros []].
  - rewrite IH. unfold diff_step. cbn [fst snd]. rewrite lor_zero, Z.lxor_eq_0_iff, Forall_cons. cbn.
    split; [intros [[? ?%code_inj] ?]; auto|]. by intros [? [-> ?]].
Qed.

Lemma zip_agree (l k : bytes) :
  length l = length k -> Forall (fun p : ascii * ascii => fst p = snd p) (zip l k) <-> l = k.
Proof.
  revert k. induction l as [|a l IH]; intros [|b k]; cbn; try done.
  intros [= H]. rewrite Forall_cons, (IH k H). cbn. split; [by intros [-> ->]|by intros [= -> ->]].
Qed.

Lemma secret_eq_iff provided expected : secret_eq provided expected = true <-> provided = expected.
Proof.
  unfold secret_eq. destruct (Nat.eqb_spec (length provided) (length expected)) as [Hl|Hl]; cbn [negb].
  - rewrite Z.eqb_eq, diff_zero, zip_agree by done. tauto.
  - split; [done|]. by intros ->.
Qed.

Lemma auth_middleware_iff {R : Type} st headers (next : R) s :
  secret st = Some s -> auth_middleware st headers next = Ok next <-> provided_secret headers = Some s.
Proof.
  intros Hs. unfold auth_middleware. rewrite Hs. destruct (provided_secret headers) as [p|]; [|done].
  destruct (secret_eq (as_bytes p) (as_bytes s)) eqn:E.
  - apply secret_eq_iff, as_bytes_inj in E. by subst.
  - split; [done|]. intros [= ->]. by rewrite (proj2 (secret_eq_iff _ _) eq_refl) in E.
Qed.

Lemma normalize_secret_some sec s :
  normalize_secret sec = Some s <-> sec = Some s /\ trim s <> "".
Proof.
  unfold normalize_secret. destruct sec as [t|]; [|by split; [|intros []]].
  destruct (trim t) eqn:E; cbn.
  - split; [done|]. intros [[= <-] H]. by rewrite E in H.
  - split; [intros [= <-]; by rewrite E|by intros [[= <-] _]].
Qed.

(** Only the routes of the authentication layer reach their handlers. *)
Lemma public_route route :
  List.In (false, route) (map (pair true) protected_routes ++ map (pair false) public_routes)%list ->
  handler route = H_health \/ handler route = H_metrics.
Proof.
  intros [H|H]%List.in_app_iff; apply List.in_map_iff in H as (x & Hx & Hin); [done|].
  injection Hx as ->. cbn in Hin. destruct Hin as [<-|[<-|[]]]; cbn; auto.
Qed.

(** A request that reaches a protected handler presented the secret. *)
Lemma serve_authorized env sec url langs m path headers h s :
  normalize_secret sec = Some s ->
  serve (create_router env sec url langs) m path headers = Some (Ok h) ->
  h = H_health \/ h = H_metrics \/ provided_secret headers = Some s.
Proof.
  intros Hs. unfold serve, create_router. cbn [state routes].
  destruct (List.find _ _) as [[g route]|] eqn:Hf; [|done].
  apply List.find_some in Hf as [Hin _]. intros [= Hh]. destruct g.
  - right. right. apply (auth_middleware_iff (MkState (normalize_secret sec) url langs
      (match url with Some u => spawn_bus u | None => None end)) headers (handler route) s Hs).
    unfold auth_middleware in Hh |- *. cbn [secret] in Hh |- *. rewrite Hs in Hh |- *.
    by destruct (match provided_secret headers with Some p => _ | None => false end).
  - injection Hh as <-. destruct (public_route route Hin); auto.
Qed.

(* ------------------------------------------------------------------ *)
(** ** Properties *)

(** The comparison that is built to take the same time for every guess of the
    right length accepts exactly the expected secret. *)
Theorem secret_eq_spec provided expected :
  secret_eq (as_bytes provided) (as_bytes expected) = bool_decide (provided = expected).
Proof.
  case_bool_decide as H.
  - subst. by apply secret_eq_iff.
  - destruct (secret_eq _ _) eqn:E; [|done]. by apply secret_eq_iff, as_bytes_inj in E.
Qed.

(** C14. Authentication cannot be bypassed: on a router created with any configured
    secret - blank ones included - a request is given to a handler other than [/health]
    and [/metrics] only if there is no usable secret at all or the request presents
    exactly that secret, in [X-Judge-Secret] or, when that header has no readable
    value, as a bearer token; a request that presents it is never refused; and an
    accepted secret is never blank. *)
Theorem auth_gate env sec url langs m path headers :
  let r := create_router env sec url langs in
  (forall h, serve r m path headers = Some (Ok h) ->
     h = H_health \/ h = H_metrics \/ normalize_secret sec = None \/
     exists s, normalize_secret sec = Some s /\ trim s <> "" /\ provided_secret headers = Some s) /\
  (forall s, normalize_secret sec = Some s -> provided_secret headers = Some s ->
     serve r m path headers <> Some (Err unauthorized)) /\
  (normalize_secret sec = None -> serve r m path headers <> Some (Err unauthorized)).
Proof.
  cbv zeta. split; [|unfold serve, create_router; cbn [state routes];
    destruct (List.find _ _) as [[g route]|] eqn:Hf; [split|by repeat split; intros]].
  - intros h Hh. destruct (normalize_secret sec) as [s|] eqn:Hs; [|auto].
    pose proof (proj1 (normalize_secret_some sec s) Hs) as [_ Hb].
    destruct (serve_authorized env sec url langs m path headers h s Hs Hh) as [?|[?|?]]; [auto..|].
    right. right. right. by exists s.
  - intros s Hs Hp. destruct g; [|done].
    by rewrite (proj2 (auth_middleware_iff (MkState _ _ _ _) headers (handler route) s Hs) Hp).
  - intros Hs. destruct g; [|done]. unfold auth_middleware. cbn [secret]. by rewrite Hs.
Qed.
End Api.
