(* ===== verification/Main.v ===== *)
(** * Startup

    [src/src/main.rs]: what [main] refuses, which services each run mode starts and in
    which order, and how the process lives and ends: the listener that cannot be bound,
    the consumer that gives up, and the shutdown signals.  Command-line parsing is
    [clap]'s: the model starts from the parsed [Args].  The tracing setup and its
    messages are not modelled. *)

From S2P Require Import Prelude Admission Languages Pool Api.

Open Scope string_scope.

Inductive RunMode : Type := Server | Worker | All.

Record Args : Type := MkArgs {
  mode : RunMode;
  port : Z;
  arg_secret : option string;
  token : option string;
  languages : option string;
  arg_workers : option string;
  redis : string
}.

Definition no_secret_error : string :=
  "JUDGE_REQUIRE_AUTH is set but no usable JUDGE_SECRET was provided (unset or empty) — " +:+
  "refusing to start an unauthenticated judge. Set JUDGE_SECRET to a non-empty value " +:+
  "(or unset JUDGE_REQUIRE_AUTH for local use).".

(** [num_workers]: [None] is automatic detection. *)
Definition requested_workers (workers : option string) : option nat :=
  match workers with
  | None => None
  | Some s => if decide (s ∈ ["auto"; ""]) then None else Z.to_nat <$> parse_u64 s
  end.

(* ------------------------------------------------------------------ *)
(** ** The order of the startup *)

Inductive BootAction : Type :=
  | SetChildSubreaper   (** [prctl(PR_SET_CHILD_SUBREAPER)] *)
  | SpawnReaper         (** the task that calls [reap_all] on every [SIGCHLD] *)
  | SpawnWorkers        (** [run_workers] *)
  | SpawnGateway        (** the gateway as a task of its own *)
  | AwaitGateway        (** the gateway as the end of [main] *)
  | AwaitConsumer
  | AwaitShutdown.

#[export] Instance BootAction_eq_dec : EqDecision BootAction.
Proof. solve_decision. Defined.

(** What [main] ends in: the last action of its mode, after the others. *)
Definition mode_actions (m : RunMode) (workers : Z) : list BootAction :=
  match m with
  | Server => [SpawnWorkers; AwaitGateway]
  | Worker => [SpawnWorkers; AwaitConsumer]
  | All => [SpawnWorkers; SpawnGateway; if (0 <? workers)%Z then AwaitConsumer else AwaitShutdown]
  end.

Definition boot (env : Env) (cpus : option nat) (args : Args) : list BootAction :=
  let api_secret := normalize_secret (arg_secret args) in
  if require_auth_enabled env && negb (bool_decide (is_Some api_secret)) then []
  else SetChildSubreaper :: SpawnReaper ::
         mode_actions (mode args) (num_workers (pool_new env (requested_workers (arg_workers args)) cpus)).

(* ------------------------------------------------------------------ *)
(** ** The life of the process *)

(** Where the gateway is: none, serving, or shut down gracefully. *)
Inductive GatewayState : Type := Absent | Serving | Stopped.

(** Where [main] is. *)
Inductive MainState : Type :=
  | InGateway | InConsumer | InShutdown
  | Returned (r : result string unit)
  | KilledBySignal
  | Aborted.                    (** a panic: the release profile of [Cargo.toml] sets [panic = "abort"] *)

(** [handled]: a [shutdown_signal] was awaited, so tokio's handlers replaced the default
    action of the two signals; they are never removed. *)
Record Process : Type := MkProcess { gate : GatewayState; at_ : MainState; handled : bool }.

(** [TcpListener::bind] fails: [run_server] returns the error; in [run_all] the gateway's
    task panics ([expect]), which aborts the process. *)
Definition start_process (m : RunMode) (workers : Z) (bind : result string unit) : Process :=
  match m with
  | Server =>
      match bind with
      | Ok _ => MkProcess Serving InGateway true
      | Err e => MkProcess Absent (Returned (Err e)) false
      end
  | Worker => MkProcess Absent InConsumer false
  | All =>
      match bind with
      | Ok _ => MkProcess Serving (if (0 <? workers)%Z then InConsumer else InShutdown) true
      | Err _ => MkProcess Absent Aborted false
      end
  end.

Inductive ProcessEvent : Type :=
  | Signal                      (** [SIGTERM] or Ctrl-C *)
  | ConsumerFails (e : string). (** [consumer.run()] returns: it could not connect *)

Definition running (p : Process) : bool :=
  match at_ p with Returned _ | KilledBySignal | Aborted => false | _ => true end.

Definition process_step (p : Process) (e : ProcessEvent) : Process :=
  if negb (running p) then p else
  match e with
  | Signal =>
      if handled p then
        MkProcess (match gate p with Serving => Stopped | g => g end)
          (match at_ p with InConsumer => InConsumer | _ => Returned (Ok tt) end) true
      else MkProcess Absent KilledBySignal false
  | ConsumerFails m =>
      match at_ p with
      | InConsumer => MkProcess Absent (Returned (Err m)) (handled p)
      | _ => p
      end
  end.

Definition lives (p : Process) (es : list ProcessEvent) : Process := fold_left process_step es p.

Section Main.
Context {Bus HeaderValue : Type}.
Context (to_str : HeaderValue -> option string) (parse_header : string -> option string).
Context (spawn_bus : string -> option Bus) (path_matches : string -> string -> bool).

(** What a started process runs: the worker pool, the HTTP gateway, the Redis consumer. *)
Record Services : Type := MkServices {
  pool : JudgeWorkerPool;
  gateway : option (Router (Bus := Bus));
  consumer : option string   (** the URL it reads from *)
}.

Definition run_server (env : Env) (pool : JudgeWorkerPool) (secret : option string)
    (langs : option (gset SupportedLanguage)) : Services :=
  MkServices pool (Some (create_router parse_header spawn_bus env secret None langs)) None.

Definition run_worker (pool : JudgeWorkerPool) (redis_url : string) : Services :=
  MkServices pool None (Some redis_url).

Definition run_all (env : Env) (pool : JudgeWorkerPool) (secret : option string) (redis_url : string)
    (langs : option (gset SupportedLanguage)) : Services :=
  MkServices pool (Some (create_router parse_header spawn_bus env secret (Some redis_url) langs))
    (if (0 <? num_workers pool)%Z then Some redis_url else None).

Definition main (env : Env) (cpus : option nat) (args : Args) : result string Services :=
  let api_secret := normalize_secret (arg_secret args) in
  if require_auth_enabled env && negb (bool_decide (is_Some api_secret)) then Err no_secret_error
  else
    let enabled := parse_whitelist <$> languages args in
    let pool := pool_new env (requested_workers (arg_workers args)) cpus in
    Ok (match mode args with
        | Server => run_server env pool api_secret enabled
        | Worker => run_worker pool (redis args)
        | All => run_all env pool api_secret (redis args) enabled
        end).

(* ------------------------------------------------------------------ *)
(** ** Properties *)

Lemma normalize_idempotent sec : normalize_secret (normalize_secret sec) = normalize_secret sec.
Proof.
  destruct (normalize_secret sec) as [s|] eqn:E; [|done].
  apply normalize_secret_some in E as [-> H]. by apply normalize_secret_some.
Qed.

(** The gateway of a started process was built with the normalized secret. *)
Lemma main_gateway env cpus args sv r :
  main env cpus args = Ok sv -> gateway sv = Some r ->
  exists url langs, r = create_router parse_header spawn_bus env (normalize_secret (arg_secret args)) url langs.
Proof.
  unfold main. destruct (_ && _); [done|]. intros [= <-]. destruct (mode args); cbn; [|done|];
    intros [= <-]; eauto.
Qed.

(** C16. An auth-required deployment fails closed: with [JUDGE_REQUIRE_AUTH] on, the
    process starts in no mode without a usable secret, and once started, whatever the
    mode and the other settings, its gateway gives a request to a handler other than
    [/health] and [/metrics] only if the request presents that secret, which is not
    blank. *)
Theorem startup_fail_closed env cpus args sv :
  require_auth_enabled env = true -> main env cpus args = Ok sv ->
  exists s, arg_secret args = Some s /\ trim s <> "" /\
    forall r m path headers h, gateway sv = Some r ->
      serve to_str path_matches r m path headers = Some (Ok h) ->
      h = H_health \/ h = H_metrics \/ provided_secret to_str headers = Some s.
Proof.
  intros Ha Hm. destruct (normalize_secret (arg_secret args)) as [s|] eqn:Hs.
  - exists s. apply normalize_secret_some in Hs as Hs'. destruct Hs' as [H1 H2]. split_and!; [done|done|].
    intros r m path headers h Hg Hh. destruct (main_gateway env cpus args sv r Hm Hg) as (url & langs & ->).
    eapply serve_authorized; [|exact Hh]. by rewrite normalize_idempotent.
  - unfold main in Hm. rewrite Ha, Hs in Hm. done.
Qed.

(** The services of each mode: a server has a gateway without the cluster, a
    worker only consumes, and all-in-one does both - except that a control-plane node
    (no workers) does not consume, so it cannot claim jobs it will never run.  A
    [worker]-mode node with no workers is not guarded the same way: it does consume. *)
Theorem startup_services env cpus args sv :
  main env cpus args = Ok sv ->
  let n := Z.of_nat (worker_count (requested_workers (arg_workers args)) cpus) in
  num_workers (pool sv) = n /\
  match mode args with
  | Server => consumer sv = None /\ exists r, gateway sv = Some r /\ redis_url (state r) = None /\
                                              result_bus (state r) = None
  | Worker => consumer sv = Some (redis args) /\ gateway sv = None
  | All => (exists r, gateway sv = Some r /\ redis_url (state r) = Some (redis args)) /\
           (consumer sv = Some (redis args) <-> 0 < n) /\ (consumer sv = None <-> n = 0)
  end.
Proof.
  unfold main. destruct (_ && _); [done|]. intros [= <-]. cbv zeta.
  assert (forall num, num_workers (pool_new env num cpus) = Z.of_nat (worker_count num cpus)) as Hn.
  { intros num. unfold num_workers. cbn. by rewrite length_replicate. }
  destruct (mode args); cbn; rewrite ?Hn; (split; [done|]).
  - split; [done|]. by eexists.
  - done.
  - split; [by eexists|].
    destruct (Z.ltb_spec 0 (Z.of_nat (worker_count (requested_workers (arg_workers args)) cpus)));
      (split; (split; [intros ?|intros ?]); (done || lia)).
Qed.
End Main.

(** The reaper runs before anything that may fork, and a refused start starts nothing. *)
Theorem boot_order env cpus args :
  match boot env cpus args with
  | [] => require_auth_enabled env = true /\ normalize_secret (arg_secret args) = None
  | l => exists rest, l = SetChildSubreaper :: SpawnReaper :: SpawnWorkers :: rest /\ SpawnWorkers ∉ rest
  end.
Proof.
  unfold boot. destruct (require_auth_enabled env); cbn [andb].
  - destruct (normalize_secret (arg_secret args)) as [x|]; [|done]. cbn [negb].
    rewrite bool_decide_eq_true_2 by done. cbn [negb].
    destruct (mode args); cbn [mode_actions]; (eexists; split; [reflexivity|]); try destruct (0 <? _)%Z;
      apply (bool_decide_unpack _); reflexivity.
  - destruct (mode args); cbn [mode_actions]; (eexists; split; [reflexivity|]); try destruct (0 <? _)%Z;
      apply (bool_decide_unpack _); reflexivity.
Qed.

Definition signals (n : nat) : list ProcessEvent := replicate n Signal.

Lemma consumer_keeps_running n gate0 :
  lives (MkProcess gate0 InConsumer true) (signals (S n)) =
  MkProcess (match gate0 with Serving => Stopped | g => g end) InConsumer true.
Proof.
  induction n as [|n IH] in gate0 |- *; [by destruct gate0|].
  destruct gate0; [exact (IH Absent)|exact (IH Stopped)|exact (IH Stopped)].
Qed.

Lemma ended_stays p es : running p = false -> lives p es = p.
Proof.
  intros Hp. induction es as [|e es IH]; [done|]. cbn [lives fold_left]. unfold process_step.
  rewrite Hp. exact IH.
Qed.

Lemma signal_ends p n :
  running (process_step p Signal) = false -> lives p (signals (S n)) = process_step p Signal.
Proof. exact (ended_stays _ (signals n)). Qed.


(* ------------------------------------------------------------------ *)
(** ** Witnesses: text headers, exact paths, and a bus that always connects *)

Definition exact_path (pattern path : string) : bool := bool_decide (pattern = path).
Definition demo_bus (url : string) : option string := Some url.

Definition auth_env : Env := fun k => if decide (k = "JUDGE_REQUIRE_AUTH") then Some " Yes " else None.
Definition demo_args : Args := MkArgs All 8080 (Some "s3cret") None (Some "cpp,python") (Some "0") "redis://r".

Definition demo_services : Services (Bus := string) :=
  match main (Bus := string) Some demo_bus auth_env None demo_args with
  | Ok sv => sv
  | Err _ => MkServices (pool_new auth_env None None) None None
  end.

Lemma startup_fail_closed_witness :
  exists s, arg_secret demo_args = Some s /\
    forall r m path headers h, gateway demo_services = Some r ->
      serve (HeaderValue := string) Some exact_path r m path headers = Some (Ok h) ->
      h = H_health \/ h = H_metrics \/ provided_secret Some headers = Some s.
Proof.
  destruct (startup_fail_closed (Bus := string) (HeaderValue := string) Some Some demo_bus exact_path
              auth_env None demo_args demo_services) as (s & Hs & _ & H).
  - vm_compute. reflexivity.
  - reflexivity.
  - exists s. split; [exact Hs|exact H].
Defined.

(** A control-plane node. *)
Lemma startup_services_witness :
  num_workers (pool demo_services) = 0%Z /\ consumer demo_services = None.
Proof.
  destruct (startup_services (Bus := string) Some demo_bus auth_env None demo_args demo_services eq_refl)
    as (Hn & _ & _ & Hc).
  split; [exact Hn|]. apply (proj2 Hc). vm_compute. reflexivity.
Defined.
