(* ===== verification/Broker.v ===== *)
(** * The Redis side: the result bus and the job reporter

    [src/src/api/result_bus.rs] ([ResultBus]: [enqueue], [try_result], [is_pending])
    and the reporting half of [src/src/queue/redis.rs] ([publish_result],
    [ack_existing], [run_pipe_with_retry]).  The Redis server is not modelled: it is an
    arbitrary function from the exchange so far and the next request to a reply, so
    the theorems hold whatever it answers and whichever connection drops.  JSON
    encoding (serde) and the conversion of replies (the [redis] crate) are parameters. *)

From S2P Require Import Prelude Admission Job.

Open Scope string_scope.

(** [redis::Value], as far as the code looks into it. *)
Inductive Value : Type :=
  | Nil
  | Int (z : Z)
  | BulkString (b : bytes)
  | Array (l : list Value)
  | OtherValue.

(** One interaction: opening a connection, a pipeline of commands, or a pause; and, so
    that its place among them is recorded, the registration of a waiter in the process's
    own registry ([ResultBus::register]), whose answer is not looked at. *)
Inductive Request : Type :=
  | Connect
  | Query (cmds : list (list string))
  | Sleep (ms : Z)
  | RegisterWaiter (id : string).

#[export] Instance Request_eq_dec : EqDecision Request.
Proof. solve_decision. Defined.

(** [Ok vs]: one value per command of the pipeline; [Err]: the connection or a command
    failed. *)
Abbreviation Answer := (result string (list Value)).
Abbreviation Log := (list (Request * Answer)).
Definition Redis : Type := Log -> Request -> Answer.

(** A computation that talks to Redis. *)
Definition Rd (A : Type) : Type := Redis -> Log -> Log * A.

#[export] Instance rd_ret : MRet Rd := fun A a r l => (l, a).
#[export] Instance rd_bind : MBind Rd := fun A B f m r l => let '(l', a) := m r l in f a r l'.

Definition ask (q : Request) : Rd Answer := fun r l => let a := r l q in ((l ++ [(q, a)])%list, a).

(** A single command: its value, or the error. *)
Definition command (cmd : list string) : Rd (option Value) :=
  a ← ask (Query [cmd]);
  mret (match a with Ok [v] => Some v | _ => None end).

(* ------------------------------------------------------------------ *)
(** ** Keys *)

Definition result_key (id : string) : string := "judge:results:" +:+ id.
Definition pending_key (id : string) : string := "judge:pending:" +:+ id.
Definition done_channel (id : string) : string := "judge:done:" +:+ id.

Definition stream_maxlen (env : Env) : Z :=
  match env "JUDGE_STREAM_MAXLEN" with
  | Some s => match parse_u64 (trim s) with Some n => n | None => 10000 end
  | None => 10000
  end.

Inductive EnqueueOutcome : Type := Queued | Duplicate | RedisDown.

#[export] Instance EnqueueOutcome_eq_dec : EqDecision EnqueueOutcome.
Proof. solve_decision. Defined.

Section Broker.
(** serde and the conversions [FromRedisValue] for [String] and [bool]. *)
Context (encode_request : JobRequest -> option string).
Context (encode_result : JobResult -> option string) (decode_result : string -> option JobResult).
Context (string_of : Value -> option string) (bool_of : Value -> option bool) (int_of : Value -> option Z).
Context (env : Env).

(** [Option<String>]: nil is no value. *)
Definition opt_string_of (v : Value) : option (option string) :=
  match v with Nil => Some None | _ => Some <$> string_of v end.

Definition try_result (id : string) : Rd (option JobResult) :=
  v ← command ["GET"; result_key id];
  mret (match v with
        | Some v => match opt_string_of v with
                    | Some (Some json) => decode_result json
                    | _ => None
                    end
        | None => None
        end).

Definition is_pending (id : string) : Rd bool :=
  v ← command ["EXISTS"; pending_key id];
  mret (match v with
        | Some v => match bool_of v with Some b => b | None => false end
        | None => false
        end).

(** The reply to [DEL] and [SET .. NX], read as [(i64, Option<String>)]. *)
Definition claim_reply (a : Answer) : option (option string) :=
  match a with
  | Ok [d; s] => match int_of d with Some _ => opt_string_of s | None => None end
  | _ => None
  end.

Definition claim (id : string) (ttl : Z) : list (list string) :=
  [["DEL"; result_key id]; ["SET"; pending_key id; "1"; "EX"; show_Z ttl; "NX"]].

Definition xadd (json : string) : list string :=
  (["XADD"; "judge:jobs"] ++
   (if 0 <? stream_maxlen env then ["MAXLEN"; "~"; show_Z (stream_maxlen env)] else []) ++
   ["*"; "job"; json])%list%Z.

Definition enqueue (request : JobRequest) (pending_ttl_secs : Z) : Rd EnqueueOutcome :=
  match encode_request request with
  | None => mret RedisDown
  | Some json =>
      a ← ask (Query (claim (job_id request) pending_ttl_secs));
      match claim_reply a with
      | None => mret RedisDown
      | Some None => mret Duplicate
      | Some (Some _) =>
          v ← command (xadd json);
          match v ≫= string_of with
          | Some _ => mret Queued
          | None => _ ← command ["DEL"; pending_key (job_id request)]; mret RedisDown
          end
      end
  end.

(* ------------------------------------------------------------------ *)
(** ** Reporting a result *)

Definition MAX_ATTEMPTS : nat := 12.

Definition backoff_ms (attempt : nat) : Z := Z.min 2000 (200 * Z.of_nat attempt).

(** A fresh connection and one execution of the pipeline. *)
Definition try_pipe (cmds : list (list string)) : Rd bool :=
  c ← ask Connect;
  match c with
  | Err _ => mret false
  | Ok _ => a ← ask (Query cmds); mret (match a with Ok _ => true | Err _ => false end)
  end.

(** The attempts [attempt], [attempt + 1], ..; [left] of them remain. *)
Fixpoint attempts (left attempt : nat) (cmds : list (list string)) : Rd bool :=
  match left with
  | O => mret false
  | S left' =>
      done ← try_pipe cmds;
      if done : bool then mret true
      else if decide (left' = 0%nat) then mret false
      else _ ← ask (Sleep (backoff_ms attempt)); attempts left' (S attempt) cmds
  end.

Definition run_pipe_with_retry (cmds : list (list string)) : Rd bool := attempts MAX_ATTEMPTS 1 cmds.

Section Report.
Context (stream_key consumer_group : string).

Definition publish_pipe (msg_id : string) (res : JobResult) (json : string) (ttl : Z) : list (list string) :=
  let id := res_job_id res in
  [["SET"; result_key id; json; "EX"; show_Z ttl];
   ["DEL"; pending_key id];
   ["XACK"; stream_key; consumer_group; msg_id];
   ["PUBLISH"; done_channel id; id]].

(** [serde_json::to_string(result).unwrap_or_default()] *)
Definition json_of (res : JobResult) : string :=
  match encode_result res with Some j => j | None => "" end.

Definition publish_result (msg_id : string) (res : JobResult) (ttl : Z) : Rd bool :=
  run_pipe_with_retry (publish_pipe msg_id res (json_of res) ttl).

Definition ack_pipe (msg_id id : string) : list (list string) :=
  [["DEL"; pending_key id]; ["XACK"; stream_key; consumer_group; msg_id]; ["PUBLISH"; done_channel id; id]].

Definition ack_existing (msg_id id : string) : Rd bool := run_pipe_with_retry (ack_pipe msg_id id).
End Report.

(* ------------------------------------------------------------------ *)
(** ** Lemmas *)

Lemma rd_run {A B : Type} (m : Rd A) (f : A -> Rd B) r l :
  (m ≫= f) r l = f (snd (m r l)) r (fst (m r l)).
Proof. unfold mbind, rd_bind. by destruct (m r l). Qed.

Lemma ask_run q r l : ask q r l = ((l ++ [(q, r l q)])%list, r l q).
Proof. done. Qed.

(** The pauses of a log, in milliseconds, and the connections it opened. *)
Definition pause (e : Request * Answer) : Z := match fst e with Sleep ms => ms | _ => 0 end.
Definition slept (t : Log) : Z := foldr (fun e n => pause e + n)%Z 0%Z t.
Definition is_connect (e : Request * Answer) : bool := match fst e with Connect => true | _ => false end.
Definition connects (t : Log) : nat := length (List.filter is_connect t).

(** A pipeline that Redis acknowledged. *)
Definition landed (cmds : list (list string)) (e : Request * Answer) : Prop :=
  fst e = Query cmds /\ exists vs, snd e = Ok vs.

Definition failed_attempt (cmds : list (list string)) (e : Request * Answer) : Prop :=
  fst e = Connect \/ (exists ms, fst e = Sleep ms) \/ (fst e = Query cmds /\ exists m, snd e = Err m).

(** The pauses after attempts [n .. n + k - 2] of [k]. *)
Definition pauses (k n : nat) : Z := foldr Z.add 0%Z (map backoff_ms (seq n (pred k))).

Lemma pauses_step k n : pauses (S (S k)) n = (backoff_ms n + pauses (S k) (S n))%Z.
Proof. done. Qed.

Lemma backoff_nonneg n : (0 <= backoff_ms n)%Z.
Proof. unfold backoff_ms. lia. Qed.

Lemma pauses_nonneg k n : (0 <= pauses k n)%Z.
Proof.
  unfold pauses. generalize (pred k). intros m. revert n.
  induction m as [|m IH]; intros n; cbn; [lia|]. pose proof (backoff_nonneg n). specialize (IH (S n)). lia.
Qed.

(** How a sequence of attempts goes: failed ones, then at most one that landed. *)
Definition tried (cmds : list (list string)) (k n : nat) (t : Log) (ok : bool) : Prop :=
  exists t0 t1, t = (t0 ++ t1)%list /\ Forall (failed_attempt cmds) t0 /\
    (connects t0 <= k)%nat /\ (0 <= slept t0 <= pauses k n)%Z /\
    (if ok then exists e, t1 = [e] /\ landed cmds e else t1 = [] /\ connects t0 = k).

Lemma connects_app t u : connects (t ++ u) = (connects t + connects u)%nat.
Proof. unfold connects. by rewrite List.filter_app, length_app. Qed.

Lemma slept_app t u : slept (t ++ u) = (slept t + slept u)%Z.
Proof. induction t as [|e t IH]; [done|]. cbn. fold (slept (t ++ u)) (slept t). lia. Qed.

Lemma try_pipe_run cmds r l :
  exists ps, fst (try_pipe cmds r l) = (l ++ ps)%list /\ connects ps = 1%nat /\ slept ps = 0%Z /\
    if snd (try_pipe cmds r l) then exists u e, ps = [(Connect, u); e] /\ landed cmds e
    else Forall (failed_attempt cmds) ps.
Proof.
  unfold try_pipe. rewrite rd_run, ask_run. cbn [fst snd]. set (c := r l Connect).
  assert (failed_attempt cmds (Connect, c)) as Hf by by left.
  destruct c as [u|e]; cbn [fst snd mret rd_ret].
  - rewrite rd_run, ask_run. cbn [fst snd]. set (a := r _ (Query cmds)).
    exists [(Connect, Ok u); (Query cmds, a)]. rewrite <- app_assoc. split_and!; [done..|].
    destruct a as [vs|e]; cbn.
    + eexists _, _. split; [done|]. split; [done|by eexists].
    + constructor; [exact Hf|]. constructor; [|done]. right. right. by split; [|eexists].
  - exists [(Connect, Err e)]. split_and!; [done..|]. cbn. by constructor.
Qed.

(** A failed attempt and its pause, before the others. *)
Lemma tried_cons cmds k n t ok ps a :
  Forall (failed_attempt cmds) ps -> connects ps = 1%nat -> slept ps = 0%Z ->
  tried cmds (S k) (S n) t ok ->
  tried cmds (S (S k)) n (ps ++ (Sleep (backoff_ms n), a) :: t) ok.
Proof.
  intros Hf Hc Hs (t0 & t1 & -> & H1 & H2 & H3 & H4).
  exists (ps ++ (Sleep (backoff_ms n), a) :: t0)%list, t1.
  assert (connects (ps ++ (Sleep (backoff_ms n), a) :: t0) = S (connects t0)) as Hcc.
  { rewrite connects_app, Hc. done. }
  assert (slept (ps ++ (Sleep (backoff_ms n), a) :: t0) = backoff_ms n + slept t0)%Z as Hss.
  { rewrite slept_app, Hs. done. }
  pose proof (backoff_nonneg n). rewrite Hcc, Hss, pauses_step.
  split; [by rewrite <- app_assoc|]. split; [|split; [lia|split; [lia|]]].
  - apply Forall_app_2; [done|]. constructor; [|done]. right. left. by eexists.
  - destruct ok; [done|]. destruct H4 as [-> H4]. split; [done|lia].
Qed.

Lemma attempts_S left n cmds :
  attempts (S left) n cmds =
  (done ← try_pipe cmds;
   if done : bool then mret true
   else if decide (left = 0%nat) then mret false
   else _ ← ask (Sleep (backoff_ms n)); attempts left (S n) cmds).
Proof. done. Qed.

Lemma attempts_tried k n cmds r l :
  exists t, fst (attempts (S k) n cmds r l) = (l ++ t)%list /\
            tried cmds (S k) n t (snd (attempts (S k) n cmds r l)).
Proof.
  revert n l. induction k as [|k IH]; intros n l; rewrite attempts_S, rd_run; destruct (try_pipe_run cmds r l) as (ps & -> & Hc & Hs & Hok);
    destruct (snd (try_pipe cmds r l)) eqn:Hb.
  1,3: destruct Hok as (u & e & -> & He); exists [(Connect, u); e]; split; [done|];
    match goal with |- tried _ ?j _ _ _ => pose proof (pauses_nonneg j n) end;
    exists [(Connect, u)], [e];
    split; [done|split; [by constructor; [left|]|split; [cbn; lia|split; [|by exists e]]]];
    change (slept [(Connect, u)]) with 0%Z; lia.
  - rewrite decide_True by done. exists ps. split; [done|]. exists ps, [].
    rewrite app_nil_r. cbn in Hs |- *. rewrite Hc, Hs. pose proof (pauses_nonneg 1 n).
    split; [done|split; [done|split; [lia|split; [lia|done]]]].
  - rewrite decide_False by done. rewrite rd_run, ask_run. cbn [fst snd].
    set (a := r _ (Sleep _)).
    destruct (IH (S n) ((l ++ ps) ++ [(Sleep (backoff_ms n), a)])%list) as (t & Ht & Hd).
    exists (ps ++ (Sleep (backoff_ms n), a) :: t)%list.
    rewrite Ht. split; [by rewrite <- !app_assoc|]. by apply tried_cons.
Qed.

(** The requests a computation issued from [l] on. *)
Definition issued_from (l l' : Log) : list Request := map fst (drop (length l) l').

Lemma command_run cmd r l :
  command cmd r l = ((l ++ [(Query [cmd], r l (Query [cmd]))])%list,
    match r l (Query [cmd]) with Ok [v] => Some v | _ => None end).
Proof. done. Qed.

(** A reply that is one string. *)
Definition text_reply (a : Answer) : bool :=
  match a with Ok [v] => bool_decide (is_Some (string_of v)) | _ => false end.

Lemma issued_from_app l t : issued_from l (l ++ t)%list = map fst t.
Proof. unfold issued_from. by rewrite drop_app_length. Qed.

(** What the retries may add up to: the twelve attempts are eleven pauses apart. *)
Lemma pauses_total : pauses MAX_ATTEMPTS 1 = 13000%Z.
Proof. reflexivity. Qed.

(* ------------------------------------------------------------------ *)
(** ** Properties *)

(** C34. What [enqueue] did is what it says.  It first clears a stale result and
    claims the pending marker in one pipeline; [Duplicate] means the marker was taken,
    and nothing was added to the stream; [Queued] means the claim was granted and the
    job was added; every other outcome is [RedisDown], and if the claim had been
    granted the marker is deleted again, so that a retry is not refused. *)
Theorem enqueue_spec r l req ttl json :
  encode_request req = Some json ->
  let claimed := r l (Query (claim (job_id req) ttl)) in
  let l1 := (l ++ [(Query (claim (job_id req) ttl), claimed)])%list in
  let added := r l1 (Query [xadd json]) in
  let '(l', out) := enqueue req ttl r l in
  match claim_reply claimed with
  | None => out = RedisDown /\ issued_from l l' = [Query (claim (job_id req) ttl)]
  | Some None => out = Duplicate /\ issued_from l l' = [Query (claim (job_id req) ttl)]
  | Some (Some _) =>
      if text_reply added then
        out = Queued /\ issued_from l l' = [Query (claim (job_id req) ttl); Query [xadd json]]
      else
        out = RedisDown /\ issued_from l l' =
          [Query (claim (job_id req) ttl); Query [xadd json]; Query [["DEL"; pending_key (job_id req)]]]
  end.
Proof.
  intros Hj. cbv zeta. unfold enqueue. rewrite Hj, rd_run, ask_run. cbn [fst snd].
  set (c := r l _). set (l1 := (l ++ _)%list).
  destruct (claim_reply c) as [[o|]|]; cbn [mret rd_ret];
    [|subst l1; by rewrite issued_from_app..].
  rewrite rd_run, command_run. cbn [fst snd]. set (a := r l1 _).
  assert (match match a with Ok [v] => Some v | _ => None end ≫= string_of with Some _ => true | None => false end
          = text_reply a) as Ht.
  { unfold text_reply. destruct a as [[|v [|]]|]; try done. cbn. by destruct (string_of v). }
  destruct (match a with Ok [v] => Some v | _ => None end ≫= string_of) as [z|]; rewrite <- Ht.
  - cbn [mret rd_ret]. subst l1. by rewrite <- app_assoc, issued_from_app.
  - rewrite rd_run, command_run. cbn [fst snd mret rd_ret]. subst l1.
    by rewrite <- !app_assoc, issued_from_app.
Qed.

(** C25. Reporting a result is all or nothing per attempt and bounded: whatever Redis
    does, the worker opens at most twelve connections and pauses at most 13 seconds in
    total; the only pipeline it sends is the one that stores the result, clears the
    pending marker, acknowledges the message and rings the bell, in this order; it
    reports success exactly when an attempt was acknowledged, stops there, and gives up
    only after twelve connections. *)
Theorem publish_result_spec stream group r l msg_id res ttl :
  let pipe := publish_pipe stream group msg_id res (json_of res) ttl in
  let '(l', ok) := publish_result stream group msg_id res ttl r l in
  exists t0 t1, l' = (l ++ t0 ++ t1)%list /\
    Forall (failed_attempt pipe) t0 /\ (connects t0 <= 12)%nat /\ (slept t0 <= 13000)%Z /\
    (if ok then exists e, t1 = [e] /\ landed pipe e else t1 = [] /\ connects t0 = 12%nat).
Proof.
  cbv zeta. unfold publish_result, run_pipe_with_retry.
  destruct (attempts_tried 11 1 (publish_pipe stream group msg_id res (json_of res) ttl) r l)
    as (t & Ht & t0 & t1 & -> & Hf & Hc & Hs & Hok).
  destruct (attempts _ _ _ r l) as [l' ok]. cbn [fst snd] in *. exists t0, t1.
  change (pauses 12 1) with (pauses MAX_ATTEMPTS 1) in Hs. rewrite pauses_total in Hs.
  split; [exact Ht|]. split; [exact Hf|]. split; [exact Hc|]. split; [lia|exact Hok].
Qed.
End Broker.

(* ------------------------------------------------------------------ *)
(** ** Witness: a Redis that grants everything *)

Definition text_of (v : Value) : option string :=
  match v with BulkString b => Some (of_bytes b) | _ => None end.
Definition number_of (v : Value) : option Z := match v with Int z => Some z | _ => None end.

Definition granting : Redis := fun l q =>
  match q with
  | Query [["DEL"; _]; _] => Ok [Int 0; BulkString (as_bytes "OK")]
  | Query [_] => Ok [BulkString (as_bytes "1-0")]
  | _ => Ok []
  end.

Definition demo_job : JobRequest := MkRequest "j7" "cpp" "int main(){}" 1000 1024 [MkTest "" None] None.

Lemma enqueue_spec_witness :
  snd (enqueue (fun _ => Some "{}") text_of number_of (fun _ => None) demo_job 660 granting []) = Queued.
Proof.
  pose proof (enqueue_spec (fun _ => Some "{}") text_of number_of (fun _ => None) granting [] demo_job 660 "{}" eq_refl)
    as H.
  destruct (enqueue _ _ _ _ _ _ _ _) as [l out]. cbn in H. exact (proj1 H).
Defined.
