(* ===== verification/Consumer.v ===== *)
(** * The Redis consumer

    [src/src/queue/redis.rs]: [RedisConsumer] - connecting, the fetch loop, the parsing
    of stream entries, the processing of one job, and the reclaim sweep - as
    computations over the arbitrary Redis of [Broker].  The two loops are infinite in
    the program; here one pass of each is a computation, and what the loops pass from
    one iteration to the next (the connection is implicit, the cursor explicit) is an
    argument. *)

From S2P Require Import Prelude Admission Job Broker.

Open Scope string_scope.

Record RedisConsumer : Type := MkConsumer {
  c_redis_url : string;
  stream_key : string;
  consumer_group : string;
  consumer_name : string;
  c_workers : Z     (** [pool.num_workers()] *)
}.

Definition RedisConsumer_new (uuid url : string) (workers : Z) (stream group : option string) : RedisConsumer :=
  MkConsumer url
    (match stream with Some s => s | None => "judge:jobs" end)
    (match group with Some g => g | None => "judge_workers" end)
    ("worker-w" +:+ show_Z workers +:+ "-" +:+ uuid) workers.

(* ------------------------------------------------------------------ *)
(** ** Stream entries *)

(** The field-value pairs of an entry, until the [job] field. *)
Fixpoint find_job (kvs : list Value) : option string :=
  match kvs with
  | k :: v :: rest =>
      match k, v with
      | BulkString kb, BulkString vb =>
          if decide (from_utf8_lossy kb = "job") then Some (from_utf8_lossy vb) else find_job rest
      | _, _ => find_job rest
      end
  | _ => None
  end.

Definition extract_job_field (fields : Value) : option string :=
  match fields with Array kvs => find_job kvs | _ => None end.

(** The identifier and the fields of an entry. *)
Definition message_of (msg : Value) : option (string * Value) :=
  match msg with
  | Array (BulkString id :: fields :: _) => Some (from_utf8_lossy id, fields)
  | _ => None
  end.

Section Consumer.
Context (encode_result : JobResult -> option string).
Context (decode_request : string -> option JobRequest).
(** [String]'s [FromRedisValue] *)
Context (string_of : Value -> option string).
Context (env : Env) (c : RedisConsumer).

(** What the fetch loop does with one entry: run it, or leave it in the pending list. *)
Definition entry_job (msg : Value) : option (string * JobRequest) :=
  '(id, fields) ← message_of msg;
  json ← extract_job_field fields;
  req ← decode_request json;
  Some (id, req).

(** The entries of an [XREADGROUP] reply. *)
Definition stream_entries (key_item : Value) : list Value :=
  match key_item with Array (_ :: Array messages :: _) => messages | _ => [] end.

Definition jobs_of (reply : option Value) : list (string * JobRequest) :=
  match reply with
  | Some (Array keys) => omap entry_job (flat_map stream_entries keys)
  | _ => []
  end.

(* ------------------------------------------------------------------ *)
(** ** The fetch loop *)

Definition create_group : list string :=
  ["XGROUP"; "CREATE"; stream_key c; consumer_group c; "$"; "MKSTREAM"].
Definition create_consumer : list string :=
  ["XGROUP"; "CREATECONSUMER"; stream_key c; consumer_group c; consumer_name c].
Definition heartbeat : list string :=
  ["SET"; "judge:heartbeat:" +:+ consumer_name c; show_Z (c_workers c); "EX"; "20"].

(** The connection loop of [run]: [n] retries are left; [false] is the error return. *)
Fixpoint connect_retry (n : nat) : Rd bool :=
  a ← ask Connect;
  match a with
  | Ok _ => mret true
  | Err _ => match n with
             | O => mret false
             | S n' => _ ← ask (Sleep 500); connect_retry n'
             end
  end.

(** [run] up to its loop. *)
Definition run_start : Rd bool :=
  ok ← connect_retry 10;
  if ok : bool then
    _ ← command create_group;
    _ ← command create_consumer;
    mret true
  else mret false.

Definition capacity : Z := Z.max (wrap64 (c_workers c * 2)) 4.

(** How many entries to fetch when [permits] are available. *)
Definition batch_size (permits : Z) : Z := Z.min (Z.max permits 1) (Z.max (c_workers c) 4).

Definition xreadgroup (permits : Z) : list string :=
  ["XREADGROUP"; "GROUP"; consumer_group c; consumer_name c; "BLOCK"; "2000"; "COUNT";
   show_Z (batch_size permits); "STREAMS"; stream_key c; ">"].

(** One pass of the loop: the jobs it spawns, in order. *)
Definition fetch (permits : Z) : Rd (list (string * JobRequest)) :=
  _ ← command heartbeat;
  _ ← command create_consumer;
  a ← ask (Query [xreadgroup permits]);
  match a with
  | Ok [v] => mret (jobs_of (Some v))
  | Ok _ => mret []
  | Err _ =>
      _ ← ask (Sleep 1000);
      r ← ask Connect;
      match r with
      | Ok _ => _ ← command create_group; mret []
      | Err _ => mret []
      end
  end.

(* ------------------------------------------------------------------ *)
(** ** One job *)

(** The result to publish for what the pool answered. *)
Definition report_of (request : JobRequest) (submitted : result string JobResult) : JobResult :=
  match submitted with
  | Ok r => r
  | Err _ => MkResult (job_id request) RuntimeError 0 0 None []
  end.

Definition result_ttl : Z := env_u64 env "JUDGE_RESULT_TTL_SECS" 1800.

(** [spawn_process], after the pool's answer. *)
Definition process (msg_id : string) (request : JobRequest) (submitted : result string JobResult) : Rd bool :=
  publish_result encode_result (stream_key c) (consumer_group c) msg_id (report_of request submitted) result_ttl.

(* ------------------------------------------------------------------ *)
(** ** The reclaim sweep *)

(** What became of a reclaimed entry. *)
Inductive Reclaimed : Type :=
  | Discarded (msg_id : string)
  | Reacked (msg_id : string) (request : JobRequest)
  | Rerun (msg_id : string) (request : JobRequest).

Definition reclaimed_id (x : Reclaimed) : string :=
  match x with Discarded id | Reacked id _ | Rerun id _ => id end.

Definition xack (id : string) : list string := ["XACK"; stream_key c; consumer_group c; id].

Definition reclaim_one (msg : Value) : Rd (option Reclaimed) :=
  match message_of msg with
  | None => mret None
  | Some (id, fields) =>
      match extract_job_field fields ≫= decode_request with
      | None => _ ← command (xack id); mret (Some (Discarded id))
      | Some req =>
          v ← command ["GET"; result_key (job_id req)];
          match v ≫= opt_string_of string_of with
          | Some (Some _) =>
              _ ← ack_existing (stream_key c) (consumer_group c) id (job_id req);
              mret (Some (Reacked id req))
          | _ => mret (Some (Rerun id req))
          end
      end
  end.

Fixpoint reclaim_all (msgs : list Value) : Rd (list Reclaimed) :=
  match msgs with
  | [] => mret []
  | msg :: msgs' =>
      x ← reclaim_one msg;
      xs ← reclaim_all msgs';
      mret (match x with Some x => x :: xs | None => xs end)
  end.

Definition reclaim_min_idle_ms : Z := env_u64 env "JUDGE_RECLAIM_MIN_IDLE_MS" 300000.
Definition reclaim_interval_ms : Z := env_u64 env "JUDGE_RECLAIM_INTERVAL_MS" 15000.

Definition xautoclaim (min_idle_ms : Z) (cursor : string) : list string :=
  ["XAUTOCLAIM"; stream_key c; consumer_group c; consumer_name c; show_Z min_idle_ms; cursor; "COUNT"; "32"].

(** One pass of [run_reclaim]: the next cursor and what was reclaimed. *)
Definition sweep (min_idle_ms : Z) (cursor : string) : Rd (string * list Reclaimed) :=
  a ← ask (Query [xautoclaim min_idle_ms cursor]);
  match a with
  | Err _ => _ ← ask Connect; mret ("0-0", [])
  | Ok [Array (next :: msgs :: _)] =>
      let cursor' := match next with BulkString b => from_utf8_lossy b | _ => "0-0" end in
      match msgs with
      | Array ms => xs ← reclaim_all ms; mret (cursor', xs)
      | _ => mret (cursor', [])
      end
  | Ok _ => mret ("0-0", [])
  end.

(* ------------------------------------------------------------------ *)
(** ** Lemmas *)

(** A reply of [GET] that holds a string. *)
Definition stored (a : Answer) : Prop := exists v s, a = Ok [v] /\ opt_string_of string_of v = Some (Some s).

Definition get_result (req : JobRequest) : Request := Query [["GET"; result_key (job_id req)]].

(** Why an entry with these [fields] ended as [x]: the exchange [t] about it. *)
Definition justified (x : Reclaimed) (fields : Value) (t : Log) : Prop :=
  match x with
  | Discarded id => extract_job_field fields ≫= decode_request = None /\ map fst t = [Query [xack id]]
  | Reacked id req =>
      extract_job_field fields ≫= decode_request = Some req /\
      exists a t', t = (get_result req, a) :: t' /\ stored a /\
        exists ok, tried (ack_pipe (stream_key c) (consumer_group c) id (job_id req)) MAX_ATTEMPTS 1 t' ok
  | Rerun id req =>
      extract_job_field fields ≫= decode_request = Some req /\
      exists a, t = [(get_result req, a)] /\ ~ stored a
  end.

Lemma get_stored a :
  match match a with Ok [v] => Some v | _ => None end ≫= opt_string_of string_of with
  | Some (Some _) => stored a
  | _ => ~ stored a
  end.
Proof.
  unfold stored. destruct a as [[|v [|]]|e]; cbn.
  1,3,4: by intros (? & ? & ? & ?).
  destruct (opt_string_of string_of v) as [[s|]|] eqn:E; [by exists v, s|..];
    intros (w & s & [= <-] & H); congruence.
Qed.

Lemma reclaim_one_run msg r l :
  exists t, fst (reclaim_one msg r l) = (l ++ t)%list /\
    match snd (reclaim_one msg r l) with
    | None => message_of msg = None
    | Some x => exists fields, message_of msg = Some (reclaimed_id x, fields) /\ justified x fields t
    end.
Proof.
  unfold reclaim_one. destruct (message_of msg) as [[id fields]|] eqn:He.
  2: { exists []. by rewrite app_nil_r. }
  destruct (extract_job_field fields ≫= decode_request) as [req|] eqn:Hd.
  2: { rewrite rd_run, command_run. eexists. split; [done|]. cbn. exists fields. split; [done|].
       by split. }
  rewrite rd_run, command_run. cbn [fst snd]. fold (get_result req). set (a := r l (get_result req)).
  pose proof (get_stored a) as Ha.
  destruct (match a with Ok [v] => Some v | _ => None end ≫= opt_string_of string_of) as [[s|]|].
  2,3: exists [(get_result req, a)]; split; [done|]; exists fields; split; [done|]; split; [done|by exists a].
  rewrite rd_run. unfold ack_existing, run_pipe_with_retry. change MAX_ATTEMPTS with 12%nat.
  destruct (attempts_tried 11 1 (ack_pipe (stream_key c) (consumer_group c) id (job_id req)) r
              (l ++ [(get_result req, a)])%list) as (t & Ht & Hok).
  exists ((get_result req, a) :: t). cbn [fst snd mret rd_ret].
  rewrite Ht, <- app_assoc. split; [done|]. exists fields. split; [done|]. split; [done|].
  exists a, t. split; [done|]. split; [done|]. by eexists.
Qed.

Lemma reclaim_all_run msgs : forall r l,
  exists u, fst (reclaim_all msgs r l) = (l ++ u)%list /\
    map reclaimed_id (snd (reclaim_all msgs r l)) = map fst (omap message_of msgs) /\
    forall x, x ∈ snd (reclaim_all msgs r l) -> exists msg fields u0 t u1,
      msg ∈ msgs /\ message_of msg = Some (reclaimed_id x, fields) /\ u = (u0 ++ t ++ u1)%list /\
      justified x fields t.
Proof.
  induction msgs as [|msg msgs IH]; intros r l; cbn [reclaim_all].
  { exists []. rewrite app_nil_r. split; [done|]. split; [done|]. intros x Hx. by apply elem_of_nil in Hx. }
  rewrite !rd_run. destruct (reclaim_one_run msg r l) as (t & -> & Ho).
  destruct (IH r (l ++ t)%list) as (u & -> & Hids & Hall). exists (t ++ u)%list. rewrite app_assoc.
  cbn [fst snd mret rd_ret]. split; [done|].
  assert (Hrest : forall x, x ∈ snd (reclaim_all msgs r (l ++ t)%list) -> exists msg0 fields u0 t0 u1,
      msg0 ∈ msg :: msgs /\ message_of msg0 = Some (reclaimed_id x, fields) /\
      (t ++ u = u0 ++ t0 ++ u1)%list /\ justified x fields t0).
  { intros x Hx. destruct (Hall x Hx) as (m & f & u0 & t0 & u1 & Hm & He & -> & Hj).
    exists m, f, (t ++ u0)%list, t0, u1. rewrite <- app_assoc. split; [by right|]. by split_and!. }
  destruct (snd (reclaim_one msg r l)) as [x|].
  - destruct Ho as (fields & He & Hj). cbn [omap list_omap]. rewrite He. cbn [map fst]. rewrite Hids.
    split; [done|]. intros y [->|Hy]%elem_of_cons; [|by apply Hrest].
    exists msg, fields, [], t, u. split; [by left|]. by split_and!.
  - cbn [omap list_omap]. rewrite Ho. split; [exact Hids|exact Hrest].
Qed.

(** An entry as [enqueue] writes it, and how Redis hands it out. *)
Definition stream_entry (e : string * string) : Value :=
  Array [BulkString (as_bytes (fst e)); Array [BulkString (as_bytes "job"); BulkString (as_bytes (snd e))]].

Definition stream_reply (entries : list (string * string)) : Answer :=
  Ok [Array [Array [BulkString (as_bytes (stream_key c)); Array (map stream_entry entries)]]].

Definition valid_utf8 (s : string) : Prop := from_utf8_lossy (as_bytes s) = s.

Lemma entry_job_enqueued id json :
  valid_utf8 id -> valid_utf8 json ->
  entry_job (stream_entry (id, json)) = pair id <$> decode_request json.
Proof.
  intros Hi Hj. unfold entry_job, stream_entry. cbn [message_of fst snd mbind option_bind].
  unfold valid_utf8 in *. rewrite Hi. unfold extract_job_field. cbn [find_job].
  rewrite decide_True by reflexivity. rewrite Hj. cbn. by destruct (decode_request json).
Qed.

(* ------------------------------------------------------------------ *)
(** ** Properties *)

(** C36. Every job that reaches the stream through [enqueue] is run: when Redis hands
    a batch of entries written by it to the fetch loop, each entry whose payload
    decodes is given to the pool exactly once, with its message id, in stream order;
    and the loop never asks for more than the free permits, or one. *)
Theorem fetch_runs_enqueued permits entries r l :
  Forall (fun e => valid_utf8 (fst e) /\ valid_utf8 (snd e)) entries ->
  (forall l', r l' (Query [xreadgroup permits]) = stream_reply entries) ->
  snd (fetch permits r l) = omap (fun e => pair (fst e) <$> decode_request (snd e)) entries /\
  batch_size permits <= Z.max permits 1.
Proof.
  intros Hv Hr. split; [|unfold batch_size; lia].
  unfold fetch. rewrite !rd_run, ask_run. cbn [fst snd]. rewrite Hr. cbn.
  rewrite app_nil_r. clear Hr. induction Hv as [|[id json] es [Hi Hj] _ IH]; [done|].
  cbn [fst snd] in Hi, Hj. cbn [map omap list_omap]. rewrite (entry_job_enqueued id json Hi Hj). cbn [fst snd].
  destruct (decode_request json); cbn; by rewrite IH.
Qed.

(** C30. The reclaim sweep loses nothing and re-runs only what is lost: every entry
    Redis hands over is settled exactly once, in order; an entry without a usable job
    is acknowledged away; an entry whose result Redis returned is acknowledged and its
    bell rung again, without a re-run; and an entry is re-run only after Redis was
    asked for its result and returned none. *)
Theorem reclaim_sweep_spec min_idle cursor next msgs rest r l :
  r l (Query [xautoclaim min_idle cursor]) = Ok [Array (next :: Array msgs :: rest)] ->
  let '(l', (_, xs)) := sweep min_idle cursor r l in
  map reclaimed_id xs = map fst (omap message_of msgs) /\
  forall x, x ∈ xs -> exists msg fields l0 t l1,
    msg ∈ msgs /\ message_of msg = Some (reclaimed_id x, fields) /\ l' = (l0 ++ t ++ l1)%list /\
    justified x fields t.
Proof.
  intros Hr. unfold sweep. rewrite rd_run, ask_run. cbn [fst snd]. rewrite Hr. rewrite rd_run.
  set (l2 := (l ++ _)%list). destruct (reclaim_all_run msgs r l2) as (u & Hu & Hids & Hall).
  cbn [mret rd_ret]. split; [exact Hids|]. intros x Hx.
  destruct (Hall x Hx) as (m & f & u0 & t & u1 & Hm & He & -> & Hj).
  exists m, f, (l2 ++ u0)%list, t, u1. rewrite Hu, <- app_assoc. by split_and!.
Qed.
End Consumer.

(* ------------------------------------------------------------------ *)
(** ** Witnesses: a decoder that knows one job *)

Definition demo_decode (s : string) : option JobRequest := if decide (s = "{}") then Some demo_job else None.
Definition demo_consumer : RedisConsumer := RedisConsumer_new "u" "redis://r" 2 None None.

Definition demo_entries : list (string * string) := [("1-1", "{}"); ("1-2", "garbage"); ("1-3", "{}")].

(** Hands out the entries, reclaims them all, and knows no result. *)
Definition demo_redis : Redis := fun l q =>
  match q with
  | Query [["GET"; _]] => Ok [Nil]
  | Query [[cmd; _; _; _; _; _; _; _]] =>
      if decide (cmd = "XAUTOCLAIM")
      then Ok [Array [BulkString (as_bytes "0-0"); Array (map stream_entry demo_entries)]] else Ok []
  | Query [_ :: "GROUP" :: _] => stream_reply demo_consumer demo_entries
  | _ => Ok []
  end.

Lemma demo_valid : Forall (fun e => valid_utf8 (fst e) /\ valid_utf8 (snd e)) demo_entries.
Proof. repeat (apply Forall_cons_2; [by vm_compute|]). apply Forall_nil_2. Qed.

Lemma fetch_runs_enqueued_witness :
  snd (fetch demo_decode demo_consumer 4 demo_redis []) = [("1-1", demo_job); ("1-3", demo_job)].
Proof.
  exact (proj1 (fetch_runs_enqueued demo_decode demo_consumer 4 demo_entries demo_redis [] demo_valid
                  (fun l' => eq_refl))).
Defined.

Lemma reclaim_sweep_spec_witness :
  snd (sweep demo_decode text_of demo_consumer 300000 "0-0" demo_redis []) =
    ("0-0", [Rerun "1-1" demo_job; Discarded "1-2"; Rerun "1-3" demo_job]) /\
  exists l', fst (sweep demo_decode text_of demo_consumer 300000 "0-0" demo_redis []) = l' /\
    exists msg fields l0 t l1, msg ∈ map stream_entry demo_entries /\
      message_of msg = Some ("1-1", fields) /\ l' = (l0 ++ t ++ l1)%list /\
      justified demo_decode text_of demo_consumer (Rerun "1-1" demo_job) fields t.
Proof.
  split; [vm_compute; reflexivity|]. eexists. split; [reflexivity|].
  pose proof (reclaim_sweep_spec demo_decode text_of demo_consumer 300000 "0-0" (BulkString (as_bytes "0-0"))
                (map stream_entry demo_entries) [] demo_redis [] eq_refl) as H.
  assert (snd (snd (sweep demo_decode text_of demo_consumer 300000 "0-0" demo_redis [])) =
          [Rerun "1-1" demo_job; Discarded "1-2"; Rerun "1-3" demo_job]) as E by (vm_compute; reflexivity).
  destruct (sweep demo_decode text_of demo_consumer 300000 "0-0" demo_redis []) as [l' [cur xs]].
  cbn [fst snd] in E |- *. destruct H as [_ H]. apply (H (Rerun "1-1" demo_job)).
  rewrite E. by left.
Defined.
