(* ===== verification/Handlers.v ===== *)
(** * The HTTP and WebSocket handlers

    [src/src/api/handlers.rs], [src/src/api/websocket.rs] and [ResultBus::wait_for] of
    [src/src/api/result_bus.rs].  A handler is a computation over the arbitrary Redis
    of [Broker]; the local worker pool answers through an oracle (its model is
    [Pool]), and the jobs given to it are part of a handler's outcome. *)

From S2P Require Import Prelude Config Admission Languages Job Metrics Broker Consumer.

Open Scope string_scope.

(** [serde_json::json!] values; a [JobResult] is serialized by serde. *)
Inductive Json : Type :=
  | JStr (s : string)
  | JNum (z : Z)
  | JArr (l : list Json)
  | JObj (fields : list (string * Json))
  | JResult (r : JobResult).

Abbreviation Response := (Z * Json)%type.

Definition OK_200 : Z := 200.
Definition ACCEPTED : Z := 202.
Definition BAD_REQUEST : Z := 400.
Definition FORBIDDEN : Z := 403.
Definition NOT_FOUND : Z := 404.
Definition CONFLICT : Z := 409.
Definition INTERNAL_SERVER_ERROR : Z := 500.
Definition SERVICE_UNAVAILABLE : Z := 503.
Definition GATEWAY_TIMEOUT : Z := 504.

Definition error_json (msg : string) : Json := JObj [("error", JStr msg)].

(** Byte order on strings, for [Vec::sort]. *)
Definition str_le (a b : string) : Prop := Is_true (String.leb a b).
#[export] Instance str_le_dec a b : Decision (str_le a b).
Proof. unfold str_le. apply _. Defined.

(** The names of the enabled languages, sorted. *)
Definition enabled_list (langs : gset SupportedLanguage) : list string :=
  merge_sort str_le (as_str <$> elements langs).

Definition unsupported (req : JobRequest) : Json :=
  JObj [("error", JStr ("Unsupported language: " +:+ req_language req));
        ("supported", JArr (JStr <$> all_canonical_names))].

Definition disabled (langs : gset SupportedLanguage) (req : JobRequest) : Json :=
  JObj [("error", JStr ("Language '" +:+ req_language req +:+ "' is disabled on this judge instance"));
        ("enabled_languages", JArr (JStr <$> enabled_list langs))].

(** [validate_submission], with the whitelist of the state. *)
Definition validate_submission (enabled : option (gset SupportedLanguage)) (req : JobRequest)
  : result Response unit :=
  match from_str (req_language req) with
  | None => Err (BAD_REQUEST, unsupported req)
  | Some lang =>
      let go := match validate req with
                | Ok _ => Ok tt
                | Err msg => Err (BAD_REQUEST, error_json msg)
                end in
      match enabled with
      | Some langs => if decide (lang ∈ langs) then go else Err (FORBIDDEN, disabled langs req)
      | None => go
      end
  end.

Definition max_wait_ms (req : JobRequest) : Z :=
  Z.max (add64 (mul64 (mul64 (req_time_limit_ms req) (Z.of_nat (length (test_cases req)))) 3) 60000)
    600000.

(** [Uuid::new_v4] when the client gave no id. *)
Definition assign_id (uuid : string) (r : JobRequest) : JobRequest :=
  MkRequest (if is_empty (job_id r) then uuid else job_id r) (req_language r) (source_code r)
    (req_time_limit_ms r) (req_memory_limit_bytes r) (test_cases r) (stop_on_first_fail r).

(* ------------------------------------------------------------------ *)
(** ** Cluster statistics *)

(** What an [XINFO CONSUMERS] row says: name, idle time, pending entries. *)
Record ConsumerRow : Type := MkRow { row_name : string; row_idle : Z; row_pending : Z }.

Definition row_field (k v : Value) (row : ConsumerRow) : ConsumerRow :=
  match k with
  | BulkString kb =>
      let key := from_utf8_lossy kb in
      if decide (key = "name") then
        match v with BulkString b => MkRow (from_utf8_lossy b) (row_idle row) (row_pending row) | _ => row end
      else if decide (key = "idle") then
        match v with Int z => MkRow (row_name row) z (row_pending row) | _ => row end
      else if decide (key = "pending") then
        match v with Int z => MkRow (row_name row) (row_idle row) (Z.max z 0) | _ => row end
      else row
  | _ => row
  end.

Fixpoint read_row (fields : list Value) (row : ConsumerRow) : ConsumerRow :=
  match fields with
  | k :: v :: rest => read_row rest (row_field k v row)
  | _ => row
  end.

(** The worker count a consumer's name carries, two if it carries none. *)
Definition workers_of_name (name : string) : Z :=
  match find_after (as_bytes "-w") (as_bytes name) with
  | Some rest =>
      match split_on "-"%char rest with
      | s :: _ => match parse_u64 (of_bytes s) with Some n => n | None => 2 end
      | [] => 2
      end
  | None => 2
  end.

(** Adds the row of one active consumer to the totals of workers and pending jobs. *)
Definition add_row (t : Z * Z) (item : Value) : Z * Z :=
  match item with
  | Array fields =>
      let row := read_row fields (MkRow "" 0 0) in
      if (row_idle row <? 120000)%Z
      then (add64 (fst t) (workers_of_name (row_name row)), add64 (snd t) (row_pending row))
      else t
  | _ => t
  end.

Section Handlers.
Context (encode_request : JobRequest -> option string) (decode_request : string -> option JobRequest).
Context (encode_result : JobResult -> option string) (decode_result : string -> option JobResult).
Context (string_of : Value -> option string) (bool_of : Value -> option bool) (int_of : Value -> option Z).
(** [Vec<String>]'s conversion, and [redis::Client::open]. *)
Context (strings_of : Value -> option (list string)) (valid_url : string -> bool).
Context (env : Env).
(** What [pool.submit] answers. *)
Context (pool_submit : JobRequest -> result string JobResult).

(** The sum of the live workers' heartbeats. *)
Fixpoint heartbeats (keys : list string) (total : Z) : Rd Z :=
  match keys with
  | [] => mret total
  | key :: keys' =>
      v ← command ["GET"; key];
      heartbeats keys'
        (match v ≫= string_of with
         | Some s => match parse_u64 s with Some n => add64 total n | None => total end
         | None => total
         end)
  end.

(** Workers, idle and busy ones. *)
Definition get_cluster_stats (url : string) (workers idle busy : Z) : Rd (Z * Z * Z) :=
  if negb (valid_url url) then mret (workers, idle, busy)
  else
    c ← ask Connect;
    match c with
    | Err _ => mret (workers, idle, busy)
    | Ok _ =>
        ks ← command ["KEYS"; "judge:heartbeat:*"];
        total ← (match ks ≫= strings_of with Some keys => heartbeats keys 0 | None => mret 0 end);
        if 0 <? total then mret (total, total, 0)
        else
          v ← command ["XINFO"; "CONSUMERS"; "judge:jobs"; "judge_workers"];
          match v with
          | Some (Array consumers) =>
              let '(total, pending) := foldl add_row (0, 0) consumers in
              if 0 <? total then mret (total, saturating_sub total (Z.min pending total), Z.min pending total)
              else mret (workers, idle, busy)
          | _ => mret (workers, idle, busy)
          end
    end%Z.

(* ------------------------------------------------------------------ *)
(** ** Waiting for a result *)

(** What ended one [select!] of [wait_for]: the bell (or a lag), a closed channel, or
    the safety poll.  The list of them ends when the deadline has passed. *)
Inductive Wake : Type := Bell | Closed | Poll.

Abbreviation try_result := (try_result decode_result string_of).
Abbreviation is_pending := (is_pending bool_of).
Abbreviation enqueue := (enqueue encode_request string_of int_of env).

(** [poll_until]: [n] polls fit before the deadline, and one more is made after it. *)
Fixpoint poll_until (id : string) (n : nat) : Rd (option JobResult) :=
  r ← try_result id;
  match r with
  | Some r => mret (Some r)
  | None => match n with O => mret None | S n' => poll_until id n' end
  end.

Fixpoint wait_loop (id : string) (wakes : list Wake) : Rd (option JobResult) :=
  match wakes with
  | [] => mret None
  | w :: wakes' =>
      r ← try_result id;
      match r with
      | Some r => mret (Some r)
      | None => match w with
                | Closed => poll_until id (length wakes')
                | Bell | Poll => wait_loop id wakes'
                end
      end
  end.

Definition wait_for (id : string) (wakes : list Wake) : Rd (option JobResult) :=
  _ ← ask (RegisterWaiter id);
  r ← try_result id;
  match r with Some r => mret (Some r) | None => wait_loop id wakes end.

(* ------------------------------------------------------------------ *)
(** ** Handlers *)

(** A response, and the jobs given to the local pool. *)
Abbreviation Outcome := (Response * list JobRequest)%type.

Definition submit_local (req : JobRequest) : Outcome :=
  (match pool_submit req with
   | Ok res => (OK_200, JResult res)
   | Err e =>
       if decide (e = "QUEUE_FULL") then
         (SERVICE_UNAVAILABLE,
          JObj [("error", JStr "Judge queue is full. Server is under heavy contest load. Please retry in 3 seconds.");
                ("retry_after_secs", JNum 3)])
       else (INTERNAL_SERVER_ERROR, error_json e)
   end, [req]).

Definition pending_ttl (req : JobRequest) : Z := add64 (max_wait_ms req / 1000) 60.

(** [submit]: [bus] tells whether a result bus is configured. *)
Definition submit (enabled : option (gset SupportedLanguage)) (bus : bool) (uuid : string)
    (wakes : list Wake) (req0 : JobRequest) : Rd Outcome :=
  match validate_submission enabled req0 with
  | Err resp => mret (resp, [])
  | Ok _ =>
      let req := assign_id uuid req0 in
      if bus then
        out ← enqueue req (pending_ttl req);
        match out with
        | Queued | Duplicate =>
            r ← wait_for (job_id req) wakes;
            mret (match r with
                  | Some res => (OK_200, JResult res)
                  | None => (GATEWAY_TIMEOUT,
                      JObj [("error", JStr "timed out waiting for cluster result; retry GET /api/v1/result/{job_id}");
                            ("job_id", JStr (job_id req))])
                  end, [])
        | RedisDown => mret (submit_local req)
        end
      else mret (submit_local req)
  end.

Definition submit_async (enabled : option (gset SupportedLanguage)) (bus : bool) (uuid : string)
    (req0 : JobRequest) : Rd Response :=
  match validate_submission enabled req0 with
  | Err resp => mret resp
  | Ok _ =>
      let req := assign_id uuid req0 in
      if bus then
        out ← enqueue req (pending_ttl req);
        mret (match out with
              | Queued => (ACCEPTED, JObj [("job_id", JStr (job_id req)); ("status", JStr "queued");
                             ("result_url", JStr ("/api/v1/result/" +:+ job_id req))])
              | Duplicate => (CONFLICT, JObj [("error", JStr "job_id already in-flight");
                                ("job_id", JStr (job_id req))])
              | RedisDown => (SERVICE_UNAVAILABLE, JObj [("error", JStr "queue unavailable (Redis unreachable)");
                                ("job_id", JStr (job_id req))])
              end)
      else mret (SERVICE_UNAVAILABLE,
                 error_json "async submit requires the Redis cluster (JUDGE_REDIS not configured)")
  end.

Definition get_result (bus : bool) (id : string) : Rd Response :=
  if bus then
    r ← try_result id;
    match r with
    | Some res => mret (OK_200, JResult res)
    | None =>
        p ← is_pending id;
        mret (if p : bool then (ACCEPTED, JObj [("job_id", JStr id); ("status", JStr "pending")])
              else (NOT_FOUND, JObj [("error", JStr "unknown or expired job_id"); ("job_id", JStr id)]))
    end
  else mret (SERVICE_UNAVAILABLE, error_json "result lookup requires the Redis cluster").

(* ------------------------------------------------------------------ *)
(** ** WebSockets *)

(** A message from the client; [Text]s are UTF-8 by construction. *)
Inductive Incoming : Type := Text (s : string) | CloseFrame | Broken | OtherFrame.

(** Frames sent to the client. *)
Inductive Frame : Type :=
  | FJson (j : Json)
  | FEvent (e : ProgressEvent)
  | FClose.

(** The progress events that reach the client: [oks] tells which sends succeed. *)
Fixpoint forward (oks : list bool) (events : list ProgressEvent) : list Frame :=
  match events, oks with
  | e :: es, true :: oks' => FEvent e :: forward oks' es
  | _, _ => []
  end.

Section Socket.
(** The whitelist, the events a job's execution sends, and which sends succeed. *)
Context (enabled : option (gset SupportedLanguage)).
Context (progress : JobRequest -> list ProgressEvent) (oks : list bool).

(** One text message: the frames sent and the jobs given to the pool.  The decoder's
    own message, appended to "Failed to parse request", is left out. *)
Definition on_text (s : string) : list Frame * list JobRequest :=
  match decode_request s with
  | None => ([FJson (error_json "Failed to parse request")], [])
  | Some req =>
      match from_str (req_language req) with
      | None => ([FJson (unsupported req)], [])
      | Some lang =>
          let go := match validate req with
                    | Err msg => ([FJson (error_json msg)], [])
                    | Ok _ => (forward oks (progress req), [req])
                    end in
          match enabled with
          | Some langs => if decide (lang ∈ langs) then go else ([FJson (disabled langs req)], [])
          | None => go
          end
      end
  end.

(** [handle_socket]: everything but a text or the end of the connection is ignored. *)
Fixpoint handle_socket (inbox : list Incoming) : list Frame * list JobRequest :=
  match inbox with
  | [] => ([], [])
  | Text s :: _ => on_text s
  | (CloseFrame | Broken) :: _ => ([], [])
  | OtherFrame :: inbox' => handle_socket inbox'
  end.
End Socket.

(** [handle_result_socket]; [left]: the client disconnected before the wait ended. *)
Definition handle_result_socket (bus : bool) (id : string) (wakes : list Wake) (left : bool) : Rd (list Frame) :=
  if bus then
    r ← try_result id;
    match r with
    | Some res => mret [FJson (JResult res); FClose]
    | None =>
        p ← is_pending id;
        if p : bool then
          r ← wait_for id wakes;
          mret (if left then [FClose]
                else match r with
                     | Some res => [FJson (JResult res); FClose]
                     | None => [FJson (JObj [("error", JStr "timed out waiting for result");
                                             ("job_id", JStr id)]); FClose]
                     end)
        else mret [FJson (JObj [("error", JStr "unknown or expired job_id"); ("job_id", JStr id)]); FClose]
    end
  else mret [FJson (error_json "result push requires the Redis cluster"); FClose].

(* ------------------------------------------------------------------ *)
(** ** Lemmas *)

Definition get_event (id : string) (e : Request * Answer) : Prop :=
  fst e = Query [["GET"; result_key id]].

(** The result in the reply to a [GET]. *)
Definition result_in (e : Request * Answer) : option JobResult :=
  match snd e with
  | Ok [v] => match opt_string_of string_of v with Some (Some json) => decode_result json | _ => None end
  | _ => None
  end.

Lemma try_result_run id r l :
  exists e, get_event id e /\ try_result id r l = ((l ++ [e])%list, result_in e).
Proof.
  exists (Query [["GET"; result_key id]], r l (Query [["GET"; result_key id]])). split; [done|].
  unfold Broker.try_result, result_in. rewrite rd_run, command_run. cbn [fst snd].
  by destruct (r l _) as [[|v [|]]|].
Qed.

(** How a wait went: reads of the result key until one holds it, [n] of them if none
    does. *)
Definition polled (id : string) (n : nat) (t : Log) (res : option JobResult) : Prop :=
  Forall (get_event id) t /\
  match res with
  | Some r => exists t0 e, t = (t0 ++ [e])%list /\ result_in e = Some r /\ Forall (fun e => result_in e = None) t0
  | None => Forall (fun e => result_in e = None) t /\ (n <= length t)%nat
  end.

Lemma polled_one id e n res t :
  get_event id e -> result_in e = None -> polled id n t res -> polled id (S n) (e :: t) res.
Proof.
  intros He Hr [Hf Hw]. split; [by constructor|]. destruct res as [r|].
  - destruct Hw as (t0 & e' & -> & Hr' & H0). exists (e :: t0), e'. split_and!; [done|done|by constructor].
  - destruct Hw as [Hn Hl]. split; [by constructor|cbn; lia].
Qed.

Lemma polled_hit id e n r : get_event id e -> result_in e = Some r -> polled id n [e] (Some r).
Proof. intros He Hr. split; [by constructor|]. by exists [], e. Qed.

Lemma poll_until_run id n r : forall l,
  exists t, fst (poll_until id n r l) = (l ++ t)%list /\ polled id (S n) t (snd (poll_until id n r l)).
Proof.
  induction n as [|n IH]; intros l; cbn [poll_until]; rewrite rd_run;
    destruct (try_result_run id r l) as (e & He & ->); cbn [fst snd];
    destruct (result_in e) as [res|] eqn:Hr; cbn [mret rd_ret fst snd].
  1,3: exists [e]; split; [done|]; by apply polled_hit.
  - exists [e]. split; [done|]. split; [by constructor|]. split; [by constructor|cbn; lia].
  - destruct (IH (l ++ [e])%list) as (t & Ht & Hw). exists (e :: t). rewrite Ht, <- app_assoc.
    split; [done|]. by apply polled_one.
Qed.

Lemma wait_loop_run id wakes r : forall l,
  exists t, fst (wait_loop id wakes r l) = (l ++ t)%list /\
            polled id (length wakes) t (snd (wait_loop id wakes r l)).
Proof.
  induction wakes as [|w wakes IH]; intros l; cbn [wait_loop length].
  { exists []. rewrite app_nil_r. split; [done|]. split; [done|]. by split. }
  rewrite rd_run. destruct (try_result_run id r l) as (e & He & ->). cbn [fst snd].
  destruct (result_in e) as [res|] eqn:Hr; cbn [mret rd_ret fst snd].
  { exists [e]. split; [done|]. by apply polled_hit. }
  assert (exists t, fst (wait_loop id wakes r (l ++ [e])%list) = ((l ++ [e]) ++ t)%list /\
    polled id (length wakes) t (snd (wait_loop id wakes r (l ++ [e])%list))) as (t & Ht & Hw) by apply IH.
  destruct w; [|destruct (poll_until_run id (length wakes) r (l ++ [e])%list) as (u & Hu & Hv)|].
  1,3: exists (e :: t); rewrite Ht, <- app_assoc; split; [done|by apply polled_one].
  exists (e :: u). rewrite Hu, <- app_assoc. split; [done|]. apply polled_one; [done|done|].
  destruct Hv as [Hf Hv]. split; [done|]. destruct (snd (poll_until _ _ _ _)); [done|].
  split; [apply Hv|]. destruct Hv. lia.
Qed.

(** The registration comes first, then the reads. *)
Definition waited (id : string) (n : nat) (t : Log) (res : option JobResult) : Prop :=
  exists a t', t = (RegisterWaiter id, a) :: t' /\ polled id n t' res.

Lemma wait_for_run id wakes r l :
  exists t, fst (wait_for id wakes r l) = (l ++ t)%list /\
            waited id (S (length wakes)) t (snd (wait_for id wakes r l)).
Proof.
  unfold wait_for. rewrite rd_run, ask_run. cbn [fst snd].
  set (a := r l (RegisterWaiter id)). set (l0 := (l ++ [(RegisterWaiter id, a)])%list).
  assert (exists t', fst ((r0 ← try_result id;
       match r0 with Some x => mret (Some x) | None => wait_loop id wakes end) r l0) = (l0 ++ t')%list /\
     polled id (S (length wakes)) t' (snd ((r0 ← try_result id;
       match r0 with Some x => mret (Some x) | None => wait_loop id wakes end) r l0))) as (t' & Ht' & Hp).
  { rewrite rd_run. destruct (try_result_run id r l0) as (e & He & ->). cbn [fst snd].
    destruct (result_in e) as [res|] eqn:Hr; cbn [mret rd_ret fst snd].
    { exists [e]. split; [done|]. by apply polled_hit. }
    destruct (wait_loop_run id wakes r (l0 ++ [e])%list) as (t & Ht & Hw).
    exists (e :: t). rewrite Ht, <- app_assoc. split; [done|]. by apply polled_one. }
  exists ((RegisterWaiter id, a) :: t'). rewrite Ht'. unfold l0. rewrite <- app_assoc.
  split; [done|]. by exists a, t'.
Qed.

(* ------------------------------------------------------------------ *)
(** ** Properties *)

Lemma validate_submission_iff enabled req :
  validate_submission enabled req = Ok tt <->
  exists lang, from_str (req_language req) = Some lang /\
    (forall langs, enabled = Some langs -> lang ∈ langs) /\ validate req = Ok tt.
Proof.
  unfold validate_submission. destruct (from_str (req_language req)) as [lang|]; [|by split; [|intros (? & ? & _)]].
  assert ((match validate req with Ok _ => Ok tt | Err msg => Err (BAD_REQUEST, error_json msg) end
           : result Response unit) = Ok tt <-> validate req = Ok tt) as Hv by by destruct (validate req) as [[]|].
  destruct enabled as [langs|]; [case_decide as Hd|].
  - rewrite Hv. split; [intros H; exists lang; by split_and!; [|intros ? [= <-]|]|by intros (? & _ & _ & ?)].
  - split; [done|]. intros (l & [= <-] & Hl & _). by destruct (Hd (Hl langs eq_refl)).
  - rewrite Hv. split; [intros H; by exists lang|by intros (? & _ & _ & ?)].
Qed.

Lemma validate_submission_error enabled req resp :
  validate_submission enabled req = Err resp -> fst resp = BAD_REQUEST \/ fst resp = FORBIDDEN.
Proof.
  unfold validate_submission. repeat case_match; intros [= <-]; auto.
Qed.

(** C10. The synchronous endpoint never executes a job twice.  An invalid submission
    touches neither Redis nor the pool and is answered 400 or 403.  A valid one goes to
    the local pool only when no cluster is configured or the enqueue itself failed; if
    the job is in the stream - or was already in flight under the same id - the handler
    only waits for its result, and answers it, or 504 when the wait ends without one. *)
Theorem submit_once enabled bus uuid wakes req r l :
  let '(l', (resp, local)) := submit enabled bus uuid wakes req r l in
  match validate_submission enabled req with
  | Err e => resp = e /\ local = [] /\ l' = l /\ (fst resp = BAD_REQUEST \/ fst resp = FORBIDDEN)
  | Ok _ =>
      let job := assign_id uuid req in
      let queued := snd (enqueue job (pending_ttl job) r l) in
      if bus && negb (bool_decide (queued = RedisDown)) then
        local = [] /\ exists l1 t res, l1 = fst (enqueue job (pending_ttl job) r l) /\
          l' = (l1 ++ t)%list /\ waited (job_id job) (S (length wakes)) t res /\
          match res with
          | Some res => resp = (OK_200, JResult res)
          | None => fst resp = GATEWAY_TIMEOUT
          end
      else local = [job] /\ (fst resp = OK_200 \/ fst resp = SERVICE_UNAVAILABLE \/ fst resp = INTERNAL_SERVER_ERROR)
  end.
Proof.
  unfold submit. destruct (validate_submission enabled req) as [[]|e] eqn:Hv.
  2: { cbn. split_and!; [done..|]. by eapply validate_submission_error. }
  cbv zeta. set (job := assign_id uuid req).
  assert (Hlocal : fst (fst (submit_local job)) = OK_200 \/ fst (fst (submit_local job)) = SERVICE_UNAVAILABLE \/
                   fst (fst (submit_local job)) = INTERNAL_SERVER_ERROR).
  { unfold submit_local. destruct (pool_submit job); cbn; [auto|]. case_decide; cbn; auto. }
  destruct bus; cbn [andb]; [|by cbn; split].
  rewrite rd_run. destruct (enqueue job (pending_ttl job) r l) as [l1 q]. cbn [fst snd].
  destruct q; cbn [bool_decide negb decide decide_rel EnqueueOutcome_eq_dec].
  1,2: rewrite rd_run; destruct (wait_for_run (job_id job) wakes r l1) as (t & -> & Hw);
    cbn [mret rd_ret]; split; [done|]; exists l1, t, (snd (wait_for (job_id job) wakes r l1));
    split_and!; [done|done|exact Hw|]; by destruct (snd _).
  by cbn; split.
Qed.

(** C38. Waiting misses no result.  The waiter is registered before anything else, so a
    bell rung after the first read reaches it; then the result key is read once, and once
    more for every bell, safety poll or closed channel before the deadline; the wait ends
    with the first result a read returns, and gives up only when every one of these reads
    came back empty. *)
Theorem wait_for_spec id wakes r l :
  let '(l', res) := wait_for id wakes r l in
  exists a t, l' = (l ++ (RegisterWaiter id, a) :: t)%list /\ Forall (get_event id) t /\
    match res with
    | Some x => exists t0 e, t = (t0 ++ [e])%list /\ result_in e = Some x /\
                             Forall (fun e => result_in e = None) t0
    | None => Forall (fun e => result_in e = None) t /\ (S (length wakes) <= length t)%nat
    end.
Proof.
  destruct (wait_for_run id wakes r l) as (t & Ht & a & t' & -> & Hf & Hw).
  destruct (wait_for id wakes r l) as [l' res]. by exists a, t'.
Qed.

Lemma on_text_rest enabled progress oks s :
  on_text enabled progress oks s =
  match decode_request s with
  | None => ([FJson (error_json "Failed to parse request")], [])
  | Some req => match validate_submission enabled req with
                | Ok _ => (forward oks (progress req), [req])
                | Err (_, body) => ([FJson body], [])
                end
  end.
Proof. unfold on_text, validate_submission. by repeat case_match; simplify_eq. Qed.

(** The first message that is neither a ping nor a binary frame. *)
Fixpoint first_message (inbox : list Incoming) : option Incoming :=
  match inbox with
  | OtherFrame :: inbox' => first_message inbox'
  | m :: _ => Some m
  | [] => None
  end.

(** The two front doors agree: a WebSocket connection gives the pool a request
    exactly if its first text message decodes to one that the REST endpoint would
    accept, and then only that one, unchanged; a request the REST endpoint would refuse
    is answered by one frame with the very body of that refusal. *)
Theorem websocket_validates enabled progress oks inbox :
  handle_socket enabled progress oks inbox =
  match first_message inbox with
  | Some (Text s) =>
      match decode_request s with
      | None => ([FJson (error_json "Failed to parse request")], [])
      | Some req => match validate_submission enabled req with
                    | Ok _ => (forward oks (progress req), [req])
                    | Err (_, body) => ([FJson body], [])
                    end
      end
  | _ => ([], [])
  end.
Proof.
  induction inbox as [|[s| | |] inbox IH]; cbn [handle_socket first_message]; [done| |done|done|done].
  apply on_text_rest.
Qed.

Lemma add_row_nonneg t item : 0 <= fst t -> 0 <= snd t -> 0 <= fst (add_row t item) /\ 0 <= snd (add_row t item).
Proof.
  intros H1 H2. unfold add_row. destruct item as [| | |fields|]; try done.
  destruct (row_idle _ <? 120000)%Z; [|done]. cbn. unfold add64.
  split; apply wrap64_u64.
Qed.

Lemma add_rows_nonneg items : forall t,
  0 <= fst t -> 0 <= snd t -> 0 <= fst (foldl add_row t items) /\ 0 <= snd (foldl add_row t items).
Proof.
  induction items as [|i items IH]; intros t H1 H2; [done|]. cbn [foldl].
  destruct (add_row_nonneg t i H1 H2). by apply IH.
Qed.

(** The cluster statistics are the local numbers, or they add up: whatever Redis
    answers, in whatever shape, idle and busy workers then sum to the total and none is
    negative.  Live heartbeats take precedence and count every announced worker as
    idle. *)
Lemma cluster_stats_shape url workers idle busy r l :
  let '(l', (w, i, b)) := get_cluster_stats url workers idle busy r l in
  (w, i, b) = (workers, idle, busy) \/ (i + b = w /\ 0 <= i /\ 0 <= b).
Proof.
  unfold get_cluster_stats. destruct (valid_url url); cbn [negb]; [|by left].
  rewrite rd_run, ask_run. cbn [fst snd]. destruct (r l Connect) as [u|e]; [|by left].
  rewrite rd_run, command_run. cbn [fst snd]. set (l1 := (l ++ _)%list). rewrite rd_run.
  set (ks := match r l1 _ with Ok [v] => Some v | _ => None end).
  destruct ((match ks ≫= strings_of with Some keys => heartbeats keys 0 | None => mret 0 end)
              r (l1 ++ [(Query [["KEYS"; "judge:heartbeat:*"]], r l1 (Query [["KEYS"; "judge:heartbeat:*"]]))])%list)
    as [l2 total]. cbn [fst snd].
  destruct (Z.ltb_spec 0 total); [right; cbn; lia|].
  rewrite rd_run, command_run. cbn [fst snd].
  destruct (match r l2 _ with Ok [v] => Some v | _ => None end) as [[| | |rows|]|]; try by left.
  pose proof (add_rows_nonneg rows (0, 0)%Z ltac:(cbn; lia) ltac:(cbn; lia)) as [H1 H2].
  destruct (foldl add_row (0, 0)%Z rows) as [t p]. cbn [fst snd] in H1, H2.
  destruct (Z.ltb_spec 0 t); [|by left]. right. cbn. unfold saturating_sub. lia.
Qed.

(** Looking up a result tells the three cases apart: 200 with the stored result
    exactly if the read returned one, and otherwise 202 or 404 as the pending marker
    exists or not - two reads, so a result stored between them is reported as unknown,
    although it was never absent together with its marker. *)
Theorem get_result_spec bus id r l :
  let '(l', resp) := get_result bus id r l in
  if bus then
    exists e, get_event id e /\
      match result_in e with
      | Some res => l' = (l ++ [e])%list /\ resp = (OK_200, JResult res)
      | None => exists a, l' = (l ++ [e; (Query [["EXISTS"; pending_key id]], a)])%list /\
          fst resp = if (match a with Ok [v] => bool_decide (bool_of v = Some true) | _ => false end)
                     then ACCEPTED else NOT_FOUND
      end
  else l' = l /\ fst resp = SERVICE_UNAVAILABLE.
Proof.
  unfold get_result. destruct bus; [|by cbn]. rewrite rd_run.
  destruct (try_result_run id r l) as (e & He & ->). cbn [fst snd].
  destruct (result_in e) as [res|] eqn:Hr; cbn [mret rd_ret]; [exists e; by rewrite Hr|].
  rewrite rd_run. unfold Broker.is_pending. rewrite rd_run, command_run. cbn [fst snd mret rd_ret].
  exists e. split; [done|]. rewrite Hr. eexists. rewrite <- app_assoc. split; [done|].
  destruct (r (l ++ [e])%list _) as [[|v [|]]|]; try done. cbn.
  by destruct (bool_of v) as [[]|].
Qed.
End Handlers.

(** The wait is bounded and the marker outlives it: for a request that passes
    validation nothing wraps, the gateway waits at least ten minutes and at most about
    five hours, and the pending marker's lifetime is longer than the wait - so a result
    awaited in time still finds its marker. *)
Theorem max_wait_spec req :
  typed req -> validate req = Ok tt ->
  max_wait_ms req = Z.max (req_time_limit_ms req * n_tests req * 3 + 60000) 600000 /\
  600000 <= max_wait_ms req <= 18060000 /\
  max_wait_ms req < pending_ttl req * 1000.
Proof.
  intros Ht Hv. apply (validate_iff req Ht) in Hv as (_ & Hn & _ & Htl & _).
  unfold n_tests, MAX_TEST_CASES, MAX_TIME_LIMIT_MS in *.
  set (m := req_time_limit_ms req * Z.of_nat (length (test_cases req))) in *.
  assert (0 <= m <= 6000000) as Hm by (subst m; nia).
  assert (max_wait_ms req = Z.max (m * 3 + 60000) 600000) as E.
  { unfold max_wait_ms, add64, mul64. fold m. by unwrap64. }
  assert (600000 <= max_wait_ms req <= 18060000) as B by lia.
  split; [exact E|]. split; [exact B|]. unfold pending_ttl, add64.
  rewrite wrap64_small by (unfold u64, u64_max; div_lia). div_lia.
Qed.

(** A job may run for longer than its entry may stay idle before the sweep takes it for
    orphaned: with the default of 300 s, however many of its test cases run at once (the
    pipeline runs at most 16), there is a valid job whose test cases may use their wall
    limits one after the other for longer than that.  Such a job is run again while it
    is running. *)
Theorem reclaim_window_short :
  exists req, typed req /\ validate req = Ok tt /\
    forall slots, 0 < slots <= 16 ->
      reclaim_min_idle_ms (fun _ => None) < n_tests req / slots * wall_of (req_time_limit_ms req).
Proof.
  exists (MkRequest "j" "c" "" 60000 1 (replicate 100 (MkTest "" None)) None).
  split; [|split].
  - unfold typed. cbn [req_time_limit_ms req_memory_limit_bytes]. by split.
  - vm_compute. reflexivity.
  - intros slots Hs. change (reclaim_min_idle_ms (fun _ => None)) with 300000.
    change (n_tests _) with 100. change (wall_of _) with 121000.
    assert (6 <= 100 / slots) by (apply Z.div_le_lower_bound; lia). lia.
Qed.

Lemma find_w_name n rest :
  find_after (as_bytes "-w") (as_bytes ("worker-w" +:+ show_Z n +:+ rest)) = Some (as_bytes (show_Z n +:+ rest)).
Proof. reflexivity. Qed.

(** The health endpoint reads back the capacity a worker announces: the worker
    count parsed out of the name under which a consumer registers is the number of
    workers of its pool, for every identifier. *)
Theorem consumer_name_roundtrip uuid url n stream group :
  u64 n -> workers_of_name (consumer_name (RedisConsumer_new uuid url n stream group)) = n.
Proof.
  intros Hn. unfold workers_of_name, RedisConsumer_new. cbn [consumer_name].
  rewrite find_w_name, !as_bytes_app. cbn [as_bytes list_ascii_of_string app].
  rewrite split_on_app_sep.
  - by rewrite of_as_bytes, parse_show_u64.
  - rewrite show_Z_nonneg by apply Hn. rewrite as_of_bytes.
    apply (not_in_forallb is_digit); [by apply decimal_digits, Hn|done].
Qed.

(* ------------------------------------------------------------------ *)
(** ** Witnesses *)

Definition long_job : JobRequest :=
  MkRequest "" "cpp" "int main(){}" 60000 1024 (replicate 100 (MkTest "" None)) None.

Lemma max_wait_spec_witness : max_wait_ms long_job = 18060000 /\ max_wait_ms long_job < pending_ttl long_job * 1000.
Proof.
  destruct (max_wait_spec long_job) as (E & _ & H).
  - vm_compute. repeat split; discriminate.
  - vm_compute. reflexivity.
  - split; [rewrite E; vm_compute; reflexivity|exact H].
Defined.

Lemma consumer_name_roundtrip_witness :
  workers_of_name (consumer_name (RedisConsumer_new "6f9619ff-8b86" "redis://r" 16 None None)) = 16.
Proof. apply consumer_name_roundtrip. vm_compute. split; discriminate. Defined.
