(* ===== verification/Monitoring.v ===== *)
(** * Health and metrics

    The [health] and [metrics] handlers of [src/src/api/handlers.rs], over the pool of
    [Pool], the cluster statistics of [Handlers] and the rendering of [Metrics].  The
    handlers load the pool's counters one by one, so the numbers of one response come
    from different moments. *)

From S2P Require Import Prelude Admission Job Metrics Pool Broker Handlers.

Record HealthResponse : Type := MkHealth {
  h_idle_workers : Z; h_busy_workers : Z; h_queued_jobs : Z; h_total_workers : Z; h_uptime_secs : Z }.

Section Monitoring.
Context (string_of : Value -> option string) (strings_of : Value -> option (list string)).
Context (valid_url : string -> bool) (redis_url : option string).

(** Total, idle and busy workers; the pool is [at_idle] when its idle workers are
    loaded and [at_busy] when its busy ones are. *)
Definition worker_stats (at_idle at_busy : JudgeWorkerPool) : Rd (Z * Z * Z) :=
  match redis_url with
  | Some url => get_cluster_stats string_of strings_of valid_url url
                  (num_workers at_idle) (idle_workers at_idle) (busy_workers at_busy)
  | None => mret (num_workers at_idle, idle_workers at_idle, busy_workers at_busy)
  end.

Definition health (at_idle at_busy at_queued : JudgeWorkerPool) (uptime : Z) : Rd HealthResponse :=
  '(total, idle, busy) ← worker_stats at_idle at_busy;
  mret (MkHealth idle busy (queued_jobs at_queued) total uptime).

(** The content type and the body of [metrics]. *)
Definition metrics (statm : option string) (m : Metrics)
    (at_idle at_busy at_queued : JudgeWorkerPool) (uptime : Z) : Rd (string * string) :=
  '(total, idle, busy) ← worker_stats at_idle at_busy;
  mret ("text/plain; version=0.0.4; charset=utf-8"%string,
        render_prometheus statm m total idle busy (queued_jobs at_queued) uptime).

Context (env : Env) (pipeline : JobRequest -> result string JobResult -> Prop).
Context (num cpus : option nat).

Abbreviation reachable := (reachable env pipeline num cpus).

(** The counters of a reachable pool. *)
Lemma pool_numbers s :
  reachable s -> Z.of_nat (worker_count num cpus) <= u64_max ->
  num_workers s = Z.of_nat (worker_count num cpus) /\
  idle_workers s + busy_workers s = num_workers s /\ 0 <= idle_workers s /\ 0 <= busy_workers s.
Proof.
  intros Hr Hn. pose proof (reachable_workers env pipeline num cpus s Hr) as Hw.
  destruct (reachable_ok env pipeline num cpus s Hr) as [[Hb _] _].
  pose proof (count_bounds is_busy (workers s)) as B.
  assert (busy_workers s = count is_busy (workers s)) as Hb'.
  { rewrite Hb. apply wrap64_small. unfold u64. lia. }
  unfold idle_workers, num_workers, saturating_sub. rewrite Hb'. lia.
Qed.

Lemma stats_of_log at_idle at_busy r l :
  reachable at_idle -> reachable at_busy -> Z.of_nat (worker_count num cpus) <= u64_max ->
  let '(l', (total, idle, busy)) := worker_stats at_idle at_busy r l in
  0 <= idle <= total /\ 0 <= busy <= total /\ (at_idle = at_busy -> idle + busy = total).
Proof.
  intros H1 H2 Hn. destruct (pool_numbers at_idle H1 Hn) as (E1 & S1 & I1 & B1).
  destruct (pool_numbers at_busy H2 Hn) as (E2 & S2 & I2 & B2). unfold worker_stats.
  destruct redis_url as [url|].
  - pose proof (cluster_stats_shape string_of strings_of valid_url url (num_workers at_idle)
                  (idle_workers at_idle) (busy_workers at_busy) r l) as H.
    destruct (get_cluster_stats _ _ _ _ _ _ _ r l) as [l' [[w i] b]].
    destruct H as [[= -> -> ->]|(H & Hi & Hb)]; [|lia]. split; [lia|split; [lia|]]. intros <-. lia.
  - cbn. split; [lia|split; [lia|]]. intros <-. lia.
Qed.

(** What the health endpoint reports is sane: whatever Redis answers, in whatever
    shape, and however the pool moves between the loads of its counters, the idle and
    the busy workers each lie between zero and the total, and they add up to it unless
    the pool changed between those two loads. *)
Theorem health_sane at_idle at_busy at_queued uptime r l :
  reachable at_idle -> reachable at_busy -> Z.of_nat (worker_count num cpus) <= u64_max ->
  let h := snd (health at_idle at_busy at_queued uptime r l) in
  0 <= h_idle_workers h <= h_total_workers h /\ 0 <= h_busy_workers h <= h_total_workers h /\
  (at_idle = at_busy -> h_idle_workers h + h_busy_workers h = h_total_workers h) /\
  h_queued_jobs h = queued_jobs at_queued.
Proof.
  intros H1 H2 Hn. pose proof (stats_of_log at_idle at_busy r l H1 H2 Hn) as H.
  unfold health. rewrite rd_run. destruct (worker_stats at_idle at_busy r l) as [l' [[w i] b]].
  cbn. destruct H as (? & ? & ?). tauto.
Qed.
End Monitoring.

Lemma health_sane_witness :
  let s := pool_new (fun _ => None) (Some 4%nat) None in
  let h := snd (health text_of (fun _ => None) (fun _ => true) (Some "redis://r"%string) s s s 7
                  (fun _ _ => Err "down"%string) []) in
  h_idle_workers h = 4 /\ h_idle_workers h + h_busy_workers h = h_total_workers h.
Proof.
  cbv zeta. split; [vm_compute; reflexivity|].
  set (s := pool_new _ _ _).
  assert (reachable (fun _ => None) (fun _ _ => True) (Some 4%nat) None s) as Hs by by apply rtc_refl.
  exact (proj1 (proj2 (proj2 (health_sane text_of (fun _ => None) (fun _ => true) (Some "redis://r"%string)
    (fun _ => None) (fun _ _ => True) (Some 4%nat) None s s s 7 (fun _ _ => Err "down"%string) []
    Hs Hs ltac:(vm_compute; discriminate)))) eq_refl).
Defined.
