(* ===== verification/Buzzer.v ===== *)
(** * The result buzzer

    [src/src/api/result_bus.rs]: the registry of waiters ([register], [WaiterGuard]),
    the listener ([run_listener]) and the waiters of [wait_for], with the worker that
    stores a result and rings the bell ([publish_result] in [src/src/queue/redis.rs])
    and the submitter that clears a stale result ([enqueue]), as one transition system.
    A read of the result may fail, and then counts as finding nothing.

    A [tokio] broadcast channel is a number; a receiver is the channel it subscribed to
    and how many messages were sent since that it has not yet received.  The channels
    have capacity one: a receiver with more than one is told that it lagged, and then
    receives the last. *)

From S2P Require Import Prelude Broker.

(** Where a call of [wait_for] is. *)
Inductive WaiterPhase : Type :=
  | Arriving                     (** not yet registered *)
  | Registered                   (** before the first read *)
  | Waiting (blind : bool)       (** at the head of the loop or in [select!]; did the last read fail? *)
  | Reading                      (** woken by the bell or the safety poll *)
  | Leaving (got_result : bool)  (** about to return; nothing is dropped yet *)
  | GuardDropped                 (** [_guard] is gone, [rx] is not *)
  | Gone.

Record Waiter : Type := MkWaiter {
  waits_on : string; at_phase : WaiterPhase; rx : option (nat * nat) }.

Record Buzzer : Type := MkBuzzer {
  stored : gset string;         (** the ids whose result key is set *)
  owed : list string;           (** results stored whose [PUBLISH] is still to come *)
  subscribed : bool;            (** the listener has its [PSUBSCRIBE] *)
  bells : list string;          (** channels of messages the listener has not handled *)
  registry : gmap string nat;   (** job id to the sender of its channel *)
  next_channel : nat;
  waiters : list Waiter
}.

Definition buzzer_init : Buzzer := MkBuzzer ∅ [] false [] ∅ 0 [].

Definition on_channel (c : nat) (x : Waiter) : bool :=
  match rx x with Some (c', _) => (c =? c')%nat | None => false end.

(** [Sender::receiver_count] *)
Definition receiver_count (c : nat) (ws : list Waiter) : nat :=
  length (List.filter (on_channel c) ws).

(** [Sender::send], to one receiver *)
Definition ring (c : nat) (x : Waiter) : Waiter :=
  match rx x with
  | Some (c', n) => if (c =? c')%nat then MkWaiter (waits_on x) (at_phase x) (Some (c, S n)) else x
  | None => x
  end.

(** [Receiver::recv] with at least one message: [Lagged] leaves the last one. *)
Definition recv (n : nat) : nat := match n with S (S _) => 1 | _ => 0 end.

(** [WaiterGuard::drop] *)
Definition drop_guard (id : string) (reg : gmap string nat) (ws : list Waiter) : gmap string nat :=
  match reg !! id with
  | Some c => if (receiver_count c ws =? 0)%nat then delete id reg else reg
  | None => reg
  end.

(** The job a message is about, and the listener's reaction to it. *)
Definition routed (channel : string) : option string := strip_prefix "judge:done:" channel.

Definition route (reg : gmap string nat) (channel : string) (ws : list Waiter) : list Waiter :=
  match routed channel with
  | Some id => match reg !! id with Some c => map (ring c) ws | None => ws end
  | None => ws
  end.

(** The first occurrence is gone. *)
Fixpoint settle (id : string) (l : list string) : list string :=
  match l with
  | [] => []
  | x :: l' => if bool_decide (x = id) then l' else x :: settle id l'
  end.

Inductive BuzzerLabel : Type :=
  | Arrive (id : string)    (** a call of [wait_for] *)
  | Register (w : nat)      (** [register]: entry or insert, subscribe *)
  | FirstRead (w : nat) (ok : bool)  (** the read after registering; do its [GET] and decoding work? *)
  | Hear (w : nat)          (** [rx.recv()] *)
  | SafetyPoll (w : nat)    (** the [sleep] of the [select!] *)
  | ReadAgain (w : nat) (ok : bool)  (** the read after either *)
  | Expire (w : nat)        (** the deadline has passed *)
  | Cancel (w : nat)        (** the caller drops the future of [wait_for] *)
  | DropGuard (w : nat)     (** locals go in reverse order of declaration: [_guard].. *)
  | DropRx (w : nat)        (** .. then [rx] *)
  | Clear (id : string)     (** the [DEL] of [enqueue], or the result's expiry *)
  | Store (id : string)     (** the worker's [SET] *)
  | Publish (id : string)   (** the worker's [PUBLISH], later in the same pipeline *)
  | Reack (id : string)     (** a bell no result is owed: of [ack_existing], or after a refused [SET] *)
  | Subscribe               (** the listener connects and subscribes *)
  | StreamEnd               (** the listener's connection ends, with what it had not read *)
  | Deliver.                (** the listener handles its next message *)

(** [try_result], in both reads: a failed [GET] and a value that cannot be decoded count as
    no result ([.ok()?]); a hit ends the wait. *)
Definition read_phase (ok found : bool) : WaiterPhase :=
  if ok then (if found then Leaving true else Waiting false) else Waiting true.

(** A step of one call of [wait_for]: what becomes of the registry, the next channel
    and the call. *)
Definition waiter_step (l : BuzzerLabel) (s : Buzzer) (x : Waiter)
  : option (gmap string nat * nat * Waiter) :=
  let '(MkBuzzer st _ _ _ reg nx ws) := s in
  let '(MkWaiter id ph r) := x in
  let read ok := read_phase ok (bool_decide (id ∈ st)) in
  match l, ph, r with
  | Register _, Arriving, _ =>
      match reg !! id with
      | Some c => Some (reg, nx, MkWaiter id Registered (Some (c, 0%nat)))
      | None => Some (<[id := nx]> reg, S nx, MkWaiter id Registered (Some (nx, 0%nat)))
      end
  | FirstRead _ ok, Registered, _ => Some (reg, nx, MkWaiter id (read ok) r)
  | Hear _, Waiting _, Some (c, S n) => Some (reg, nx, MkWaiter id Reading (Some (c, recv (S n))))
  | SafetyPoll _, Waiting _, _ => Some (reg, nx, MkWaiter id Reading r)
  | ReadAgain _ ok, Reading, _ => Some (reg, nx, MkWaiter id (read ok) r)
  | Expire _, Waiting _, _ => Some (reg, nx, MkWaiter id (Leaving false) r)
  | Cancel _, (Registered | Waiting _ | Reading), _ => Some (reg, nx, MkWaiter id (Leaving false) r)
  | DropGuard _, Leaving _, _ => Some (drop_guard id reg ws, nx, MkWaiter id GuardDropped r)
  | DropRx _, GuardDropped, _ => Some (reg, nx, MkWaiter id Gone None)
  | _, _, _ => None
  end.

Definition waiter_of (l : BuzzerLabel) : option nat :=
  match l with
  | Register w | FirstRead w _ | Hear w | SafetyPoll w | ReadAgain w _
  | Expire w | Cancel w | DropGuard w | DropRx w => Some w
  | _ => None
  end.

Definition buzzer_step (l : BuzzerLabel) (s : Buzzer) : option Buzzer :=
  let '(MkBuzzer st ow su be reg nx ws) := s in
  match waiter_of l with
  | Some w =>
      x ← ws !! w;
      '(reg', nx', x') ← waiter_step l s x;
      Some (MkBuzzer st ow su be reg' nx' (<[w := x']> ws))
  | None =>
      match l with
      | Arrive id => Some (MkBuzzer st ow su be reg nx (ws ++ [MkWaiter id Arriving None]))
      | Clear id => Some (MkBuzzer (st ∖ {[id]}) ow su be reg nx ws)
      | Store id => Some (MkBuzzer ({[id]} ∪ st) (id :: ow) su be reg nx ws)
      | Publish id =>
          if bool_decide (id ∈ ow)
          then Some (MkBuzzer st (settle id ow) su
                       (if su then be ++ [done_channel id] else be) reg nx ws)
          else None
      | Reack id => Some (MkBuzzer st ow su (if su then be ++ [done_channel id] else be) reg nx ws)
      | Subscribe => if su then None else Some (MkBuzzer st ow true be reg nx ws)
      | StreamEnd => if su then Some (MkBuzzer st ow false [] reg nx ws) else None
      | Deliver =>
          match be with
          | [] => None
          | ch :: be' => Some (MkBuzzer st ow su be' reg nx (route reg ch ws))
          end
      | _ => None
      end
  end.

Definition buzzer_rel (s s' : Buzzer) : Prop := exists l, buzzer_step l s = Some s'.

(** The step loses no message of a stored result: the connection does not end, and none
    is published while it is down. *)
Definition lossless (l : BuzzerLabel) (s : Buzzer) : bool :=
  match l with StreamEnd => false | Publish _ => subscribed s | _ => true end.

Definition reliable_rel (s s' : Buzzer) : Prop :=
  exists l, lossless l s = true /\ buzzer_step l s = Some s'.

(** [ResultBus::spawn]: without a valid URL or a first connection there is no bus;
    otherwise it starts with an empty registry and a listener yet to subscribe. *)
Definition ResultBus_spawn (valid_url : string -> bool) (url : string) : Rd (option Buzzer) :=
  if negb (valid_url url) then mret None
  else
    a ← ask Connect;
    mret (match a with Ok _ => Some buzzer_init | Err _ => None end).

(** One pass of [run_listener] up to its subscription; [true] is the [Subscribe] step,
    and after [false] the next pass begins. *)
Definition connect_listener : Rd bool :=
  a ← ask Connect;
  match a with
  | Err _ => _ ← ask (Sleep 500); mret false
  | Ok _ =>
      r ← ask (Query [["PSUBSCRIBE"; "judge:done:*"]]);
      match r with
      | Ok _ => mret true
      | Err _ => _ ← ask (Sleep 500); mret false
      end
  end.

(* ------------------------------------------------------------------ *)
(** ** Well-formed states *)

Definition holds_rx (p : WaiterPhase) : bool :=
  match p with Arriving | Gone => false | _ => true end.

(** From [register] until its [rx] is dropped, a waiter holds a receiver of the channel
    registered for its job. *)
Definition waiter_ok (reg : gmap string nat) (x : Waiter) : Prop :=
  if holds_rx (at_phase x) then exists c n, reg !! waits_on x = Some c /\ rx x = Some (c, n)
  else rx x = None.

Record wf (s : Buzzer) : Prop := MkWf {
  wf_waiters : Forall (waiter_ok (registry s)) (waiters s);
  wf_below : forall id c, registry s !! id = Some c -> (c < next_channel s)%nat;
  wf_distinct : forall i j c, registry s !! i = Some c -> registry s !! j = Some c -> i = j
}.

Lemma receiver_counted c ws w x :
  ws !! w = Some x -> on_channel c x = true -> receiver_count c ws <> 0%nat.
Proof.
  intros Hw Hc. unfold receiver_count. apply list_elem_of_lookup_2 in Hw.
  assert (List.In x (List.filter (on_channel c) ws)) as Hin.
  { apply List.filter_In. split; [by apply list_elem_of_In|done]. }
  destruct (List.filter (on_channel c) ws); [by destruct Hin|done].
Qed.

(** The guard goes while its own receiver still counts: it never removes the entry. *)
Lemma guard_keeps_entry reg ws w x :
  ws !! w = Some x -> waiter_ok reg x -> holds_rx (at_phase x) = true ->
  drop_guard (waits_on x) reg ws = reg.
Proof.
  unfold waiter_ok, drop_guard. intros Hw Hok Hs. rewrite Hs in Hok.
  destruct Hok as (c & n & -> & Hrx). destruct (Nat.eqb_spec (receiver_count c ws) 0) as [E|]; [|done].
  destruct (receiver_counted c ws w x Hw); [|done]. unfold on_channel. rewrite Hrx. apply Nat.eqb_refl.
Qed.

Lemma waiter_ok_ring reg c x : waiter_ok reg x -> waiter_ok reg (ring c x).
Proof.
  unfold ring, waiter_ok. destruct (rx x) as [[c' n]|] eqn:Hr; [|by rewrite Hr].
  destruct (Nat.eqb_spec c c') as [<-|]; cbn; [|by rewrite Hr].
  destruct (holds_rx (at_phase x)); [|done].
  intros (d & m & Hd & [= <- <-]). by eexists _, _.
Qed.

Lemma waiter_ok_mono reg reg' x : reg ⊆ reg' -> waiter_ok reg x -> waiter_ok reg' x.
Proof.
  unfold waiter_ok. intros Hsub. destruct (holds_rx (at_phase x)); [|done].
  intros (c & n & Hc & Hr). exists c, n. split; [by eapply lookup_weaken|done].
Qed.

(** What a waiter's step may do to the registry: nothing, or a fresh channel for its job. *)
Lemma waiter_step_registry l s w x reg' nx' x' :
  wf s -> waiters s !! w = Some x -> waiter_step l s x = Some (reg', nx', x') ->
  waits_on x' = waits_on x /\ waiter_ok reg' x' /\
  ((reg' = registry s /\ nx' = next_channel s) \/
   (registry s !! waits_on x = None /\ reg' = <[waits_on x := next_channel s]> (registry s) /\
    nx' = S (next_channel s))).
Proof.
  intros Hwf Hw Hs. pose proof (Forall_lookup_1 _ _ _ _ (wf_waiters _ Hwf) Hw) as Hok.
  pose proof (guard_keeps_entry _ _ w x Hw Hok) as Hguard.
  destruct s as [st ow su be reg nx ws], x as [id ph r]. cbn in *.
  destruct l; try done; destruct ph; try done; cbn in Hs.
  1: destruct (reg !! id) as [c|] eqn:Hreg; simplify_eq/=;
       (split; [done|]; split;
        [unfold waiter_ok; cbn; (eexists _, _; split; [first [exact Hreg|by rewrite lookup_insert_eq]|done])
        |tauto]).
  2: { destruct r as [[c [|n]]|]; simplify_eq/=. split_and!; [done| |by left].
       unfold waiter_ok in *. cbn in *. destruct Hok as (c' & m & Hc & [= <- <-]). by eexists _, _. }
  all: simplify_eq/=; try rewrite Hguard by done;
    (split; [done|]; split; [|by left]); try done; destruct ok; try done; by destruct (bool_decide (id ∈ st)).
Qed.

(** A step of the system is a step of one waiter, or of its environment. *)
Lemma buzzer_step_waiter l s s' w :
  buzzer_step l s = Some s' -> waiter_of l = Some w ->
  exists x reg' nx' x',
    waiters s !! w = Some x /\ waiter_step l s x = Some (reg', nx', x') /\
    s' = MkBuzzer (stored s) (owed s) (subscribed s) (bells s) reg' nx' (<[w := x']> (waiters s)).
Proof.
  destruct s as [st ow su be reg nx ws]. intros Hs Hl. unfold buzzer_step in Hs. rewrite Hl in Hs.
  destruct (ws !! w) as [x|] eqn:Hw; [|done]. cbn [mbind option_bind] in Hs.
  destruct (waiter_step l _ x) as [[[reg' nx'] x']|] eqn:Hx; [|done]. cbn in Hs. simplify_eq/=.
  by eexists x, _, _, _.
Qed.

Lemma wf_invariant : invariant_of buzzer_rel wf.
Proof.
  intros s s' Hwf [l Hs]. pose proof Hwf as [Hok Hb Hd].
  destruct (waiter_of l) as [w|] eqn:Hl.
  - destruct (buzzer_step_waiter l s s' w Hs Hl) as (x & reg' & nx' & x' & Hw & Hx & ->).
    destruct (waiter_step_registry l s w x _ _ _ Hwf Hw Hx) as (_ & Hx' & [[-> ->]|(Hfresh & -> & ->)]).
    + constructor; [by apply Forall_insert|done|done].
    + constructor; cbn.
      * apply Forall_insert; [|done]. eapply Forall_impl; [exact Hok|].
        intros y. apply waiter_ok_mono. by apply insert_subseteq.
      * intros id c [[_ <-]|[_ Hc]]%lookup_insert_Some; [lia|]. apply Hb in Hc. lia.
      * intros i j c [[<- <-]|[Hi Hc]]%lookup_insert_Some [[<- Hj]|[Hj Hc']]%lookup_insert_Some;
          [done|apply Hb in Hc'; lia|apply Hb in Hc; lia|by eapply Hd].
  - destruct s as [st ow su be reg nx ws]. cbn in Hok, Hb, Hd.
    destruct l; simplify_eq/=; repeat case_match; simplify_eq/=; try by constructor.
    + constructor; cbn; [|done|done]. apply Forall_app_2; [done|]. by constructor.
    + constructor; cbn; [|done|done]. unfold route. repeat case_match; [|done|done].
      apply Forall_map. eapply Forall_impl; [exact Hok|]. intros y. apply waiter_ok_ring.
Qed.

Lemma wf_init : wf buzzer_init.
Proof. constructor; cbn; [by constructor|intros ??|intros ???]; by rewrite lookup_empty. Qed.

Lemma wf_reachable s : rtc buzzer_rel buzzer_init s -> wf s.
Proof. intros H. by_invariant wf_invariant wf_init. Qed.

(* ------------------------------------------------------------------ *)
(** ** No wake-up is missed *)

(** A waiter whose last read worked, and that sleeps without a bell to hear. *)
Definition deaf (x : Waiter) : Prop :=
  at_phase x = Waiting false /\ match rx x with Some (_, S _) => False | _ => True end.

(** While a waiter sleeps with nothing to hear and its result is there, the bell is
    still to be rung or still on its way. *)
Definition heard (s : Buzzer) : Prop :=
  forall x, x ∈ waiters s -> deaf x -> waits_on x ∈ stored s ->
  waits_on x ∈ owed s \/ done_channel (waits_on x) ∈ bells s.

Lemma routed_done id : routed (done_channel id) = Some id.
Proof. apply strip_prefix_app. Qed.

Lemma settle_other i j l : i ∈ l -> i <> j -> i ∈ settle j l.
Proof.
  induction l as [|a l IH]; cbn; [by intros ?%elem_of_nil|].
  intros [->|Hi]%elem_of_cons Hne; case_bool_decide; subst; try done; apply elem_of_cons; auto.
Qed.

(** A waiter step leaves no waiter deaf that was not, except one that has just read. *)
Lemma waiter_step_deaf l s x reg' nx' x' :
  waiter_step l s x = Some (reg', nx', x') -> deaf x' -> waits_on x' ∉ stored s.
Proof.
  destruct s as [st ow su be reg nx ws], x as [id ph r]. intros Hs [Hp Hr]. cbn in *.
  destruct l; try done; destruct ph; try done; repeat case_match; simplify_eq/=;
    unfold read_phase in *; repeat case_match; repeat case_bool_decide; done.
Qed.

(** A delivered bell is heard by every waiter of its job. *)
Lemma route_wakes reg id ws x :
  Forall (waiter_ok reg) ws -> x ∈ route reg (done_channel id) ws -> deaf x ->
  waits_on x <> id /\ exists x0, x0 ∈ ws /\ deaf x0 /\ waits_on x0 = waits_on x.
Proof.
  unfold route. rewrite routed_done. intros Hok Hx Hd.
  assert (exists x0, x0 ∈ ws /\ x = match reg !! id with Some c => ring c x0 | None => x0 end)
    as (x0 & Hx0 & ->).
  { destruct (reg !! id) as [c|]; [|by exists x]. apply list_elem_of_fmap in Hx as (y & -> & Hy).
    by exists y. }
  pose proof (proj1 (Forall_forall _ _) Hok x0 Hx0) as Ho.
  unfold deaf, waiter_ok, ring in *. destruct x0 as [j ph [[c' n]|]]; cbn in *.
  - destruct (reg !! id) as [c|] eqn:Hreg; cbn in *.
    + destruct (Nat.eqb_spec c c') as [<-|Hne]; cbn in *; [by destruct Hd|].
      destruct Hd as [-> Hn]. cbn in Ho. destruct Ho as (d & m & Hd' & [= -> ->]).
      split; [intros ->; congruence|]. by exists (MkWaiter j (Waiting false) (Some (d, m))).
    + destruct Hd as [-> Hn]. cbn in Ho. destruct Ho as (d & m & Hd' & [= -> ->]).
      split; [intros ->; congruence|]. by exists (MkWaiter j (Waiting false) (Some (d, m))).
  - destruct (reg !! id); cbn in *; destruct Hd as [-> _];
      by destruct Ho as (? & ? & _ & [=]).
Qed.

Lemma heard_invariant s s' : wf s -> heard s -> reliable_rel s s' -> heard s'.
Proof.
  intros Hwf Hh (l & Hl & Hs). destruct (waiter_of l) as [w|] eqn:Hw.
  - destruct (buzzer_step_waiter l s s' w Hs Hw) as (x & reg' & nx' & x' & Hx & Hstep & ->).
    intros y Hy Hd Hst. cbn in *.
    apply list_elem_of_lookup_1 in Hy as [i Hi]. apply list_lookup_insert_Some in Hi as [(_ & <- & _)|[_ Hi]].
    + by destruct (waiter_step_deaf _ _ _ _ _ _ Hstep Hd).
    + apply Hh; [by eapply list_elem_of_lookup_2|done|done].
  - pose proof (wf_waiters _ Hwf) as Hok. destruct s as [st ow su be reg nx ws]. cbn in Hok.
    destruct l as [id| | | | | | | | | |id|id|id|id| | |]; try done; cbn in Hs, Hl; simplify_eq/=.
    + intros x [Hx|Hx]%elem_of_app Hd Hst; [by apply Hh|].
      apply list_elem_of_singleton in Hx as ->. by destruct Hd.
    + intros x Hx Hd Hst. cbn in *. apply Hh; [done|done|]. cbn. set_solver.
    + intros x Hx Hd Hst. cbn in Hx, Hst. destruct (decide (waits_on x = id)) as [->|Hne]; [left; by left|].
      destruct (Hh x Hx Hd) as [?|?]; [cbn; set_solver|left; by right|by right].
    + destruct (bool_decide (id ∈ ow)) eqn:Ho; [|done]. simplify_eq/=. intros x Hx Hd Hst. cbn in *.
      destruct (decide (waits_on x = id)) as [->|Hne]; [right; set_solver|].
      destruct (Hh x Hx Hd Hst) as [?|?]; [left; by apply settle_other|right; set_solver].
    + intros x Hx Hd Hst. cbn in *. destruct (Hh x Hx Hd Hst) as [?|?]; [by left|right].
      destruct su; [apply elem_of_app; by left|done].
    + destruct su; simplify_eq/=. exact Hh.
    + destruct be as [|ch be]; simplify_eq/=. intros x Hx Hd Hst. cbn in *.
      destruct (routed ch) as [id|] eqn:Hr.
      * pose proof Hr as Hch. apply strip_prefix_Some in Hch as ->.
        destruct (route_wakes reg id ws x Hok Hx Hd) as (Hne & x0 & Hx0 & Hd0 & He).
        rewrite <-He in *. destruct (Hh x0 Hx0 Hd0 Hst) as [?|Hb]; [by left|]. right.
        apply elem_of_cons in Hb as [Hb|Hb]; [|done]. cbn in Hb. destruct Hne.
        assert (routed (done_channel (waits_on x0)) = Some id) as E by (by rewrite Hb).
        rewrite routed_done in E. by injection E.
      * unfold route in Hx. rewrite Hr in Hx. destruct (Hh x Hx Hd Hst) as [?|Hb]; [by left|]. right.
        apply elem_of_cons in Hb as [<-|Hb]; [|done]. by rewrite routed_done in Hr.
Qed.

Lemma reliable_buzzer s s' : reliable_rel s s' -> buzzer_rel s s'.
Proof. intros (l & _ & Hl). by exists l. Qed.

Lemma reliable_heard s : rtc reliable_rel buzzer_init s -> wf s /\ heard s.
Proof.
  intros H. apply (invariant_reachable reliable_rel (fun s => wf s /\ heard s)) with buzzer_init;
    [|split; [exact wf_init|]|exact H].
  - intros a b [Ha Hh] Hab. split; [|by eapply heard_invariant].
    apply (wf_invariant a b Ha). by apply reliable_buzzer.
  - intros x Hx. by apply elem_of_nil in Hx.
Qed.

(* ------------------------------------------------------------------ *)
(** ** Properties *)

(** A wake-up followed by a read that works. *)
Lemma wake_and_read l s w x b :
  waiters s !! w = Some x -> at_phase x = Waiting b -> waits_on x ∈ stored s ->
  (l = SafetyPoll w \/ l = Hear w /\ exists c n, rx x = Some (c, S n)) ->
  exists s', run_labels buzzer_step [l; ReadAgain w true] s = Some s' /\
    exists x', waiters s' !! w = Some x' /\ at_phase x' = Leaving true.
Proof.
  destruct s as [st ow su be reg nx ws], x as [id ph r]. cbn. intros Hw -> Hst Hl.
  pose proof (lookup_lt_Some _ _ _ Hw) as Hlt.
  destruct Hl as [->|(-> & c & n & ->)]; cbn; rewrite Hw; cbn; rewrite list_lookup_insert_eq by done; cbn;
    rewrite bool_decide_eq_true_2 by done; cbn; (eexists; split; [done|]); cbn;
    rewrite list_lookup_insert_eq by (by rewrite length_insert); by eexists.
Qed.

(** C22. No wake-up is missed.  As long as the listener loses no message, a waiter in its
    [select!] whose result is stored, with no bell for it left to ring or to route, and
    whose last read did not fail, has a message to receive, and receiving it ends the
    wait with the result if that read works - however registrations, reads, departures
    of other waiters, claims of the same id and the worker's commands interleave.  After
    a read that failed - the [GET], or the decoding - the message is gone; but then, and
    whatever messages are lost, the safety poll and a read that works end the wait with
    the result. *)
Theorem no_missed_bell s w x :
  waiters s !! w = Some x -> waits_on x ∈ stored s ->
  (rtc reliable_rel buzzer_init s -> at_phase x = Waiting false ->
   waits_on x ∉ owed s -> done_channel (waits_on x) ∉ bells s ->
   exists s', run_labels buzzer_step [Hear w; ReadAgain w true] s = Some s' /\
     exists x', waiters s' !! w = Some x' /\ at_phase x' = Leaving true) /\
  (forall blind, at_phase x = Waiting blind ->
   exists s', run_labels buzzer_step [SafetyPoll w; ReadAgain w true] s = Some s' /\
     exists x', waiters s' !! w = Some x' /\ at_phase x' = Leaving true).
Proof.
  intros Hw Hst. split; [|intros b Hb; eapply wake_and_read; by auto].
  intros Hr Hx How Hbe. destruct (reliable_heard s Hr) as [Hwf Hh].
  pose proof (Forall_lookup_1 _ _ _ _ (wf_waiters _ Hwf) Hw) as Ho. unfold waiter_ok in Ho.
  rewrite Hx in Ho. destruct Ho as (c & n & _ & Hrx). destruct n as [|n]; [|eapply wake_and_read; by eauto].
  destruct (Hh x) as [?|?]; [by eapply list_elem_of_lookup_2| |done|done|done].
  split; [done|]. by rewrite Hrx.
Qed.

Lemma ring_isolated s id x :
  wf s -> x ∈ waiters s -> waits_on x <> id ->
  match registry s !! id with Some c => ring c x = x | None => True end.
Proof.
  intros Hwf Hx Hne. destruct (registry s !! id) as [c|] eqn:Hreg; [|done].
  pose proof (proj1 (Forall_forall _ _) (wf_waiters _ Hwf) x Hx) as Ho. unfold waiter_ok, ring in *.
  destruct (holds_rx (at_phase x)); [|by rewrite Ho]. destruct Ho as (d & n & Hd & ->).
  destruct (Nat.eqb_spec c d) as [<-|]; [|done]. destruct Hne. by eapply wf_distinct.
Qed.

(** A bell wakes the waiters of its own job only: routing a message for one id
    leaves every waiter of another id as it was, in every reachable state. *)
Theorem bell_isolated s s' id rest w x :
  rtc buzzer_rel buzzer_init s -> bells s = done_channel id :: rest ->
  buzzer_step Deliver s = Some s' -> waiters s !! w = Some x -> waits_on x <> id ->
  waiters s' !! w = Some x.
Proof.
  intros Hr Hb Hs Hw Hne. pose proof (ring_isolated s id x (wf_reachable s Hr)) as Hring.
  specialize (Hring (list_elem_of_lookup_2 _ _ _ Hw) Hne).
  destruct s as [st ow su be reg nx ws]. cbn in *. subst be. simplify_eq/=. unfold route. rewrite routed_done.
  destruct (reg !! id) as [c|]; [|done]. change (map (ring c) ws) with (ring c <$> ws).
  rewrite list_lookup_fmap, Hw. cbn. by rewrite Hring.
Qed.

(** The registry leaks.  The guard is meant to remove the entry when the last
    waiter leaves, but the local [_guard] is dropped before [rx]: at that point the
    waiter's own receiver still counts.  Once a waiter of a job has registered, the
    job's entry stays, even when every waiter is gone. *)
Theorem registry_never_shrinks s s' :
  rtc buzzer_rel buzzer_init s -> rtc buzzer_rel s s' -> registry s ⊆ registry s'.
Proof.
  intros Hr Hrs. pose proof (wf_reachable s Hr) as Hwf. clear Hr. revert Hwf.
  induction Hrs as [|a b c Hab _ IH]; intros Hwf; [done|].
  pose proof (wf_invariant a b Hwf Hab) as Hb. etrans; [|by apply IH]. destruct Hab as [l Hl].
  destruct (waiter_of l) as [w|] eqn:Hlw.
  - destruct (buzzer_step_waiter l a b w Hl Hlw) as (x & reg' & nx' & x' & Hw & Hx & ->). cbn.
    destruct (waiter_step_registry l a w x _ _ _ Hwf Hw Hx) as (_ & _ & [[-> ->]|(Hf & -> & ->)]);
      [done|by apply insert_subseteq].
  - destruct a as [st ow su be reg nx ws]. destruct l; simplify_eq/=; repeat case_match; by simplify_eq/=.
Qed.

(* ------------------------------------------------------------------ *)
(** ** Witnesses *)

(** One waiter of ["j"] that registers and reads before the result is there, then the
    worker, then the listener. *)
Definition one_wait : list BuzzerLabel :=
  [Subscribe; Arrive "j"; Register 0; FirstRead 0 true; Store "j"; Publish "j"; Deliver].

Definition at_bell : Buzzer :=
  default buzzer_init (run_labels buzzer_step one_wait buzzer_init).

Fixpoint all_lossless (ls : list BuzzerLabel) (s : Buzzer) : bool :=
  match ls with
  | [] => true
  | l :: ls' => lossless l s && match buzzer_step l s with Some s' => all_lossless ls' s' | None => true end
  end.

Lemma lossless_run ls s s' :
  all_lossless ls s = true -> run_labels buzzer_step ls s = Some s' -> rtc reliable_rel s s'.
Proof.
  revert s. induction ls as [|l ls IH]; intros s; cbn; [by intros _ [= ->]|].
  destruct (buzzer_step l s) as [s1|] eqn:E; [|by rewrite andb_true_r].
  intros [Hl Ha]%andb_prop Hs. eapply rtc_l; [by exists l|by apply IH].
Qed.

Lemma no_missed_bell_witness :
  exists s', run_labels buzzer_step [Hear 0; ReadAgain 0 true] at_bell = Some s' /\
    exists x', waiters s' !! 0%nat = Some x' /\ at_phase x' = Leaving true.
Proof.
  destruct (no_missed_bell at_bell 0 (MkWaiter "j" (Waiting false) (Some (0%nat, 1%nat)))) as [H _].
  - by vm_compute.
  - vm_compute. set_solver.
  - apply H; [apply (lossless_run one_wait); by vm_compute|done|vm_compute; set_solver|vm_compute; set_solver].
Defined.

(** The first read works, the one after the bell fails: only the safety poll is left. *)
Example blind_waiter_deaf :
  option_map (fun s => map (fun x => (at_phase x, rx x)) (waiters s))
    (run_labels buzzer_step [Hear 0; ReadAgain 0 false] at_bell) = Some [(Waiting true, Some (0%nat, 0%nat))].
Proof. by vm_compute. Qed.

(** The same waiter leaves with its result; the entry is still there. *)
Definition one_departure : list BuzzerLabel := [Hear 0; ReadAgain 0 true; DropGuard 0; DropRx 0].

Lemma registry_never_shrinks_witness :
  let gone := default buzzer_init (run_labels buzzer_step one_departure at_bell) in
  map at_phase (waiters gone) = [Gone] /\ registry at_bell ⊆ registry gone /\
  registry at_bell !! "j" = Some 0%nat.
Proof.
  split; [by vm_compute|]. split; [|by vm_compute].
  apply (registry_never_shrinks at_bell).
  - apply (run_labels_rtc buzzer_step one_wait). by vm_compute.
  - apply (run_labels_rtc buzzer_step one_departure). by vm_compute.
Defined.

(** A second waiter, of ["k"], while the bell of ["j"] is on its way. *)
Definition two_arrivals : list BuzzerLabel :=
  [Subscribe; Arrive "j"; Arrive "k"; Register 0; Register 1; FirstRead 0 true; FirstRead 1 true;
   Store "j"; Publish "j"].

Definition two_waits : Buzzer :=
  default buzzer_init (run_labels buzzer_step two_arrivals buzzer_init).

Lemma bell_isolated_witness :
  exists s', buzzer_step Deliver two_waits = Some s' /\
    waiters s' !! 1%nat = Some (MkWaiter "k" (Waiting false) (Some (1%nat, 0%nat))).
Proof.
  eexists. split; [by vm_compute|].
  eapply (bell_isolated two_waits _ "j" []); [|by vm_compute|by vm_compute|by vm_compute|by cbn].
  apply (run_labels_rtc buzzer_step two_arrivals). by vm_compute.
Defined.
