(* ===== verification/Cluster.v ===== *)
(** * The cluster

    Gateways ([ResultBus::enqueue] in [src/src/api/result_bus.rs]) and worker nodes
    ([RedisConsumer] in [src/src/queue/redis.rs]) around one Redis, as one transition
    system.  A step is one command Redis executes for one of them, or one step of a
    task between two commands, so the pipelines of different clients interleave - they
    are sent without [MULTI].  The commands themselves are those of [Broker] and
    [Consumer].

    Redis is an interface: the class [RedisServer] says what the code can observe of it
    and [RedisLaws] what the documentation of each command promises when it is executed;
    [demo_server] at the end is an instance.  Redis may also refuse a command - answer it
    with an error, as the embedded server of [src/entrypoint.sh] ([--maxmemory 64mb],
    [noeviction]) does with a [SET] once its memory is full - and still execute the rest
    of the pipe: the steps [CallRefused], [SweepRefused] and [ReportRefused]. *)

From S2P Require Import Prelude Config Admission Job Broker Consumer Handlers Pool.

Open Scope string_scope.
Open Scope list_scope.

(** A stream entry: its identifier and the value of its [job] field. *)
Abbreviation Entry := (string * string)%type.

(** What the code can observe of a server: the value of a key, the entries not yet
    delivered to the consumer group (before there is one: not yet trimmed), the group's
    pending entries, and the identifiers handed out so far. *)
Class RedisServer (S : Type) : Type := {
  exec : list string -> S -> S;
  value : S -> string -> option string;
  undelivered : S -> list Entry;
  pending : S -> list Entry;
  used_ids : S -> gset string;
  grouped : S -> bool;            (** does the consumer group exist? *)
  next_id : S -> string;
  expire : string -> S -> S;      (** a key's time is over *)
  trim_stream : nat -> S -> S     (** [MAXLEN]: the oldest undelivered entries go *)
}.

Definition entry_ids {S} `{RedisServer S} (s : S) : list string :=
  map fst (undelivered s) ++ map fst (pending s).

(** Two servers with the same stream, or the same keys. *)
Record same_stream {S} `{RedisServer S} (s s' : S) : Prop := MkSameStream {
  same_undelivered : undelivered s' = undelivered s;
  same_pending : pending s' = pending s;
  same_used : used_ids s' = used_ids s;
  same_grouped : grouped s' = grouped s
}.

Definition same_values {S} `{RedisServer S} (s s' : S) : Prop := forall k, value s' k = value s k.

(** What each command does when Redis executes it. *)
Class RedisLaws (S : Type) `{RedisServer S} (c : RedisConsumer) (env : Env) : Prop := {
  set_value s k v ttl k' :
    value (exec ["SET"; k; v; "EX"; ttl] s) k' = if decide (k' = k) then Some v else value s k';
  set_stream s k v ttl : same_stream s (exec ["SET"; k; v; "EX"; ttl] s);
  set_nx_value s k v ttl k' :
    value (exec ["SET"; k; v; "EX"; ttl; "NX"] s) k' =
      if decide (k' = k /\ value s k = None) then Some v else value s k';
  set_nx_stream s k v ttl : same_stream s (exec ["SET"; k; v; "EX"; ttl; "NX"] s);
  del_value s k k' : value (exec ["DEL"; k] s) k' = if decide (k' = k) then None else value s k';
  del_stream s k : same_stream s (exec ["DEL"; k] s);
  publish_value s ch m : same_values s (exec ["PUBLISH"; ch; m] s);
  publish_stream s ch m : same_stream s (exec ["PUBLISH"; ch; m] s);
  xadd_value s json : same_values s (exec (xadd env json) s);
  xadd_undelivered s json : undelivered (exec (xadd env json) s) = undelivered s ++ [(next_id s, json)];
  xadd_pending s json : pending (exec (xadd env json) s) = pending s;
  xadd_used s json : used_ids (exec (xadd env json) s) = {[next_id s]} ∪ used_ids s;
  xadd_grouped s json : grouped (exec (xadd env json) s) = grouped s;
  next_fresh s : next_id s ∉ used_ids s;
  (* [XGROUP CREATE key group $]: a new group starts after the last entry *)
  create_value s : same_values s (exec (create_group c) s);
  create_grouped s : grouped (exec (create_group c) s) = true;
  create_undelivered s :
    undelivered (exec (create_group c) s) = if grouped s then undelivered s else [];
  create_pending s : pending (exec (create_group c) s) = pending s;
  create_used s : used_ids (exec (create_group c) s) = used_ids s;
  read_value s n : same_values s (exec (xreadgroup c n) s);
  read_undelivered s n :
    undelivered (exec (xreadgroup c n) s) = drop (Z.to_nat (batch_size c n)) (undelivered s);
  read_pending s n :
    pending (exec (xreadgroup c n) s) = pending s ++ take (Z.to_nat (batch_size c n)) (undelivered s);
  read_used s n : used_ids (exec (xreadgroup c n) s) = used_ids s;
  read_grouped s n : grouped (exec (xreadgroup c n) s) = grouped s;
  ack_value s id : same_values s (exec (xack c id) s);
  ack_undelivered s id : undelivered (exec (xack c id) s) = undelivered s;
  ack_pending s id : pending (exec (xack c id) s) = filter (fun e => fst e <> id) (pending s);
  ack_used s id : used_ids (exec (xack c id) s) = used_ids s;
  ack_grouped s id : grouped (exec (xack c id) s) = grouped s;
  claim_value s t cur : same_values s (exec (xautoclaim c t cur) s);
  claim_stream s t cur : same_stream s (exec (xautoclaim c t cur) s);
  expire_value s k k' : value (expire k s) k' = if decide (k' = k) then None else value s k';
  expire_stream s k : same_stream s (expire k s);
  trim_value s n : same_values s (trim_stream n s);
  trim_undelivered s n : undelivered (trim_stream n s) = drop n (undelivered s);
  trim_pending s n : sublist (pending (trim_stream n s)) (pending s);
  trim_used s n : used_ids (trim_stream n s) = used_ids s;
  trim_grouped s n : grouped (trim_stream n s) = grouped s
}.

(** What a worker pool may answer on a request; on one with an id, the result bears it. *)
Class PoolAnswers (answers : JobRequest -> result string JobResult -> Prop) : Prop :=
  answers_id r res : job_id r <> ""%string -> answers r (Ok res) -> res_job_id res = job_id r.

(** serde reads back what it wrote, and writes UTF-8. *)
Class Codec (encode : JobRequest -> option string) (decode : string -> option JobRequest) : Prop := {
  encode_decode r j : encode r = Some j -> decode j = Some r;
  encode_utf8 r j : encode r = Some j -> valid_utf8 j
}.

(* ------------------------------------------------------------------ *)
(** ** State *)

(** Where a call of [enqueue] is. *)
Inductive CallPhase : Type :=
  | Clearing                      (** before [DEL] of the stale result *)
  | Claiming                      (** before [SET .. NX] of the pending marker *)
  | Doomed                        (** the same, but the [DEL] of this pipe was refused *)
  | Adding                        (** claim granted, before [XADD] *)
  | RollingBack                   (** [XADD] failed, before [DEL] of the marker *)
  | Answered (o : EnqueueOutcome) (added : option string).  (** with the identifier [XADD] gave *)

#[export] Instance CallPhase_eq_dec : EqDecision CallPhase.
Proof. solve_decision. Defined.

Record Call : Type := MkCall { c_req : JobRequest; c_phase : CallPhase }.

(** A pipe of [run_pipe_with_retry], on its [attempt]th attempt: [sent] of its commands
    have been answered, and if [refused] one of them with an error. *)
Record Pipe : Type := MkPipe { attempt : nat; sent : nat; refused : bool }.

Definition pipe_new : Pipe := MkPipe 1 0 false.

Definition pipe_next (ok : bool) (p : Pipe) : Pipe := MkPipe (attempt p) (S (sent p)) (refused p || negb ok).

(** The next attempt, on a fresh connection, if there is one. *)
Definition pipe_again (p : Pipe) : option Pipe :=
  if decide (attempt p < MAX_ATTEMPTS)%nat then Some (MkPipe (S (attempt p)) 0 false) else None.

(** Where the reclaim sweep of a node is, about the first entry of its list. *)
Inductive SweepPhase : Type :=
  | Asking                                (** before the [GET] of the result *)
  | Acking (id : string) (p : Pipe)       (** sending [ack_pipe] *)
  | Permit.                               (** no result: waiting for a permit *)

(** A worker node: free permits, entries fetched and not yet handled, the entries of
    the running sweep. *)
Record Node : Type := MkNode {
  permits : nat; batch : list Entry; sweeping : list Entry; sweep_phase : SweepPhase }.

(** Where a spawned task is. *)
Inductive TaskPhase : Type :=
  | Running                                  (** awaiting [pool.submit] *)
  | Reporting (res : JobResult) (p : Pipe)   (** sending [publish_pipe] *)
  | Ended.

Record Task : Type := MkTask { t_node : nat; t_msg : string; t_req : JobRequest; t_phase : TaskPhase }.

(** [reported] records every [SET] of a result, in order, and whether Redis executed it. *)
Record Cluster (S : Type) : Type := MkCluster {
  server : S; calls : list Call; nodes : list Node; tasks : list Task; reported : list (JobResult * bool) }.
Arguments MkCluster {S} _ _ _ _ _.
Arguments server {S} _.
Arguments calls {S} _.
Arguments nodes {S} _.
Arguments tasks {S} _.
Arguments reported {S} _.

(** A result for [id] was stored at some time; Redis refused to store one. *)
Definition stored_for {S} (s : Cluster S) (id : string) : Prop :=
  exists res, (res, true) ∈ reported s /\ res_job_id res = id.
Definition refused_for {S} (s : Cluster S) (id : string) : Prop :=
  exists res, (res, false) ∈ reported s /\ res_job_id res = id.

Inductive ClusterLabel : Type :=
  | Enqueue (uuid : string) (req : JobRequest)  (** a handler calls [enqueue] *)
  | CallStep (i : nat)                      (** its next command *)
  | CallFail (i : nat) (executed : bool)    (** its connection fails; was the command executed? *)
  | Fetch (n : nat) (lost : bool)           (** [XREADGROUP]; is the reply lost? *)
  | Handle (n : nat)                        (** the next entry of the batch *)
  | Sweep (n : nat) (idle : Z) (cursor : string) (got : list Entry)  (** [XAUTOCLAIM] hands over [got] *)
  | SweepStep (n : nat)                     (** the next step about its first entry *)
  | SweepFail (n : nat)                     (** its connection fails *)
  | PoolAnswer (t : nat) (a : result string JobResult)
  | Report (t : nat)                        (** the next command of the report *)
  | ReportFail (t : nat)                    (** its connection fails *)
  | Crash (n : nat)                         (** a worker node dies and restarts *)
  | Expire (k : string)
  | Trim (n : nat)
  | CreateGroup                             (** a starting or reconnecting node issues [XGROUP CREATE] *)
  | CallRefused (i : nat)                   (** Redis answers the next command of a call, *)
  | SweepRefused (n : nat)                  (** of a re-acknowledgement, *)
  | ReportRefused (t : nat).                (** or of a report with an error, and does not execute it *)

Section Cluster.
Context {Srv : Type} `{HS : RedisServer Srv}.
Context (encode_request : JobRequest -> option string) (decode_request : string -> option JobRequest).
Context (encode_result : JobResult -> option string).
Context (c : RedisConsumer) (env : Env).

Abbreviation State := (Cluster Srv).

(* ------------------------------------------------------------------ *)
(** ** Steps *)

(** What [enqueue] sends next. *)
Definition call_command (x : Call) : option (list string) :=
  let id := job_id (c_req x) in
  match c_phase x with
  | Clearing => claim id (pending_ttl (c_req x)) !! 0%nat
  | Claiming | Doomed => claim id (pending_ttl (c_req x)) !! 1%nat
  | Adding => xadd env <$> encode_request (c_req x)
  | RollingBack => Some ["DEL"; pending_key id]
  | Answered _ _ => None
  end.

(** What it makes of the reply: of [SET .. NX] whether the marker was free, of [XADD]
    the identifier. *)
Definition call_reply (s : Srv) (x : Call) : CallPhase :=
  match c_phase x with
  | Clearing => Claiming
  | Claiming => match value s (pending_key (job_id (c_req x))) with
                | None => Adding
                | Some _ => Answered Duplicate None
                end
  | Adding => Answered Queued (Some (next_id s))
  | Doomed | RollingBack | Answered _ _ => Answered RedisDown None
  end.

(** What it does when the connection fails: only a failed [XADD] is rolled back. *)
Definition call_failed (x : Call) : CallPhase :=
  match c_phase x with Adding => RollingBack | _ => Answered RedisDown None end.

(** An error reply does not stop the commands behind it in the same pipe, but is the
    answer of the whole pipe. *)
Definition call_refused (x : Call) : CallPhase :=
  match c_phase x with Clearing => Doomed | _ => call_failed x end.

Definition in_call_phase (p : CallPhase) (x : Call) : Call := MkCall (c_req x) p.

(** An entry as the consumer sees it. *)
Definition job_of (e : Entry) : option JobRequest := snd <$> entry_job decode_request (stream_entry e).

(** [spawn_process] on node [n], with one of its permits. *)
Definition spawn (n : nat) (msg : string) (req : JobRequest) : Task := MkTask n msg req Running.

Definition take_permit (x : Node) : Node :=
  MkNode (pred (permits x)) (batch x) (sweeping x) (sweep_phase x).
Definition free_permit (x : Node) : Node :=
  MkNode (S (permits x)) (batch x) (sweeping x) (sweep_phase x).
Definition next_in_batch (x : Node) : Node :=
  MkNode (permits x) (tail (batch x)) (sweeping x) (sweep_phase x).
Definition next_in_sweep (x : Node) : Node :=
  MkNode (permits x) (batch x) (tail (sweeping x)) Asking.
Definition in_sweep_phase (p : SweepPhase) (x : Node) : Node :=
  MkNode (permits x) (batch x) (sweeping x) p.

(** The whole report of a result: [publish_pipe] without its index. *)
Definition report_pipe (t : Task) (res : JobResult) : list (list string) :=
  publish_pipe (stream_key c) (consumer_group c) (t_msg t) res (json_of encode_result res) (result_ttl env).

Definition call_step (l : ClusterLabel) (s : State) : option State :=
  let '(MkCluster sv cs ns ts rs) := s in
  match l with
  | Enqueue uuid req0 =>
      let req := assign_id uuid req0 in
      Some (MkCluster sv
              (cs ++ [MkCall req (match encode_request req with
                                  | Some _ => Clearing
                                  | None => Answered RedisDown None
                                  end)]) ns ts rs)
  | CallStep i =>
      x ← cs !! i; cmd ← call_command x;
      Some (MkCluster (exec cmd sv) (<[i := in_call_phase (call_reply sv x) x]> cs) ns ts rs)
  | CallFail i executed =>
      x ← cs !! i; cmd ← call_command x;
      Some (MkCluster (if executed : bool then exec cmd sv else sv)
              (<[i := in_call_phase (call_failed x) x]> cs) ns ts rs)
  | CallRefused i =>
      x ← cs !! i; _ ← call_command x;
      Some (MkCluster sv (<[i := in_call_phase (call_refused x) x]> cs) ns ts rs)
  | _ => None
  end.

Definition fetch_step (l : ClusterLabel) (s : State) : option State :=
  let '(MkCluster sv cs ns ts rs) := s in
  match l with
  | Fetch n lost =>
      x ← ns !! n;
      match batch x with
      | _ :: _ => None
      | [] =>
          let k := Z.of_nat (permits x) in
          if negb (grouped sv) then None   (* [NOGROUP] *) else
          let got := take (Z.to_nat (batch_size c k)) (undelivered sv) in
          Some (MkCluster (exec (xreadgroup c k) sv) cs
                  (<[n := MkNode (permits x) (if lost : bool then [] else got) (sweeping x) (sweep_phase x)]> ns)
                  ts rs)
      end
  | Handle n =>
      x ← ns !! n; e ← head (batch x);
      match job_of e with
      | None => Some (MkCluster sv cs (<[n := next_in_batch x]> ns) ts rs)
      | Some req =>
          if decide (permits x = 0%nat) then None
          else Some (MkCluster sv cs (<[n := next_in_batch (take_permit x)]> ns)
                       (ts ++ [spawn n (fst e) req]) rs)
      end
  | _ => None
  end.

(** After a failed attempt: the next one, or the entry stays as it is. *)
Definition acking_again (id : string) (p : Pipe) (x : Node) : Node :=
  match pipe_again p with Some p' => in_sweep_phase (Acking id p') x | None => next_in_sweep x end.

Definition sweep_step (l : ClusterLabel) (s : State) : option State :=
  let '(MkCluster sv cs ns ts rs) := s in
  match l with
  | Sweep n idle cursor got =>
      x ← ns !! n;
      match sweeping x with
      | _ :: _ => None
      | [] =>
          if decide (Forall (fun e => e ∈ pending sv) got)
          then Some (MkCluster (exec (xautoclaim c idle cursor) sv) cs
                       (<[n := MkNode (permits x) (batch x) got Asking]> ns) ts rs)
          else None
      end
  | SweepStep n =>
      x ← ns !! n; e ← head (sweeping x);
      match job_of e with
      | None => Some (MkCluster (exec (xack c (fst e)) sv) cs (<[n := next_in_sweep x]> ns) ts rs)
      | Some req =>
          match sweep_phase x with
          | Asking =>
              let p := match value sv (result_key (job_id req)) with
                       | Some _ => Acking (job_id req) pipe_new | None => Permit end in
              Some (MkCluster sv cs (<[n := in_sweep_phase p x]> ns) ts rs)
          | Acking id p =>
              match ack_pipe (stream_key c) (consumer_group c) (fst e) id !! sent p with
              | Some cmd => Some (MkCluster (exec cmd sv) cs
                                    (<[n := in_sweep_phase (Acking id (pipe_next true p)) x]> ns) ts rs)
              | None => Some (MkCluster sv cs
                                (<[n := if refused p then acking_again id p x else next_in_sweep x]> ns) ts rs)
              end
          | Permit =>
              if decide (permits x = 0%nat) then None
              else Some (MkCluster sv cs (<[n := next_in_sweep (take_permit x)]> ns)
                           (ts ++ [spawn n (fst e) req]) rs)
          end
      end
  | SweepRefused n =>
      x ← ns !! n; e ← head (sweeping x);
      match job_of e, sweep_phase x with
      | Some _, Acking id p =>
          _ ← ack_pipe (stream_key c) (consumer_group c) (fst e) id !! sent p;
          Some (MkCluster sv cs (<[n := in_sweep_phase (Acking id (pipe_next false p)) x]> ns) ts rs)
      | _, _ => None
      end
  | SweepFail n =>
      x ← ns !! n; e ← head (sweeping x);
      let x' := match job_of e, sweep_phase x with
                | None, _ => Some (next_in_sweep x)
                | Some _, Asking => Some (in_sweep_phase Permit x)
                | Some _, Acking id p => Some (acking_again id p x)
                | Some _, Permit => None
                end in
      x' ← x'; Some (MkCluster sv cs (<[n := x']> ns) ts rs)
  | _ => None
  end.

Definition in_task_phase (p : TaskPhase) (t : Task) : Task := MkTask (t_node t) (t_msg t) (t_req t) p.

(** The end of a task frees its permit. *)
Definition end_task (i : nat) (t : Task) (ns : list Node) (ts : list Task) : list Node * list Task :=
  (alter free_permit (t_node t) ns, <[i := in_task_phase Ended t]> ts).

Definition kill_task (n : nat) (t : Task) : Task :=
  if decide (t_node t = n) then in_task_phase Ended t else t.

Definition node_new : Node := MkNode (Z.to_nat (capacity c)) [] [] Asking.

(** After a failed attempt: the next one, or the entry is left unacknowledged. *)
Definition report_again (i : nat) (t : Task) (res : JobResult) (p : Pipe) (s : State) : State :=
  let '(MkCluster sv cs ns ts rs) := s in
  match pipe_again p with
  | Some p' => MkCluster sv cs ns (<[i := in_task_phase (Reporting res p') t]> ts) rs
  | None => let '(ns', ts') := end_task i t ns ts in MkCluster sv cs ns' ts' rs
  end.

(** The [SET] of a result is the one that is recorded. *)
Definition log_report (cmd : list string) (res : JobResult) (ok : bool) : list (JobResult * bool) :=
  if decide (head cmd = Some "SET") then [(res, ok)] else [].

Definition task_step (l : ClusterLabel) (s : State) : option State :=
  let '(MkCluster sv cs ns ts rs) := s in
  match l with
  | PoolAnswer i a =>
      t ← ts !! i;
      match t_phase t with
      | Running => Some (MkCluster sv cs ns
                           (<[i := in_task_phase (Reporting (report_of (t_req t) a) pipe_new) t]> ts) rs)
      | _ => None
      end
  | Report i =>
      t ← ts !! i;
      match t_phase t with
      | Reporting res p =>
          match report_pipe t res !! sent p with
          | Some cmd =>
              Some (MkCluster (exec cmd sv) cs ns (<[i := in_task_phase (Reporting res (pipe_next true p)) t]> ts)
                      (rs ++ log_report cmd res true))
          | None =>
              if refused p then Some (report_again i t res p s)
              else let '(ns', ts') := end_task i t ns ts in Some (MkCluster sv cs ns' ts' rs)
          end
      | _ => None
      end
  | ReportRefused i =>
      t ← ts !! i;
      match t_phase t with
      | Reporting res p =>
          cmd ← report_pipe t res !! sent p;
          Some (MkCluster sv cs ns (<[i := in_task_phase (Reporting res (pipe_next false p)) t]> ts)
                  (rs ++ log_report cmd res false))
      | _ => None
      end
  | ReportFail i =>
      t ← ts !! i;
      match t_phase t with
      | Reporting res p => Some (report_again i t res p s)
      | _ => None
      end
  | _ => None
  end.

Definition world_step (l : ClusterLabel) (s : State) : option State :=
  let '(MkCluster sv cs ns ts rs) := s in
  match l with
  | Crash n => _ ← ns !! n; Some (MkCluster sv cs (<[n := node_new]> ns) (map (kill_task n) ts) rs)
  | Expire k => Some (MkCluster (expire k sv) cs ns ts rs)
  | Trim n => Some (MkCluster (trim_stream n sv) cs ns ts rs)
  | CreateGroup => Some (MkCluster (exec (create_group c) sv) cs ns ts rs)
  | _ => None
  end.

Definition cluster_step (l : ClusterLabel) (s : State) : option State :=
  match l with
  | Enqueue _ _ | CallStep _ | CallFail _ _ | CallRefused _ => call_step l s
  | Fetch _ _ | Handle _ => fetch_step l s
  | Sweep _ _ _ _ | SweepStep _ | SweepFail _ | SweepRefused _ => sweep_step l s
  | PoolAnswer _ _ | Report _ | ReportFail _ | ReportRefused _ => task_step l s
  | Crash _ | Expire _ | Trim _ | CreateGroup => world_step l s
  end.

(** An idle cluster of [k] nodes around a server without entries. *)
Definition cluster_init (sv : Srv) (k : nat) : State := MkCluster sv [] (replicate k node_new) [] [].

Context (answers : JobRequest -> result string JobResult -> Prop).

(** Pools answer what they may, and fresh identifiers are not empty. *)
Definition admissible (l : ClusterLabel) (s : State) : Prop :=
  match l with
  | PoolAnswer i a => forall t, tasks s !! i = Some t -> answers (t_req t) a
  | Enqueue uuid _ => uuid <> ""
  | _ => True
  end.

Definition cluster_rel (s s' : State) : Prop := exists l, admissible l s /\ cluster_step l s = Some s'.

#[local] Arguments job_of : simpl never.
#[local] Arguments report_pipe : simpl never.
#[local] Arguments ack_pipe : simpl never.
#[local] Arguments call_command : simpl never.
#[local] Arguments batch_size : simpl never.

(* ------------------------------------------------------------------ *)
(** ** What the commands do *)

Context `{!RedisLaws Srv c env}.

Lemma assign_id_named uuid r : uuid <> "" -> job_id (assign_id uuid r) <> "".
Proof. intros Hu. cbn. destruct (is_empty (job_id r)) eqn:E; [done|]. intros H. by rewrite H in E. Qed.

Lemma key_distinct id j : result_key id <> pending_key j.
Proof. unfold result_key, pending_key. by intros [=]. Qed.

Lemma result_key_inj i j : result_key i = result_key j -> i = j.
Proof. unfold result_key. intros [=]. done. Qed.

(** No result changes. *)
Definition quiet (s s' : Srv) : Prop := forall id, value s' (result_key id) = value s (result_key id).

Lemma same_quiet s s' : same_values s s' -> quiet s s'.
Proof. intros Hv id. apply Hv. Qed.

Lemma del_pending_quiet s id : quiet s (exec ["DEL"; pending_key id] s).
Proof. intros j. rewrite del_value, decide_False; [done|apply key_distinct]. Qed.

Lemma set_nx_quiet s id v ttl : quiet s (exec ["SET"; pending_key id; v; "EX"; ttl; "NX"] s).
Proof. intros j. rewrite set_nx_value, decide_False; [done|]. intros [E _]. by destruct (key_distinct j id). Qed.

(** The commands of the report after the first, and those of a re-acknowledgement. *)
Lemma tail_quiet s group key msg id k cmd :
  key = stream_key c -> group = consumer_group c ->
  ack_pipe key group msg id !! k = Some cmd -> quiet s (exec cmd s).
Proof.
  intros -> ->. destruct k as [|[|[|k]]]; cbn; intros [= <-].
  - apply del_pending_quiet.
  - apply same_quiet, ack_value.
  - apply same_quiet, publish_value.
Qed.

Lemma tail_not_logged group key msg id k cmd res ok :
  ack_pipe key group msg id !! k = Some cmd -> log_report cmd res ok = [].
Proof. by destruct k as [|[|[|k]]]; cbn; intros [= <-]. Qed.

Lemma report_pipe_tail t res k :
  report_pipe t res !! S k = ack_pipe (stream_key c) (consumer_group c) (t_msg t) (res_job_id res) !! k.
Proof. done. Qed.

(** Only [XACK] changes what is pending; it removes one message. *)
Lemma ack_pipe_stream s msg id k cmd :
  ack_pipe (stream_key c) (consumer_group c) msg id !! k = Some cmd ->
  undelivered (exec cmd s) = undelivered s /\ used_ids (exec cmd s) = used_ids s /\
  (if decide (k = 1%nat) then pending (exec cmd s) = filter (fun e => fst e <> msg) (pending s)
   else pending (exec cmd s) = pending s).
Proof.
  destruct k as [|[|[|k]]]; cbn; intros [= <-].
  - by destruct (del_stream s (pending_key id)).
  - split_and!; [apply ack_undelivered|apply ack_used|apply ack_pending].
  - by destruct (publish_stream s (done_channel id) id).
Qed.

(** The stream of [s'] has no entry that [s] has not. *)
Record shrinks (s s' : Srv) : Prop := MkShrinks {
  shrink_entries : forall e, e ∈ undelivered s' \/ e ∈ pending s' -> e ∈ undelivered s \/ e ∈ pending s;
  shrink_used : used_ids s' = used_ids s
}.

Lemma same_shrinks s s' : same_stream s s' -> shrinks s s'.
Proof. intros [H1 H2 H3 _]. constructor; [|done]. rewrite H1, H2. done. Qed.

Lemma ack_shrinks s id : shrinks s (exec (xack c id) s).
Proof.
  constructor; [|apply ack_used]. intros e. rewrite ack_undelivered, ack_pending. intros [?|He]; [by left|].
  apply list_elem_of_filter in He as [_ ?]. by right.
Qed.

Lemma ack_pipe_shrinks s msg id k cmd :
  ack_pipe (stream_key c) (consumer_group c) msg id !! k = Some cmd -> shrinks s (exec cmd s).
Proof.
  destruct k as [|[|[|k]]]; cbn; intros [= <-].
  - apply same_shrinks, del_stream.
  - apply ack_shrinks.
  - apply same_shrinks, publish_stream.
Qed.

Lemma read_shrinks s n : shrinks s (exec (xreadgroup c n) s).
Proof.
  constructor; [|apply read_used]. intros e. rewrite read_undelivered, read_pending.
  set (k := Z.to_nat _). intros [He|He].
  - left. rewrite <- (take_drop k (undelivered s)). apply elem_of_app. by right.
  - apply elem_of_app in He as [?|He]; [by right|]. left.
    rewrite <- (take_drop k (undelivered s)). apply elem_of_app. by left.
Qed.

Lemma trim_shrinks s n : shrinks s (trim_stream n s).
Proof.
  constructor; [|apply trim_used]. intros e. rewrite trim_undelivered. intros [He|He].
  - left. rewrite <- (take_drop n (undelivered s)). apply elem_of_app. by right.
  - right. eapply elem_of_submseteq; [exact He|]. apply sublist_submseteq, trim_pending.
Qed.

Lemma create_shrinks s : shrinks s (exec (create_group c) s).
Proof.
  constructor; [|apply create_used]. intros e. rewrite create_undelivered, create_pending.
  destruct (grouped s); [done|]. intros [He|He]; [by apply elem_of_nil in He|by right].
Qed.

(** The commands of [enqueue] other than [XADD]. *)
Lemma call_command_shrinks s x cmd :
  call_command x = Some cmd -> c_phase x <> Adding -> shrinks s (exec cmd s).
Proof.
  unfold call_command, claim. destruct (c_phase x); intros Hc Hp; cbn in Hc; simplify_eq.
  - apply same_shrinks, del_stream.
  - apply same_shrinks, set_nx_stream.
  - apply same_shrinks, set_nx_stream.
  - apply same_shrinks, del_stream.
Qed.

Lemma call_command_quiet s x cmd :
  call_command x = Some cmd -> c_phase x <> Clearing -> quiet s (exec cmd s).
Proof.
  unfold call_command, claim. destruct (c_phase x); intros Hc Hp; cbn in Hc; simplify_eq.
  - apply set_nx_quiet.
  - apply set_nx_quiet.
  - destruct (encode_request (c_req x)); simplify_eq/=. apply same_quiet, xadd_value.
  - apply del_pending_quiet.
Qed.

(* ------------------------------------------------------------------ *)
(** ** Permits *)

Definition busy_on (n : nat) (t : Task) : bool :=
  match t_phase t with Ended => false | _ => bool_decide (t_node t = n) end.

(** Every task that has not ended holds one permit of its node. *)
Definition permits_ok (s : State) : Prop :=
  forall n x, nodes s !! n = Some x ->
    Z.of_nat (permits x) + count (busy_on n) (tasks s) = Z.of_nat (Z.to_nat (capacity c)) /\
    Z.of_nat (length (batch x)) <= Z.max (c_workers c) 4.

Lemma count_killed n m ts :
  count (busy_on m) (map (kill_task n) ts) = if decide (m = n) then 0 else count (busy_on m) ts.
Proof.
  induction ts as [|t ts IH]; cbn; [by case_decide|]. rewrite IH.
  assert (busy_on m (kill_task n t) = if decide (m = n) then false else busy_on m t) as ->.
  { unfold kill_task, busy_on. destruct (decide (t_node t = n)) as [Ht|Ht]; cbn.
    - destruct (decide (m = n)) as [->|Hm]; [done|]. destruct (t_phase t); [..|done];
        rewrite bool_decide_eq_false_2 by congruence; done.
    - destruct (decide (m = n)) as [->|Hm]; [|done]. destruct (t_phase t); [..|done];
        by rewrite bool_decide_eq_false_2. }
  by case_decide.
Qed.

(** Steps that leave permits, batches and tasks' permits as they are. *)
Lemma permits_ok_node sv sv' cs cs' ns ts ts' rs rs' n x y :
  permits_ok (MkCluster sv cs ns ts rs) -> ns !! n = Some x ->
  Z.of_nat (permits y) + count (busy_on n) ts' = Z.of_nat (permits x) + count (busy_on n) ts ->
  Z.of_nat (length (batch y)) <= Z.max (c_workers c) 4 ->
  (forall m, m <> n -> count (busy_on m) ts' = count (busy_on m) ts) ->
  permits_ok (MkCluster sv' cs' (<[n := y]> ns) ts' rs').
Proof.
  intros H Hn Hp Hb Hm m z Hz. cbn in Hz |- *.
  apply list_lookup_insert_Some in Hz as [(<- & <- & _)|[Hne Hz]].
  - destruct (H n x Hn) as [H1 H2]. cbn in H1. split; [lia|done].
  - destruct (H m z Hz) as [H1 H2]. cbn in H1. rewrite Hm by done. by split.
Qed.

Lemma permits_ok_tasks sv sv' cs cs' ns ts ts' rs rs' :
  permits_ok (MkCluster sv cs ns ts rs) ->
  (forall m, count (busy_on m) ts' = count (busy_on m) ts) ->
  permits_ok (MkCluster sv' cs' ns ts' rs').
Proof. intros H Hm n x Hx. destruct (H n x Hx). cbn. by rewrite Hm. Qed.

Lemma permits_ok_end sv sv' cs ns ts rs i t ns' ts' :
  permits_ok (MkCluster sv cs ns ts rs) -> ts !! i = Some t -> t_phase t <> Ended ->
  end_task i t ns ts = (ns', ts') -> permits_ok (MkCluster sv' cs ns' ts' rs).
Proof.
  intros H Ht Hp [= <- <-] m x Hx. cbn in Hx |- *.
  assert (busy_on (t_node t) t = true) as Hb.
  { unfold busy_on. destruct (t_phase t); [..|done]; by rewrite bool_decide_eq_true_2. }
  rewrite (count_insert _ i ts t) by done. cbn.
  rewrite list_lookup_alter in Hx. case_decide as Hm.
  - subst m. apply fmap_Some in Hx as (y & Hy & ->). destruct (H _ y Hy) as [H1 H2]. cbn in H1 |- *. rewrite Hb. cbn. split; [lia|done].
  - destruct (H _ x Hx) as [H1 H2]. cbn in H1 |- *.
    assert (busy_on m t = false) as ->.
    { unfold busy_on. destruct (t_phase t); [..|done]; by rewrite bool_decide_eq_false_2. }
    cbn. split; [lia|done].
Qed.

Lemma batch_size_bounds n : 1 <= batch_size c n <= Z.max (c_workers c) 4.
Proof. unfold batch_size. lia. Qed.

Lemma count_spawned m n msg req ts :
  count (busy_on m) (ts ++ [spawn n msg req]) = count (busy_on m) ts + b2z (bool_decide (n = m)).
Proof. rewrite count_app. cbn. unfold busy_on. cbn. unfold b2z. case_bool_decide; lia. Qed.

Lemma permits_ok_spawn sv sv' cs ns ts rs n x y msg req :
  permits_ok (MkCluster sv cs ns ts rs) -> ns !! n = Some x -> permits x <> 0%nat ->
  permits y = pred (permits x) -> (length (batch y) <= length (batch x))%nat ->
  permits_ok (MkCluster sv' cs (<[n := y]> ns) (ts ++ [spawn n msg req]) rs).
Proof.
  intros Hok Hn Hp Hy Hb. eapply permits_ok_node; [exact Hok|exact Hn|..].
  - rewrite count_spawned, bool_decide_eq_true_2 by done. cbn. lia.
  - destruct (Hok n x Hn) as [_ H2]. lia.
  - intros m Hm. rewrite count_spawned, bool_decide_eq_false_2 by congruence. cbn. lia.
Qed.

Lemma fetch_permits l s s' : permits_ok s -> fetch_step l s = Some s' -> permits_ok s'.
Proof.
  destruct s as [sv cs ns ts rs]. intros Hok Hs.
  destruct l as [| | |n lost|n| | | | | | | | | | | | |]; try done; cbn in Hs.
  - destruct (ns !! n) as [x|] eqn:Hn; [|done]. cbn in Hs. destruct (batch x); [|done]. destruct (grouped sv); [|done]. cbn in Hs. simplify_eq.
    eapply permits_ok_node; [exact Hok|exact Hn|done| |done]. cbn.
    pose proof (batch_size_bounds (Z.of_nat (permits x))). destruct lost; cbn; [lia|].
    rewrite length_take. lia.
  - destruct (ns !! n) as [x|] eqn:Hn; [|done]. cbn in Hs. destruct (batch x) as [|e b] eqn:Hb; [done|].
    destruct (Hok n x Hn) as [_ Hlen]. rewrite Hb in Hlen. cbn in Hs, Hlen.
    destruct (job_of e) as [req|].
    + case_decide as Hp; [done|]. simplify_eq. eapply permits_ok_spawn; [exact Hok|exact Hn|exact Hp|done|].
      cbn. rewrite Hb. cbn. lia.
    + simplify_eq. eapply permits_ok_node; [exact Hok|exact Hn|done| |done]. cbn. rewrite Hb. cbn. lia.
Qed.

(** Updating a node without touching its permits or its batch. *)
Lemma permits_ok_same sv sv' cs ns ts rs n x y :
  permits_ok (MkCluster sv cs ns ts rs) -> ns !! n = Some x ->
  permits y = permits x -> batch y = batch x ->
  permits_ok (MkCluster sv' cs (<[n := y]> ns) ts rs).
Proof.
  intros Hok Hn Hp Hb. destruct (Hok n x Hn) as [_ H2].
  eapply permits_ok_node; [exact Hok|exact Hn|by rewrite Hp|by rewrite Hb|done].
Qed.

Lemma acking_again_same id p x :
  permits (acking_again id p x) = permits x /\ batch (acking_again id p x) = batch x.
Proof. unfold acking_again. by destruct (pipe_again p). Qed.

Lemma sweep_permits l s s' : permits_ok s -> sweep_step l s = Some s' -> permits_ok s'.
Proof.
  destruct s as [sv cs ns ts rs]. intros Hok Hs.
  destruct l as [| | | | |n idle cur got|n|n| | | | | | | | |n|]; try done; cbn in Hs;
    (destruct (ns !! n) as [x|] eqn:Hn; [|done]); cbn in Hs.
  - destruct (sweeping x); [|done]. case_decide; [|done]. simplify_eq. by eapply permits_ok_same.
  - destruct (head (sweeping x)) as [e|]; [|done]. cbn in Hs.
    destruct (job_of e) as [req|]; [|simplify_eq; by eapply permits_ok_same].
    destruct (sweep_phase x) as [|id p|]; [simplify_eq; by eapply permits_ok_same|..].
    + destruct (acking_again_same id p x).
      destruct (_ !! sent p) as [cmd|]; [|destruct (refused p)]; simplify_eq; by eapply permits_ok_same.
    + case_decide as Hp; [done|]. simplify_eq.
      eapply permits_ok_spawn; [exact Hok|exact Hn|exact Hp|done|done].
  - destruct (head (sweeping x)) as [e|]; [|done]. cbn in Hs.
    destruct (job_of e), (sweep_phase x) as [|id p|]; simplify_eq/=; try (by eapply permits_ok_same);
      destruct (acking_again_same id p x); by eapply permits_ok_same.
  - destruct (head (sweeping x)) as [e|]; [|done]. cbn in Hs.
    destruct (job_of e), (sweep_phase x) as [|id p|]; try done. destruct (_ !! sent p); [|done].
    simplify_eq/=. by eapply permits_ok_same.
Qed.

(** Moving a task to another phase in which it has not ended. *)
Lemma permits_ok_move sv sv' cs ns ts rs rs' i t p :
  permits_ok (MkCluster sv cs ns ts rs) -> ts !! i = Some t -> t_phase t <> Ended -> p <> Ended ->
  permits_ok (MkCluster sv' cs ns (<[i := in_task_phase p t]> ts) rs').
Proof.
  intros Hok Ht Hp Hp'. eapply permits_ok_tasks; [exact Hok|]. intros m.
  rewrite (count_insert _ i ts t) by done.
  assert (busy_on m (in_task_phase p t) = busy_on m t) as ->.
  { unfold busy_on. destruct p; try done; by destruct (t_phase t). }
  lia.
Qed.

Lemma report_again_permits s i t res p :
  permits_ok s -> tasks s !! i = Some t -> t_phase t <> Ended -> permits_ok (report_again i t res p s).
Proof.
  destruct s as [sv cs ns ts rs]. cbn. intros Hok Ht Hp. destruct (pipe_again p).
  - by eapply permits_ok_move.
  - by eapply permits_ok_end.
Qed.

Lemma task_permits l s s' : permits_ok s -> task_step l s = Some s' -> permits_ok s'.
Proof.
  intros Hok Hs. destruct s as [sv cs ns ts rs].
  destruct l as [| | | | | | | |i a|i|i| | | | | | |i]; try done; cbn -[report_again] in Hs;
    (destruct (ts !! i) as [t|] eqn:Ht; [|done]); cbn -[report_again] in Hs;
    destruct (t_phase t) as [|res p|] eqn:Hp; try done.
  - simplify_eq. by eapply permits_ok_move; rewrite ?Hp.
  - destruct (report_pipe t res !! sent p) as [cmd|]; [|destruct (refused p)]; simplify_eq.
    + by eapply permits_ok_move; rewrite ?Hp.
    + by apply report_again_permits; rewrite ?Hp.
    + eapply permits_ok_end; [exact Hok|exact Ht|by rewrite Hp|done].
  - simplify_eq. by apply report_again_permits; rewrite ?Hp.
  - destruct (report_pipe t res !! sent p) as [cmd|]; simplify_eq/=. by eapply permits_ok_move; rewrite ?Hp.
Qed.

Lemma node_new_permits : Z.of_nat (permits node_new) = Z.of_nat (Z.to_nat (capacity c)).
Proof. done. Qed.

Lemma permits_invariant : invariant_of cluster_rel permits_ok.
Proof.
  intros s s' Hok (l & _ & Hs). destruct l; cbn [cluster_step] in Hs;
    try (by eapply fetch_permits); try (by eapply sweep_permits); try (by eapply task_permits).
  all: destruct s as [sv cs ns ts rs]; cbn in Hs.
  1: by simplify_eq.
  1,2,7: destruct (cs !! i) as [x|]; [|done]; cbn in Hs; destruct (call_command x); [|done]; by simplify_eq/=.
  2,3,4: by simplify_eq.
  destruct (ns !! n) as [x|] eqn:Hn; [|done]. cbn in Hs. simplify_eq. intros m z Hz. cbn in Hz |- *.
  rewrite count_killed. apply list_lookup_insert_Some in Hz as [(<- & <- & _)|[Hne Hz]].
  - rewrite decide_True by done. cbn. lia.
  - rewrite decide_False by done. exact (Hok m z Hz).
Qed.

Lemma count_nil {A : Type} (p : A -> bool) : count p [] = 0.
Proof. done. Qed.

Lemma permits_init sv k : permits_ok (cluster_init sv k).
Proof.
  intros n x Hx. apply lookup_replicate in Hx as [-> _]. cbn. lia.
Qed.

(** C33. A node never runs more jobs than it has permits.  However fetches, reclaim
    sweeps, reports, connection failures and restarts interleave on any number of
    nodes, each node's free permits and its unfinished tasks add up to its capacity -
    twice its workers, at least four - and it holds at most one batch, no longer than
    its workers (or four), of entries it has fetched and not yet started. *)
Theorem node_capacity sv k s n x :
  rtc cluster_rel (cluster_init sv k) s -> nodes s !! n = Some x ->
  Z.of_nat (permits x) + count (busy_on n) (tasks s) = capacity c /\
  Z.of_nat (length (batch x)) <= Z.max (c_workers c) 4.
Proof.
  intros Hr Hn. assert (permits_ok s) as Hok.
  { apply (invariant_reachable cluster_rel permits_ok (cluster_init sv k)); [exact permits_invariant|apply permits_init|exact Hr]. }
  destruct (Hok n x Hn) as [H1 H2]. split; [|exact H2].
  rewrite H1. unfold capacity. lia.
Qed.
End Cluster.

(* ------------------------------------------------------------------ *)
(** ** A server *)

Record DemoServer : Type := MkServer {
  d_keys : gmap string string; d_new : list Entry; d_pending : list Entry; d_used : gset string;
  d_group : bool }.

Definition demo_next (s : DemoServer) : string := fresh (d_used s).

Definition demo_read (count : string) (s : DemoServer) : DemoServer :=
  let n := match parse_u64 count with Some z => Z.to_nat z | None => 0%nat end in
  MkServer (d_keys s) (drop n (d_new s)) (d_pending s ++ take n (d_new s)) (d_used s) (d_group s).

Definition demo_exec (cmd : list string) (s : DemoServer) : DemoServer :=
  match cmd with
  | [] => s
  | name :: args =>
      if decide (name = "SET") then
        match args with
        | [k; v; _; _] => MkServer (<[k := v]> (d_keys s)) (d_new s) (d_pending s) (d_used s) (d_group s)
        | [k; v; _; _; _] =>
            MkServer (match d_keys s !! k with None => <[k := v]> (d_keys s) | Some _ => d_keys s end)
              (d_new s) (d_pending s) (d_used s) (d_group s)
        | _ => s
        end
      else if decide (name = "DEL") then
        match args with
        | [k] => MkServer (delete k (d_keys s)) (d_new s) (d_pending s) (d_used s) (d_group s)
        | _ => s
        end
      else if decide (name = "XADD") then
        match last args with
        | Some json => MkServer (d_keys s) (d_new s ++ [(demo_next s, json)]) (d_pending s)
                         ({[demo_next s]} ∪ d_used s) (d_group s)
        | None => s
        end
      else if decide (name = "XREADGROUP") then
        match args with
        | [_; _; _; _; _; _; count; _; _; _] => demo_read count s
        | _ => s
        end
      else if decide (name = "XACK") then
        match args with
        | [_; _; id] => MkServer (d_keys s) (d_new s) (filter (fun e => fst e <> id) (d_pending s)) (d_used s) (d_group s)
        | _ => s
        end
      else if decide (name = "XGROUP") then
        MkServer (d_keys s) (if d_group s then d_new s else []) (d_pending s) (d_used s) true
      else s
  end.

#[export] Instance demo_server : RedisServer DemoServer := {
  exec := demo_exec;
  value s k := d_keys s !! k;
  undelivered := d_new;
  pending := d_pending;
  used_ids := d_used;
  grouped := d_group;
  next_id := demo_next;
  expire k s := MkServer (delete k (d_keys s)) (d_new s) (d_pending s) (d_used s) (d_group s);
  trim_stream n s := MkServer (d_keys s) (drop n (d_new s)) (d_pending s) (d_used s) (d_group s)
}.

Lemma xadd_shape env json : exists args, xadd env json = "XADD" :: args /\ last args = Some json.
Proof.
  unfold xadd. destruct (0 <? stream_maxlen env)%Z; eexists; by split.
Qed.

Lemma demo_xadd env json s :
  exec (xadd env json) s =
    MkServer (d_keys s) (d_new s ++ [(demo_next s, json)]) (d_pending s) ({[demo_next s]} ∪ d_used s) (d_group s).
Proof.
  destruct (xadd_shape env json) as (args & -> & Ha). cbn [exec demo_server demo_exec].
  rewrite !decide_False, decide_True by done. by rewrite Ha.
Qed.

Lemma demo_xreadgroup n s :
  exec (xreadgroup demo_consumer n) s =
    let k := Z.to_nat (batch_size demo_consumer n) in
    MkServer (d_keys s) (drop k (d_new s)) (d_pending s ++ take k (d_new s)) (d_used s) (d_group s).
Proof.
  assert (u64 (batch_size demo_consumer n)) as Hu.
  { unfold u64, u64_max, batch_size. cbn. lia. }
  change (exec (xreadgroup demo_consumer n) s) with (demo_read (show_Z (batch_size demo_consumer n)) s).
  unfold demo_read. by rewrite parse_show_u64.
Qed.

Lemma insert_at (m : gmap string string) k v k' :
  <[k := v]> m !! k' = if decide (k' = k) then Some v else m !! k'.
Proof. case_decide; [subst; by rewrite lookup_insert_eq|by rewrite lookup_insert_ne]. Qed.

Lemma delete_at (m : gmap string string) k k' : delete k m !! k' = if decide (k' = k) then None else m !! k'.
Proof. case_decide; [subst; by rewrite lookup_delete_eq|by rewrite lookup_delete_ne]. Qed.

Lemma insert_if_free (m : gmap string string) k v k' :
  match m !! k with None => <[k := v]> m | Some _ => m end !! k' =
  if decide (k' = k /\ m !! k = None) then Some v else m !! k'.
Proof.
  destruct (m !! k) as [w|] eqn:E; [rewrite decide_False; [done|by intros [_ [=]]]|].
  rewrite insert_at. destruct (decide (k' = k)); [by rewrite decide_True|rewrite decide_False; [done|by intros [? _]]].
Qed.

#[export] Instance demo_laws env : RedisLaws DemoServer demo_consumer env.
Proof.
  constructor; intros; rewrite ?demo_xadd, ?demo_xreadgroup; try done; try (by repeat constructor).
  - apply insert_at.
  - apply insert_if_free.
  - apply delete_at.
  - change (fresh (d_used s) ∉ d_used s). apply is_fresh.
  - apply delete_at.
Qed.

(** The group exists. *)
Definition empty_server : DemoServer := MkServer ∅ [] [] ∅ true.

(** A run: a job is submitted, fetched by the only node, run and reported. *)
Definition demo_encode (r : JobRequest) : option string := if decide (r = demo_job) then Some "{}" else None.

#[export] Instance demo_codec : Codec demo_encode demo_decode.
Proof.
  unfold demo_encode, demo_decode. split; intros r j; case_decide; [|done| |done]; intros [= <-];
    [by subst|by vm_compute].
Qed.

Definition demo_outcome : JobResult := MkResult "j7" Accepted 5 100 None [].

(** A pool that answers about the request, or refuses. *)
Definition demo_answers (r : JobRequest) (a : result string JobResult) : Prop :=
  match a with Ok res => res_job_id res = job_id r | Err _ => True end.

#[export] Instance demo_pool : PoolAnswers demo_answers.
Proof. by intros r res _ H. Qed.

Definition demo_env : Env := fun _ => None.

Definition demo_json : JobResult -> option string := fun _ => Some "res".

Abbreviation demo_step := (cluster_step (Srv := DemoServer) demo_encode demo_decode demo_json demo_consumer demo_env).
Abbreviation demo_rel :=
  (cluster_rel (Srv := DemoServer) demo_encode demo_decode demo_json demo_consumer demo_env demo_answers).

Definition demo_start (nodes : nat) : Cluster DemoServer := cluster_init demo_consumer empty_server nodes.

Definition demo_admissible (l : ClusterLabel) (s : Cluster DemoServer) : bool :=
  match l with
  | PoolAnswer i (Ok res) =>
      match tasks s !! i with Some t => bool_decide (res_job_id res = job_id (t_req t)) | None => true end
  | Enqueue uuid _ => bool_decide (uuid <> "")
  | _ => true
  end.

(** Runs a list of labels as long as they are possible. *)
Fixpoint demo_run (ls : list ClusterLabel) (s : Cluster DemoServer) : Cluster DemoServer :=
  match ls with
  | [] => s
  | l :: ls' =>
      match demo_step l s with
      | Some s' => if demo_admissible l s then demo_run ls' s' else s
      | None => s
      end
  end.

Lemma demo_admissible_sound l s : demo_admissible l s = true -> admissible demo_answers l s.
Proof.
  destruct l; try done; cbn; [by intros ?%bool_decide_eq_true_1|]. intros Ha x Hx. rewrite Hx in Ha. unfold demo_answers.
  destruct a as [res|]; [|done]. by apply bool_decide_eq_true_1 in Ha.
Qed.

Lemma demo_run_rel ls s : rtc demo_rel s (demo_run ls s).
Proof.
  revert s. induction ls as [|l ls IH]; intros s; cbn [demo_run]; [done|].
  destruct (demo_step l s) as [s'|] eqn:E; [|done]. destruct (demo_admissible l s) eqn:Ha; [|done].
  eapply rtc_l; [|apply IH]. exists l. split; [by apply demo_admissible_sound|exact E].
Qed.

(** A job is submitted, fetched by a node of two workers, and run. *)
Definition one_job : list ClusterLabel :=
  [Enqueue "u" demo_job; CallStep 0; CallStep 0; CallStep 0; Fetch 0 false; Handle 0;
   PoolAnswer 0 (Ok demo_outcome)].

Definition demo_node : Node := MkNode 3 [] [] Asking.

Lemma node_capacity_witness :
  Z.of_nat (permits demo_node) + count (busy_on 0) (tasks (demo_run one_job (demo_start 1))) = 4 /\
  (0 < length (tasks (demo_run one_job (demo_start 1))))%nat.
Proof.
  split; [|vm_compute; lia].
  refine (proj1 (node_capacity demo_encode demo_decode demo_json demo_consumer demo_env demo_answers empty_server 1
    (demo_run one_job (demo_start 1)) 0 demo_node (demo_run_rel one_job (demo_start 1)) _)).
  vm_compute. reflexivity.
Defined.
