(* ===== verification/Service.v ===== *)
(** * What the cluster promises

    An abstract job service - requests are accepted, an accepted request gets a result
    it may have, results are forgotten - and the proof that the cluster of [Cluster],
    with every interleaving, connection failure, error reply, crash, expiry and trim,
    implements it.
    What is delivered, and what may be lost, is the subject of [Delivery]. *)

From S2P Require Import Prelude Config Admission Job Broker Consumer Handlers Pool Cluster.

Open Scope string_scope.
Open Scope list_scope.

(* ------------------------------------------------------------------ *)
(** ** The abstract service *)

Record Service : Type := MkService { accepted : list JobRequest; settled : gmap string JobResult }.

Definition service_init : Service := MkService [] ∅.

(** [res] is what a worker reports for [r]: its pool's answer. *)
Definition is_report (answers : JobRequest -> result string JobResult -> Prop)
    (r : JobRequest) (res : JobResult) : Prop :=
  exists a, answers r a /\ res = report_of r a.

Inductive service_step (answers : JobRequest -> result string JobResult -> Prop)
  : Service -> Service -> Prop :=
  | Accept a r : service_step answers a (MkService (r :: accepted a) (settled a))
  | Settle a r res :
      r ∈ accepted a -> is_report answers r res ->
      service_step answers a (MkService (accepted a) (<[job_id r := res]> (settled a)))
  | Forget a id : service_step answers a (MkService (accepted a) (delete id (settled a))).

(** Every result is one for an accepted request of that id. *)
Definition honest (answers : JobRequest -> result string JobResult -> Prop) (a : Service) : Prop :=
  forall id res, settled a !! id = Some res ->
    exists r, r ∈ accepted a /\ job_id r = id /\ is_report answers r res.

Lemma honest_invariant answers : invariant_of (service_step answers) (honest answers).
Proof.
  intros a a' Ha Hs id res. destruct Hs as [a r|a r res' Hr Hrep|a i]; cbn; intros Hres.
  - destruct (Ha id res Hres) as (r' & ? & ? & ?). exists r'. split; [by right|done].
  - apply lookup_insert_Some in Hres as [[<- <-]|[_ Hres]]; [by exists r|by apply Ha].
  - apply lookup_delete_Some in Hres as [_ Hres]. by apply Ha.
Qed.

Lemma run_honest answers a : rtc (service_step answers) service_init a -> honest answers a.
Proof.
  intros Ha. apply (invariant_reachable (service_step answers) (honest answers) service_init);
    [apply honest_invariant| |exact Ha].
  intros id res. cbn. by rewrite lookup_empty.
Qed.

Section Service.
Context {Srv : Type} `{HS : RedisServer Srv}.
Context (encode_request : JobRequest -> option string) (decode_request : string -> option JobRequest).
Context (encode_result : JobResult -> option string).
Context (c : RedisConsumer) (env : Env).
Context (answers : JobRequest -> result string JobResult -> Prop).
Context `{!RedisLaws Srv c env, !Codec encode_request decode_request, !PoolAnswers answers}.

Abbreviation State := (Cluster Srv).
Abbreviation cluster_step := (cluster_step encode_request decode_request encode_result c env).
Abbreviation cluster_rel := (cluster_rel encode_request decode_request encode_result c env answers).
Abbreviation job_of := (job_of decode_request).
Abbreviation json := (json_of encode_result).

(** The results a client can read are those of the service. *)
Definition observes (s : State) (a : Service) : Prop :=
  forall id, value (server s) (result_key id) = json <$> settled a !! id.

(** An entry that carries an accepted request. *)
Definition known (a : Service) (e : Entry) : Prop :=
  exists r, r ∈ accepted a /\ encode_request r = Some (snd e).

Definition node_ok (a : Service) (x : Node) : Prop :=
  Forall (known a) (batch x) /\ Forall (known a) (sweeping x).

Definition task_ok (a : Service) (t : Task) : Prop :=
  t_req t ∈ accepted a /\ forall res p, t_phase t = Reporting res p -> is_report answers (t_req t) res.

Record simulates (s : State) (a : Service) : Prop := MkSimulates {
  sim_results : observes s a;
  sim_asked : forall q, q ∈ accepted a -> q ∈ map c_req (calls s);
  sim_named : Forall (fun q => job_id q <> "") (map c_req (calls s));
  sim_stream : forall e, e ∈ undelivered (server s) \/ e ∈ pending (server s) -> known a e;
  sim_nodes : Forall (node_ok a) (nodes s);
  sim_tasks : Forall (task_ok a) (tasks s)
}.

Lemma job_of_known e r : encode_request r = Some (snd e) -> job_of e = Some r.
Proof.
  intros Hr. destruct e as [id j]. cbn in Hr. pose proof (encode_utf8 _ _ Hr) as Hu.
  unfold Cluster.job_of, entry_job, stream_entry. cbn [message_of fst snd mbind option_bind].
  unfold extract_job_field. cbn [find_job]. rewrite decide_True by reflexivity.
  unfold valid_utf8 in Hu. rewrite Hu. cbn. by rewrite (encode_decode _ _ Hr).
Qed.

Lemma known_job a e req : known a e -> job_of e = Some req -> req ∈ accepted a.
Proof. intros (r & Hr & He) Hj. rewrite (job_of_known e r He) in Hj. by injection Hj as <-. Qed.

Lemma report_id r res : job_id r <> "" -> is_report answers r res -> res_job_id res = job_id r.
Proof. intros Hn ([res'|m] & Ha & ->); cbn; [by apply answers_id|done]. Qed.

(** Steps that the service does not see. *)
Lemma simulates_silent sv sv' cs cs' ns ns' ts ts' rs rs' a :
  simulates (MkCluster sv cs ns ts rs) a -> map c_req cs' = map c_req cs -> quiet sv sv' -> shrinks sv sv' ->
  Forall (node_ok a) ns' -> Forall (task_ok a) ts' ->
  simulates (MkCluster sv' cs' ns' ts' rs') a.
Proof.
  intros [H1 H0 Hnm H2 _ _] Hc Hq Hs Hn Ht.
  constructor; [|cbn in *; by rewrite Hc|cbn in *; by rewrite Hc|intros e He|done|done].
  - intros id. unfold quiet in Hq. cbn. rewrite Hq. apply H1.
  - apply H2. by apply (shrink_entries _ _ Hs).
Qed.

(** A step whose abstract counterpart only adds a request, or touches results. *)
Lemma known_more a e r : known a e -> known (MkService (r :: accepted a) (settled a)) e.
Proof. intros (q & Hq & He). exists q. split; [by right|done]. Qed.

Lemma node_ok_more a x r : node_ok a x -> node_ok (MkService (r :: accepted a) (settled a)) x.
Proof. intros [H1 H2]. split; (eapply Forall_impl; [eassumption|]); intros e; by apply known_more. Qed.

Lemma task_ok_more a t r : task_ok a t -> task_ok (MkService (r :: accepted a) (settled a)) t.
Proof. intros [H1 H2]. split; [by right|done]. Qed.

Lemma quiet_refl (s : Srv) : quiet s s.
Proof. done. Qed.
Lemma shrinks_refl (s : Srv) : shrinks s s.
Proof. by constructor. Qed.

(** [s'] is still what some run of the service from [a] looks like. *)
Definition matches (s' : State) (a : Service) : Prop :=
  exists a', rtc (service_step answers) a a' /\ simulates s' a'.

Lemma matches_silent s a : simulates s a -> matches s a.
Proof. intros Hs. by exists a. Qed.

Lemma matches_call sv cs cs' ns ts rs rs' a x cmd :
  simulates (MkCluster sv cs ns ts rs) a -> call_command encode_request env x = Some cmd ->
  x ∈ cs -> map c_req cs' = map c_req cs ->
  matches (MkCluster (exec cmd sv) cs' ns ts rs') a.
Proof.
  intros Hsim Hc Hx Hcs. pose proof Hsim as [H1 H0 Hnm H2 H3 H4]. cbn in *.
  destruct (decide (c_phase x = Clearing)) as [Hp|Hp].
  { unfold call_command in Hc. rewrite Hp in Hc. cbn in Hc. injection Hc as <-.
    exists (MkService (accepted a) (delete (job_id (c_req x)) (settled a))).
    split; [apply rtc_once; by constructor|]. constructor; [|cbn; by rewrite Hcs|cbn; by rewrite Hcs|intros e|done|done].
    - intros id. cbn. rewrite del_value. case_decide as E.
      + apply result_key_inj in E as ->. by rewrite lookup_delete_eq.
      + rewrite lookup_delete_ne by congruence. apply H1.
    - cbn. destruct (del_stream sv (result_key (job_id (c_req x)))) as [-> -> _ _]. apply H2. }
  destruct (decide (c_phase x = Adding)) as [Ha|Ha].
  - unfold call_command in Hc. rewrite Ha in Hc. destruct (encode_request (c_req x)) as [j|] eqn:Hj; [|done].
    assert (cmd = xadd env j) as -> by by injection Hc as <-.
    exists (MkService (c_req x :: accepted a) (settled a)).
    split; [apply rtc_once; constructor|]. constructor; cbn [server calls nodes tasks accepted settled].
    + intros id. cbn [server settled]. rewrite xadd_value. apply H1.
    + intros q. cbn. rewrite Hcs. intros [->|Hq]%elem_of_cons; [|by apply H0].
      apply list_elem_of_fmap. by exists x.
    + by rewrite Hcs.
    + intros e. rewrite xadd_undelivered, xadd_pending. intros [He|He].
      * apply elem_of_app in He as [He|He]; [apply known_more, H2; by left|].
        apply list_elem_of_singleton in He as ->. exists (c_req x). split; [by left|done].
      * apply known_more, H2. by right.
    + eapply Forall_impl; [exact H3|]. intros y. by apply node_ok_more.
    + eapply Forall_impl; [exact H4|]. intros y. by apply task_ok_more.
  - apply matches_silent. eapply simulates_silent; [exact Hsim|exact Hcs| | |done|done].
    + by eapply call_command_quiet.
    + by eapply call_command_shrinks.
Qed.

Lemma asked_same cs i x p : cs !! i = Some x -> map c_req (<[i := in_call_phase p x]> cs) = map c_req cs.
Proof.
  intros Hx. change (map c_req ?l) with (c_req <$> l). rewrite list_fmap_insert. cbn.
  apply list_insert_id. by rewrite list_lookup_fmap, Hx.
Qed.

Lemma call_matches l s s' a : simulates s a -> admissible answers l s -> call_step encode_request env l s = Some s' -> matches s' a.
Proof.
  intros Hsim Hadm Hs. destruct s as [sv cs ns ts rs]. destruct l; try done; cbn [call_step] in Hs.
  - simplify_eq. apply matches_silent. pose proof Hsim as [? Hq Hnm ? ? ?]. constructor; try done; cbn; rewrite map_app.
    + intros q Ha. apply elem_of_app. left. by apply Hq.
    + apply Forall_app_2; [done|]. constructor; [|done]. by apply assign_id_named.
  - destruct (cs !! i) as [x|] eqn:Hx; [|done]. cbn [mbind option_bind] in Hs.
    destruct (call_command encode_request env x) as [cmd|] eqn:Hc; [|done]. cbn in Hs. simplify_eq.
    eapply matches_call; [exact Hsim|exact Hc|by eapply list_elem_of_lookup_2|by apply asked_same].
  - destruct (cs !! i) as [x|] eqn:Hx; [|done]. cbn [mbind option_bind] in Hs.
    destruct (call_command encode_request env x) as [cmd|] eqn:Hc; [|done]. cbn in Hs. simplify_eq.
    destruct executed.
    + eapply matches_call; [exact Hsim|exact Hc|by eapply list_elem_of_lookup_2|by apply asked_same].
    + apply matches_silent. eapply simulates_silent; [exact Hsim|by apply asked_same|done|by constructor|..];
        by destruct Hsim.
  - destruct (cs !! i) as [x|] eqn:Hx; [|done]. cbn [mbind option_bind] in Hs.
    destruct (call_command encode_request env x) as [cmd|] eqn:Hc; [|done]. cbn in Hs. simplify_eq.
    apply matches_silent. eapply simulates_silent; [exact Hsim|by apply asked_same|done|by constructor|..];
      by destruct Hsim.
Qed.

(** The nodes after one of them changed. *)
Lemma nodes_ok_insert a ns n y :
  Forall (node_ok a) ns -> node_ok a y -> Forall (node_ok a) (<[n := y]> ns).
Proof. intros Hn Hy. by apply Forall_insert. Qed.

Lemma node_ok_tail a (l : list Entry) : Forall (known a) l -> Forall (known a) (tail l).
Proof. by destruct 1. Qed.

Lemma tasks_ok_spawn a ts n msg req :
  Forall (task_ok a) ts -> req ∈ accepted a -> Forall (task_ok a) (ts ++ [spawn n msg req]).
Proof. intros Ht Hr. apply Forall_app_2; [done|]. constructor; [|done]. by split. Qed.

Lemma head_known a (l : list Entry) e : Forall (known a) l -> head l = Some e -> known a e.
Proof. destruct 1; cbn; [done|]. by intros [= <-]. Qed.

Lemma fetch_matches l s s' a : simulates s a -> fetch_step decode_request c l s = Some s' -> simulates s' a.
Proof.
  intros Hsim Hs. destruct s as [sv cs ns ts rs]. pose proof Hsim as [H1 H0 Hnm H2 H3 H4]. cbn in H2, H3, H4.
  destruct l as [| | |n lost|n| | | | | | | | | | | | |]; try done; cbn [fetch_step] in Hs;
    (destruct (ns !! n) as [x|] eqn:Hn; [|done]); cbn [mbind option_bind] in Hs;
    pose proof (Forall_lookup_1 _ _ _ _ H3 Hn) as [Hb Hw].
  - destruct (batch x); [|done]. destruct (grouped sv); [|done]. cbn in Hs. simplify_eq.
    eapply simulates_silent; [exact Hsim|done|eapply same_quiet, read_value|eapply read_shrinks; exact _| |done].
    apply nodes_ok_insert; [done|]. split; [|done]. cbn. destruct lost; [done|].
    apply Forall_forall. intros e He. apply H2. left.
    rewrite <- (take_drop (Z.to_nat (batch_size c (Z.of_nat (permits x)))) (undelivered sv)).
    apply elem_of_app. by left.
  - destruct (head (batch x)) as [e|] eqn:He; [|done]. cbn [mbind option_bind] in Hs.
    pose proof (head_known a _ _ Hb He) as Hk.
    destruct (job_of e) as [req|] eqn:Hj.
    + case_decide; [done|]. simplify_eq.
      eapply simulates_silent; [exact Hsim|done|apply quiet_refl|apply shrinks_refl| |].
      * apply nodes_ok_insert; [done|]. split; [by apply node_ok_tail|done].
      * apply tasks_ok_spawn; [done|by eapply known_job].
    + simplify_eq. eapply simulates_silent; [exact Hsim|done|apply quiet_refl|apply shrinks_refl| |done].
      apply nodes_ok_insert; [done|]. split; [by apply node_ok_tail|done].
Qed.

Lemma node_ok_again a id p x : node_ok a x -> node_ok a (acking_again id p x).
Proof.
  intros [Hb Hw]. unfold acking_again. destruct (pipe_again p); [done|]. split; [done|by apply node_ok_tail].
Qed.

Lemma sweep_matches l s s' a :
  simulates s a -> sweep_step decode_request c l s = Some s' -> simulates s' a.
Proof.
  intros Hsim Hs. destruct s as [sv cs ns ts rs]. pose proof Hsim as [H1 H0 Hnm H2 H3 H4]. cbn in H2, H3, H4.
  assert (Hsilent : forall sv' n y, quiet sv sv' -> shrinks sv sv' -> node_ok a y ->
            simulates (MkCluster sv' cs (<[n := y]> ns) ts rs) a).
  { intros sv' n y Hq Hk Hy. eapply simulates_silent; [exact Hsim|done|exact Hq|exact Hk| |done].
    by apply nodes_ok_insert. }
  destruct l as [| | | | |n idle cur got|n|n| | | | | | | | |n|]; try done; cbn [sweep_step] in Hs;
    (destruct (ns !! n) as [x|] eqn:Hn; [|done]); cbn [mbind option_bind] in Hs;
    pose proof (Forall_lookup_1 _ _ _ _ H3 Hn) as [Hb Hw].
  - destruct (sweeping x); [|done]. case_decide as Hg; [|done]. simplify_eq.
    apply Hsilent; [eapply same_quiet, claim_value|eapply same_shrinks, claim_stream|].
    split; [done|]. eapply Forall_impl; [exact Hg|]. intros e He. apply H2. by right.
  - destruct (head (sweeping x)) as [e|] eqn:He; [|done]. cbn [mbind option_bind] in Hs.
    assert (Hnext : node_ok a (next_in_sweep x)) by (split; [done|by apply node_ok_tail]).
    destruct (job_of e) as [req|] eqn:Hj.
    2: { simplify_eq. apply Hsilent; [eapply same_quiet, ack_value|eapply ack_shrinks; exact _|done]. }
    destruct (sweep_phase x) as [|id p|]; [simplify_eq; by apply Hsilent|..].
    + pose proof (node_ok_again a id p x (conj Hb Hw)).
      destruct (_ !! sent p) as [cmd|] eqn:Hcmd; [|destruct (refused p)]; simplify_eq.
      * apply Hsilent; [by eapply tail_quiet|by eapply ack_pipe_shrinks|done].
      * by apply Hsilent.
      * by apply Hsilent.
    + case_decide; [done|]. simplify_eq.
      eapply simulates_silent; [exact Hsim|done|apply quiet_refl|apply shrinks_refl| |].
      * apply nodes_ok_insert; [done|]. split; [done|by apply node_ok_tail].
      * apply tasks_ok_spawn; [done|]. eapply known_job; [|exact Hj]. by eapply head_known.
  - destruct (head (sweeping x)) as [e|] eqn:He; [|done]. cbn [mbind option_bind] in Hs.
    assert (Hnext : node_ok a (next_in_sweep x)) by (split; [done|by apply node_ok_tail]).
    destruct (job_of e), (sweep_phase x) as [|id p|]; simplify_eq/=; try (by apply Hsilent);
      apply Hsilent; try done; by apply node_ok_again.
  - destruct (head (sweeping x)) as [e|] eqn:He; [|done]. cbn [mbind option_bind] in Hs.
    destruct (job_of e), (sweep_phase x) as [|id p|]; try done. destruct (_ !! sent p); [|done].
    simplify_eq/=. by apply Hsilent.
Qed.

Lemma tasks_ok_insert a ts i p t :
  Forall (task_ok a) ts -> ts !! i = Some t ->
  (forall res q, p = Reporting res q -> is_report answers (t_req t) res) ->
  Forall (task_ok a) (<[i := in_task_phase p t]> ts).
Proof.
  intros Ht Hi Hp. apply Forall_insert; [done|]. split; [|exact Hp].
  by destruct (Forall_lookup_1 _ _ _ _ Ht Hi).
Qed.

Lemma node_ok_free a ns n : Forall (node_ok a) ns -> Forall (node_ok a) (alter free_permit n ns).
Proof.
  intros Hn. apply Forall_forall. intros y Hy. apply list_elem_of_lookup_1 in Hy as [i Hi].
  rewrite list_lookup_alter in Hi. case_decide; [|by eapply Forall_lookup_1].
  apply fmap_Some in Hi as (x & Hx & ->). by pose proof (Forall_lookup_1 _ _ _ _ Hn Hx).
Qed.

(** Reporting tasks, and what becomes of them. *)
Lemma simulates_reporting sv cs ns ts rs rs' i t res p a :
  simulates (MkCluster sv cs ns ts rs) a -> ts !! i = Some t -> is_report answers (t_req t) res ->
  simulates (MkCluster sv cs ns (<[i := in_task_phase (Reporting res p) t]> ts) rs') a.
Proof.
  intros Hsim Ht Hr. pose proof Hsim as [_ _ _ _ H3 H4].
  eapply simulates_silent; [exact Hsim|done|apply quiet_refl|apply shrinks_refl|exact H3|].
  apply tasks_ok_insert; [exact H4|done|]. by intros ? ? [= <- _].
Qed.

Lemma simulates_end sv cs ns ts rs i t a :
  simulates (MkCluster sv cs ns ts rs) a -> ts !! i = Some t ->
  simulates (MkCluster sv cs (alter free_permit (t_node t) ns) (<[i := in_task_phase Ended t]> ts) rs) a.
Proof.
  intros Hsim Ht. pose proof Hsim as [_ _ _ _ H3 H4].
  eapply simulates_silent; [exact Hsim|done|apply quiet_refl|apply shrinks_refl|by apply node_ok_free|].
  by apply tasks_ok_insert.
Qed.

Lemma simulates_again s i t res p a :
  simulates s a -> tasks s !! i = Some t -> is_report answers (t_req t) res ->
  simulates (report_again i t res p s) a.
Proof.
  destruct s as [sv cs ns ts rs]. cbn. intros Hsim Ht Hr. destruct (pipe_again p).
  - by eapply simulates_reporting.
  - by apply simulates_end.
Qed.

(** The [SET] of a report settles its request. *)
Lemma matches_set sv cs ns ts ts' rs rs' a t res v ttl :
  simulates (MkCluster sv cs ns ts rs) a -> t_req t ∈ accepted a -> is_report answers (t_req t) res ->
  v = json res -> Forall (task_ok a) ts' ->
  matches (MkCluster (exec ["SET"; result_key (res_job_id res); v; "EX"; ttl] sv) cs ns ts' rs') a.
Proof.
  intros [H1 H0 Hnm H2 H3 _] Hacc Hrep -> Hts. cbn in H0, H1, H2, H3, Hnm.
  assert (Hname : job_id (t_req t) <> "") by (apply (proj1 (Forall_forall _ _) Hnm); by apply H0).
  exists (MkService (accepted a) (<[job_id (t_req t) := res]> (settled a))).
  split; [apply rtc_once; by constructor|]. constructor; [|exact H0|exact Hnm|intros e|exact H3|exact Hts].
  - intros id. cbn [server settled]. rewrite set_value. rewrite (report_id _ _ Hname Hrep). case_decide as E.
    + apply result_key_inj in E as ->. by rewrite lookup_insert_eq.
    + rewrite lookup_insert_ne by congruence. apply H1.
  - cbn [server]. destruct (set_stream sv (result_key (res_job_id res)) (json res) ttl) as [-> -> _ _].
    apply H2.
Qed.

Lemma task_matches l s s' a :
  simulates s a -> admissible answers l s -> task_step encode_result c env l s = Some s' -> matches s' a.
Proof.
  intros Hsim Ha Hs. destruct s as [sv cs ns ts rs]. pose proof Hsim as [_ _ _ _ H3 H4]. cbn in H3, H4.
  destruct l as [| | | | | | | |i b|i|i| | | | | | |i]; try done; cbn -[report_again] in Hs;
    (destruct (ts !! i) as [t|] eqn:Ht; [|done]); cbn -[report_again] in Hs;
    pose proof (Forall_lookup_1 _ _ _ _ H4 Ht) as [Hacc Hrep];
    destruct (t_phase t) as [|res p|] eqn:Hp; try done.
  - simplify_eq. apply matches_silent. eapply simulates_reporting; [exact Hsim|exact Ht|].
    exists b. split; [by apply Ha|done].
  - specialize (Hrep _ _ eq_refl).
    destruct (report_pipe _ _ _ t res !! sent p) as [cmd|] eqn:Hcmd; [|destruct (refused p)]; simplify_eq.
    + assert (Hts : Forall (task_ok a) (<[i := in_task_phase (Reporting res (pipe_next true p)) t]> ts)).
      { apply tasks_ok_insert; [done|done|]. by intros ? ? [= <- _]. }
      destruct (sent p) as [|k].
      * injection Hcmd as <-. by eapply matches_set.
      * rewrite report_pipe_tail in Hcmd. apply matches_silent.
        eapply simulates_silent; [exact Hsim|done|by eapply tail_quiet|by eapply ack_pipe_shrinks|exact H3|exact Hts].
    + by apply matches_silent, simulates_again.
    + by apply matches_silent, simulates_end.
  - simplify_eq. apply matches_silent, simulates_again; [done|done|by eapply Hrep].
  - destruct (report_pipe _ _ _ t res !! sent p); [|done]. simplify_eq/=.
    apply matches_silent. eapply simulates_reporting; [done|done|by eapply Hrep].
Qed.

Lemma is_result_key k : (exists id, k = result_key id) \/ (forall id, k <> result_key id).
Proof.
  destruct (strip_prefix "judge:results:" k) as [id|] eqn:E.
  - left. exists id. by apply strip_prefix_Some in E.
  - right. intros id ->. unfold result_key in E. by rewrite strip_prefix_app in E.
Qed.

Lemma task_ok_kill a n t : task_ok a t -> task_ok a (kill_task n t).
Proof. unfold kill_task. intros [H1 H2]. case_decide; [|done]. by split. Qed.

Lemma world_matches l s s' a : simulates s a -> world_step c l s = Some s' -> matches s' a.
Proof.
  intros Hsim Hs. destruct s as [sv cs ns ts rs]. pose proof Hsim as [H1 H0 Hnm H2 H3 H4]. cbn in H0, H1, H2, H3, H4, Hnm.
  destruct l as [| | | | | | | | | | |n|k|n| | | |]; try done; cbn [world_step] in Hs.
  - destruct (ns !! n) as [x|] eqn:Hn; [|done]. cbn in Hs. simplify_eq. apply matches_silent.
    eapply simulates_silent; [exact Hsim|done|apply quiet_refl|apply shrinks_refl| |].
    + by apply nodes_ok_insert.
    + apply Forall_map. eapply Forall_impl; [exact H4|]. intros t. apply task_ok_kill.
  - simplify_eq. destruct (is_result_key k) as [[id ->]|Hk].
    + exists (MkService (accepted a) (delete id (settled a))). split; [apply rtc_once; constructor|].
      constructor; [|exact H0|exact Hnm|intros e|exact H3|exact H4].
      * intros j. cbn [server settled]. rewrite expire_value. case_decide as E.
        -- apply result_key_inj in E as ->. by rewrite lookup_delete_eq.
        -- rewrite lookup_delete_ne by congruence. apply H1.
      * cbn [server]. destruct (expire_stream sv (result_key id)) as [-> -> _ _]. apply H2.
    + apply matches_silent. eapply simulates_silent; [exact Hsim|done| | |exact H3|exact H4].
      * intros id. rewrite expire_value. by rewrite decide_False.
      * eapply same_shrinks, expire_stream.
  - simplify_eq. apply matches_silent.
    eapply simulates_silent; [exact Hsim|done| | |exact H3|exact H4].
    + eapply same_quiet, trim_value.
    + eapply trim_shrinks; exact _.
  - simplify_eq. apply matches_silent.
    eapply simulates_silent; [exact Hsim|done| | |exact H3|exact H4].
    + eapply same_quiet, create_value.
    + eapply create_shrinks; exact _.
Qed.

(** One step of the cluster is some steps of the service, usually none. *)
Lemma step_matches s s' a : simulates s a -> cluster_rel s s' -> matches s' a.
Proof.
  intros Hsim (l & Ha & Hs). destruct l; cbn [Cluster.cluster_step] in Hs;
    first [by eapply call_matches|by eapply task_matches|by eapply world_matches
          |by apply matches_silent; eapply fetch_matches|by apply matches_silent; eapply sweep_matches].
Qed.

(** A server without results or stream entries. *)
Definition blank (sv : Srv) : Prop :=
  (forall id, value sv (result_key id) = None) /\ undelivered sv = [] /\ pending sv = [].

Lemma simulates_init sv k : blank sv -> simulates (cluster_init c sv k) service_init.
Proof.
  intros (H1 & H2 & H3). constructor; cbn.
  - intros id. cbn. by rewrite H1.
  - intros q Hq. by apply elem_of_nil in Hq.
  - by constructor.
  - intros e. rewrite H2, H3. intros [He|He]; by apply elem_of_nil in He.
  - apply Forall_replicate. by split.
  - by constructor.
Qed.

Lemma run_matches s s' a : simulates s a -> rtc cluster_rel s s' -> matches s' a.
Proof.
  intros Hsim Hr. revert a Hsim. induction Hr as [s|s s1 s2 Hs _ IH]; intros a Hsim; [by exists a|].
  destruct (step_matches s s1 a Hsim Hs) as (a1 & Ha1 & Hs1).
  destruct (IH a1 Hs1) as (a2 & Ha2 & Hs2). exists a2. split; [by etrans|done].
Qed.

(** C4. The cluster implements the job service.  Every run of gateways, nodes and
    Redis - whatever the interleaving, the connections that fail with or without their
    command executed, the commands Redis refuses, the nodes that crash, the keys that expire and the entries that
    are trimmed - is a run of the abstract service, and what a client can read from
    the result keys are exactly the service's results: the serialized answer of a
    worker pool for a request that some gateway submitted under that very id, never
    another job's result and never an invented one. *)
Theorem cluster_implements_service sv k s :
  blank sv -> rtc cluster_rel (cluster_init c sv k) s ->
  exists a, rtc (service_step answers) service_init a /\ honest answers a /\
    (forall r, r ∈ accepted a -> r ∈ map c_req (calls s)) /\
    forall id, value (server s) (result_key id) = json <$> settled a !! id.
Proof.
  intros Hb Hr. destruct (run_matches _ _ _ (simulates_init sv k Hb) Hr) as (a & Ha & Hsim).
  exists a. split; [exact Ha|]. split; [by apply run_honest|by destruct Hsim].
Qed.
End Service.
