(* ===== verification/Delivery.v ===== *)
(** * Delivery

    At-least-once delivery in the cluster of [Cluster]: a job that was queued is not
    dropped - its entry is in the stream or in the pending list - until a result for
    its id was stored or Redis refused to store one, whatever fails, as long as the
    stream is not trimmed.  And runs after which a result is gone: one in which nothing
    fails, one in which Redis refuses to store it, and one that skips a job. *)

From S2P Require Import Prelude Config Admission Job Broker Consumer Handlers Pool Cluster Service.

Open Scope string_scope.
Open Scope list_scope.

Section Delivery.
Context {Srv : Type} `{HS : RedisServer Srv}.
Context (encode_request : JobRequest -> option string) (decode_request : string -> option JobRequest).
Context (encode_result : JobResult -> option string).
Context (c : RedisConsumer) (env : Env).
Context (answers : JobRequest -> result string JobResult -> Prop).
Context `{!RedisLaws Srv c env, !Codec encode_request decode_request, !PoolAnswers answers}.

Abbreviation State := (Cluster Srv).
Abbreviation job_of := (job_of decode_request).

Definition in_stream (sv : Srv) (e : Entry) : Prop := e ∈ undelivered sv \/ e ∈ pending sv.

(** The ids a [SET] of a result was sent for. *)
Abbreviation ids := (map (fun q : JobResult * bool => res_job_id (fst q))).

Lemma ids_logged (s : State) id : id ∈ ids (reported s) -> stored_for s id \/ refused_for s id.
Proof.
  intros ([res ok] & -> & Hq)%list_elem_of_fmap. cbn. destruct ok; [left|right]; by exists res.
Qed.

(** The identifier of [e] stands for [e] only, and [e] carries a job. *)
Definition stable (sv : Srv) (e : Entry) : Prop :=
  fst e ∈ used_ids sv /\ (forall j, in_stream sv (fst e, j) -> j = snd e) /\
  exists r, encode_request r = Some (snd e) /\ job_id r <> "".

(** A queued job is in the stream, unless a report for its id was sent. *)
Definition call_ok (sv : Srv) (rs : list (JobResult * bool)) (x : Call) : Prop :=
  job_id (c_req x) <> "" /\
  forall m, c_phase x = Answered Queued (Some m) ->
    exists j, encode_request (c_req x) = Some j /\ stable sv (m, j) /\
      (in_stream sv (m, j) \/ job_id (c_req x) ∈ ids rs).

(** A re-acknowledgement is about a job with a report. *)
Definition sweep_ok (rs : list (JobResult * bool)) (x : Node) : Prop :=
  forall id p, sweep_phase x = Acking id p ->
    exists e r, head (sweeping x) = Some e /\ encode_request r = Some (snd e) /\ job_id r = id /\ id ∈ ids rs.

Definition node_stable (sv : Srv) (rs : list (JobResult * bool)) (x : Node) : Prop :=
  Forall (stable sv) (batch x) /\ Forall (stable sv) (sweeping x) /\ sweep_ok rs x.

Definition task_stable (sv : Srv) (rs : list (JobResult * bool)) (t : Task) : Prop :=
  (exists j, encode_request (t_req t) = Some j /\ stable sv (t_msg t, j)) /\
  forall res p, t_phase t = Reporting res p ->
    res_job_id res = job_id (t_req t) /\ ((0 < sent p)%nat -> res_job_id res ∈ ids rs).

Record delivers (s : State) : Prop := MkDelivers {
  dl_group : grouped (server s) = true;
  dl_stream : forall e, in_stream (server s) e -> stable (server s) e;
  dl_calls : Forall (call_ok (server s) (reported s)) (calls s);
  dl_nodes : Forall (node_stable (server s) (reported s)) (nodes s);
  dl_tasks : Forall (task_stable (server s) (reported s)) (tasks s);
  dl_values : forall id, is_Some (value (server s) (result_key id)) -> id ∈ ids (reported s)
}.

(* ------------------------------------------------------------------ *)
(** ** What one command may change *)

Record moves (sv : Srv) (rs : list (JobResult * bool)) (sv' : Srv) (rs' : list (JobResult * bool)) : Prop := MkMoves {
  mv_group : grouped sv' = grouped sv;
  mv_used : used_ids sv ⊆ used_ids sv';
  mv_new : forall e, in_stream sv' e -> in_stream sv e \/ (fst e ∉ used_ids sv) /\ stable sv' e;
  mv_keep : forall e, in_stream sv e ->
    in_stream sv' e \/ forall r, encode_request r = Some (snd e) -> job_id r ∈ ids rs';
  mv_rep : forall id, id ∈ ids rs -> id ∈ ids rs';
  mv_val : forall id, is_Some (value sv' (result_key id)) ->
    is_Some (value sv (result_key id)) \/ id ∈ ids rs'
}.

Lemma stable_moves sv rs sv' rs' e : moves sv rs sv' rs' -> stable sv e -> stable sv' e.
Proof.
  intros [_ Hu Hn _ _ _] (H1 & H2 & H3). split; [by apply Hu|]. split; [|done].
  intros j Hj. destruct (Hn _ Hj) as [Hi|[Hf _]]; [by apply H2|by destruct Hf].
Qed.

Lemma stables_moves sv rs sv' rs' l :
  moves sv rs sv' rs' -> Forall (stable sv) l -> Forall (stable sv') l.
Proof. intros Hm Hl. eapply Forall_impl; [exact Hl|]. intros e. by eapply stable_moves. Qed.

Lemma call_ok_moves sv rs sv' rs' x : moves sv rs sv' rs' -> call_ok sv rs x -> call_ok sv' rs' x.
Proof.
  intros Hm [Hnm Hx]. split; [done|]. intros m Hp. destruct (Hx m Hp) as (j & Hj & Hs & Hin). exists j. split; [done|].
  split; [by eapply stable_moves|]. destruct Hin as [Hin|Hr]; [|right; by apply Hm].
  destruct (mv_keep _ _ _ _ Hm _ Hin) as [?|Hr]; [by left|right; by apply Hr].
Qed.

Lemma node_stable_moves sv rs sv' rs' x :
  moves sv rs sv' rs' -> node_stable sv rs x -> node_stable sv' rs' x.
Proof.
  intros Hm (H1 & H2 & H3). split_and!; [by eapply stables_moves..|].
  intros id k Hp. destruct (H3 id k Hp) as (e & r & ? & ? & ? & ?). exists e, r. split_and!; try done.
  by apply Hm.
Qed.

Lemma task_stable_moves sv rs sv' rs' t :
  moves sv rs sv' rs' -> task_stable sv rs t -> task_stable sv' rs' t.
Proof.
  intros Hm [(j & Hj & Hs) H2]. split; [exists j; split; [done|by eapply stable_moves]|].
  intros res k Hp. destruct (H2 res k Hp) as [Hid Hk]. split; [done|]. intros Hpos. by apply Hm, Hk.
Qed.

Lemma delivers_moves sv sv' cs ns ts rs rs' :
  delivers (MkCluster sv cs ns ts rs) -> moves sv rs sv' rs' -> delivers (MkCluster sv' cs ns ts rs').
Proof.
  intros [Hg H1 H2 H3 H4 H5] Hm. constructor; cbn in *.
  - by rewrite (mv_group _ _ _ _ Hm).
  - intros e He. destruct (mv_new _ _ _ _ Hm e He) as [Hi|[_ Hs]]; [|done].
    eapply stable_moves; [exact Hm|by apply H1].
  - eapply Forall_impl; [exact H2|]. intros x. by eapply call_ok_moves.
  - eapply Forall_impl; [exact H3|]. intros x. by eapply node_stable_moves.
  - eapply Forall_impl; [exact H4|]. intros x. by eapply task_stable_moves.
  - intros id Hv. destruct (mv_val _ _ _ _ Hm id Hv) as [Hv'|?]; [|done]. by apply Hm, H5.
Qed.

(** A command that leaves the stream and adds no result. *)
Lemma moves_same sv sv' rs :
  same_stream sv sv' ->
  (forall id, is_Some (value sv' (result_key id)) -> is_Some (value sv (result_key id))) ->
  moves sv rs sv' rs.
Proof.
  intros [H1 H2 H3 H4] Hv. assert (forall e, in_stream sv' e <-> in_stream sv e) as Hin.
  { intros e. unfold in_stream. by rewrite H1, H2. }
  constructor.
  - done.
  - by rewrite H3.
  - intros e He. left. by apply Hin.
  - intros e He. left. by apply Hin.
  - done.
  - intros id Hid. left. by apply Hv.
Qed.

Lemma moves_quiet sv sv' rs : same_stream sv sv' -> quiet sv sv' -> moves sv rs sv' rs.
Proof. intros Hs Hq. apply moves_same; [done|]. intros id. unfold quiet in Hq. by rewrite Hq. Qed.

(** [XREADGROUP] moves entries from the stream to the pending list. *)
Lemma moves_read sv rs n : moves sv rs (exec (xreadgroup c n) sv) rs.
Proof.
  assert (forall e, in_stream (exec (xreadgroup c n) sv) e <-> in_stream sv e) as Hin.
  { intros e. unfold in_stream. rewrite read_undelivered, read_pending. set (k := Z.to_nat _).
    rewrite <- (take_drop k (undelivered sv)) at 3. rewrite !elem_of_app. tauto. }
  constructor.
  - apply read_grouped.
  - by rewrite read_used.
  - intros e He. left. by apply Hin.
  - intros e He. left. by apply Hin.
  - done.
  - intros id. rewrite read_value. tauto.
Qed.

(** [XACK] of a message that stands for a job with a stored result. *)
Lemma moves_ack sv rs m j :
  stable sv (m, j) -> (forall r, encode_request r = Some j -> job_id r ∈ ids rs) ->
  moves sv rs (exec (xack c m) sv) rs.
Proof.
  intros (_ & Hm & _) Hr. constructor.
  - apply ack_grouped.
  - by rewrite ack_used.
  - intros e He. left. by eapply (shrink_entries _ _ (ack_shrinks c env sv m)).
  - intros e [He|He].
    + left. left. by rewrite ack_undelivered.
    + destruct (decide (fst e = m)) as [Hf|Hf].
      * right. destruct e as [i k]. cbn in *. subst i. rewrite (Hm k); [done|by right].
      * left. right. rewrite ack_pending. by apply list_elem_of_filter.
  - done.
  - intros id. rewrite ack_value. tauto.
Qed.

(** [XADD] of a request. *)
Lemma stable_added sv r j :
  (forall e, in_stream sv e -> stable sv e) -> encode_request r = Some j -> job_id r <> "" ->
  stable (exec (xadd env j) sv) (next_id sv, j).
Proof.
  intros Hst Hj Hn. split; [rewrite xadd_used; set_solver|]. split; [|by exists r].
  intros j'. unfold in_stream. rewrite xadd_undelivered, xadd_pending. cbn.
  assert (forall e, in_stream sv e -> fst e <> next_id sv) as Hne.
  { intros e He Hf. destruct (Hst e He) as [Hu _]. rewrite Hf in Hu. by apply next_fresh in Hu. }
  intros [He|He].
  - apply elem_of_app in He as [He|He]; [by destruct (Hne (next_id sv, j')); [left|]|].
    apply list_elem_of_singleton in He. by injection He as ->.
  - by destruct (Hne (next_id sv, j')); [right|].
Qed.

Lemma moves_add sv rs r j :
  (forall e, in_stream sv e -> stable sv e) -> encode_request r = Some j -> job_id r <> "" ->
  moves sv rs (exec (xadd env j) sv) rs.
Proof.
  intros Hst Hj Hn. pose proof (stable_added sv r j Hst Hj Hn) as Hnew. constructor.
  - apply xadd_grouped.
  - rewrite xadd_used. set_solver.
  - intros e [He|He].
    + rewrite xadd_undelivered in He. apply elem_of_app in He as [He|He]; [left; by left|].
      apply list_elem_of_singleton in He as ->. right. split; [apply next_fresh|exact Hnew].
    + rewrite xadd_pending in He. left. by right.
  - intros e [He|He]; left; [left|right].
    + rewrite xadd_undelivered. apply elem_of_app. by left.
    + by rewrite xadd_pending.
  - done.
  - intros id. rewrite xadd_value. tauto.
Qed.

(** The [SET] of a result. *)
Lemma moves_report sv rs res v ttl :
  moves sv rs (exec ["SET"; result_key (res_job_id res); v; "EX"; ttl] sv) (rs ++ [(res, true)]).
Proof.
  assert (forall id, id ∈ ids rs -> id ∈ ids (rs ++ [(res, true)])) as Hrep.
  { intros id Hid. rewrite map_app. apply elem_of_app. by left. }
  destruct (set_stream sv (result_key (res_job_id res)) v ttl) as [H1 H2 H3 H4]. constructor.
  - done.
  - by rewrite H3.
  - intros e. unfold in_stream. rewrite H1, H2. by left.
  - intros e. unfold in_stream. rewrite H1, H2. by left.
  - done.
  - intros id. rewrite set_value. case_decide as E; [|by left]. apply result_key_inj in E as ->.
    intros _. right. rewrite map_app. apply elem_of_app. right. by left.
Qed.

(** A refused command changes nothing. *)
Lemma moves_refused sv rs l : moves sv rs sv (rs ++ l).
Proof.
  assert (forall id, id ∈ ids rs -> id ∈ ids (rs ++ l)) as Hrep.
  { intros id Hid. rewrite map_app. apply elem_of_app. by left. }
  constructor; [done|done|by left|by left|exact Hrep|by left].
Qed.

(* ------------------------------------------------------------------ *)
(** ** The steps *)

Lemma delivers_nodes sv cs ns ns' ts rs :
  delivers (MkCluster sv cs ns ts rs) -> Forall (node_stable sv rs) ns' ->
  delivers (MkCluster sv cs ns' ts rs).
Proof. intros [Hg H1 H2 H3 H4 H5] Hn. by constructor. Qed.

Lemma delivers_node sv cs ns ts rs n y :
  delivers (MkCluster sv cs ns ts rs) -> node_stable sv rs y ->
  delivers (MkCluster sv cs (<[n := y]> ns) ts rs).
Proof. intros H Hy. eapply delivers_nodes; [exact H|]. apply Forall_insert; [apply (dl_nodes _ H)|done]. Qed.

Lemma delivers_tasks sv cs ns ts ts' rs :
  delivers (MkCluster sv cs ns ts rs) -> Forall (task_stable sv rs) ts' ->
  delivers (MkCluster sv cs ns ts' rs).
Proof. intros [Hg H1 H2 H3 H4 H5] Hn. by constructor. Qed.

Lemma delivers_call sv cs ns ts rs i x :
  delivers (MkCluster sv cs ns ts rs) -> call_ok sv rs x ->
  delivers (MkCluster sv (<[i := x]> cs) ns ts rs).
Proof. intros [Hg H1 H2 H3 H4 H5] Hx. constructor; try done. by apply Forall_insert. Qed.

(** A command of [enqueue] moves the state; an executed [XADD] adds its entry. *)
Lemma call_moves sv cs ns ts rs x cmd :
  delivers (MkCluster sv cs ns ts rs) -> job_id (c_req x) <> "" -> call_command encode_request env x = Some cmd ->
  moves sv rs (exec cmd sv) rs /\
  (c_phase x = Adding -> exists j, encode_request (c_req x) = Some j /\
     stable (exec cmd sv) (next_id sv, j) /\ in_stream (exec cmd sv) (next_id sv, j)).
Proof.
  intros Hd Hnm. unfold call_command, claim.
  destruct (c_phase x) eqn:Hp; intros Hc; try (split; [|done]).
  1,2,3,5: injection Hc as <-.
  - apply moves_same; [eapply del_stream|]. intros id. rewrite del_value. case_decide; [by intros [? [=]]|done].
  - apply moves_quiet; [eapply set_nx_stream|eapply set_nx_quiet; exact _].
  - apply moves_quiet; [eapply set_nx_stream|eapply set_nx_quiet; exact _].
  - apply moves_quiet; [eapply del_stream|eapply del_pending_quiet; exact _].
  - destruct (encode_request (c_req x)) as [j|] eqn:Hj; [|done].
    assert (cmd = xadd env j) as -> by by injection Hc as <-.
    split; [by eapply moves_add; [apply (dl_stream _ Hd)|..]|]. intros _. exists j. split; [done|].
    split; [by eapply stable_added; [apply (dl_stream _ Hd)|..]|].
    left. rewrite xadd_undelivered. apply elem_of_app. right. by apply list_elem_of_singleton.
  - done.
Qed.

Lemma call_delivers l s s' : delivers s -> admissible answers l s -> call_step encode_request env l s = Some s' -> delivers s'.
Proof.
  intros Hd Hadm Hs. destruct s as [sv cs ns ts rs]. destruct l; try done; cbn [call_step] in Hs.
  - simplify_eq. pose proof Hd as [Hg H1 H2 H3 H4 H5]. constructor; try done. cbn.
    apply Forall_app_2; [exact H2|]. constructor; [|done]. split; [by apply assign_id_named|]. intros m. cbn. by destruct (encode_request _).
  - destruct (cs !! i) as [x|] eqn:Hx; [|done]. cbn [mbind option_bind] in Hs.
    destruct (call_command encode_request env x) as [cmd|] eqn:Hc; [|done]. cbn [mbind option_bind] in Hs.
    simplify_eq. destruct (Forall_lookup_1 _ _ _ _ (dl_calls _ Hd) Hx) as [Hnm _].
    destruct (call_moves _ _ _ _ _ _ _ Hd Hnm Hc) as [Hm Ha].
    apply delivers_call; [by eapply delivers_moves|]. split; [done|]. intros m. cbn.
    unfold call_reply. destruct (c_phase x) eqn:Hp; try done; [by case_match|].
    intros [= <-]. destruct (Ha eq_refl) as (j & ? & ? & ?). exists j. split_and!; try done. by left.
  - destruct (cs !! i) as [x|] eqn:Hx; [|done]. cbn [mbind option_bind] in Hs.
    destruct (call_command encode_request env x) as [cmd|] eqn:Hc; [|done]. cbn [mbind option_bind] in Hs.
    simplify_eq. destruct (Forall_lookup_1 _ _ _ _ (dl_calls _ Hd) Hx) as [Hnm _].
    destruct (call_moves _ _ _ _ _ _ _ Hd Hnm Hc) as [Hm _].
    apply delivers_call; [destruct executed; [by eapply delivers_moves|done]|].
    split; [done|]. intros m. cbn. unfold call_failed. by destruct (c_phase x).
  - destruct (cs !! i) as [x|] eqn:Hx; [|done]. cbn [mbind option_bind] in Hs.
    destruct (call_command encode_request env x) as [cmd|] eqn:Hc; [|done]. cbn [mbind option_bind] in Hs.
    simplify_eq. destruct (Forall_lookup_1 _ _ _ _ (dl_calls _ Hd) Hx) as [Hnm _].
    apply delivers_call; [done|]. split; [done|]. intros m. cbn. unfold call_refused, call_failed.
    by destruct (c_phase x).
Qed.

Lemma stable_job sv e : stable sv e -> exists r, encode_request r = Some (snd e) /\ job_of e = Some r.
Proof. intros (_ & _ & r & Hr & _). exists r. split; [done|]. by eapply job_of_known. Qed.

Lemma node_next_batch sv rs x : node_stable sv rs x -> node_stable sv rs (next_in_batch x).
Proof.
  intros (H1 & H2 & H3). split; [|by split]. unfold next_in_batch. cbn. by destruct H1.
Qed.

Lemma node_next_sweep sv rs x : node_stable sv rs x -> node_stable sv rs (next_in_sweep x).
Proof.
  intros (H1 & H2 & H3). split; [done|]. split; [|by intros ? ?]. unfold next_in_sweep. cbn. by destruct H2.
Qed.

Lemma delivers_spawn sv cs ns ts rs n y e r :
  delivers (MkCluster sv cs ns ts rs) -> node_stable sv rs y -> stable sv e ->
  encode_request r = Some (snd e) ->
  delivers (MkCluster sv cs (<[n := y]> ns) (ts ++ [spawn n (fst e) r]) rs).
Proof.
  intros Hd Hy He Hr. eapply delivers_tasks; [by apply delivers_node|].
  apply Forall_app_2; [apply (dl_tasks _ Hd)|]. constructor; [|done]. split; [|done].
  exists (snd e). split; [done|]. by destruct e.
Qed.

Lemma fetch_delivers l s s' : delivers s -> fetch_step decode_request c l s = Some s' -> delivers s'.
Proof.
  intros Hd Hs. destruct s as [sv cs ns ts rs].
  destruct l as [| | |n lost|n| | | | | | | | | | | | |]; try done; cbn [fetch_step] in Hs;
    (destruct (ns !! n) as [x|] eqn:Hn; [|done]); cbn [mbind option_bind] in Hs;
    pose proof (Forall_lookup_1 _ _ _ _ (dl_nodes _ Hd) Hn) as Hx; pose proof Hx as (Hb & Hw & Hk); cbn in Hb, Hw, Hk.
  - destruct (batch x); [|done]. destruct (grouped sv); [|done]. cbn in Hs. simplify_eq.
    pose proof (moves_read sv rs (Z.of_nat (permits x))) as Hm.
    apply delivers_node; [by eapply delivers_moves|].
    pose proof (node_stable_moves _ _ _ _ _ Hm Hx) as (_ & H2 & H3). split_and!; [|done|exact H3].
    cbn. destruct lost; [done|]. apply Forall_forall. intros e He. eapply stable_moves; [exact Hm|].
    apply (dl_stream _ Hd). left. cbn.
    rewrite <- (take_drop (Z.to_nat (batch_size c (Z.of_nat (permits x)))) (undelivered sv)).
    apply elem_of_app. by left.
  - destruct (batch x) as [|e b] eqn:Hbx; [done|]. cbn [head mbind option_bind] in Hs.
    assert (stable sv e) as He by by inversion Hb.
    destruct (stable_job sv e He) as (r & Hr & Hj). rewrite Hj in Hs. case_decide; [done|]. simplify_eq.
    apply delivers_spawn; [done|by apply node_next_batch|done|done].
Qed.

(** The job an entry stands for has a stored result: its acknowledgement is harmless. *)
Lemma moves_ack_pipe sv rs m j id k cmd :
  stable sv (m, j) -> (forall r, encode_request r = Some j -> job_id r ∈ ids rs) ->
  ack_pipe (stream_key c) (consumer_group c) m id !! k = Some cmd -> moves sv rs (exec cmd sv) rs.
Proof.
  intros Hs Hr. destruct k as [|[|[|k]]]; intros Hc; cbn in Hc; try done.
  - injection Hc as <-. apply moves_quiet; [eapply del_stream|eapply del_pending_quiet; exact _].
  - assert (cmd = xack c m) as -> by by injection Hc as <-. by eapply moves_ack.
  - injection Hc as <-. apply moves_quiet; [eapply publish_stream|eapply same_quiet, publish_value].
Qed.

Lemma encode_inj r r' j : encode_request r = Some j -> encode_request r' = Some j -> r = r'.
Proof. intros H H'. pose proof (encode_decode _ _ H). pose proof (encode_decode _ _ H'). congruence. Qed.

(** The next attempt of a re-acknowledgement. *)
Lemma node_acking sv rs x id p p' :
  node_stable sv rs x -> sweep_phase x = Acking id p -> node_stable sv rs (in_sweep_phase (Acking id p') x).
Proof.
  intros (Hb & Hw & Hk) Hp. split_and!; [done|done|]. intros i q [= <- <-].
  destruct (Hk id p Hp) as (e & r & ? & ?). by exists e, r.
Qed.

Lemma node_again sv rs x id p :
  node_stable sv rs x -> sweep_phase x = Acking id p -> node_stable sv rs (acking_again id p x).
Proof.
  intros Hx Hp. unfold acking_again. destruct (pipe_again p); [by eapply node_acking|by apply node_next_sweep].
Qed.

Lemma sweep_delivers l s s' : delivers s -> sweep_step decode_request c l s = Some s' -> delivers s'.
Proof.
  intros Hd Hs. destruct s as [sv cs ns ts rs].
  destruct l as [| | | | |n idle cur got|n|n| | | | | | | | |n|]; try done; cbn [sweep_step] in Hs;
    (destruct (ns !! n) as [x|] eqn:Hn; [|done]); cbn [mbind option_bind] in Hs;
    pose proof (Forall_lookup_1 _ _ _ _ (dl_nodes _ Hd) Hn) as Hx; pose proof Hx as (Hb & Hw & Hk); cbn in Hb, Hw, Hk.
  - destruct (sweeping x); [|done]. case_decide as Hg; [|done]. simplify_eq.
    assert (Hm : moves sv rs (exec (xautoclaim c idle cur) sv) rs).
    { apply moves_quiet; [eapply claim_stream|eapply same_quiet, claim_value]. }
    apply delivers_node; [by eapply delivers_moves|].
    pose proof (node_stable_moves _ _ _ _ _ Hm Hx) as (H1 & _ & _). split_and!; [done| |by intros ? ?].
    cbn. eapply Forall_impl; [exact Hg|]. intros e He. eapply stable_moves; [exact Hm|].
    apply (dl_stream _ Hd). by right.
  - destruct (sweeping x) as [|e l] eqn:Hl; [done|]. cbn [head mbind option_bind] in Hs.
    assert (stable sv e) as He by by inversion Hw.
    destruct (stable_job sv e He) as (r & Hr & Hj). rewrite Hj in Hs.
    destruct (sweep_phase x) as [|id p|] eqn:Hp.
    + simplify_eq. apply delivers_node; [done|]. split_and!; [done|by cbn; rewrite Hl|].
      intros id k. cbn. destruct (value sv _) as [v|] eqn:Hv; [|done]. intros [= <- <-].
      exists e, r. rewrite Hl. split_and!; try done. apply (dl_values _ Hd). cbn. by rewrite Hv.
    + destruct (Hk id p Hp) as (e' & r' & He' & Hr' & Hid & Hrep). rewrite Hl in He'. injection He' as <-.
      destruct (ack_pipe _ _ _ _ !! sent p) as [cmd|] eqn:Hcmd; [|destruct (refused p)]; simplify_eq.
      * assert (Hm : moves sv rs (exec cmd sv) rs).
        { eapply (moves_ack_pipe sv rs (fst e) (snd e)); [by destruct e| |exact Hcmd]. intros q Hq.
          by rewrite (encode_inj _ _ _ Hq Hr'). }
        apply delivers_node; [by eapply delivers_moves|].
        eapply node_acking; [by eapply node_stable_moves|exact Hp].
      * apply delivers_node; [done|by apply node_again].
      * apply delivers_node; [done|by apply node_next_sweep].
    + case_decide; [done|]. simplify_eq.
      apply delivers_spawn; [done|by apply node_next_sweep|done|done].
  - destruct (sweeping x) as [|e l] eqn:Hl; [done|]. cbn [head mbind option_bind] in Hs.
    assert (stable sv e) as He by by inversion Hw.
    destruct (stable_job sv e He) as (r & Hr & Hj). rewrite Hj in Hs.
    destruct (sweep_phase x) as [|id p|] eqn:Hp; [| |done]; simplify_eq/=; apply delivers_node; try done.
    + split_and!; [done|by cbn; rewrite Hl|by intros ? ?].
    + by apply node_again.
  - destruct (sweeping x) as [|e l] eqn:Hl; [done|]. cbn [head mbind option_bind] in Hs.
    destruct (job_of e); [|done]. destruct (sweep_phase x) as [|id p|] eqn:Hp; try done.
    destruct (_ !! sent p); [|done]. simplify_eq/=. apply delivers_node; [done|by eapply node_acking].
Qed.

Lemma task_moved sv rs i t p ts :
  Forall (task_stable sv rs) ts -> ts !! i = Some t ->
  (forall res q, p = Reporting res q ->
     res_job_id res = job_id (t_req t) /\ ((0 < sent q)%nat -> res_job_id res ∈ ids rs)) ->
  Forall (task_stable sv rs) (<[i := in_task_phase p t]> ts).
Proof.
  intros Hts Ht Hp. apply Forall_insert; [done|]. split; [|exact Hp].
  by destruct (Forall_lookup_1 _ _ _ _ Hts Ht).
Qed.

Lemma nodes_freed sv rs ns n :
  Forall (node_stable sv rs) ns -> Forall (node_stable sv rs) (alter free_permit n ns).
Proof.
  intros Hn. apply Forall_forall. intros y Hy. apply list_elem_of_lookup_1 in Hy as [i Hi].
  rewrite list_lookup_alter in Hi. case_decide; [|by eapply Forall_lookup_1].
  apply fmap_Some in Hi as (x & Hx & ->). by pose proof (Forall_lookup_1 _ _ _ _ Hn Hx).
Qed.

Lemma delivers_end sv cs ns ts rs i t :
  delivers (MkCluster sv cs ns ts rs) -> ts !! i = Some t ->
  delivers (MkCluster sv cs (alter free_permit (t_node t) ns) (<[i := in_task_phase Ended t]> ts) rs).
Proof.
  intros Hd Ht. eapply delivers_tasks; [eapply delivers_nodes; [exact Hd|]|].
  - apply nodes_freed, (dl_nodes _ Hd).
  - eapply task_moved; [apply (dl_tasks _ Hd)|exact Ht|done].
Qed.

Lemma delivers_again s i t res p :
  delivers s -> tasks s !! i = Some t -> res_job_id res = job_id (t_req t) ->
  delivers (report_again i t res p s).
Proof.
  destruct s as [sv cs ns ts rs]. cbn. intros Hd Ht Hid. unfold pipe_again.
  case_decide; [|by apply delivers_end].
  eapply delivers_tasks; [exact Hd|]. eapply task_moved; [apply (dl_tasks _ Hd)|exact Ht|].
  intros res' q [= <- <-]. split; [exact Hid|cbn; lia].
Qed.

(** The next command of a report moves the state, whether it is executed or refused, and
    when it is acknowledged the report has been sent. *)
Lemma report_moves sv rs t res p cmd j (ok : bool) :
  encode_request (t_req t) = Some j -> stable sv (t_msg t, j) -> res_job_id res = job_id (t_req t) ->
  ((0 < sent p)%nat -> res_job_id res ∈ ids rs) ->
  report_pipe encode_result c env t res !! sent p = Some cmd ->
  moves sv rs (if ok then exec cmd sv else sv) (rs ++ log_report cmd res ok) /\
  res_job_id res ∈ ids (rs ++ log_report cmd res ok).
Proof.
  intros Hj Hst Hid Hk Hcmd. destruct (sent p) as [|k].
  - injection Hcmd as <-. split; [destruct ok; [apply moves_report|apply moves_refused]|].
    rewrite map_app. apply elem_of_app. right. by left.
  - rewrite report_pipe_tail in Hcmd. rewrite (tail_not_logged _ _ _ _ _ _ _ _ Hcmd), app_nil_r.
    assert (res_job_id res ∈ ids rs) as Hin by (apply Hk; lia). split; [|exact Hin].
    destruct ok; [|rewrite <- (app_nil_r rs) at 2; apply moves_refused].
    eapply moves_ack_pipe; [exact Hst| |exact Hcmd]. intros r Hr. by rewrite (encode_inj _ _ _ Hr Hj), <- Hid.
Qed.

Lemma delivers_report sv cs ns ts rs i t res p cmd j (ok : bool) :
  delivers (MkCluster sv cs ns ts rs) -> ts !! i = Some t ->
  encode_request (t_req t) = Some j -> stable sv (t_msg t, j) -> res_job_id res = job_id (t_req t) ->
  ((0 < sent p)%nat -> res_job_id res ∈ ids rs) ->
  report_pipe encode_result c env t res !! sent p = Some cmd ->
  delivers (MkCluster (if ok then exec cmd sv else sv) cs ns
              (<[i := in_task_phase (Reporting res (pipe_next ok p)) t]> ts) (rs ++ log_report cmd res ok)).
Proof.
  intros Hd Ht Hj Hst Hid Hk Hcmd.
  destruct (report_moves sv rs t res p cmd j ok Hj Hst Hid Hk Hcmd) as [Hm Hin].
  eapply delivers_tasks; [by eapply delivers_moves|]. eapply task_moved; [|exact Ht|].
  - eapply Forall_impl; [apply (dl_tasks _ Hd)|]. intros y. by eapply task_stable_moves.
  - by intros res' q [= <- <-].
Qed.

Lemma task_delivers l s s' :
  delivers s -> admissible answers l s -> task_step encode_result c env l s = Some s' -> delivers s'.
Proof.
  intros Hd Ha Hs. destruct s as [sv cs ns ts rs].
  destruct l as [| | | | | | | |i b|i|i| | | | | | |i]; try done; cbn -[report_again] in Hs;
    (destruct (ts !! i) as [t|] eqn:Ht; [|done]); cbn -[report_again] in Hs;
    pose proof (Forall_lookup_1 _ _ _ _ (dl_tasks _ Hd) Ht) as [(j & Hj & Hst) Hrep]; cbn in Hst, Hrep;
    destruct (t_phase t) as [|res p|] eqn:Hp; try done.
  - simplify_eq. eapply delivers_tasks; [exact Hd|].
    eapply task_moved; [apply (dl_tasks _ Hd)|exact Ht|]. intros res q [= <- <-]. split; [|cbn; lia].
    destruct b as [r|m]; cbn; [|done]. eapply answers_id; [|exact (Ha t Ht)].
    destruct Hst as (_ & _ & q & Hq & Hne). cbn in Hq. by rewrite <- (encode_inj _ _ _ Hq Hj).
  - destruct (Hrep _ _ eq_refl) as [Hid Hk].
    destruct (report_pipe _ _ _ t res !! sent p) as [cmd|] eqn:Hcmd; [|destruct (refused p)]; simplify_eq.
    + exact (delivers_report _ _ _ _ _ _ _ _ _ _ _ true Hd Ht Hj Hst Hid Hk Hcmd).
    + by apply delivers_again.
    + by apply delivers_end.
  - destruct (Hrep _ _ eq_refl) as [Hid _]. simplify_eq. by apply delivers_again.
  - destruct (Hrep _ _ eq_refl) as [Hid Hk].
    destruct (report_pipe _ _ _ t res !! sent p) as [cmd|] eqn:Hcmd; [|done]. simplify_eq/=.
    exact (delivers_report _ _ _ _ _ _ _ _ _ _ _ false Hd Ht Hj Hst Hid Hk Hcmd).
Qed.

Definition untrimmed (l : ClusterLabel) : bool := match l with Trim _ => false | _ => true end.

Definition untrimmed_rel (s s' : State) : Prop :=
  exists l, untrimmed l = true /\ admissible answers l s /\
            cluster_step encode_request decode_request encode_result c env l s = Some s'.

Lemma world_delivers l s s' :
  delivers s -> untrimmed l = true -> world_step c l s = Some s' -> delivers s'.
Proof.
  intros Hd Hu Hs. destruct s as [sv cs ns ts rs].
  destruct l as [| | | | | | | | | | |n|k|n| | | |]; try done; cbn [world_step] in Hs.
  - destruct (ns !! n) as [x|] eqn:Hn; [|done]. cbn [mbind option_bind] in Hs. simplify_eq.
    eapply delivers_tasks; [apply delivers_node; [exact Hd|by split_and!; [..|intros ? ?]]|].
    apply Forall_map. eapply Forall_impl; [apply (dl_tasks _ Hd)|]. intros t Ht.
    unfold kill_task. case_decide; [|done]. by destruct Ht as [H1 _].
  - simplify_eq. eapply delivers_moves; [exact Hd|]. apply moves_same; [eapply expire_stream|].
    intros id. rewrite expire_value. case_decide; [by intros [? [=]]|done].
  - simplify_eq. eapply delivers_moves; [exact Hd|]. apply moves_quiet; [|eapply same_quiet, create_value].
    pose proof (dl_group _ Hd) as Hg. cbn in Hg. constructor; rewrite ?Hg.
    + by rewrite create_undelivered, Hg.
    + apply create_pending.
    + apply create_used.
    + apply create_grouped.
Qed.

Lemma delivers_step s s' : delivers s -> untrimmed_rel s s' -> delivers s'.
Proof.
  intros Hd (l & Hu & Ha & Hs). pose proof (call_delivers l s s' Hd Ha) as H1.
  pose proof (fetch_delivers l s s' Hd) as H2. pose proof (sweep_delivers l s s' Hd) as H3.
  pose proof (task_delivers l s s' Hd Ha) as H4. pose proof (world_delivers l s s' Hd Hu) as H5.
  destruct l; cbn [Cluster.cluster_step] in Hs; by auto.
Qed.

Lemma delivers_init sv k : blank sv -> grouped sv = true -> delivers (cluster_init c sv k).
Proof.
  intros (H1 & H2 & H3) Hg. constructor; cbn.
  - exact Hg.
  - intros e. unfold in_stream. rewrite H2, H3. intros [He|He]; by apply elem_of_nil in He.
  - by constructor.
  - apply Forall_replicate. split_and!; [done|done|by intros ? ?].
  - by constructor.
  - intros id. rewrite H1. by intros [? [=]].
Qed.

(* ------------------------------------------------------------------ *)
(** ** Properties *)

(** C7. Nothing queued is dropped silently.  Once a gateway was told [Queued], as long as
    Redis keeps its data (no restart, no trimming of the stream) and if the consumer
    group existed from the start, the job's entry is in the stream or in the group's pending list - where the reclaim sweep finds
    it - until its result was stored, or Redis itself answered the [SET] of a result for
    its id with an error: through any interleaving, failing connections, refused
    commands, crashing nodes, refusals of the pool and re-runs.  (The other commands of a
    report run although its [SET] was refused, see [refused_result_lost].) *)
Theorem queued_is_delivered sv k s i x m :
  blank sv -> grouped sv = true -> rtc untrimmed_rel (cluster_init c sv k) s ->
  calls s !! i = Some x -> c_phase x = Answered Queued (Some m) ->
  exists j, encode_request (c_req x) = Some j /\
    (in_stream (server s) (m, j) \/
     stored_for s (job_id (c_req x)) \/ refused_for s (job_id (c_req x))).
Proof.
  intros Hb Hg Hr Hx Hp. assert (delivers s) as Hd.
  { apply (invariant_reachable untrimmed_rel delivers (cluster_init c sv k));
      [exact delivers_step|by apply delivers_init|exact Hr]. }
  destruct (Forall_lookup_1 _ _ _ _ (dl_calls _ Hd) Hx) as [_ Hc].
  destruct (Hc m Hp) as (j & Hj & _ & [Hin|Hin]); exists j; (split; [exact Hj|]);
    [by left|right; by apply ids_logged].
Qed.
End Delivery.

(* ------------------------------------------------------------------ *)
(** ** A result that is lost *)

(** Nothing goes wrong in this step. *)
Definition smooth (l : ClusterLabel) : bool :=
  match l with
  | CallFail _ _ | Fetch _ true | SweepFail _ | ReportFail _ | Crash _ | Expire _ | Trim _ => false
  | CallRefused _ | SweepRefused _ | ReportRefused _ => false
  | PoolAnswer _ (Err _) => false
  | _ => true
  end.

(** The worker has stored the result of ["j7"] when the same job is submitted again;
    the [DEL] of the second [enqueue] falls before the worker clears the marker. *)
Definition resubmitted : list ClusterLabel :=
  one_job ++ [Report 0; Enqueue "u" demo_job; CallStep 1; CallStep 1; Report 0; Report 0; Report 0; Report 0].

Definition final : Cluster DemoServer := demo_run resubmitted (demo_start 1).

(** C26. A finished result can be lost without any failure.  [enqueue] deletes a stale
    result before it learns whether the job is in flight.  If a job is submitted again
    while its worker is between storing the result and clearing the pending marker,
    the fresh result is deleted, the second submission is told [Duplicate], and the
    worker then clears the marker and acknowledges the entry: both callers wait for a
    result that was stored once and is gone, nothing is left to run again, and later
    lookups find neither result nor marker. *)
Theorem finished_result_lost :
  forallb smooth resubmitted = true /\ rtc demo_rel (demo_start 1) final /\
  map c_phase (calls final) = [Answered Queued (Some (demo_next empty_server)); Answered Duplicate None] /\
  reported final = [(demo_outcome, true)] /\ map t_phase (tasks final) = [Ended] /\
  value (server final) (result_key "j7") = None /\ value (server final) (pending_key "j7") = None /\
  undelivered (server final) = [] /\ pending (server final) = [].
Proof.
  split; [by vm_compute|]. split; [apply demo_run_rel|]. vm_compute. by split_and!.
Qed.

(* ------------------------------------------------------------------ *)
(** ** A job that is skipped *)

(** A Redis no worker has ever connected to. *)
Definition groupless : DemoServer := MkServer ∅ [] [] ∅ false.

(** A job is queued, then the first worker starts, and reads. *)
Definition early : list ClusterLabel :=
  [Enqueue "u" demo_job; CallStep 0; CallStep 0; CallStep 0; CreateGroup; Fetch 0 false].

Definition skipped : Cluster DemoServer := demo_run early (cluster_init demo_consumer groupless 1).

(** C28. A job queued before the first worker started is skipped.  The group is created
    at [$], the end of the stream: on a new Redis - a control-plane gateway that is up
    before its workers - a submission is told [Queued] and its pending marker is set,
    and when the first worker starts nothing is left to deliver: its fetch returns
    nothing, the entry is neither undelivered nor pending, so no fetch and no sweep will
    ever run it, while its caller waits and a retry under its id is a duplicate until
    the marker expires.  Nothing failed in this run. *)
Theorem early_job_skipped :
  forallb smooth early = true /\ blank groupless /\
  rtc demo_rel (cluster_init demo_consumer groupless 1) skipped /\
  map c_phase (calls skipped) = [Answered Queued (Some (demo_next groupless))] /\
  value (server skipped) (pending_key "j7") <> None /\
  undelivered (server skipped) = [] /\ pending (server skipped) = [] /\
  nodes skipped = [node_new demo_consumer] /\ tasks skipped = [] /\ reported skipped = [].
Proof.
  split; [by vm_compute|]. split; [split; [|done]; intros id; apply lookup_empty|].
  split; [apply demo_run_rel|]. vm_compute. by split_and!.
Qed.

(* ------------------------------------------------------------------ *)
(** ** A result that Redis refuses *)

(** One attempt of the report whose [SET] is refused, and the end of its pipe. *)
Definition refused_attempt : list ClusterLabel :=
  [ReportRefused 0; Report 0; Report 0; Report 0; Report 0].

(** All attempts meet a full server. *)
Definition refused_run : list ClusterLabel := one_job ++ mjoin (replicate MAX_ATTEMPTS refused_attempt).

Definition lost : Cluster DemoServer := demo_run refused_run (demo_start 1).

(** C27. A result that Redis refuses to store is lost although its job is acknowledged.
    The report is a plain pipe: when its [SET] is answered with an error - the embedded
    Redis is limited to 64 MB and does not evict - the [DEL] of the marker, the [XACK]
    and the [PUBLISH] behind it are executed all the same.  Here all twelve attempts
    meet a full server and no connection ever fails: the submission was told [Queued], in
    the end the worker gives up, and there is no result, no pending marker, and - unlike
    what the message of [publish_result] promises - no entry that a sweep could
    recover. *)
Theorem refused_result_lost :
  rtc demo_rel (demo_start 1) lost /\
  forallb (fun l => match l with ReportRefused _ => true | _ => smooth l end) refused_run = true /\
  map c_phase (calls lost) = [Answered Queued (Some (demo_next empty_server))] /\
  map t_phase (tasks lost) = [Ended] /\ nodes lost = [node_new demo_consumer] /\
  (forall q, q ∈ reported lost -> q = (demo_outcome, false)) /\ length (reported lost) = 12%nat /\
  value (server lost) (result_key "j7") = None /\ value (server lost) (pending_key "j7") = None /\
  undelivered (server lost) = [] /\ pending (server lost) = [].
Proof.
  split; [apply demo_run_rel|]. split; [by vm_compute|]. split_and!; try by vm_compute.
  intros q Hq. assert (reported lost = replicate 12 (demo_outcome, false)) as E by by vm_compute.
  rewrite E in Hq. by apply elem_of_replicate in Hq as [-> _].
Qed.

(* ------------------------------------------------------------------ *)
(** ** Witnesses *)

Lemma blank_empty : blank empty_server.
Proof. split; [|done]. intros id. apply lookup_empty. Qed.

(** The job of [one_job], reported. *)
Definition served : Cluster DemoServer := demo_run (one_job ++ [Report 0]) (demo_start 1).

Lemma cluster_implements_service_witness :
  exists a, rtc (service_step demo_answers) service_init a /\ honest demo_answers a /\
    (settled a !! "j7" = None -> False).
Proof.
  destruct (cluster_implements_service demo_encode demo_decode demo_json demo_consumer demo_env demo_answers
    empty_server 1 served blank_empty (demo_run_rel _ _)) as (a & Ha & Hh & _ & Hv).
  exists a. split; [exact Ha|]. split; [exact Hh|]. intros Hn. specialize (Hv "j7").
  rewrite Hn in Hv. revert Hv. vm_compute. intros Hv. discriminate Hv.
Defined.

(** The run of [one_job] up to the fetch, whose reply is lost: the entry is pending. *)
Definition stranded_run : list ClusterLabel :=
  [Enqueue "u" demo_job; CallStep 0; CallStep 0; CallStep 0; Fetch 0 true].

Definition stranded : Cluster DemoServer := demo_run stranded_run (demo_start 1).

Lemma untrimmed_run ls s :
  forallb untrimmed ls = true ->
  rtc (untrimmed_rel demo_encode demo_decode demo_json demo_consumer demo_env demo_answers) s (demo_run ls s).
Proof.
  revert s. induction ls as [|l ls IH]; intros s; cbn [forallb demo_run]; [done|].
  intros [Hl Hls]%andb_prop.
  destruct (demo_step l s) as [s'|] eqn:E; [|done]. destruct (demo_admissible l s) eqn:Ha; [|done].
  eapply rtc_l; [|by apply IH]. exists l. split; [done|]. split; [|exact E].
  by apply demo_admissible_sound.
Qed.

Lemma queued_is_delivered_witness :
  exists j, demo_encode demo_job = Some j /\
    (in_stream (server stranded) (demo_next empty_server, j) \/
     stored_for stranded "j7" \/ refused_for stranded "j7").
Proof.
  refine (queued_is_delivered demo_encode demo_decode demo_json demo_consumer demo_env demo_answers
    empty_server 1 stranded 0 (MkCall demo_job (Answered Queued (Some (demo_next empty_server))))
    (demo_next empty_server) blank_empty eq_refl (untrimmed_run stranded_run _ eq_refl) _ eq_refl).
  vm_compute. reflexivity.
Defined.
