(* ===== verification/Recovery.v ===== *)
(** * Recovery

    Liveness of the cluster of [Cluster]: from every reachable state, as long as nothing
    fails any more, the worker nodes can finish what they hold, fetch what is queued and
    reclaim what was left pending, until every queued job has a stored result.  The
    work that is left is a measure that every step of the nodes but one decreases; the
    one that does not, [XAUTOCLAIM], is followed by a run that removes what it claimed. *)

From S2P Require Import Prelude Config Admission Job Broker Consumer Handlers Pool Cluster Service Delivery.

Open Scope string_scope.
Open Scope list_scope.

(* ------------------------------------------------------------------ *)
(** ** Sums over lists *)

Lemma sum_positive {A : Type} (f : A -> nat) l :
  sum_list_with f l <> 0%nat -> exists i x, l !! i = Some x /\ f x <> 0%nat.
Proof.
  induction l as [|y l IH]; cbn; [done|]. intros H. destruct (decide (f y = 0%nat)) as [E|E].
  - destruct IH as (i & x & Hx & Hf); [lia|]. by exists (S i), x.
  - by exists 0%nat, y.
Qed.

Lemma sum_zero {A : Type} (f : A -> nat) l i x :
  sum_list_with f l = 0%nat -> l !! i = Some x -> f x = 0%nat.
Proof. intros Hs Hx%list_elem_of_lookup_2. pose proof (sum_list_with_in x f l Hx). lia. Qed.

Lemma sum_insert {A : Type} (f : A -> nat) i l x y :
  l !! i = Some x -> (sum_list_with f (<[i := y]> l) + f x = sum_list_with f l + f y)%nat.
Proof.
  revert i. induction l as [|z l IH]; intros i; [done|]. destruct i as [|i]; cbn.
  - intros [= ->]. lia.
  - intros Hx. rewrite <- Nat.add_assoc. etransitivity; [apply f_equal, (IH i Hx)|lia].
Qed.

Lemma sum_alter_same {A : Type} (f : A -> nat) g i l :
  (forall x, f (g x) = f x) -> sum_list_with f (alter g i l) = sum_list_with f l.
Proof.
  intros Hg. revert i. induction l as [|z l IH]; intros i; [done|].
  destruct i as [|i]; cbn; [by rewrite Hg|by rewrite IH].
Qed.

(* ------------------------------------------------------------------ *)
(** ** Calm steps, and the work that is left *)

(** What worker nodes do while nothing fails, nothing is refused and nothing expires.  The
    end of a pipe of which a command was refused before is its next attempt, or the last. *)
Definition calm (l : ClusterLabel) : bool :=
  match l with
  | Fetch _ false | Handle _ | Sweep _ _ _ _ | SweepStep _ | PoolAnswer _ _ | Report _ => true
  | _ => false
  end.

Definition task_work (t : Task) : nat :=
  match t_phase t with
  | Running => 6
  | Reporting _ p => S (4 - sent p) + (if refused p then 5 else 0)
  | Ended => 0
  end.

Definition sweep_phase_work (p : SweepPhase) : nat :=
  match p with Asking => 13 | Acking _ p => S (3 - sent p) + (if refused p then 4 else 0) | Permit => 7 end.

Definition sweep_work (x : Node) : nat :=
  match sweeping x with [] => 0 | _ :: l => 13 * length l + sweep_phase_work (sweep_phase x) end.

Definition node_work (x : Node) : nat := 7 * length (batch x) + sweep_work x.

Section Recovery.
Context {Srv : Type} `{HS : RedisServer Srv}.
Context (encode_request : JobRequest -> option string) (decode_request : string -> option JobRequest).
Context (encode_result : JobResult -> option string).
Context (c : RedisConsumer) (env : Env).
Context (answers : JobRequest -> result string JobResult -> Prop).
Context `{!RedisLaws Srv c env, !Codec encode_request decode_request, !PoolAnswers answers}.
(** Every pool answers in the end (see [Pool]). *)
Context (answered : forall r, exists a, answers r a).

Abbreviation State := (Cluster Srv).
Abbreviation job_of := (job_of decode_request).
Abbreviation step := (cluster_step encode_request decode_request encode_result c env).
Abbreviation report_pipe := (report_pipe encode_result c env).

Definition calm_rel (s s' : State) : Prop :=
  exists l, calm l = true /\ admissible answers l s /\ step l s = Some s'.

Definition work (s : State) : nat :=
  sum_list_with task_work (tasks s) + sum_list_with node_work (nodes s) + 8 * length (undelivered (server s)).

(** There is a node, the consumer group exists, and the permits are accounted for. *)
Definition staffed (s : State) : Prop := nodes s <> [] /\ grouped (server s) = true /\ permits_ok c s.

Lemma calm_cluster s s' :
  calm_rel s s' -> cluster_rel encode_request decode_request encode_result c env answers s s'.
Proof. intros (l & _ & Ha & Hs). by exists l. Qed.

(** No step adds or removes a node. *)
Lemma report_again_frame i t res p (s : State) :
  length (nodes (report_again i t res p s)) = length (nodes s) /\
  server (report_again i t res p s) = server s /\ calls (report_again i t res p s) = calls s /\
  reported (report_again i t res p s) = reported s.
Proof. destruct s as [sv cs ns ts rs]. cbn. destruct (pipe_again p); [done|]. cbn. by rewrite length_alter. Qed.

Lemma step_nodes l s s' : step l s = Some s' -> length (nodes s') = length (nodes s).
Proof.
  destruct s as [sv cs ns ts rs]. intros Hs. destruct l; cbn -[report_again] in Hs; unfold end_task in Hs;
    repeat (case_match || (progress simplify_option_eq)); cbn -[report_again];
    rewrite ?length_insert, ?length_alter; try done.
  all: match goal with |- context [report_again ?i ?t ?res ?p ?s] => by destruct (report_again_frame i t res p s) end.
Qed.

(** Nothing removes the consumer group. *)
Lemma ack_pipe_grouped sv msg id k cmd :
  ack_pipe (stream_key c) (consumer_group c) msg id !! k = Some cmd -> grouped (exec cmd sv) = grouped sv.
Proof.
  destruct k as [|[|[|k]]]; [| | |done]; intros [= <-].
  - apply (del_stream sv).
  - apply (ack_grouped sv).
  - apply (publish_stream sv).
Qed.

Lemma report_grouped sv t res k cmd :
  report_pipe t res !! k = Some cmd -> grouped (exec cmd sv) = grouped sv.
Proof.
  destruct k as [|k]; [intros [= <-]; apply (set_stream sv)|]. rewrite report_pipe_tail. apply ack_pipe_grouped.
Qed.

Lemma call_grouped sv x cmd : call_command encode_request env x = Some cmd -> grouped (exec cmd sv) = grouped sv.
Proof.
  unfold call_command, claim. destruct (c_phase x); intros Hc; cbn in Hc; [..|done].
  - injection Hc as <-. apply (del_stream sv).
  - injection Hc as <-. apply (set_nx_stream sv).
  - injection Hc as <-. apply (set_nx_stream sv).
  - destruct (encode_request (c_req x)); [|done]. injection Hc as <-. apply (xadd_grouped sv).
  - injection Hc as <-. apply (del_stream sv).
Qed.

Lemma step_grouped l s s' : step l s = Some s' -> grouped (server s) = true -> grouped (server s') = true.
Proof.
  destruct s as [sv cs ns ts rs]. intros Hs Hg. cbn in Hg.
  destruct l; cbn in Hs; unfold end_task in Hs;
    repeat (case_match || (progress simplify_option_eq)); cbn;
    first [exact Hg|by erewrite call_grouped|by rewrite read_grouped|by rewrite (ack_grouped sv)
          |by erewrite ack_pipe_grouped|by erewrite report_grouped|by rewrite (same_grouped _ _ (set_stream sv _ _ _))|apply create_grouped
          |by rewrite trim_grouped|by rewrite (same_grouped _ _ (claim_stream sv _ _))
          |by rewrite (same_grouped _ _ (expire_stream sv _))].
Qed.

Lemma staffed_kept s s' : calm_rel s s' -> staffed s -> nodes s' <> [] -> staffed s'.
Proof.
  intros Hr (_ & Hg & Hp) Hn. split; [done|]. split; [destruct Hr as (l & _ & _ & Hs); by eapply step_grouped|].
  eapply (permits_invariant encode_request decode_request encode_result c env answers);
    [exact Hp|by apply calm_cluster].
Qed.

(** A calm step that keeps the nodes and decreases the work. *)
Definition advances (s s' : State) : Prop :=
  calm_rel s s' /\ length (nodes s') = length (nodes s) /\ (work s' < work s)%nat.

Lemma advances_staffed s s' : advances s s' -> staffed s -> calm_rel s s' /\ staffed s' /\ (work s' < work s)%nat.
Proof.
  intros (Hr & Hl & Hw) Hs. split_and!; [done| |done]. eapply staffed_kept; [exact Hr|exact Hs|].
  destruct Hs as [Hn _]. by destruct (nodes s), (nodes s').
Qed.

#[local] Arguments Cluster.job_of : simpl never.
#[local] Arguments Cluster.report_pipe : simpl never.
#[local] Arguments ack_pipe : simpl never.
#[local] Arguments batch_size : simpl never.

Lemma report_pipe_length t res : length (report_pipe t res) = 4%nat.
Proof. done. Qed.

Lemma report_next t res k cmd : report_pipe t res !! k = Some cmd -> (k < 4)%nat.
Proof. intros H%lookup_lt_Some. by rewrite report_pipe_length in H. Qed.

Lemma ack_pipe_length msg id : length (ack_pipe (stream_key c) (consumer_group c) msg id) = 3%nat.
Proof. done. Qed.

Lemma ack_next msg id k cmd :
  ack_pipe (stream_key c) (consumer_group c) msg id !! k = Some cmd -> (k < 3)%nat.
Proof. intros H%lookup_lt_Some. by rewrite ack_pipe_length in H. Qed.

(** The commands of a report and of a re-acknowledgement leave the stream alone. *)
Lemma report_undelivered sv t res k cmd :
  report_pipe t res !! k = Some cmd -> undelivered (exec cmd sv) = undelivered sv.
Proof.
  destruct k as [|k].
  - intros [= <-]. apply (set_stream sv).
  - rewrite report_pipe_tail. intros H. eapply (ack_pipe_stream c env) in H. by destruct H.
Qed.

Lemma permit_work x : node_work (free_permit x) = node_work x.
Proof. done. Qed.

Lemma take_permit_work x : node_work (take_permit x) = node_work x.
Proof. done. Qed.

(** *** A task that has not ended *)

Lemma end_work sv cs ns ts rs i t :
  ts !! i = Some t -> task_work t <> 0%nat ->
  (work (MkCluster sv cs (alter free_permit (t_node t) ns) (<[i := in_task_phase Ended t]> ts) rs)
   < work (MkCluster sv cs ns ts rs))%nat.
Proof.
  intros Ht Hw. unfold work. cbn -[Nat.mul]. rewrite (sum_alter_same node_work _ _ _ permit_work).
  pose proof (sum_insert task_work i ts t (in_task_phase Ended t) Ht) as E.
  change (task_work (in_task_phase Ended t)) with 0%nat in E. lia.
Qed.

(** The next attempt after a refused command, or the end. *)
Lemma again_work s i t res p :
  tasks s !! i = Some t -> t_phase t = Reporting res p -> refused p = true ->
  (work (report_again i t res p s) < work s)%nat.
Proof.
  destruct s as [sv cs ns ts rs]. cbn -[Nat.mul]. intros Ht Hp Hr. destruct (pipe_again p) as [p'|] eqn:Hag.
  - unfold work. cbn -[Nat.mul].
    pose proof (sum_insert task_work i ts t (in_task_phase (Reporting res p') t) Ht) as E.
    unfold task_work in E at 2 4. rewrite Hp in E. cbn [in_task_phase t_phase] in E. rewrite Hr in E.
    unfold pipe_again in Hag. case_decide; [|done]. injection Hag as <-. cbn in E. lia.
  - apply end_work; [done|]. unfold task_work. by rewrite Hp.
Qed.

Lemma task_advances s i t :
  tasks s !! i = Some t -> task_work t <> 0%nat -> exists s', advances s s'.
Proof.
  destruct s as [sv cs ns ts rs]. cbn. intros Ht Hw.
  destruct (t_phase t) as [|res p|] eqn:Hp; [..|by unfold task_work in Hw; rewrite Hp in Hw].
  - destruct (answered (t_req t)) as [a Ha]. eexists. split; [|split].
    + exists (PoolAnswer i a). split; [done|]. split; [|cbn; rewrite Ht; cbn; by rewrite Hp].
      intros t' Ht'. cbn in Ht'. by simplify_eq.
    + done.
    + unfold work. cbn.
      pose proof (sum_insert task_work i ts t (in_task_phase (Reporting (report_of (t_req t) a) pipe_new) t) Ht) as E.
      unfold task_work in E at 2 4. rewrite Hp in E. cbn in E. lia.
  - assert (Hs : forall s', step (Report i) (MkCluster sv cs ns ts rs) = Some s' ->
              calm_rel (MkCluster sv cs ns ts rs) s') by (intros s' H; by exists (Report i)).
    cbn -[report_again] in Hs. rewrite Ht in Hs. cbn -[report_again] in Hs. rewrite Hp in Hs.
    destruct (report_pipe t res !! sent p) as [cmd|] eqn:Hc; [|destruct (refused p) eqn:Hr];
      (eexists; split; [by apply Hs|split]).
    + done.
    + unfold work. cbn -[Nat.mul]. rewrite (report_undelivered _ _ _ _ _ Hc). apply report_next in Hc.
      pose proof (sum_insert task_work i ts t (in_task_phase (Reporting res (pipe_next true p)) t) Ht) as E.
      unfold task_work in E at 2 4. rewrite Hp in E. cbn [in_task_phase t_phase pipe_next sent refused negb] in E.
      rewrite orb_false_r in E. lia.
    + apply report_again_frame.
    + by eapply again_work.
    + cbn. by rewrite length_alter.
    + by apply end_work.
Qed.

(** *** A node that holds entries, when no task is running *)

Lemma idle_count n ts : sum_list_with task_work ts = 0%nat -> count (busy_on n) ts = 0.
Proof.
  induction ts as [|t ts IH]; [done|]. cbn. intros Ht. rewrite IH by lia.
  unfold busy_on, task_work in *. destruct (t_phase t); [lia..|done].
Qed.

Lemma idle_permits (s : State) n x :
  permits_ok c s -> sum_list_with task_work (tasks s) = 0%nat -> nodes s !! n = Some x -> permits x <> 0%nat.
Proof.
  intros Hok Ht Hx. destruct (Hok n x Hx) as [H _].
  pose proof (idle_count n _ Ht).
  unfold capacity in H. lia.
Qed.

(** A step of node [n] that adds [extra] to the work of the tasks and takes more than
    that from the node. *)
Lemma node_advances sv sv' cs ns ts ts' rs n x y extra :
  ns !! n = Some x ->
  calm_rel (MkCluster sv cs ns ts rs) (MkCluster sv' cs (<[n := y]> ns) ts' rs) ->
  undelivered sv' = undelivered sv ->
  sum_list_with task_work ts' = (sum_list_with task_work ts + extra)%nat ->
  (node_work y + extra < node_work x)%nat ->
  exists s', advances (MkCluster sv cs ns ts rs) s'.
Proof.
  intros Hn Hr Hu Ht Hw. eexists. split; [exact Hr|]. split; [cbn; by rewrite length_insert|].
  unfold work. cbn -[Nat.mul]. rewrite Hu, Ht. pose proof (sum_insert node_work n ns x y Hn). lia.
Qed.

Lemma spawned_work n msg r ts :
  sum_list_with task_work (ts ++ [Cluster.spawn n msg r]) = (sum_list_with task_work ts + 6)%nat.
Proof. by rewrite sum_list_with_app. Qed.

Lemma no_more_work ts : sum_list_with task_work ts = (sum_list_with task_work ts + 0)%nat.
Proof. lia. Qed.

Lemma next_in_sweep_work x : node_work (next_in_sweep x) = (7 * length (batch x) + 13 * length (tail (sweeping x)))%nat.
Proof. unfold node_work, sweep_work, next_in_sweep. cbn -[Nat.mul]. destruct (tail _); cbn; lia. Qed.

Lemma sweeping_work x e l :
  sweeping x = e :: l ->
  node_work x = (7 * length (batch x) + 13 * length l + sweep_phase_work (sweep_phase x))%nat.
Proof. intros E. unfold node_work, sweep_work. rewrite E. lia. Qed.

Lemma batch_advances s n x e b :
  nodes s !! n = Some x -> batch x = e :: b -> permits x <> 0%nat -> exists s', advances s s'.
Proof.
  destruct s as [sv cs ns ts rs]. cbn. intros Hn Hb Hp.
  assert (forall y, batch y = b -> sweep_work y = sweep_work x -> (node_work y + 6 < node_work x)%nat) as Hw.
  { intros y H1 H2. unfold node_work. rewrite Hb, H1, H2. cbn. lia. }
  destruct (job_of e) as [r|] eqn:Hj.
  - eapply (node_advances _ sv _ _ _ _ _ n x (next_in_batch (take_permit x)) 6); [exact Hn| |done|apply spawned_work|].
    + exists (Handle n). split; [done|]. split; [done|]. cbn. rewrite Hn. cbn. rewrite Hb. cbn. rewrite Hj.
      by rewrite decide_False.
    + apply Hw; [cbn; by rewrite Hb|done].
  - eapply (node_advances _ sv _ _ _ _ _ n x (next_in_batch x) 0); [exact Hn| |done|apply no_more_work|].
    + exists (Handle n). split; [done|]. split; [done|]. cbn. rewrite Hn. cbn. rewrite Hb. cbn. by rewrite Hj.
    + pose proof (Hw (next_in_batch x)) as H. cbn in H |- *. rewrite Hb in *. specialize (H eq_refl eq_refl). lia.
Qed.

(** The step of the sweep about its first entry. *)
Lemma sweep_advances s n x e l :
  nodes s !! n = Some x -> sweeping x = e :: l -> permits x <> 0%nat -> exists s', advances s s'.
Proof.
  destruct s as [sv cs ns ts rs]. cbn. intros Hn Hl Hp. pose proof (sweeping_work x e l Hl) as Hx.
  assert (Hs : forall s', step (SweepStep n) (MkCluster sv cs ns ts rs) = Some s' ->
            calm_rel (MkCluster sv cs ns ts rs) s') by (intros s' H; by exists (SweepStep n)).
  cbn in Hs. rewrite Hn in Hs. cbn in Hs. rewrite Hl in Hs. cbn in Hs.
  assert (Hnext : (node_work (next_in_sweep x) + 0 < node_work x)%nat).
  { rewrite next_in_sweep_work, Hx, Hl. cbn [tail]. destruct (sweep_phase x); cbn [sweep_phase_work]; lia. }
  destruct (job_of e) as [r|] eqn:Hj.
  2: { eapply node_advances; [exact Hn|by apply Hs|apply ack_undelivered|apply no_more_work|exact Hnext]. }
  destruct (sweep_phase x) as [|id p|] eqn:Hph.
  - eapply node_advances; [exact Hn|by apply Hs|done|apply no_more_work|].
    erewrite (sweeping_work (in_sweep_phase _ x)) by exact Hl. rewrite Hx. cbn -[Nat.mul].
    destruct (value _ _); cbn; lia.
  - destruct (ack_pipe (stream_key c) (consumer_group c) (fst e) id !! sent p) as [cmd|] eqn:Hc;
      [|destruct (refused p) eqn:Hr].
    + eapply node_advances; [exact Hn|by apply Hs| |apply no_more_work|].
      * by destruct (ack_pipe_stream c env sv _ _ _ _ Hc) as [-> _].
      * apply ack_next in Hc. erewrite (sweeping_work (in_sweep_phase _ x)) by exact Hl. rewrite Hx.
        cbn [in_sweep_phase batch sweep_phase sweep_phase_work pipe_next sent refused negb].
        rewrite orb_false_r. lia.
    + eapply node_advances; [exact Hn|by apply Hs|done|apply no_more_work|].
      unfold acking_again, pipe_again. case_decide; [|exact Hnext].
      erewrite (sweeping_work (in_sweep_phase _ x)) by exact Hl. rewrite Hx.
      cbn [in_sweep_phase batch sweep_phase sweep_phase_work sent refused]. rewrite Hr. lia.
    + eapply node_advances; [exact Hn|by apply Hs|done|apply no_more_work|exact Hnext].
  - rewrite decide_False in Hs by done.
    eapply node_advances; [exact Hn|by apply Hs|done|apply spawned_work|].
    rewrite next_in_sweep_work, Hx. cbn [take_permit batch sweeping sweep_phase_work]. rewrite Hl. cbn [tail]. lia.
Qed.

(** *** Entries that nobody fetched yet *)

Lemma fetch_advances s n x :
  grouped (server s) = true -> nodes s !! n = Some x -> batch x = [] -> undelivered (server s) <> [] -> exists s', advances s s'.
Proof.
  destruct s as [sv cs ns ts rs]. cbn. intros Hg Hn Hb Hu. eexists. split; [|split].
  - exists (Fetch n false). split; [done|]. split; [done|]. cbn. rewrite Hn. cbn. by rewrite Hb, Hg.
  - cbn. by rewrite length_insert.
  - unfold work. cbn. rewrite read_undelivered, length_drop.
    pose proof (batch_size_bounds c (Z.of_nat (permits x))) as Hk.
    set (k := Z.to_nat (batch_size c (Z.of_nat (permits x)))) in *.
    assert (1 <= k)%nat by lia.
    assert (0 < length (undelivered sv))%nat by (destruct (undelivered sv); [done|cbn; lia]).
    pose proof (sum_insert node_work n ns x
      (MkNode (permits x) (take k (undelivered sv)) (sweeping x) (sweep_phase x)) Hn) as E.
    unfold node_work in E at 2 4. cbn [batch] in E. rewrite Hb, length_take in E.
    unfold sweep_work in E. cbn [sweeping sweep_phase length] in E. lia.
Qed.

(** As long as work is left, a calm step does some of it. *)
Lemma work_advances s : staffed s -> work s <> 0%nat -> exists s', calm_rel s s' /\ staffed s' /\ (work s' < work s)%nat.
Proof.
  intros Hs Hw. assert (exists s', advances s s') as [s' Ha]; [|exists s'; by apply advances_staffed].
  destruct Hs as (Hne & Hg & Hok). unfold work in Hw.
  destruct (decide (sum_list_with task_work (tasks s) = 0%nat)) as [Ht|Ht].
  2: { destruct (sum_positive _ _ Ht) as (i & t & Hi & Hf). by eapply task_advances. }
  destruct (decide (sum_list_with node_work (nodes s) = 0%nat)) as [Hn|Hn].
  - destruct (nodes s) as [|x ns] eqn:Hns; [done|].
    eapply (fetch_advances s 0 x); [exact Hg|by rewrite Hns| |intros Hu; by rewrite Ht, Hn, Hu in Hw].
    pose proof (sum_zero node_work (x :: ns) 0 x Hn eq_refl) as E. unfold node_work in E.
    destruct (batch x); [done|cbn in E; lia].
  - destruct (sum_positive _ _ Hn) as (n & x & Hx & Hf). pose proof (idle_permits s n x Hok Ht Hx) as Hp.
    unfold node_work in Hf. destruct (batch x) as [|e b] eqn:Hb; [|by eapply batch_advances].
    unfold sweep_work in Hf. destruct (sweeping x) as [|e l] eqn:Hl; [cbn in Hf; lia|]. by eapply sweep_advances.
Qed.

Lemma work_drains s : staffed s -> exists s', rtc calm_rel s s' /\ staffed s' /\ work s' = 0%nat.
Proof. apply progress_drains. exact work_advances. Qed.
(* ------------------------------------------------------------------ *)
(** ** Reclaiming what was left pending *)

Definition leads (P : State -> Prop) (s : State) : Prop := exists s', rtc calm_rel s s' /\ P s'.

Lemma leads_step P s s' : calm_rel s s' -> leads P s' -> leads P s.
Proof. intros Hs (s1 & Hr & Hp). exists s1. split; [by eapply rtc_l|done]. Qed.

Lemma leads_label P l s s' :
  calm l = true -> admissible answers l s -> step l s = Some s' -> leads P s' -> leads P s.
Proof. intros ? ? ?. apply leads_step. by exists l. Qed.

(** Nothing is queued, and of the pending entries [l] those of message [m] are gone. *)
Definition removed (m : string) (l : list Entry) (s : State) : Prop :=
  undelivered (server s) = [] /\ pending (server s) = filter (fun e => fst e <> m) l.

Lemma leads_now P s : P s -> leads P s.
Proof. intros Hp. by exists s. Qed.

Lemma acked_removed m sv cs ns ts rs :
  undelivered sv = [] -> removed m (pending sv) (MkCluster (exec (xack c m) sv) cs ns ts rs).
Proof. intros Hu. split; cbn [server]; [by rewrite ack_undelivered|apply ack_pending]. Qed.

(** The [DEL] and [XACK] of a re-acknowledgement. *)
Lemma acking_leads n x e l r id p sv cs ns ts rs :
  ns !! n = Some x -> sweeping x = e :: l -> job_of e = Some r -> sweep_phase x = Acking id p -> (sent p < 2)%nat ->
  undelivered sv = [] -> leads (removed (fst e) (pending sv)) (MkCluster sv cs ns ts rs).
Proof.
  intros Hn Hl Hj Hp Hk Hu. assert (sent p = 1%nat \/ sent p = 0%nat) as Hk' by lia. clear Hk.
  revert x p sv ns Hn Hl Hp Hu Hk'.
  assert (H1 : forall x p sv ns, ns !! n = Some x -> sweeping x = e :: l -> sweep_phase x = Acking id p ->
            sent p = 1%nat -> undelivered sv = [] -> leads (removed (fst e) (pending sv)) (MkCluster sv cs ns ts rs)).
  { intros x p sv ns Hn Hl Hp H1 Hu. eapply (leads_label _ (SweepStep n)); [done|done|..].
    - cbn. rewrite Hn. cbn. rewrite Hl. cbn. rewrite Hj, Hp, H1. reflexivity.
    - by apply leads_now, acked_removed. }
  intros x p sv ns Hn Hl Hp Hu [H0|H0]; [by eapply H1|].
  destruct (del_stream sv (pending_key id)) as [D1 D2 _ _].
  eapply (leads_label _ (SweepStep n)); [done|done|..].
  - cbn. rewrite Hn. cbn. rewrite Hl. cbn. rewrite Hj, Hp, H0. reflexivity.
  - rewrite <- D2. eapply H1; [by apply list_lookup_insert_eq; eapply lookup_lt_Some| | | |by rewrite D1];
      [done|done|cbn; by rewrite H0].
Qed.

(** The [SET], [DEL] and [XACK] of a report. *)
Lemma reporting_leads i t res p sv cs ns ts rs :
  ts !! i = Some t -> t_phase t = Reporting res p -> (sent p < 3)%nat ->
  undelivered sv = [] -> leads (removed (t_msg t) (pending sv)) (MkCluster sv cs ns ts rs).
Proof.
  intros Ht Hp Hk Hu. remember (2 - sent p)%nat as d eqn:Hd. revert t p sv ts rs Ht Hp Hk Hu Hd.
  induction d as [|d IH]; intros t p sv ts rs Ht Hp Hk Hu Hd.
  - assert (sent p = 2%nat) as H2 by lia. eapply (leads_label _ (Report i)); [done|done|..].
    + cbn. rewrite Ht. cbn. rewrite Hp, H2. reflexivity.
    + by apply leads_now, acked_removed.
  - destruct (report_pipe t res !! sent p) as [cmd|] eqn:Hc.
    2: { apply lookup_ge_None in Hc. rewrite report_pipe_length in Hc. lia. }
    assert (pending (exec cmd sv) = pending sv) as E.
    { destruct (sent p) as [|[|[|k]]]; [| |lia..].
      - injection Hc as <-. apply (set_stream sv).
      - injection Hc as <-. apply (del_stream sv). }
    eapply (leads_label _ (Report i)); [done|done|..].
    + cbn. rewrite Ht. cbn. rewrite Hp, Hc. reflexivity.
    + rewrite <- E. change (t_msg t) with (t_msg (in_task_phase (Reporting res (pipe_next true p)) t)).
      eapply IH; [by apply list_lookup_insert_eq; eapply lookup_lt_Some|done|cbn; lia| |cbn; lia].
      by rewrite (report_undelivered _ _ _ _ _ Hc).
Qed.

(** A claimed entry is settled: re-acknowledged, run and reported, or discarded. *)
Lemma claimed_leads n x e l sv cs ns ts rs :
  ns !! n = Some x -> sweeping x = e :: l -> sweep_phase x = Asking -> permits x <> 0%nat ->
  undelivered sv = [] -> leads (removed (fst e) (pending sv)) (MkCluster sv cs ns ts rs).
Proof.
  intros Hn Hl Hp Hf Hu. pose proof (lookup_lt_Some _ _ _ Hn) as Hlt.
  assert (Hs : forall s' P, step (SweepStep n) (MkCluster sv cs ns ts rs) = Some s' -> leads P s' ->
            leads P (MkCluster sv cs ns ts rs)) by (intros s' P H; by apply (leads_label P (SweepStep n))).
  cbn in Hs. rewrite Hn in Hs. cbn in Hs. rewrite Hl in Hs. cbn in Hs. rewrite Hp in Hs.
  destruct (job_of e) as [r|] eqn:Hj; (eapply Hs; [reflexivity|]); clear Hs.
  2: { by apply leads_now, acked_removed. }
  destruct (value sv (result_key (job_id r))) as [v|].
  { eapply acking_leads; [by apply list_lookup_insert_eq|exact Hl|exact Hj|done|cbn; lia|done]. }
  eapply (leads_label _ (SweepStep n)); [done|done|..].
  { cbn. rewrite list_lookup_insert_eq by done. cbn. rewrite Hl. cbn. rewrite Hj, decide_False by done. reflexivity. }
  destruct (answered r) as [a Ha].
  assert ((ts ++ [Cluster.spawn n (fst e) r]) !! length ts = Some (Cluster.spawn n (fst e) r)) as Ht.
  { by apply list_lookup_middle. }
  eapply (leads_label _ (PoolAnswer (length ts) a)); [done| |..].
  - intros t. cbn. rewrite Ht. by intros [= <-].
  - cbn. rewrite Ht. reflexivity.
  - change (fst e) with (t_msg (in_task_phase (Reporting (report_of r a) pipe_new) (Cluster.spawn n (fst e) r))).
    eapply reporting_leads; [by apply list_lookup_insert_eq; eapply lookup_lt_Some|done|cbn; lia|done].
Qed.
(* ------------------------------------------------------------------ *)
(** ** Draining *)

(** What calm steps keep: the nodes, the calls, that nothing is refused, and - once
    everything is fetched - that nothing is added to the stream or to the pending list. *)
Definition kept (s s' : State) : Prop :=
  length (nodes s') = length (nodes s) /\ calls s' = calls s /\
  (forall id, refused_for s' id -> refused_for s id) /\
  (undelivered (server s) = [] -> undelivered (server s') = [] /\
   (length (pending (server s')) <= length (pending (server s)))%nat).

Lemma kept_stream sv sv' cs ns ns' ts ts' rs rs' :
  length ns' = length ns -> (forall res, (res, false) ∈ rs' -> (res, false) ∈ rs) ->
  (undelivered sv = [] -> undelivered sv' = [] /\ (length (pending sv') <= length (pending sv))%nat) ->
  kept (MkCluster sv cs ns ts rs) (MkCluster sv' cs ns' ts' rs').
Proof. intros Hn Hr Hs. split_and!; [done|done| |done]. intros id (res & ? & ?). exists res. by split; [apply Hr|]. Qed.

Lemma executed_log rs cmd res r : (r, false) ∈ rs ++ log_report cmd res true -> (r, false) ∈ rs.
Proof.
  unfold log_report. intros [?|H]%elem_of_app; [done|]. case_decide; [|by apply elem_of_nil in H].
  by apply list_elem_of_singleton in H.
Qed.

Lemma kept_again i t res p s : kept s (report_again i t res p s).
Proof.
  destruct (report_again_frame i t res p s) as (Hn & Hs & Hc & Hr). unfold kept, refused_for.
  rewrite Hn, Hs, Hc, Hr. by split_and!.
Qed.

Lemma less_same sv sv' :
  same_stream sv sv' ->
  undelivered sv = [] -> undelivered sv' = [] /\ (length (pending sv') <= length (pending sv))%nat.
Proof. intros [-> -> _ _]. by split. Qed.

Lemma less_ack sv m :
  undelivered sv = [] ->
  undelivered (exec (xack c m) sv) = [] /\ (length (pending (exec (xack c m) sv)) <= length (pending sv))%nat.
Proof. rewrite ack_undelivered, ack_pending. split; [done|]. apply length_filter. Qed.

Lemma less_ack_pipe sv msg id k cmd :
  ack_pipe (stream_key c) (consumer_group c) msg id !! k = Some cmd -> undelivered sv = [] ->
  undelivered (exec cmd sv) = [] /\ (length (pending (exec cmd sv)) <= length (pending sv))%nat.
Proof.
  destruct k as [|[|[|k]]]; [| | |done]; intros [= <-].
  - apply less_same, del_stream.
  - apply less_ack.
  - apply less_same, publish_stream.
Qed.

Lemma less_report sv t res k cmd :
  report_pipe t res !! k = Some cmd -> undelivered sv = [] ->
  undelivered (exec cmd sv) = [] /\ (length (pending (exec cmd sv)) <= length (pending sv))%nat.
Proof.
  destruct k as [|k]; [intros [= <-]; apply less_same, set_stream|]. rewrite report_pipe_tail.
  apply less_ack_pipe.
Qed.

Lemma calm_kept s s' : calm_rel s s' -> kept s s'.
Proof.
  intros (l & Hl & _ & Hs). destruct s as [sv cs ns ts rs].
  assert (Hin : forall n y, length (<[n := y]> ns) = length ns) by (intros; apply length_insert).
  destruct l as [| | |n [|]|n|n idle cur got|n|n|i a|i|i|n|k|n| |i|n|i]; try done; cbn -[report_again] in Hs.
  - destruct (ns !! n) as [x|]; [|done]. cbn in Hs. destruct (batch x); [|done]. destruct (grouped sv); [|done]. cbn in Hs. simplify_eq.
    apply kept_stream; [apply Hin|done|]. intros Hu. rewrite read_undelivered, read_pending, Hu, drop_nil, take_nil, app_nil_r.
    by split.
  - destruct (ns !! n) as [x|]; [|done]. cbn in Hs. destruct (head (batch x)) as [e|]; [|done]. cbn in Hs.
    destruct (job_of e); [case_decide; [done|]|]; simplify_eq; by apply kept_stream.
  - destruct (ns !! n) as [x|]; [|done]. cbn in Hs. destruct (sweeping x); [|done]. case_decide; [|done]. simplify_eq.
    apply kept_stream; [apply Hin|done|]. apply less_same, claim_stream.
  - destruct (ns !! n) as [x|]; [|done]. cbn in Hs. destruct (head (sweeping x)) as [e|]; [|done]. cbn in Hs.
    destruct (job_of e); [|simplify_eq; apply kept_stream; [apply Hin|done|apply less_ack]].
    destruct (sweep_phase x) as [|id p|].
    + simplify_eq. by apply kept_stream.
    + destruct (_ !! sent p) as [cmd|] eqn:Hc; simplify_eq; (apply kept_stream; [apply Hin|done|]);
        [by eapply less_ack_pipe|done].
    + case_decide; [done|]. simplify_eq. by apply kept_stream.
  - destruct (ts !! i) as [t|]; [|done]. cbn in Hs. destruct (t_phase t); try done. simplify_eq. by apply kept_stream.
  - destruct (ts !! i) as [t|]; [|done]. cbn -[report_again] in Hs. destruct (t_phase t) as [|res p|]; try done.
    destruct (report_pipe t res !! sent p) as [cmd|] eqn:Hc; [|destruct (refused p)]; simplify_eq.
    + apply kept_stream; [done|intros r; apply executed_log|by eapply less_report].
    + apply kept_again.
    + apply kept_stream; [by rewrite length_alter|done|done].
Qed.

Lemma runs_kept s s' : rtc calm_rel s s' -> kept s s'.
Proof.
  induction 1 as [s|s s1 s' Hs _ (H1 & H2 & H4 & H3)]; [by split_and!|].
  apply calm_kept in Hs as (K1 & K2 & K4 & K3). split_and!; [congruence|congruence|by auto|].
  intros Hu. destruct (K3 Hu) as [Hu1 Hp1]. destruct (H3 Hu1). split; [done|lia].
Qed.

Lemma runs_staffed s s' : rtc calm_rel s s' -> staffed s -> staffed s'.
Proof.
  induction 1 as [s|s s1 s' Hs _ IH]; [done|]. intros Hst. apply IH.
  eapply staffed_kept; [exact Hs|exact Hst|]. destruct Hst as [Hn _]. apply calm_kept in Hs as [Hl _].
  by destruct (nodes s), (nodes s1).
Qed.

Lemma idle_undelivered s : work s = 0%nat -> undelivered (server s) = [].
Proof. unfold work. destruct (undelivered (server s)); [done|cbn; lia]. Qed.

Lemma idle_tasks s : work s = 0%nat -> sum_list_with task_work (tasks s) = 0%nat.
Proof. unfold work. lia. Qed.

Lemma idle_node s n x : work s = 0%nat -> nodes s !! n = Some x -> batch x = [] /\ sweeping x = [].
Proof.
  intros Hw Hx. assert (sum_list_with node_work (nodes s) = 0%nat) as Hs by (unfold work in Hw; lia).
  pose proof (sum_zero _ _ _ _ Hs Hx) as E. unfold node_work, sweep_work in E.
  destruct (batch x); [|cbn in E; lia]. split; [done|].
  destruct (sweeping x); [done|]. destruct (sweep_phase x); cbn in E; lia.
Qed.

(** An idle cluster with pending entries reclaims one of them. *)
Lemma reclaims s :
  staffed s -> work s = 0%nat -> pending (server s) <> [] ->
  exists s', rtc calm_rel s s' /\ staffed s' /\ work s' = 0%nat /\
             (length (pending (server s')) < length (pending (server s)))%nat.
Proof.
  intros Hst Hw Hp. pose proof Hst as (Hn & _ & Hok). pose proof (idle_undelivered s Hw) as Hu.
  destruct s as [sv cs ns ts rs]. cbn in Hp, Hn, Hu. destruct ns as [|x ns]; [done|].
  destruct (pending sv) as [|e l] eqn:Hpe; [done|].
  pose proof (idle_permits _ 0 x Hok (idle_tasks _ Hw) eq_refl) as Hf. cbn in Hf.
  destruct (idle_node _ 0 x Hw eq_refl) as [_ Hx].
  set (s1 := MkCluster (exec (xautoclaim c 0 "0-0") sv) cs
               (MkNode (permits x) (batch x) [e] Asking :: ns) ts rs).
  assert (Hs1 : calm_rel (MkCluster sv cs (x :: ns) ts rs) s1).
  { exists (Sweep 0 0 "0-0" [e]). split; [done|]. split; [done|]. cbn. rewrite Hx. rewrite decide_True; [done|].
    rewrite Hpe. constructor; [by left|done]. }
  destruct (claim_stream sv 0 "0-0") as [C1 C2 _ _].
  destruct (claimed_leads 0 _ e [] (exec (xautoclaim c 0 "0-0") sv) cs _ ts rs
              (eq_refl : (MkNode (permits x) (batch x) [e] Asking :: ns) !! 0%nat = _) eq_refl eq_refl Hf)
    as (s2 & Hr2 & Hu2 & Hp2); [by rewrite C1|].
  assert (rtc calm_rel (MkCluster sv cs (x :: ns) ts rs) s2) as Hr by (by eapply rtc_l).
  destruct (work_drains s2) as (s3 & Hr3 & Hst3 & Hw3); [by eapply runs_staffed|].
  exists s3. split_and!; [by etransitivity|done|done|].
  destruct (runs_kept s2 s3 Hr3) as (_ & _ & _ & K). destruct (K Hu2) as [_ Hle].
  rewrite Hp2, C2, Hpe in Hle. cbn [server]. rewrite Hpe.
  eapply Nat.le_lt_trans; [exact Hle|]. apply (length_filter_lt _ _ e); [by left|]. by intros H.
Qed.

(** A cluster in which nothing fails any more settles everything it was given. *)
Lemma settles s :
  staffed s -> exists s', rtc calm_rel s s' /\ work s' = 0%nat /\ pending (server s') = [].
Proof.
  intros Hs. destruct (work_drains s Hs) as (s1 & Hr1 & Hs1 & Hw1).
  destruct (progress_drains (rtc calm_rel) (fun s => staffed s /\ work s = 0%nat)
              (fun s => length (pending (server s)))) with (s := s1) as (s2 & Hr2 & [_ Hw2] & Hp2).
  - intros s' [Hs' Hw'] Hp. destruct (reclaims s' Hs' Hw') as (s'' & ? & ? & ? & ?); [by destruct (pending _)|].
    by exists s''.
  - done.
  - exists s2. split_and!; [|done|by apply nil_length_inv].
    etransitivity; [exact Hr1|]. clear -Hr2. induction Hr2; [done|]. by etransitivity.
Qed.
Lemma calm_untrimmed s s' :
  calm_rel s s' -> untrimmed_rel encode_request decode_request encode_result c env answers s s'.
Proof. intros (l & Hl & Ha & Hs). exists l. split; [by destruct l|done]. Qed.

Lemma reached_staffed s s' :
  rtc (untrimmed_rel encode_request decode_request encode_result c env answers) s s' -> staffed s -> staffed s'.
Proof.
  intros Hr Hs. eapply invariant_reachable; [|exact Hs|exact Hr]. clear s s' Hr Hs.
  intros s1 s2 (Hn & Hg & Hp) (l & _ & Ha & Hs). split; [|split].
  - apply step_nodes in Hs. by destruct (nodes s1), (nodes s2).
  - by eapply step_grouped.
  - eapply (permits_invariant encode_request decode_request encode_result c env answers); [exact Hp|by exists l].
Qed.

Definition node_idle (x : Node) : Prop :=
  batch x = [] /\ sweeping x = [] /\ Z.of_nat (permits x) = capacity c.

Lemma idle_nodes s : permits_ok c s -> work s = 0%nat -> Forall node_idle (nodes s).
Proof.
  intros Hok Hw. apply Forall_forall. intros x [n Hx]%list_elem_of_lookup_1.
  destruct (idle_node s n x Hw Hx) as [H1 H2]. split_and!; [done|done|].
  destruct (Hok n x Hx) as [E _].
  assert (count (busy_on n) (tasks s) = 0) as Hc.
  { apply idle_count, idle_tasks, Hw. }
  unfold capacity in *. lia.
Qed.

(* ------------------------------------------------------------------ *)
(** ** Properties *)

(** C8. Every queued job can be brought to a result.  From every state the cluster can
    reach - whatever connections failed, commands were refused, nodes crashed, keys
    expired or callers gave up, as long as Redis kept its data (no restart, no trimming
    of the stream) - the worker nodes alone, without another failure, can reach a state where the stream and the pending
    list are empty, every task has ended, every node has all its permits back, and each
    job that a gateway was told [Queued] for has had a result stored under its id -
    unless Redis had answered the [SET] of a result for it with an error before.  There
    must be a node, the group must exist from the start, and the pools must answer. *)
Theorem queue_settles sv k s :
  blank sv -> grouped sv = true -> (0 < k)%nat ->
  rtc (untrimmed_rel encode_request decode_request encode_result c env answers) (cluster_init c sv k) s ->
  exists s', rtc calm_rel s s' /\ undelivered (server s') = [] /\ pending (server s') = [] /\
    Forall (fun t => t_phase t = Ended) (tasks s') /\ Forall node_idle (nodes s') /\
    forall i x m, calls s !! i = Some x -> c_phase x = Answered Queued (Some m) ->
                  refused_for s (job_id (c_req x)) \/ stored_for s' (job_id (c_req x)).
Proof.
  intros Hb Hg Hk Hr.
  assert (staffed (cluster_init c sv k)) as Hi by (split_and!; [by destruct k; [lia|]|exact Hg|apply permits_init]).
  assert (staffed s /\ delivers encode_request s) as [Hs Hd].
  { split; [by eapply reached_staffed|].
    eapply invariant_reachable; [intros s1 s2; by apply delivers_step|by apply delivers_init|exact Hr]. }
  destruct (settles s Hs) as (s' & Hrun & Hw & Hp). exists s'.
  assert (delivers encode_request s') as Hd'.
  { eapply invariant_reachable; [intros s1 s2 H1 H2%calm_untrimmed; by eapply delivers_step|exact Hd|exact Hrun]. }
  pose proof (idle_undelivered s' Hw) as Hu. split_and!; [done|done|done|..].
  - apply Forall_forall. intros t [i Ht]%list_elem_of_lookup_1.
    pose proof (sum_zero _ _ _ _ (idle_tasks s' Hw) Ht) as E. unfold task_work in E. by destruct (t_phase t).
  - apply idle_nodes; [|exact Hw]. by apply (runs_staffed s s').
  - intros i x m Hx Hq. destruct (runs_kept s s' Hrun) as (_ & Hc & Href & _). rewrite <- Hc in Hx.
    destruct (Forall_lookup_1 _ _ _ _ (dl_calls _ _ Hd') Hx) as [_ Hok].
    destruct (Hok m Hq) as (j & _ & _ & [Hin|Hin]).
    2: { apply (ids_logged s') in Hin as [?|?]; [by right|left; by apply Href]. }
    unfold in_stream in Hin. rewrite Hu, Hp in Hin. by destruct Hin as [H%elem_of_nil|H%elem_of_nil].
Qed.
End Recovery.

(* ------------------------------------------------------------------ *)
(** ** Witness: the entry of [stranded], whose fetch was lost *)

Lemma demo_answered r : exists a, demo_answers r a.
Proof. by exists (Err "no"). Qed.

Lemma queue_settles_witness :
  exists s', undelivered (server s') = [] /\ pending (server s') = [] /\ stored_for s' "j7".
Proof.
  destruct (queue_settles demo_encode demo_decode demo_json demo_consumer demo_env demo_answers demo_answered
    empty_server 1 stranded blank_empty eq_refl (le_n 1) (untrimmed_run stranded_run _ eq_refl))
    as (s' & _ & Hu & Hp & _ & _ & Hq).
  exists s'. split; [exact Hu|]. split; [exact Hp|].
  destruct (Hq 0%nat (MkCall demo_job (Answered Queued (Some (demo_next empty_server)))) (demo_next empty_server))
    as [(res & Hr & _)|Hs].
  - vm_compute. reflexivity.
  - reflexivity.
  - assert (reported stranded = []) as E by (vm_compute; reflexivity). rewrite E in Hr.
    by apply elem_of_nil in Hr.
  - exact Hs.
Defined.
