(* ===== verification/EndToEnd.v ===== *)
(** * End to end

    The cluster of [Cluster] with the worker pool and the execution pipeline of [Pool]
    and [Pipeline] behind it: what an [Accepted] result that a client reads from Redis
    means for the program that was submitted. *)

From S2P Require Import Prelude Config Admission Languages Job Metrics Pipeline Broker Consumer Handlers Pool Cluster Service.

Open Scope string_scope.
Open Scope list_scope.

Section EndToEnd.
Context (env : Env).
(** [sandboxed r sandbox]: the sandbox may behave like [sandbox] while [r] is judged. *)
Context (sandboxed : JobRequest -> (option nat -> SandboxConfig -> result string ExecutionResult) -> Prop).

(** What the pool answers: one of its own errors, or what the pipeline makes of the
    prepared request. *)
Inductive judges (r : JobRequest) : result string JobResult -> Prop :=
  | Refused : judges r queue_full
  | Closed : judges r submit_failed
  | Abandoned : judges r connection_lost
  | Judged uuid sandbox temp_dir write_error workspace cpus sched progress w :
      sandboxed (Pool.prepare env uuid r) sandbox ->
      judges r (snd (execute env sandbox temp_dir write_error workspace cpus sched progress
                       (Pool.prepare env uuid r) w)).

Lemma prepare_id uuid r : job_id r <> "" -> job_id (Pool.prepare env uuid r) = job_id r.
Proof.
  intros Hn. cbn. destruct (is_empty (job_id r)) eqn:E; [|done]. unfold is_empty in E.
  by destruct (job_id r).
Qed.

(** The job id is carried through the pipeline. *)
Lemma execute_job_id sandbox temp_dir write_error workspace cpus sched progress request w res :
  snd (execute env sandbox temp_dir write_error workspace cpus sched progress request w) = Ok res ->
  res_job_id res = job_id request.
Proof.
  rewrite execute_front. intros H.
  assert (match snd (front env sandbox temp_dir write_error progress request w) with
          | Failed _ => True
          | NotCompiled r => res_job_id r = job_id request
          | Pipeline.Start _ _ base => res_job_id base = job_id request end) as Hf.
  { unfold front, compile_phase. repeat (case_match; simplify_eq/=; try done). }
  pose proof (front_spec env sandbox temp_dir write_error progress request w) as [_ Hs].
  destruct (front _ _ _ _ _ _ _) as [w1 [e|r|runner dir base]]; cbn in H, Hf, Hs; [done|by simplify_eq|].
  destruct Hs as (Hb & _).
  pose proof (run_tests_spec env sandbox workspace progress cpus sched runner dir request base w1 Hb) as R.
  cbn zeta in R. destruct (run_tests _ _ _ _ _ _ _ _ _ _ _) as [w2 [r|e]]; [|done].
  cbn in H. injection H as ->. by destruct R as (p & q & _ & _ & _ & -> & _).
Qed.

(** The pipeline keeps the promise the cluster relies on. *)
#[export] Instance judges_answer : PoolAnswers judges.
Proof.
  intros r res Hn Ha. inversion Ha as [| | |uuid sb td we ws cp sc pr w _ E]. 
  by rewrite (execute_job_id _ _ _ _ _ _ _ _ _ _ E), prepare_id.
Qed.

(** The request compiled and passed every one of its test cases in the sandbox. *)
Definition passed (r : JobRequest) : Prop :=
  exists sandbox dir lang, sandboxed r sandbox /\ from_str (req_language r) = Some lang /\
    compiles env sandbox (get_runner lang) dir /\
    forall i tc, test_cases r !! i = Some tc ->
      exists er, test_ran env sandbox r (get_runner lang) dir i tc er /\ judged r tc er = Accepted.

Lemma report_accepted r res :
  is_report judges r res -> verdict res = Accepted -> exists uuid, passed (Pool.prepare env uuid r).
Proof.
  intros (a & Ha & ->) Hv. destruct Ha as [| | |uuid sb td we ws cp sc pr w Hsb]; [done..|].
  destruct (execute _ _ _ _ _ _ _ _ _ _) as [w' [res|e]] eqn:E; [|done]. cbn in Hv.
  destruct (accepted_passes _ _ _ _ _ _ _ _ _ _ _ _ E Hv) as (lang & dir & Hl & _ & Hc & Ht).
  exists uuid, sb, dir, lang. by split_and!.
Qed.
End EndToEnd.

(** serde reads back the results it wrote; the empty text is not JSON. *)
Class ResultCodec (encode : JobResult -> option string) (decode : string -> option JobResult) : Prop := {
  result_decode r j : encode r = Some j -> decode j = Some r;
  result_empty : decode "" = None
}.

Section Judging.
Context {Srv : Type} `{HS : RedisServer Srv}.
Context (encode_request : JobRequest -> option string) (decode_request : string -> option JobRequest).
Context (encode_result : JobResult -> option string) (decode_result : string -> option JobResult).
Context (c : RedisConsumer) (env : Env).
Context (sandboxed : JobRequest -> (option nat -> SandboxConfig -> result string ExecutionResult) -> Prop).
Context `{!RedisLaws Srv c env, !Codec encode_request decode_request, !ResultCodec encode_result decode_result}.

Lemma decode_json r res : decode_result (json_of encode_result r) = Some res -> res = r.
Proof.
  unfold json_of. destruct (encode_result r) as [j|] eqn:E; [|by rewrite result_empty].
  rewrite (result_decode _ _ E). congruence.
Qed.

(** An accepted job earned it, across the whole cluster.  If a client ever reads an
    [Accepted] result under an id, then some gateway was given a request with that id
    whose program - with the memory limit clamped by the worker - compiled and passed
    every one of its test cases in the sandbox of a worker's execution: through
    enqueueing, the stream, fetching or reclaiming, the worker pool, the concurrent
    execution of the test cases, reporting and retries, in any interleaving and with
    any failures. *)
Theorem accepted_is_earned sv k s id j res :
  blank sv ->
  rtc (cluster_rel encode_request decode_request encode_result c env (judges env sandboxed))
      (cluster_init c sv k) s ->
  value (server s) (result_key id) = Some j -> decode_result j = Some res -> verdict res = Accepted ->
  exists r uuid, r ∈ map c_req (calls s) /\ job_id r = id /\
                 passed env sandboxed (Pool.prepare env uuid r).
Proof.
  intros Hb Hr Hv Hj Hacc.
  destruct (run_matches encode_request decode_request encode_result c env (judges env sandboxed) _ s _
              (simulates_init encode_request encode_result c (judges env sandboxed) sv k Hb) Hr)
    as (a & Ha & [Hobs Hasked _ _ _ _]).
  pose proof (run_honest _ _ Ha) as Hh.
  rewrite Hobs in Hv. destruct (settled a !! id) as [res'|] eqn:Hs; [|done]. cbn in Hv.
  injection Hv as <-. apply decode_json in Hj as ->.
  destruct (Hh id res' Hs) as (r & Hin & Hid & Hrep).
  destruct (report_accepted env sandboxed r res' Hrep Hacc) as [uuid Hp].
  exists r, uuid. split; [by apply Hasked|]. by split.
Qed.
End Judging.

(* ------------------------------------------------------------------ *)
(** ** Witness: the job of [one_job], judged by the pipeline *)

(** Every program compiles, uses one kilobyte and prints nothing. *)
Definition frugal (o : option nat) (cfg : SandboxConfig) : result string ExecutionResult :=
  Ok (MkExec StOk 0 5 9 1 [] []).

Definition as_demo (r : JobRequest) (sandbox : option nat -> SandboxConfig -> result string ExecutionResult) : Prop :=
  sandbox = frugal.

Definition earned : JobResult := MkResult "j7" Accepted 10 1 None [MkTestResult 0 Accepted 5 1 [] []].

Lemma earned_judged : judges demo_env as_demo demo_job (Ok earned).
Proof.
  assert (snd (execute demo_env frugal (Ok "/tmp/x") None (DirNode []) (Some 2%positive) youngest false
                 (Pool.prepare demo_env "u" demo_job) demo_world) = Ok earned) as <- by (vm_compute; reflexivity).
  by apply Judged.
Qed.

Definition earned_json (r : JobResult) : option string := if decide (r = earned) then Some "res" else None.
Definition earned_parse (j : string) : option JobResult := if decide (j = "res") then Some earned else None.

#[export] Instance earned_codec : ResultCodec earned_json earned_parse.
Proof.
  unfold earned_json, earned_parse. split; [|done]. intros r j. case_decide; [|done].
  intros [= <-]. by subst.
Qed.

Abbreviation earned_step :=
  (cluster_step (Srv := DemoServer) demo_encode demo_decode earned_json demo_consumer demo_env).
Abbreviation earned_rel :=
  (cluster_rel (Srv := DemoServer) demo_encode demo_decode earned_json demo_consumer demo_env).

Definition pool_silent (l : ClusterLabel) : bool :=
  match l with PoolAnswer _ _ => false | Enqueue u _ => bool_decide (u <> "") | _ => true end.

Lemma pool_silent_run answers ls s s' :
  forallb pool_silent ls = true -> run_labels earned_step ls s = Some s' -> rtc (earned_rel answers) s s'.
Proof.
  revert s. induction ls as [|l ls IH]; intros s; cbn [forallb run_labels]; [by intros _ [= ->]|].
  intros [Hl Hls]%andb_prop. destruct (earned_step l s) as [s1|] eqn:E; [|done]. intros Hs.
  eapply rtc_l; [|by apply IH]. exists l. split; [|exact E].
  destruct l; try done. by apply bool_decide_eq_true_1 in Hl.
Qed.

Definition to_running : list ClusterLabel :=
  [Enqueue "u" demo_job; CallStep 0; CallStep 0; CallStep 0; Fetch 0 false; Handle 0].

Definition from_start (ls : list ClusterLabel) : Cluster DemoServer :=
  default (demo_start 1) (run_labels earned_step ls (demo_start 1)).

(** The run of a pool that may answer [earned]. *)
Lemma earned_run (answers : JobRequest -> result string JobResult -> Prop) :
  answers demo_job (Ok earned) ->
  rtc (earned_rel answers) (demo_start 1) (from_start (to_running ++ [PoolAnswer 0 (Ok earned); Report 0])).
Proof.
  intros Ha. transitivity (from_start to_running).
  { apply (pool_silent_run _ to_running); vm_compute; reflexivity. }
  apply (rtc_l _ _ (from_start (to_running ++ [PoolAnswer 0 (Ok earned)]))).
  - exists (PoolAnswer 0 (Ok earned)). split; [|vm_compute; reflexivity].
    intros t Ht. assert (t_req t = demo_job) as ->; [|exact Ha].
    revert Ht. vm_compute. by intros [= <-].
  - apply (pool_silent_run _ [Report 0]); vm_compute; reflexivity.
Qed.

Lemma accepted_is_earned_witness :
  exists r uuid, r ∈ [demo_job] /\ job_id r = "j7" /\ passed demo_env as_demo (Pool.prepare demo_env uuid r).
Proof.
  refine (accepted_is_earned demo_encode demo_decode earned_json earned_parse demo_consumer demo_env as_demo
    empty_server 1 _ "j7" "res" earned _ (earned_run _ earned_judged) _ _ _).
  - split; [|done]. intros id. apply lookup_empty.
  - vm_compute. reflexivity.
  - vm_compute. reflexivity.
  - reflexivity.
Defined.
