(* ===== verification/Node.v ===== *)
(** * A worker node

    What one machine that judges jobs promises: its worker pool ([Pool]) with the
    execution pipeline ([Pipeline]) in it answers as the cluster expects ([EndToEnd]),
    and the admission gate ([Admission]) keeps the executions those jobs ask for within
    the memory budget. *)

From S2P Require Import Prelude Config Admission Languages Job Metrics Pipeline Typing Broker Consumer Handlers Pool Cluster Service EndToEnd.

Open Scope string_scope.
Open Scope list_scope.

(* ------------------------------------------------------------------ *)
(** ** The pool with the pipeline in it *)

Section Pool.
Context (env : Env).
Context (sandboxed : JobRequest -> (option nat -> SandboxConfig -> result string ExecutionResult) -> Prop).

(** What the pipeline may return for a request, as the pool's workers call it. *)
Inductive runs_pipeline (q : JobRequest) : result string JobResult -> Prop :=
  | Runs sandbox temp_dir write_error workspace cpus sched progress w :
      sandboxed q sandbox ->
      runs_pipeline q (snd (Pipeline.execute env sandbox temp_dir write_error workspace cpus sched progress q w)).

Lemma pool_error_judged r res : res ∈ pool_errors -> judges env sandboxed r res.
Proof.
  unfold pool_errors. rewrite !elem_of_cons, elem_of_nil.
  intros [->|[->|[->|[]]]]; [apply Refused|apply Closed|apply Abandoned].
Qed.

Lemma pipeline_judged r uuid res :
  runs_pipeline (Pool.prepare env uuid r) res -> judges env sandboxed r res.
Proof. intros H. inversion H. by apply Judged. Qed.

(** C19. The pool keeps the promise the cluster relies on.  In every reachable state of
    the pool, whatever submissions, dropped callers and panicking pipelines interleave,
    a reply that a caller of [submit] got is one the cluster's model of a pool allows:
    one of the pool's errors, or the result of running the pipeline on the prepared
    request of that caller - which bears the caller's job id, if it gave one. *)
Theorem pool_answers_judged num cpus s t x res :
  reachable env runs_pipeline num cpus s -> submissions s !! t = Some x -> phase x = Returned res ->
  judges env sandboxed (asked x) res /\
  (job_id (asked x) <> "" -> forall r, res = Ok r -> res_job_id r = job_id (asked x)).
Proof.
  intros Hr Hx Hp. assert (judges env sandboxed (asked x) res) as Hj.
  { destruct (reachable_ok env runs_pipeline num cpus s Hr) as (_ & _ & Hres).
    destruct (Hres t x res Hx Hp) as [He|He]; [by apply pool_error_judged|by eapply pipeline_judged]. }
  split; [exact Hj|]. intros Hn r ->. by apply (judges_answer env sandboxed (asked x) r Hn Hj).
Qed.
End Pool.

(* ------------------------------------------------------------------ *)
(** ** The gate with the jobs' executions *)

Section Memory.
Context (env : Env).
Context {Sem : Type} {ops : Semaphore Sem} {laws : SemaphoreLaws Sem}.

(** A configuration that some job, given to the pool, asks the sandbox for. *)
Definition asked_by_job (cfg : SandboxConfig) : Prop :=
  exists r uuid sandbox temp_dir write_error workspace cpus sched progress w,
    request_typed r /\ prepared w = [] /\
    cfg ∈ prepared (fst (Pipeline.execute env sandbox temp_dir write_error workspace cpus sched progress
                           (Pool.prepare env uuid r) w)).

(** The gate when what arrives are executions of jobs. *)
Definition node_gate (g g' : Gate (Sem := Sem)) : Prop :=
  exists l, gate_step env l g = Some g' /\
    match l with
    | Arrive e => exists cfg, asked_by_job cfg /\ exec_mem e = memory_limit_bytes cfg
    | _ => True
    end.

Lemma prepare_typed uuid r : request_typed r -> request_typed (Pool.prepare env uuid r).
Proof.
  intros (Ht & Hm & Hr). split; [exact Ht|]. split; [|exact Hr]. cbn.
  pose proof (env_bytes_u64 env "JUDGE_MAX_MEMORY_BYTES" DEFAULT_MAX_JOB_BYTES ltac:(done)) as H.
  by destruct (_ >? _).
Qed.

Lemma prepare_memory uuid r : req_memory_limit_bytes (Pool.prepare env uuid r) <= max_job_memory_bytes env.
Proof. cbn. destruct (Z.gtb_spec (req_memory_limit_bytes r) (max_job_memory_bytes env)); lia. Qed.

(** The larger of the two ceilings of the deployment. *)
Definition memory_ceiling : Z := Z.max (max_job_memory_bytes env) (Z.min (512 * MiB) (compile_memory_bytes env)).

Lemma asked_memory cfg : asked_by_job cfg -> 0 <= memory_limit_bytes cfg <= memory_ceiling.
Proof.
  intros (r & uuid & sandbox & td & we & ws & cpus & sched & progress & w & Hr & Hw & Hc).
  split.
  - destruct (prepared_typed env sandbox td we ws progress _ cpus sched w cfg (prepare_typed uuid r Hr) Hc)
      as [H|H]; [rewrite Hw in H; by apply elem_of_nil in H|]. destruct H. unfold u64 in *. lia.
  - unfold memory_ceiling.
    destruct (prepared_configs env sandbox td we ws progress _ cpus sched w cfg Hc)
      as [H|(dir & _ & [H|(i & tc & _ & H)])]; [rewrite Hw in H; by apply elem_of_nil in H|..].
    + pose proof (b_memory _ _ _ H). lia.
    + rewrite (h_memory _ _ _ _ _ H). pose proof (prepare_memory uuid r). lia.
Qed.

Lemma node_gate_small g g' :
  memory_ceiling <= total_units env * BASE_UNIT_BYTES -> node_gate g g' -> gate_rel_small env g g'.
Proof.
  intros Hc (l & Hl & He). exists l. split; [done|]. destruct l as [e| | |]; try done.
  destruct He as (cfg & Hcfg & Hm). pose proof (asked_memory cfg Hcfg). unfold small. rewrite Hm. lia.
Qed.

(** C12. A node stays within its memory budget.  If the deployment's ceilings for jobs
    and for compilations are within the budget, the memory limits of everything that
    runs on the node at one time - test cases and compilers of any number of jobs with
    any limits in their requests, arriving, admitted, ending and abandoned in any
    order - together stay within the budget. *)
Theorem node_memory_bounded (g : Gate (Sem := Sem)) :
  memory_ceiling <= total_units env * BASE_UNIT_BYTES -> total_units env < 2 ^ 32 ->
  rtc node_gate (gate_init env) g ->
  memory g <= total_units env * BASE_UNIT_BYTES.
Proof.
  intros Hc Ht Hr. apply (small_gate_bounded env (laws := laws) g Ht).
  clear -Hc Hr laws. induction Hr as [|g g1 g2 H _ IH]; [done|].
  eapply rtc_l; [by apply node_gate_small|exact IH].
Qed.
End Memory.

(* ------------------------------------------------------------------ *)
(** ** Witnesses: the default deployment *)

(** The pool of one worker serves the job of [one_job]. *)
Definition to_work : list PoolLabel :=
  [Submit demo_job "u"; Count 0; Send 0; Take 0; Dequeue 0; Pool.Start 0].

Definition pool_after (ls : list PoolLabel) : JudgeWorkerPool :=
  let s := pool_new demo_env (Some 1%nat) None in default s (run_labels (pool_step demo_env) ls s).

Lemma earned_runs : runs_pipeline demo_env as_demo (Pool.prepare demo_env "u" demo_job) (Ok earned).
Proof.
  assert (snd (Pipeline.execute demo_env frugal (Ok "/tmp/x") None (DirNode []) (Some 2%positive) youngest false
                 (Pool.prepare demo_env "u" demo_job) demo_world) = Ok earned) as <- by (vm_compute; reflexivity).
  by apply Runs.
Qed.


Lemma demo_pool_reachable :
  reachable demo_env (runs_pipeline demo_env as_demo) (Some 1%nat) None
    (pool_after (to_work ++ [Pool.Finish 0 (Ok earned)])).
Proof.
  eapply rtc_r with (pool_after to_work).
  - apply labels_reachable with to_work; [|by vm_compute].
    intros l Hl. assert (Forall (fun l => match l with Pool.Finish _ _ => False | _ => True end) to_work) as H
      by (unfold to_work; repeat constructor).
    by apply (proj1 (Forall_forall _ _) H).
  - exists (Pool.Finish 0 (Ok earned)). split; [|by vm_compute].
    intros e He. assert (request e = Pool.prepare demo_env "u" demo_job) as ->; [|exact earned_runs].
    revert He. vm_compute. by intros [= <-].
Qed.

Lemma pool_answers_judged_witness : judges demo_env as_demo demo_job (Ok earned).
Proof.
  refine (proj1 (pool_answers_judged demo_env as_demo (Some 1%nat) None
    (pool_after (to_work ++ [Pool.Finish 0 (Ok earned)])) 0
    (MkSubmission demo_job "u" (Returned (Ok earned))) (Ok earned) demo_pool_reachable _ eq_refl)).
  vm_compute. reflexivity.
Defined.

Import Counter.

Definition small_job : JobRequest := MkRequest "j" "python" "source" 1000 MiB [MkTest "" None] None.

Definition small_config : SandboxConfig := run_config demo_env (get_runner Python) "/tmp/x"
  (sandbox_bin_path (get_runner Python)) (Pool.prepare demo_env "u" small_job) (MkTest "" None).

Lemma small_asked : asked_by_job demo_env small_config.
Proof.
  exists small_job, "u", frugal, (Ok "/tmp/x"), None, (DirNode []), (Some 2%positive), youngest, false, demo_world.
  split; [by vm_compute|]. split; [reflexivity|].
  assert (prepared (fst (Pipeline.execute demo_env frugal (Ok "/tmp/x") None (DirNode []) (Some 2%positive)
            youngest false (Pool.prepare demo_env "u" small_job) demo_world)) = [small_config]) as ->
    by (vm_compute; reflexivity).
  by left.
Qed.

Lemma node_memory_bounded_witness :
  exists g : Gate (Sem := Z), length (running g) = 1%nat /\ memory g <= 768 * MiB.
Proof.
  exists (MkGate 2 [] [MkExecution 1 MiB]). split; [reflexivity|].
  apply (node_memory_bounded demo_env (MkGate 2 [] [MkExecution 1 MiB])); [vm_compute; discriminate|vm_compute; reflexivity|].
  eapply rtc_l; [exists (Arrive (MkExecution 1 MiB)); split; [reflexivity|by exists small_config; split; [exact small_asked|]]|].
  eapply rtc_l; [exists Admit; split; [reflexivity|exact I]|]. apply rtc_refl.
Defined.
