(* ===== verification/Evidence.v ===== *)
(** * Evidence

    The cluster, the worker pool, the pipeline and the sandbox together: what an
    [Accepted] result that a client reads from Redis means for the processes that ran.
    The sandbox the pipeline asks is [Sandbox::execute] of [SandboxExec], on any kernel,
    with whatever its supervision and its pipes observe. *)

From S2P Require Import Prelude Config Admission Languages Job Metrics Pipeline Os Cgroups Child Reaper Supervisor SandboxExec Broker Consumer Handlers Pool Cluster Service Delivery EndToEnd.

Open Scope string_scope.
Open Scope list_scope.

Section Evidence.
Context {W : WaitStatus}.

(** The answers of a sandbox are those of [Sandbox::execute]: for each, some kernel,
    history, observations and fuel. *)
Definition executes_really (sandbox : option nat -> SandboxConfig -> result string ExecutionResult) : Prop :=
  forall o cfg er, sandbox o cfg = Ok er ->
    exists jail_uuid cgroup_uuid passes out_drain err_drain fuel k h h',
      SandboxExec.execute jail_uuid cgroup_uuid passes out_drain err_drain fuel cfg k h = (h', Ok er).

(** The process of one execution that ended well: [cfg] was its configuration, [er] its
    result.  The limits were written into its cgroup, then it was forked and attached;
    the reaper delivered a normal exit with code 0; its process tree was signalled; and
    what is reported as its output was read from its pipe, below the limit. *)
Definition ended_well (cfg : SandboxConfig) (er : ExecutionResult) : Prop :=
  exists cgroup_uuid (passes : nat -> Pass) out_drain (k : Kernel) h t1 t2 pid i e,
    (exists jail_uuid err_drain fuel,
       SandboxExec.execute jail_uuid cgroup_uuid passes out_drain err_drain fuel cfg k h =
         (h ++ t1 ++ t2, Ok er)) /\
    attached (path_join CGROUP_ROOT cgroup_uuid) pid t1 /\
    mandatory (path_join CGROUP_ROOT cgroup_uuid) cfg ++
      [WriteAll (path_join (path_join CGROUP_ROOT cgroup_uuid) "cgroup.procs") (show_Z pid)]
      `sublist_of` ok_calls t1 /\
    killed pid t2 /\
    poll (passes i) = Some e /\ WIFEXITED (fst e) = true /\ WEXITSTATUS (fst e) = 0 /\
    stdout er = drained (max_output_bytes cfg) out_drain /\
    Z.of_nat (length (stdout er)) < max_output_bytes cfg.

(** Between [fork] and [exec] a child of [cfg] runs nothing unconfined, whatever its
    kernel replies. *)
Definition child_is_confined (cfg : SandboxConfig) : Prop :=
  forall plat jail_uuid uuid pipes k h, exists t,
    fst (setup_child_process plat uuid (with_jail jail_uuid cfg) pipes k h) = h ++ t /\
    confined_exec plat uuid (with_jail jail_uuid cfg) t.

Lemma with_jail_isolated u cfg : isolated cfg -> isolated (with_jail u cfg).
Proof. destruct (with_jail_cases u cfg) as [-> | ->]; [done|]. by destruct cfg. Qed.

Lemma isolated_confined cfg : isolated cfg -> child_is_confined cfg.
Proof. intros Hi plat u uuid p k h. by apply child_confined, with_jail_isolated. Qed.

(** The exit a supervision ends with was delivered by the reaper, or is the [SIGKILL]
    it assumes when the grace period is over. *)
Lemma plan_source config passes fuel i g j e :
  plan config passes fuel i g = Some (j, e) -> poll (passes j) = Some e \/ e = (SIGKILL, zero_rusage).
Proof.
  revert i g. induction fuel as [|fuel IH]; intros i g; [done|]. cbn [plan].
  destruct (poll (passes i)) as [e'|] eqn:Hp; [intros [= <- <-]; by left|].
  destruct g as [d|]; [|destruct (past_deadline config passes i)]; cbn zeta.
  - case_match; [intros [= <- <-]; by right|apply IH].
  - case_match; [intros [= <- <-]; by right|apply IH].
  - apply IH.
Qed.

Context {L : WaitLaws}.

Lemma classified_ok config oom st wall cpu mem :
  classify config oom st wall cpu mem = StOk -> WIFEXITED st = true /\ WEXITSTATUS st = 0.
Proof.
  unfold classify. destruct oom; [done|]. destruct (WIFEXITED st).
  - destruct (Z.eqb_spec (WEXITSTATUS st) 0); [done|by intros [=]].
  - destruct (WIFSIGNALED st); [|by intros [=]]. repeat case_match; by intros [=].
Qed.

Lemma killed_not_exited : WIFEXITED SIGKILL = false.
Proof. by destruct (wait_signaled SIGKILL false ltac:(unfold SIGKILL; lia)) as (H & _). Qed.

Lemma finished_ok config out err r :
  Config.status (finish config out err r) = StOk ->
  Config.status r = StOk /\ Z.of_nat (length out) < max_output_bytes config.
Proof.
  intros H. destruct (Z.ltb_spec (Z.of_nat (length out)) (max_output_bytes config)) as [Hl|Hl].
  - by rewrite finish_status in H by done.
  - destruct (finish_bounds config out err r) as (_ & _ & Ho). by rewrite Ho in H.
Qed.

(** An execution with status [Ok] ended well. *)
Lemma ok_ended_well ju cu passes od ed fuel cfg k h h' er :
  SandboxExec.execute ju cu passes od ed fuel cfg k h = (h', Ok er) -> Config.status er = StOk ->
  ended_well cfg er.
Proof.
  intros E Hok. destruct (completed_execution _ _ _ _ _ _ _ _ _ _ _ E)
    as (t1 & t2 & cg & pid & r & h2 & -> & Ha & Hm & Hk & Hs & Her).
  rewrite Her in Hok. destruct (finished_ok _ _ _ _ Hok) as [Hst Hlen].
  destruct (supervise_plan (with_jail ju cfg) pid (Some cg) passes (E := SandboxError) fuel k (h ++ t1))
    as (t & o & Hs' & Hp).
  rewrite Hs in Hs'. injection Hs' as _ <-.
  destruct (plan _ _ _ _ _) as [[i e]|] eqn:Hplan; [|done]. destruct Hp as (stats & [= ->] & _ & _).
  apply classified_ok in Hst as [Hex Hcode].
  exists cu, passes, od, k, h, t1, t2, pid, i, e. split_and!.
  - by exists ju, ed, fuel.
  - done.
  - by rewrite <- (with_jail_mandatory ju).
  - done.
  - destruct (plan_source _ _ _ _ _ _ _ Hplan) as [?| ->]; [done|].
    cbn [fst] in Hex. by rewrite killed_not_exited in Hex.
  - done.
  - done.
  - rewrite Her. destruct (finish_bounds (with_jail ju cfg) (drained (max_output_bytes (with_jail ju cfg)) od)
              (drained (max_output_bytes (with_jail ju cfg)) ed)
              (result_of (with_jail ju cfg) stats (millis (built (passes i))) e.1 e.2)) as (-> & _).
    by rewrite with_jail_output.
  - rewrite Her. destruct (finish_bounds (with_jail ju cfg) (drained (max_output_bytes (with_jail ju cfg)) od)
              (drained (max_output_bytes (with_jail ju cfg)) ed)
              (result_of (with_jail ju cfg) stats (millis (built (passes i))) e.1 e.2)) as (-> & _).
    by rewrite with_jail_output in *.
Qed.
End Evidence.

(* ------------------------------------------------------------------ *)
(** ** Properties *)

Section Cluster.
Context {W : WaitStatus} {L : WaitLaws}.
Context {Srv : Type} `{HS : RedisServer Srv}.
Context (encode_request : JobRequest -> option string) (decode_request : string -> option JobRequest).
Context (encode_result : JobResult -> option string) (decode_result : string -> option JobResult).
Context (c : RedisConsumer) (env : Env).
Context `{!RedisLaws Srv c env, !Codec encode_request decode_request, !ResultCodec encode_result decode_result}.

(** A worker pool whose pipeline asks the real sandbox. *)
Definition really_judges : JobRequest -> result string JobResult -> Prop :=
  judges env (fun _ sandbox => executes_really sandbox).

(** Test case [tc] of [r], whose source lies in [dir], was run and passed. *)
Definition passed_really (r : JobRequest) (runner : LanguageRunner) (dir : string) (tc : TestCase) : Prop :=
  exists er, let cfg := test_config env r runner dir tc in
    hardened env r dir tc cfg /\ child_is_confined cfg /\ ended_well cfg er /\
    (0 < req_memory_limit_bytes r / 1024 -> memory_kb er <= req_memory_limit_bytes r / 1024) /\
    (forall e, expected_output tc = Some e -> trim_bytes (stdout er) = trim_bytes (as_bytes e)).

(** The source of [r] was compiled, if its language is: the compiler, bounded, exited
    with code 0. *)
Definition compiled_really (runner : LanguageRunner) (dir : string) : Prop :=
  is_compiled runner = true -> exists cfg er, compile_bounded env dir cfg /\ ended_well cfg er.

Lemma test_passed_really sandbox r runner `{RunnerOk runner} dir i tc er :
  executes_really sandbox -> test_ran env sandbox r runner dir i tc er -> judged r tc er = Accepted ->
  passed_really r runner dir tc.
Proof.
  intros Hx Hr (Hok & Hmem & Hout)%judge_accepted. exists er. cbv zeta.
  pose proof (run_config_hardened env r runner dir (sandbox_bin_path runner) tc) as Hh.
  destruct (Hx _ _ _ Hr) as (ju & cu & passes & od & ed & fuel & k & h & h' & E).
  split_and!; [exact Hh|apply isolated_confined, (h_isolated _ _ _ _ _ Hh)|by eapply ok_ended_well|done|done].
Qed.

Lemma compile_passed_really sandbox runner `{RunnerOk runner} dir :
  executes_really sandbox -> compiles env sandbox runner dir -> compiled_really runner dir.
Proof.
  intros Hx Hc Hi. destruct (Hc Hi) as (cc & er & Hg & Hr & Hok).
  destruct (Hx _ _ _ Hr) as (ju & cu & passes & od & ed & fuel & k & h & h' & E).
  exists (compile_config env dir cc), er. split; [by eapply compile_config_bounded|by eapply ok_ended_well].
Qed.

(** C1. What an accepted job is worth, from the client down to the kernel.  If a client
    ever reads an [Accepted] result under an id, then some gateway was given a request
    with that id, and every test case of it was really run: in full isolation with the
    limits of the request (the memory limit clamped by the worker), its limits written
    into a cgroup before the forked child was attached to it, the child executing
    nothing unconfined on any kernel, ending - as the reaper delivered it - with exit
    code 0 and not for memory, its process tree signalled afterwards, its memory
    within the limit, and what was read from its pipe, complete below the output limit,
    equal to the expected output up to outer white space.  A compiled language's
    compiler exited with code 0 before.  This holds through enqueueing, the stream,
    fetching or reclaiming, the worker pool, the concurrent execution of the test
    cases, reporting and retries, in any interleaving and with any failures. *)
Theorem accepted_ran sv n s id j res :
  blank sv ->
  rtc (cluster_rel encode_request decode_request encode_result c env really_judges) (cluster_init c sv n) s ->
  value (server s) (result_key id) = Some j -> decode_result j = Some res -> verdict res = Accepted ->
  exists r uuid lang dir, r ∈ map c_req (calls s) /\ job_id r = id /\ from_str (req_language r) = Some lang /\
    compiled_really (get_runner lang) dir /\
    forall tc, tc ∈ test_cases r -> passed_really (Pool.prepare env uuid r) (get_runner lang) dir tc.
Proof.
  intros Hb Hr Hv Hj Hacc.
  destruct (accepted_is_earned encode_request decode_request encode_result decode_result c env
              (fun _ => executes_really) sv n s id j res Hb Hr Hv Hj Hacc)
    as (r & uuid & Hin & Hid & sandbox & dir & lang & Hx & Hl & Hc & Ht).
  exists r, uuid, lang, dir. pose proof (runner_instance lang) as Hok.
  split_and!; [done|done|done|by eapply compile_passed_really|].
  intros tc [i Hi]%list_elem_of_lookup_1. destruct (Ht i tc Hi) as (er & Hran & Hjudged).
  by eapply test_passed_really.
Qed.
End Cluster.

(* ------------------------------------------------------------------ *)
(** ** Witness: the job of [one_job], its process ending well in the third pass *)

Import Linux.

Definition ends (i : nat) : Pass :=
  let ns := Z.of_nat i * 5000000 in
  MkPass (if (i =? 2)%nat then Some (0, MkRusage 0 5000 0 0 1) else None) ns ns ns.

Definition kernel_sandbox (o : option nat) (cfg : SandboxConfig) : result string ExecutionResult :=
  map_err (fun _ => "failed") (snd (SandboxExec.execute "j1" "u1" ends no_bytes no_bytes 5 cfg willing [])).

Lemma kernel_executes : executes_really kernel_sandbox.
Proof.
  intros o cfg er H. exists "j1", "u1", ends, no_bytes, no_bytes, 5%nat, willing, [].
  unfold kernel_sandbox in H. destruct (SandboxExec.execute _ _ _ _ _ _ _ _ _) as [h' [r|e]]; [|done].
  injection H as <-. by exists h'.
Qed.

Lemma earned_really : really_judges demo_env demo_job (Ok earned).
Proof.
  assert (snd (Pipeline.execute demo_env kernel_sandbox (Ok "/tmp/x") None (DirNode []) (Some 2%positive) youngest false
                 (Pool.prepare demo_env "u" demo_job) demo_world) = Ok earned) as <- by (vm_compute; reflexivity).
  apply Judged. exact kernel_executes.
Qed.

Lemma accepted_ran_witness :
  exists r uuid lang dir, r ∈ [demo_job] /\ job_id r = "j7" /\ from_str (req_language r) = Some lang /\
    forall tc, tc ∈ test_cases r -> passed_really demo_env (Pool.prepare demo_env uuid r) (get_runner lang) dir tc.
Proof.
  destruct (accepted_ran demo_encode demo_decode earned_json earned_parse demo_consumer demo_env
    empty_server 1 _ "j7" "res" earned blank_empty (earned_run _ earned_really)) as (r & uuid & lang & dir & Hin & Hid & Hl & _ & Ht).
  - vm_compute. reflexivity.
  - vm_compute. reflexivity.
  - reflexivity.
  - exists r, uuid, lang, dir. split; [exact Hin|]. split; [exact Hid|]. split; [exact Hl|exact Ht].
Defined.
